(* ===== verification/_CoqProject ===== *)
-Q . S2P
Prelude.v
Time.v
Double.v
TimeDouble.v
PriorityQueue.v
Store.v
TaskRunner.v
Worker.v
WorkerKeys.v
WorkerLoop.v
ThreadWorker.v
ThreadNames.v
LoopWorkerAndroid.v
LoopWorkerIos.v
Turns.v
GracefulExit.v
WorkerManager.v
Resizing.v
ThreadSafeQueue.v
SpscQueue.v
Threads.v
MpmcQueue.v
MpmcReplay.v
MpmcConcurrent.v
Platform.v
TaggedPointer.v
MpmcList.v
MpmcListSpsc.v
ThreadPool.v
Base64.v
UnicodeStringView.v
StringTyping.v
Printing.v
Logging.v
Timer.v
EndToEnd.v
TimerLoop.v
RepeatingLoop.v
RestartLoop.v
IdleLoop.v
