(* ===== verification/Prelude.v ===== *)
(** * Footstone: a verification library for the task-runner core

    Footstone is a C++ library of threads that run tasks.  A caller posts
    tasks to a [TaskRunner]; a [WorkerManager] places task runners on
    [Worker]s; a worker owns a platform thread on which it repeatedly picks
    the most deserving group of runners and runs one task of it.  Timers,
    bounded queues, a plain thread pool, Base64, a string of several encodings
    and logging come with it.  This development models those parts as
    executable definitions and proves what they guarantee; where the code does
    something it does not mean to, the theorem says exactly what it does.

    ** Parts of the program and files of the development

    Sources are under [src/include/footstone/] (.h), [src/src/footstone/]
    (.cc) and [src/src/platform/].  Definitions keep the names of the
    functions they translate and record fields those of the members, with a
    prefix per class ([tr_], [w_], [wm_], [tms_]).

    - Prelude.v: outcomes, the state-and-fault monad and its notation, machine
      integers ([wrap_u], [i64], ...), lists, the hint database
      [footstone] and the tactics every file uses.
    - Time.v ([time_delta.h], [time_point.h]): a [TimeDelta] or [TimePoint] is
      its count of nanoseconds, a [Z]; arithmetic faults when it overflows.
    - Double.v, TimeDouble.v ([time_delta.h]): IEEE 754 doubles with the error
      bounds of their operations, and the conversions of [TimeDelta] over
      them.
    - PriorityQueue.v: what [std::priority_queue] promises, as a class with
      laws; the order of equal deadlines is not part of it.
    - Store.v ([task.h], [idle_task.h], the fields of [task_runner.h] and
      [worker.h]): the world.  [World Q] holds the heap of runners, the heap
      of workers, the thread-locals of each worker's thread, the process-wide
      counters, the position of the clock and the log of calls that leave the
      library.  [WorkerBackend] is the interface of the virtual [Notify] and
      [WaitFor].
    - TaskRunner.v ([task_runner.cc]): the immediate, delayed and idle queues.
    - Worker.v ([worker.cc]): running and pending groups: binding, unbinding,
      balancing, sorting, handing over.
    - WorkerKeys.v ([worker.cc], [task_runner.cc]): runner-local storage.
    - WorkerLoop.v ([worker.cc], [worker_manager.cc], [task_runner.cc]):
      [GetNextTask], [RunTask], sub-runners and the library's own tasks.
    - ThreadWorker.v ([thread_worker.cc], [adr/loop_worker_impl.cc]): the two
      backends, [Run], [Terminate], and the lock-level hand-shake between a
      waiting worker, a terminating manager and a poster.  ThreadNames.v
      ([platform/*/thread_worker_impl.cc]): naming the thread, per platform.
    - LoopWorkerAndroid.v, LoopWorkerIos.v ([adr/loop_worker_impl.cc],
      [ios/loop_worker_impl.cc]): registration with the looper; the worker on
      a Core Foundation run loop and the timer it creates and disposes of.
    - Turns.v: what one turn of a worker ([RunTask]) does to the tasks of the
      whole heap: none is lost or made up, every runner keeps its order, and a
      turn runs at most one task.  GracefulExit.v, on top of it, follows the
      graceful loop of a terminated thread worker to its end; nothing in the
      repository selects that loop ([is_exit_immediately_] is always true).
    - WorkerManager.v ([worker_manager.cc]): creating, placing and removing
      runners, growing and shrinking the pool.  Resizing.v follows the groups
      of a pool across its workers when the pool shrinks or grows.
    - ThreadSafeQueue.v, SpscQueue.v, MpmcQueue.v ([thread_safe_queue.h],
      [spsc_queue.h], [mpmc_queue.h]): three bounded queues that implement the
      interface [BoundedQueue]; the two lock-free ones also as interleavings
      of their atomic accesses.  MpmcConcurrent.v proves the multi-producer
      ring correct under every schedule of its first lap; MpmcReplay.v
      follows it into the second one.
    - Threads.v: threads that call the operations of a shared object whose
      calls run in atomic steps, under any schedule.
    - Platform.v ([build_config.h], [macros.h]): the preprocessor's choices
      as a function of the macros the compiler predefines; the macros that
      forbid copying and check conversions.
    - TaggedPointer.v, MpmcList.v ([mpmc_list.h]): the tagged pointers; the
      pool of nodes and the linked queue built on them.  MpmcListSpsc.v: the
      linked queue under every schedule of one producer and one consumer.
    - ThreadPool.v ([thread_pool.h]): the pool as a step relation.
    - Base64.v ([base64.cc]), UnicodeStringView.v ([unicode_string_view.cc]),
      StringTyping.v (programs that use its objects), Printing.v (a string
      written to a stream, [logging.h]), Logging.v ([logging.h],
      [log_settings.cc], [platform/*/logging.cc]; a Module per platform, and
      the macros).
    - Timer.v ([base_timer.cc], [one_shot_timer.cc], [repeating_timer.cc],
      [idle_timer.cc]): timers, objects of a heap of their own next to the
      world.
    - EndToEnd.v: a client's program over the whole core: the manager is
      built, runners are created, tasks posted, workers take turns, and the
      tasks post further tasks.  TimerLoop.v adds a timer to it: [RunTask]
      over the world and the timers, and a one-shot timer from its start
      through the turns of the workers to its user's task.  On top of it,
      RepeatingLoop.v follows a repeating timer, RestartLoop.v a timer that
      is started again and IdleLoop.v an idle timer.

    How they interact: [TaskRunner] operations that post call [Notify] on the
    worker they are bound to; [WorkerLoop] calls the group operations of
    Worker.v on the worker's fields and [TaskRunner.GetNext] on the runner on
    top of the chosen group; the tasks it runs may be the library's own
    ([Closure]: migration of storage, timers, idle entries), which run by
    calling back into those files; [WorkerManager] moves groups between
    workers and posts the migration tasks; [Timer] posts to runners.

    ** How the model reads the code

    - A call that returns is [Ok]; undefined behaviour and [abort()] are
      [Fault] with a reason.  Integers are [Z]: an unsigned result is wrapped
      ([wrap_u w]), a signed one outside its type is [SignedOverflow].
    - A [shared_ptr] is a pointer into a heap of the world, so aliasing
      between groups, thread-locals and callers is that of the program; a
      [weak_ptr] locks when the heap still has the object.  Iterators that
      the code invalidates or runs past the end are faults.
    - A method guarded by one mutex is one step of [M Q], its critical
      sections in the order of the code.  Where an interleaving between
      critical sections matters it is modelled as a step relation of its own:
      ThreadWorker.Handshake, ThreadPool, SpscQueue.Interleaving,
      MpmcQueue.MpmcThreads, MpmcConcurrent, MpmcReplay, MpmcList,
      MpmcListSpsc.  Atomic accesses are sequentially consistent.  In EndToEnd.v, TimerLoop.v,
      RepeatingLoop.v, RestartLoop.v and IdleLoop.v a post, a turn, a reset and
      a stop are one step each and steps come in any order.
    - The constructors of [tagged] are explicit but used implicitly, so [pool]
      and [mpmc_list] cannot be instantiated as they stand; MpmcList.v models
      them as if those constructors were implicit.  LoopWorkerIos.v likewise
      models a file whose class is declared under another name.
    - Parameters: the clock ([nat -> Z], the n-th reading of
      [steady_clock]), user callbacks ([Callbacks]; [run_user], [run_idle] in
      Timer.v), the priority queue, the platform ([WorkerBackend],
      [platform]), the hash functions of strings, the outcome of
      [ALooper_pollOnce] and of [CFRunLoopRunInMode], the size of a pointer and
      the id of the thread on Windows (ThreadNames.v), what Core Foundation
      returns for its main loop and a new timer, the macros the compiler and
      the system headers predefine (Platform.v), the bytes a value reads
      as ([rep] in MpmcList.v), what [std::codecvt_utf8_utf16] does where the
      standard does not say.  Build modes are the argument [debug].

    ** What is proved

    - The whole core: under any program of a client and any order of turns,
      every task runs exactly once or is still queued, tasks posted to one
      runner without delay run in the order of their posting, and nothing
      faults ([client_exactly_once]); the runners of these clients are
      schedulable and have the default group id; turns that are not idle make progress,
      so that finite work is finished ([client_drains]).  A one-shot timer of
      such a client fires at most once and never before the time promised by
      its start and its resets ([timer_fires_in_time]), the resets being made
      while it runs and before the time it was scheduled for ([timed_tested]);
      unless it is stopped
      it fires ([timer_fires]); once stopped it never does
      ([timer_stop_is_final]).  A repeating timer of such a client runs for the
      n-th time no earlier than n periods after its start, with one task
      waiting at any time ([repeating_timer_period]); it goes on until it is
      stopped ([repeating_timer_beats], [repeating_timer_stop]).  An idle timer
      with a timeout does what a one-shot timer does, whose argument it shares
      (TimerLoop.Single): its body runs at most once and not before the
      timeout ([idle_timer_fires_in_time]), and it does run
      ([idle_timer_fires]); the idle task that was posted for it is dropped.
    - Task runners: [GetNext_spec] (the due delayed tasks join the end of
      the immediate queue in the order of their deadlines, the front of that
      queue is returned and nothing is lost),
      [GetNext_total] (it returns), [GetNext_delivers_all] (calling it again
      and again hands over every task), [Clear_spec],
      [GetTopDelayTask_blocks_GetNext].
    - Groups: [groups_invariant] is kept by every operation; functional
      specifications of [BalanceNoLock], [SortNoLock] (a stable sort),
      [BindGroup], [UnBind] and [RetainActiveAndUnschedulable].
    - The loop: [GetNextTask_picks_lightest], [GetNextTask_safe],
      [RunTask_charges_group], [migration_moves_storage] and the behaviour of
      live and terminated workers ([GetNextTask_live_never_waits],
      [GetNextTask_drops_idle]), [GetTimeRemaining_sign].  Were
      [is_exit_immediately_] ever cleared, an exit would end after running
      every task that may run, due delayed tasks and idle tasks included
      ([graceful_exit_runs_all]).
    - Placement: [same_group_same_worker], [placement_never_rotates],
      [shrink_never_terminates], [shrink_keeps_groups],
      [RemoveTaskRunner_breaks_worker]; a pool that grows keeps every group
      when some worker runs one and drops all of them when none does
      ([grow_keeps_or_drops]).
    - Queues: each sequential queue refines the reference queue of
      ThreadSafeQueue.v (a list and a capacity); [spsc_concurrent_fifo] for
      every interleaving of one producer and one consumer;
      [mpmc_concurrent_fifo] for any number of threads, as long as the last
      two cells of the ring are not claimed, and [mpmc_delivers_twice]: for
      every width and capacity a schedule of one producer and one consumer
      reaches the last cell, whose value is delivered again a lap later.
      The linked queue refines an unbounded list ([mpmc_list_refines_fifo])
      and leaks its nodes ([mpmc_list_leaks]); it is a queue under every
      schedule of one producer and one consumer ([list_spsc_fifo]), and under
      a schedule of three threads a pop misses a completed push
      ([list_pop_misses_pushed]).
    - Threads: [ThreadPool_runs_all], [ThreadPool_never_stuck],
      [Worker_Terminate_spec], [TerminateWorker_no_lost_wakeup],
      [PostTask_wakeup_can_be_lost].
    - Timers: when each kind fires ([OneShotTimer_fires_once],
      [Reset_defers], [RepeatingTimer_restart_doubles],
      [IdleTimer_can_run_twice]); a reset that comes too late makes the timer
      fire too early ([late_Reset_fires_early]), one that comes after the
      timer fired crashes ([Reset_without_task_crashes]); a timer that fired
      and is started again before its scheduled time has passed is running but
      posts no task, and only a reset after that time does ([restart_lost]); a one-shot timer may be started again by
      its own task, while an idle timer's body cannot do so
      ([restart_in_body]).
    - Data: [Decode_Encode], [Encode_spec] (RFC 4648), [Timespec_roundtrip],
      [SecondsF_roundtrip] (through [double] and back, at most one nanosecond
      is lost), [usv_order], [assign_string_spec], [print_roundtrip] (what is
      printed is the UTF-8 of the string), [LogMessage_label], [vlog_label],
      [check_aborts], [debug_macros] (what release builds leave out),
      [copies_agree], [SetName_names] and [RaiseException_reads] (the platforms'
      copies), [tagged_aba_window].  [build_config_spec]: on a known
      target exactly one platform and one word size are defined, on any other
      the build stops.  [usv_programs_sound]: a static discipline under
      which no program misuses the union of [unicode_string_view] or leaks a
      string, by constructing another over it or by not destroying it.

    ** Fuel and bounds

    - [GetNext] loops at most once per delayed entry: fuel is one more than
      the size of the queue ([GetNext_total]); [Clear] likewise.  [Encode] and
      [Decode] take the input's length plus one ([Encode_spec],
      [Decode_Encode]); [RetainActiveAndUnschedulable] the number of groups
      plus one; a worker's destructor and the first loop of a shrinking
      [Balance] the number of entries plus one.  [mpmc_fuel] is 16 steps; a
      push or pop alone takes fewer ([mpmc_refines_fifo]).
      [push_until_success] needs 1 ([push_until_success_spec]).
      [list_fuel] is 10 steps, enough for every call of the linked queue
      running alone ([mpmc_list_refines_fifo]); its destructor takes the number
      of nodes ([mpmc_list_leaks]).  A graceful [RunLoop] takes one turn per
      queued task and one more ([backlog], [graceful_exit_runs_all]).  [client_drains]
      counts the turns a finite client needs by the cost of its queued tasks:
      each task costs one turn and what it posts; [timer_fires],
      [repeating_timer_beats] and [idle_timer_fires] likewise.
    - Loops that the outside world ends have a free fuel argument and no
      claim that they end: a [RunLoop] that exits at once, the nested loop of
      [AddSubTaskRunner], [consume_all] (its callback may push for ever:
      [consume_all_feedback_diverges]), [tagged_exchange].
    - EndToEnd.v bounds the priorities by [P] and the clock by [C] with
      [P * C] within 64 bits, so that no sort weight overflows.
    - [SortNoLock] and [GetNextTask] are about times and priorities whose
      product fits 64 bits; timers about clocks and delays up to [2^61]
      nanoseconds (73 years); SpscQueue.v about index types of [w < 32] bits.

    ** What is not modelled

    [ThreadPool::Enqueue]'s futures (a wrapper of the standard library);
    what the system does with a thread's name; [profile.h] and [thread.h],
    which declare what nothing defines;
    [basic_types.h], an enumeration that nothing uses; [third_party].  Memory
    orders weaker than sequential consistency are not modelled either.

    ** Plan

    Modelled in this order: time and queues, groups, the loop, storage,
    backends, the manager, bounded queues, pool, data, timers, the linked
    queue, the exit of a worker, doubles, printing, the multi-producer ring
    under every schedule, the platform, the linked queue under every schedule
    of one producer and one consumer, a growing pool, the client of the whole
    core, a one-shot timer of that client, a repeating timer, a timer started
    again, logging and thread naming per platform, an idle timer of the client.
    Still to do: several timers of one client; the linked queue with several
    producers and consumers within the window in which no node is used
    twice. *)

From Stdlib Require Import ZArith Lia Bool.
From stdpp Require Export base tactics numbers list option gmap strings.

Open Scope Z_scope.

(** ** Outcomes: what evaluating a C++ expression may produce *)

(** Why an evaluation has no defined result.  [CheckFailed] is the deliberate
    [abort()] of [TDF_BASE_CHECK], [Thrown] an exception of the standard
    library; every other constructor is undefined
    behaviour of the C++ abstract machine, apart from [OutOfFuel], which is
    the model's own: a loop given too little fuel (the header says which fuel
    is enough). *)
Inductive fault :=
  | SignedOverflow      (* a signed result outside its type *)
  | DivideByZero
  | OutOfRange          (* operator[] past the end of an array or vector *)
  | EmptyAccess         (* front/back/top/pop of an empty container *)
  | InvalidIterator     (* dereferencing or comparing an end/erased iterator *)
  | NullDeref           (* dereferencing a null or dangling pointer *)
  | Uninitialised       (* reading an indeterminate value *)
  | InactiveMember      (* using a union member that is not the live one *)
  | CheckFailed         (* TDF_BASE_CHECK / TDF_BASE_DCHECK, i.e. abort() *)
  | Thrown              (* a C++ exception leaves the function *)
  | OutOfFuel.

#[global] Instance fault_eq_dec : EqDecision fault.
Proof. solve_decision. Defined.

(** Undefined behaviour proper. *)
Definition is_ub (f : fault) : bool :=
  match f with CheckFailed | Thrown | OutOfFuel => false | _ => true end.

Inductive outcome (A : Type) :=
  | Ok (a : A)
  | Fault (f : fault).
Arguments Ok {A} a.
Arguments Fault {A} f.

#[global] Instance outcome_eq_dec `{EqDecision A} : EqDecision (outcome A).
Proof. solve_decision. Defined.

(** Sequencing, the computation first: [let! x := m in k]. *)
Definition obind {A B} (m : outcome A) (k : A → outcome B) : outcome B :=
  match m with Ok a => k a | Fault f => Fault f end.

#[global] Instance outcome_fmap : FMap outcome := λ A B g m,
  match m with Ok a => Ok (g a) | Fault f => Fault f end.

Definition is_ok {A} (o : outcome A) : bool :=
  match o with Ok _ => true | Fault _ => false end.

(** An optional value whose absence is the fault [f]. *)
Definition of_option {A} (f : fault) (o : option A) : outcome A :=
  match o with Some a => Ok a | None => Fault f end.

(** [guard_f b f]: continue when [b], else fault. *)
Definition guard_f (b : bool) (f : fault) : outcome unit :=
  if b then Ok tt else Fault f.

(** ** The state-and-fault monad *)

Definition ST (S A : Type) : Type := S → outcome (A * S).

Definition st_ret {S A} (a : A) : ST S A := λ s, Ok (a, s).
(** Sequencing: [do! x := m in k]. *)
Definition st_bind {S A B} (m : ST S A) (k : A → ST S B) : ST S B := λ s,
  match m s with Ok (a, s') => k a s' | Fault f => Fault f end.

Definition st_get {S} : ST S S := λ s, Ok (s, s).
Definition st_put {S} (s : S) : ST S unit := λ _, Ok (tt, s).
Definition st_modify {S} (g : S → S) : ST S unit := λ s, Ok (tt, g s).
Definition st_lift {S A} (o : outcome A) : ST S A := λ s,
  match o with Ok a => Ok (a, s) | Fault f => Fault f end.
Definition st_fault {S A} (f : fault) : ST S A := λ _, Fault f.

(** Run a computation over every element of a list, left to right (the
    range-for loop of the source). *)
Fixpoint st_iter {S A} (g : A → ST S unit) (l : list A) : ST S unit :=
  match l with
  | [] => st_ret tt
  | x :: l' => st_bind (g x) (λ _, st_iter g l')
  end.

Declare Scope cpp_scope.
Delimit Scope cpp_scope with cpp.
Notation "'let!' x ':=' m 'in' k" := (obind m (λ x, k))
  (at level 10, x binder, m at level 100, k at level 200) : cpp_scope.
Notation "'do!' x ':=' m 'in' k" := (st_bind m (λ x, k))
  (at level 10, x binder, m at level 100, k at level 200) : cpp_scope.
Open Scope cpp_scope.

(** Continuations may be rewritten pointwise (setoid rewriting under a bind). *)
#[global] Instance outcome_bind_proper {A B} :
  Proper (eq ==> pointwise_relation A eq ==> eq) (@obind A B).
Proof. intros m ? <- k k' Hk. destruct m; cbn; [apply Hk|done]. Qed.

Section OutcomeLaws.
Context {A B C : Type}.

Lemma outcome_bind_assoc (m : outcome A) (k : A → outcome B) (h : B → outcome C) :
  obind (obind m k) h = obind m (λ a, obind (k a) h).
Proof. by destruct m. Qed.

Lemma obind_Ok (m : outcome A) (k : A → outcome B) b :
  obind m k = Ok b ↔ ∃ a, m = Ok a ∧ k a = Ok b.
Proof. destruct m; cbn; naive_solver. Qed.

Lemma of_option_Ok f (o : option A) a : of_option f o = Ok a ↔ o = Some a.
Proof. destruct o; cbn; naive_solver. Qed.

Lemma guard_f_Ok b f u : guard_f b f = Ok u ↔ b = true.
Proof. destruct b, u; cbn; naive_solver. Qed.

Context {S : Type}.

Lemma st_bind_Ok (m : ST S A) (k : A → ST S B) s b s'' :
  st_bind m k s = Ok (b, s'') ↔ ∃ a s', m s = Ok (a, s') ∧ k a s' = Ok (b, s'').
Proof.
  unfold st_bind. destruct (m s) as [[a s']|f]; naive_solver.
Qed.

Lemma st_bind_step (m : ST S A) (k : A → ST S B) s a s' :
  m s = Ok (a, s') → st_bind m k s = k a s'.
Proof. unfold st_bind. by intros ->. Qed.

Lemma st_lift_Ok (o : outcome A) (s s' : S) a :
  st_lift o s = Ok (a, s') ↔ o = Ok a ∧ s' = s.
Proof. unfold st_lift. destruct o; naive_solver. Qed.
End OutcomeLaws.

(** [st_iter] preserves whatever its body preserves. *)
Lemma st_iter_invariant {S A} (I : S → Prop) (g : A → ST S unit) (l : list A) s s' u :
  (∀ x t t' v, x ∈ l → I t → g x t = Ok (v, t') → I t') →
  I s → st_iter g l s = Ok (u, s') → I s'.
Proof.
  revert s. induction l as [|x l IH]; intros s Hg Hs; cbn.
  - unfold st_ret. naive_solver.
  - rewrite st_bind_Ok. intros (v & t & Hx & Hrest).
    eapply IH; [|eapply (Hg x); [left|..]; eauto|exact Hrest].
    intros y t1 t2 w Hy. apply Hg. by right.
Qed.

Lemma st_iter_app {S A} (g : A → ST S unit) (l1 l2 : list A) s :
  st_iter g (l1 ++ l2) s = st_bind (st_iter g l1) (λ _, st_iter g l2) s.
Proof.
  revert s. induction l1 as [|x l1 IH]; intros s; cbn; [done|].
  unfold st_bind at 1. unfold st_bind at 1. unfold st_bind at 1.
  destruct (g x s) as [[[] t]|f]; [apply IH|done].
Qed.

(** Peel one monadic bind off a hypothesis of the form [... = Ok _]. *)
Ltac mstep H :=
  lazymatch type of H with
  | st_bind _ _ _ = Ok _ =>
      let a := fresh "a" in let s := fresh "s" in let E := fresh "E" in
      apply st_bind_Ok in H as (a & s & E & H)
  | obind _ _ = Ok _ =>
      let a := fresh "a" in let E := fresh "E" in
      apply obind_Ok in H as (a & E & H)
  | st_lift _ _ = Ok _ => apply st_lift_Ok in H as [H ->]
  | of_option _ _ = Ok _ => apply of_option_Ok in H
  | guard_f _ _ = Ok _ => apply guard_f_Ok in H
  end.

(** Resolve the lifted steps among the hypotheses. *)
Ltac mlifts :=
  repeat match goal with
    | E : st_lift _ _ = Ok _ |- _ => apply st_lift_Ok in E as [E ->]
    end.

(** Close a decidable goal on concrete data by evaluating it. *)
Ltac decide_now :=
  lazymatch goal with |- ?P => refine (bool_decide_eq_true_1 P _) end;
  vm_compute; reflexivity.

(** ** Machine integers *)

Definition two_w (w : Z) : Z := 2 ^ w.

(** Unsigned [w]-bit wrap-around. *)
Definition wrap_u (w z : Z) : Z := z mod 2 ^ w.

(** Conversion to a signed [w]-bit type (two's complement). *)
Definition wrap_s (w z : Z) : Z :=
  let m := z mod 2 ^ w in if m <? 2 ^ (w - 1) then m else m - 2 ^ w.

Definition i64_min : Z := - 2 ^ 63.
Definition i64_max : Z := 2 ^ 63 - 1.
Definition in_i64 (z : Z) : bool := (i64_min <=? z) && (z <=? i64_max).
Definition in_i32 (z : Z) : bool := (- 2 ^ 31 <=? z) && (z <=? 2 ^ 31 - 1).

(** A signed 64-bit result: undefined outside the type. *)
Definition i64 (z : Z) : outcome Z :=
  if in_i64 z then Ok z else Fault SignedOverflow.

(** A signed 32-bit result. *)
Definition i32 (z : Z) : outcome Z :=
  if in_i32 z then Ok z else Fault SignedOverflow.

Lemma in_i64_spec z : in_i64 z = true ↔ i64_min ≤ z ≤ i64_max.
Proof. unfold in_i64. rewrite andb_true_iff, !Z.leb_le. lia. Qed.

Lemma in_i32_spec z : in_i32 z = true ↔ - 2 ^ 31 ≤ z ≤ 2 ^ 31 - 1.
Proof. unfold in_i32. rewrite andb_true_iff, !Z.leb_le. lia. Qed.

Lemma i64_ok z : i64_min ≤ z ≤ i64_max → i64 z = Ok z.
Proof. intros H. unfold i64. apply in_i64_spec in H. by rewrite H. Qed.

Lemma i32_ok z : - 2 ^ 31 ≤ z ≤ 2 ^ 31 - 1 → i32 z = Ok z.
Proof. intros H. unfold i32. apply in_i32_spec in H. by rewrite H. Qed.

Lemma i32_Ok z r : i32 z = Ok r ↔ r = z ∧ - 2 ^ 31 ≤ z ≤ 2 ^ 31 - 1.
Proof.
  unfold i32. destruct (in_i32 z) eqn:E.
  - apply in_i32_spec in E. naive_solver.
  - split; [done|]. intros [_ H]. apply in_i32_spec in H. congruence.
Qed.

Lemma i64_Ok z r : i64 z = Ok r ↔ r = z ∧ i64_min ≤ z ≤ i64_max.
Proof.
  unfold i64. destruct (in_i64 z) eqn:E.
  - apply in_i64_spec in E. naive_solver.
  - split; [done|]. intros [_ H]. apply in_i64_spec in H. congruence.
Qed.

Lemma i64_overflow z : ¬ (i64_min ≤ z ≤ i64_max) → i64 z = Fault SignedOverflow.
Proof.
  intros H. unfold i64. destruct (in_i64 z) eqn:E; [|done].
  by apply in_i64_spec in E.
Qed.

Lemma wrap_u_range w z : 0 ≤ w → 0 ≤ wrap_u w z < 2 ^ w.
Proof. intros. unfold wrap_u. apply Z.mod_pos_bound. lia. Qed.

Lemma wrap_u_id w z : 0 ≤ z < 2 ^ w → wrap_u w z = z.
Proof. intros. unfold wrap_u. by rewrite Z.mod_small. Qed.

Lemma wrap_s_id w z : 0 < w → 0 ≤ z < 2 ^ (w - 1) → wrap_s w z = z.
Proof.
  intros Hw Hz. unfold wrap_s.
  assert (2 ^ (w - 1) < 2 ^ w) by (apply Z.pow_lt_mono_r; lia).
  rewrite Z.mod_small by lia. destruct (Z.ltb_spec z (2 ^ (w - 1))); lia.
Qed.

(** ** Vectors and lists *)

(** [v[i]] for a signed index: undefined outside the vector. *)
Definition vec_at {A} (l : list A) (i : Z) : outcome A :=
  if 0 <=? i then of_option OutOfRange (l !! Z.to_nat i) else Fault OutOfRange.

(** [front()] and [back()]: undefined on an empty container. *)
Definition vec_front {A} (l : list A) : outcome A := of_option EmptyAccess (head l).
Definition vec_back {A} (l : list A) : outcome A := of_option EmptyAccess (last l).

Lemma vec_at_Ok {A} (l : list A) i x :
  vec_at l i = Ok x ↔ 0 ≤ i ∧ l !! Z.to_nat i = Some x.
Proof.
  unfold vec_at. destruct (Z.leb_spec 0 i); [rewrite of_option_Ok|]; naive_solver lia.
Qed.

Lemma vec_at_0 {A} (x : A) l : vec_at (x :: l) 0 = Ok x.
Proof. done. Qed.

Lemma vec_at_oob {A} (l : list A) i :
  i < 0 ∨ Z.of_nat (length l) ≤ i → vec_at l i = Fault OutOfRange.
Proof.
  intros H. unfold vec_at. destruct (Z.leb_spec 0 i); [|done].
  rewrite lookup_ge_None_2 by lia. done.
Qed.

Lemma vec_front_Ok {A} (l : list A) x : vec_front l = Ok x ↔ ∃ l', l = x :: l'.
Proof. unfold vec_front. rewrite of_option_Ok. destruct l; naive_solver. Qed.

Lemma vec_back_Ok {A} (l : list A) x : vec_back l = Ok x ↔ ∃ l', l = l' ++ [x].
Proof. unfold vec_back. rewrite of_option_Ok, last_Some. done. Qed.

(** Monadic map over a list. *)
Fixpoint omapM {A B} (g : A → outcome B) (l : list A) : outcome (list B) :=
  match l with
  | [] => Ok []
  | x :: l' => let! y := g x in let! ys := omapM g l' in Ok (y :: ys)
  end.

(** Filtering by a boolean. *)
Lemma list_filter_perm {A} (f : A → bool) l l' :
  l ≡ₚ l' → List.filter f l ≡ₚ List.filter f l'.
Proof.
  induction 1 as [|y l l' _ IH|y z l|l1 l2 l3 _ IH1 _ IH2]; cbn; [done| | |by rewrite IH1].
  - destruct (f y); [by constructor|done].
  - destruct (f y), (f z); try done. constructor.
Qed.

#[global] Instance list_filter_proper {A} (f : A → bool) :
  Proper (Permutation ==> Permutation) (List.filter f).
Proof. intros l l'. apply list_filter_perm. Qed.

Lemma list_filter_nil {A} (f : A → bool) l :
  List.filter f l = [] ↔ Forall (λ y, f y = false) l.
Proof.
  split.
  - induction l as [|y l IH]; cbn; [constructor|]. destruct (f y) eqn:E; [done|].
    intros Hl. constructor; auto.
  - induction 1 as [|y l Hy _ IH]; cbn; [done|]. by rewrite Hy.
Qed.

Create HintDb cpp.
#[export] Hint Rewrite @vec_at_Ok @vec_front_Ok @vec_back_Ok @of_option_Ok @guard_f_Ok : cpp.

Create HintDb footstone.
#[export] Hint Resolve i64_ok wrap_u_range : footstone.
