(* ===== verification/Time.v ===== *)
(** * Time: [TimeDelta] and [TimePoint]

    Models [include/footstone/time_delta.h] and
    [include/footstone/time_point.h].  Both classes wrap one signed 64-bit
    count of nanoseconds ([delta_], [ticks_]); the model keeps that count as a
    [Z] and makes every arithmetic operator an [outcome], undefined exactly
    when the signed result leaves the 64-bit range.  The floating-point
    conversions ([FromSecondsF], [To...F], [RefreshRateToFrameBudget]) are
    not modelled. *)

From S2P Require Import Prelude.

(** ** TimeDelta *)

Definition TimeDelta_Zero : Z := 0.
Definition TimeDelta_Min : Z := i64_min.
Definition TimeDelta_Max : Z := i64_max.

Definition TimeDelta_FromNanoseconds (nanos : Z) : outcome Z := Ok nanos.
Definition TimeDelta_FromMicroseconds (micros : Z) : outcome Z :=
  let! n := i64 (micros * 1000) in TimeDelta_FromNanoseconds n.
Definition TimeDelta_FromMilliseconds (millis : Z) : outcome Z :=
  let! n := i64 (millis * 1000) in TimeDelta_FromMicroseconds n.
Definition TimeDelta_FromSeconds (seconds : Z) : outcome Z :=
  let! n := i64 (seconds * 1000) in TimeDelta_FromMilliseconds n.

(** Integer division of C++ truncates towards zero: [Z.quot]. *)
Definition TimeDelta_ToNanoseconds (d : Z) : Z := d.
Definition TimeDelta_ToMicroseconds (d : Z) : Z := Z.quot (TimeDelta_ToNanoseconds d) 1000.
Definition TimeDelta_ToMilliseconds (d : Z) : Z := Z.quot (TimeDelta_ToMicroseconds d) 1000.
Definition TimeDelta_ToSeconds (d : Z) : Z := Z.quot (TimeDelta_ToMilliseconds d) 1000.

Definition TimeDelta_minus (d e : Z) : outcome Z := let! n := i64 (d - e) in TimeDelta_FromNanoseconds n.
Definition TimeDelta_plus (d e : Z) : outcome Z := let! n := i64 (d + e) in TimeDelta_FromNanoseconds n.

(** [INT64_MIN / -1] overflows, so the quotient goes through [i64]. *)
Definition TimeDelta_quot_i64 (a b : Z) : outcome Z :=
  if b =? 0 then Fault DivideByZero else i64 (Z.quot a b).
Definition TimeDelta_rem_i64 (a b : Z) : outcome Z :=
  if b =? 0 then Fault DivideByZero
  else let! _ := i64 (Z.quot a b) in Ok (Z.rem a b).

Definition TimeDelta_div (d divisor : Z) : outcome Z :=
  let! n := TimeDelta_quot_i64 d divisor in TimeDelta_FromNanoseconds n.
Definition TimeDelta_div_delta (d e : Z) : outcome Z := TimeDelta_quot_i64 d e.
Definition TimeDelta_mul (d multiplier : Z) : outcome Z :=
  let! n := i64 (d * multiplier) in TimeDelta_FromNanoseconds n.
Definition TimeDelta_modulo (d e : Z) : outcome Z :=
  let! n := TimeDelta_rem_i64 d e in TimeDelta_FromNanoseconds n.

Definition TimeDelta_eq (d e : Z) : bool := d =? e.
Definition TimeDelta_ne (d e : Z) : bool := negb (d =? e).
Definition TimeDelta_lt (d e : Z) : bool := d <? e.
Definition TimeDelta_le (d e : Z) : bool := d <=? e.
Definition TimeDelta_gt (d e : Z) : bool := e <? d.
Definition TimeDelta_ge (d e : Z) : bool := e <=? d.

(** [struct timespec] with 64-bit [time_t] and [long]. *)
Record timespec := Timespec { tv_sec : Z; tv_nsec : Z }.

Definition TimeDelta_FromTimespec (ts : timespec) : outcome Z :=
  let! s := TimeDelta_FromSeconds (tv_sec ts) in
  let! n := TimeDelta_FromNanoseconds (tv_nsec ts) in
  TimeDelta_plus s n.

Definition kNanosecondsPerSecond : Z := 1000000000.

Definition TimeDelta_ToTimespec (d : Z) : timespec :=
  Timespec (TimeDelta_ToSeconds d) (Z.rem d kNanosecondsPerSecond).

(** ** TimePoint *)

Definition TimePoint_Min : Z := i64_min.
Definition TimePoint_Max : Z := i64_max.
Definition TimePoint_FromEpochDelta (ticks : Z) : Z := TimeDelta_ToNanoseconds ticks.
Definition TimePoint_ToEpochDelta (p : Z) : outcome Z := TimeDelta_FromNanoseconds p.

Definition TimePoint_minus (p q : Z) : outcome Z :=
  let! n := i64 (p - q) in TimeDelta_FromNanoseconds n.
Definition TimePoint_plus_delta (p duration : Z) : outcome Z :=
  i64 (p + TimeDelta_ToNanoseconds duration).
Definition TimePoint_minus_delta (p duration : Z) : outcome Z :=
  i64 (p - TimeDelta_ToNanoseconds duration).

Definition TimePoint_eq (p q : Z) : bool := p =? q.
Definition TimePoint_ne (p q : Z) : bool := negb (p =? q).
Definition TimePoint_lt (p q : Z) : bool := p <? q.
Definition TimePoint_le (p q : Z) : bool := p <=? q.
Definition TimePoint_gt (p q : Z) : bool := q <? p.
Definition TimePoint_ge (p q : Z) : bool := q <=? p.

(** ** Unit conversions *)

Section Conversions.
(** A chain of checked multiplications is one checked multiplication: the
    intermediate products are smaller in magnitude than the last one. *)
Lemma FromMicroseconds_spec n : TimeDelta_FromMicroseconds n = i64 (n * 1000).
Proof. unfold TimeDelta_FromMicroseconds, TimeDelta_FromNanoseconds. by destruct (i64 _). Qed.

Lemma i64_mul_chain a b c :
  1 ≤ b → 1 ≤ c → (let! n := i64 (a * b) in i64 (n * c)) = i64 (a * (b * c)).
Proof.
  intros Hb Hc. destruct (decide (i64_min ≤ a * b ≤ i64_max)) as [H|H].
  - rewrite (i64_ok (a * b)) by done. cbn. by rewrite Z.mul_assoc.
  - rewrite (i64_overflow (a * b)) by done. cbn.
    rewrite i64_overflow; [done|]. unfold i64_min, i64_max in *. nia.
Qed.

Lemma FromMilliseconds_spec n : TimeDelta_FromMilliseconds n = i64 (n * 1000000).
Proof.
  unfold TimeDelta_FromMilliseconds. setoid_rewrite FromMicroseconds_spec.
  by rewrite i64_mul_chain.
Qed.

Lemma FromSeconds_spec n : TimeDelta_FromSeconds n = i64 (n * 1000000000).
Proof.
  unfold TimeDelta_FromSeconds. setoid_rewrite FromMilliseconds_spec.
  by rewrite i64_mul_chain.
Qed.

Lemma ToMilliseconds_spec d : TimeDelta_ToMilliseconds d = Z.quot d 1000000.
Proof.
  unfold TimeDelta_ToMilliseconds, TimeDelta_ToMicroseconds, TimeDelta_ToNanoseconds. by rewrite Z.quot_quot.
Qed.

Lemma ToSeconds_spec d : TimeDelta_ToSeconds d = Z.quot d 1000000000.
Proof. unfold TimeDelta_ToSeconds. by rewrite ToMilliseconds_spec, Z.quot_quot. Qed.

(** The quotient by a positive number stays in range once scaled back. *)
Lemma quot_scale_range d k :
  0 < k → i64_min ≤ d ≤ i64_max → i64_min ≤ Z.quot d k * k ≤ i64_max.
Proof.
  intros Hk Hd. rewrite Z.mul_comm. unfold i64_min, i64_max in *.
  destruct (decide (0 ≤ d)).
  - pose proof (Z.mul_quot_le d k ltac:(lia) ltac:(lia)). lia.
  - pose proof (Z.mul_quot_ge d k ltac:(lia) ltac:(lia)). lia.
Qed.
End Conversions.

#[export] Hint Rewrite FromMicroseconds_spec FromMilliseconds_spec FromSeconds_spec
  ToMilliseconds_spec ToSeconds_spec : cpp.

(** Converting whole seconds to a [TimeDelta] succeeds exactly when
    [seconds * 10^9] fits 64 bits — no intermediate product of the
    micro/milli/second chain overflows earlier — and every unit then converts
    back to the value it was made from. *)
Theorem FromSeconds_roundtrip (s : Z) :
  if in_i64 (s * 1000000000) then
    ∃ d, TimeDelta_FromSeconds s = Ok d ∧
         TimeDelta_ToSeconds d = s ∧
         TimeDelta_ToMilliseconds d = s * 1000 ∧
         TimeDelta_ToMicroseconds d = s * 1000000
  else TimeDelta_FromSeconds s = Fault SignedOverflow.
Proof.
  rewrite FromSeconds_spec. unfold i64. destruct (in_i64 _); [|done].
  eexists; split; [done|].
  rewrite ToSeconds_spec, ToMilliseconds_spec.
  unfold TimeDelta_ToMicroseconds, TimeDelta_ToNanoseconds.
  repeat split.
  - by rewrite Z.quot_mul.
  - replace (s * 1000000000) with (s * 1000 * 1000000) by lia. by rewrite Z.quot_mul.
  - replace (s * 1000000000) with (s * 1000000 * 1000) by lia. by rewrite Z.quot_mul.
Qed.

(** [ToTimespec] followed by [FromTimespec] is the identity on every
    64-bit duration, negative ones included, and no step of the way back
    overflows; the nanosecond field is always below one second in
    magnitude. *)
Theorem Timespec_roundtrip (d : Z) (H : in_i64 d = true) :
  TimeDelta_FromTimespec (TimeDelta_ToTimespec d) = Ok d ∧
  Z.abs (tv_nsec (TimeDelta_ToTimespec d)) < kNanosecondsPerSecond.
Proof.
  apply in_i64_spec in H. split.
  - unfold TimeDelta_FromTimespec, TimeDelta_ToTimespec; cbn [tv_sec tv_nsec].
    rewrite FromSeconds_spec, ToSeconds_spec.
    rewrite i64_ok by (apply quot_scale_range; done). cbn.
    unfold kNanosecondsPerSecond, TimeDelta_plus, TimeDelta_FromNanoseconds.
    pose proof (Z.quot_rem' d 1000000000).
    rewrite i64_ok by (cbn in *; lia). cbn. f_equal. lia.
  - cbn. unfold kNanosecondsPerSecond.
    pose proof (Z.rem_bound_abs d 1000000000). lia.
Qed.

Lemma Timespec_roundtrip_witness :
  in_i64 (-1500000001) = true ∧
  TimeDelta_FromTimespec (TimeDelta_ToTimespec (-1500000001)) = Ok (-1500000001).
Proof.
  split; [reflexivity|]. apply (Timespec_roundtrip (-1500000001)). reflexivity.
Defined.
