(* ===== verification/Double.v ===== *)
(** * Double: IEEE 754 double precision, as far as [TimeDelta] uses it

    The values and operations are those of the Standard Library's
    [SpecFloat], at 53 bits of precision and exponents below 1024, with
    rounding to nearest, ties to even.  [i64_of_double] is
    [static_cast<int64_t>]: it truncates, and is undefined where the result
    does not fit.

    The lemmas read a double as an integer, its value in units of 2^-1074, so that a rounding error is an inequality between integers. *)

From S2P Require Import Prelude.
From Stdlib Require Import SpecFloat.

Notation double := spec_float.
Notation round := (binary_round_aux 53 1024).

(** [static_cast<double>] of an integer, [*], [/] and [+]. *)
Definition double_of_Z (z : Z) : double := binary_normalize 53 1024 z 0 false.
Definition double_mul : double → double → double := SFmul 53 1024.
Definition double_div : double → double → double := SFdiv 53 1024.
Definition double_add : double → double → double := SFadd 53 1024.

(** [static_cast<int64_t>] of a double. *)
Definition i64_of_double (x : double) : outcome Z :=
  match x with
  | S754_zero _ => Ok 0
  | S754_finite s m e =>
      i64 (cond_Zopp s (if 0 <=? e then Z.pos m * 2 ^ e else Z.pos m / 2 ^ (- e)))
  | S754_infinity _ | S754_nan => Fault SignedOverflow
  end.

(** ** Values *)

(** The unit in which values are read is 2^-1074; 1 is [unit_scale] of it. *)
Definition unit_scale : Z := 2 ^ 1074.

(** A nonzero double with the sign [s] and the absolute value [v]. *)
Definition reads (x : double) (s : bool) (v : Z) : Prop :=
  ∃ m e, x = S754_finite s m e ∧ -1074 ≤ e ∧ Z.pos m < 2 ^ 54 ∧ v = Z.pos m * 2 ^ (e + 1074).

(** Values far from the limits of the exponent. *)
Definition moderate (v : Z) : Prop := unit_scale ≤ v * 2 ^ 70 ∧ v ≤ unit_scale * 2 ^ 100.

(** ** Shifting right *)

Section Shifting.
Lemma digits2_log2 p : Z.pos (digits2_pos p) = Z.log2 (Z.pos p) + 1.
Proof.
  assert (E : ∀ q, digits2_pos q = Pos.size q) by (induction q; cbn; congruence).
  rewrite E. destruct p; cbn; lia.
Qed.

(** The bits below the mantissa that are remembered. *)
Definition sticky (r : shr_record) : bool := shr_r r || shr_s r.

Lemma shr_1_spec r :
  0 ≤ shr_m r → shr_m (shr_1 r) = shr_m r / 2 ∧
                sticky (shr_1 r) = sticky r || negb (shr_m r mod 2 =? 0).
Proof.
  destruct r as [m b s]; unfold sticky; cbn. intros Hm.
  destruct m as [|[p|p|]|]; cbn [shr_m shr_r shr_s]; try lia.
  - split; [done|]. cbn. by rewrite orb_false_r.
  - rewrite Pos2Z.inj_xI, Z.add_comm, Z.mul_comm, Z.div_add, Z.mod_add by done.
    split; [done|]. cbn. by destruct b, s.
  - rewrite Pos2Z.inj_xO, Z.mul_comm, Z.div_mul, Z.mod_mul by done.
    split; [done|]. cbn. by rewrite orb_false_r.
  - split; [done|]. cbn. by destruct b, s.
Qed.

Lemma iter_pos_nat {A} (f : A → A) (p : positive) (x : A) : iter_pos f p x = Nat.iter (Pos.to_nat p) f x.
Proof.
  revert x. induction p as [p IH|p IH|]; intros x; [| |done]; cbn [iter_pos]; rewrite !IH.
  - rewrite Pos2Nat.inj_xI. replace (2 * Pos.to_nat p)%nat with (Pos.to_nat p + Pos.to_nat p)%nat by lia.
    by rewrite Nat.iter_succ_r, Nat.iter_add.
  - rewrite Pos2Nat.inj_xO. replace (2 * Pos.to_nat p)%nat with (Pos.to_nat p + Pos.to_nat p)%nat by lia.
    by rewrite Nat.iter_add.
Qed.

Lemma shr_iter n r :
  0 ≤ shr_m r →
  shr_m (Nat.iter n shr_1 r) = shr_m r / 2 ^ Z.of_nat n ∧
  sticky (Nat.iter n shr_1 r) = sticky r || negb (shr_m r mod 2 ^ Z.of_nat n =? 0).
Proof.
  intros Hm. induction n as [|n [IHm IHs]].
  - cbn. rewrite Z.div_1_r, Z.mod_1_r. cbn. by rewrite orb_false_r.
  - cbn [Nat.iter nat_rect]. fold (Nat.iter n shr_1 r).
    destruct (shr_1_spec (Nat.iter n shr_1 r)) as [E1 E2]; [by rewrite IHm; apply Z.div_pos; [|apply Z.pow_pos_nonneg; lia]|].
    assert (H2 : 0 < 2 ^ Z.of_nat n) by (apply Z.pow_pos_nonneg; lia).
    rewrite E1, E2, IHm, IHs, Nat2Z.inj_succ, Z.pow_succ_r by lia.
    rewrite (Z.mul_comm 2), Z.div_div by lia. split; [done|].
    rewrite Z.rem_mul_r by lia. rewrite <- orb_assoc. f_equal.
    pose proof (Z.mod_pos_bound (shr_m r) (2 ^ Z.of_nat n) ltac:(lia)).
    pose proof (Z.mod_pos_bound (shr_m r / 2 ^ Z.of_nat n) 2 ltac:(lia)).
    destruct (Z.eqb_spec (shr_m r mod 2 ^ Z.of_nat n) 0), (Z.eqb_spec ((shr_m r / 2 ^ Z.of_nat n) mod 2) 0),
      (Z.eqb_spec (shr_m r mod 2 ^ Z.of_nat n + 2 ^ Z.of_nat n * ((shr_m r / 2 ^ Z.of_nat n) mod 2)) 0);
      cbn; try done; nia.
Qed.

(** What [shr_fexp] shifts a nonnegative mantissa by. *)
Definition excess (m e : Z) : Z := Z.max 0 (fexp 53 1024 (Zdigits2 m + e) - e).

Lemma shr_fexp_spec m e l :
  0 ≤ m →
  ∃ r, shr_fexp 53 1024 m e l = (r, e + excess m e) ∧
    shr_m r = m / 2 ^ excess m e ∧
    (sticky r = false ↔ l = loc_Exact ∧ m mod 2 ^ excess m e = 0).
Proof.
  intros Hm. unfold shr_fexp, excess.
  assert (Hr : shr_m (shr_record_of_loc m l) = m ∧
               (sticky (shr_record_of_loc m l) = false ↔ l = loc_Exact)).
  { destruct l as [|[]]; cbn; naive_solver. }
  destruct Hr as [Hrm Hrs]. destruct (_ - e) as [|p|p]; cbn [shr].
  - exists (shr_record_of_loc m l). rewrite Z.max_id, Z.add_0_r, Z.pow_0_r, Z.div_1_r, Z.mod_1_r.
    naive_solver.
  - rewrite iter_pos_nat. eexists; split; [f_equal; lia|].
    destruct (shr_iter (Pos.to_nat p) (shr_record_of_loc m l)) as [E1 E2]; [by rewrite Hrm|].
    rewrite Hrm, positive_nat_Z in *. rewrite Z.max_r by lia. split; [done|].
    rewrite E2, orb_false_iff, negb_false_iff, Z.eqb_eq. naive_solver.
  - exists (shr_record_of_loc m l). rewrite Z.max_l by lia.
    rewrite Z.add_0_r, Z.pow_0_r, Z.div_1_r, Z.mod_1_r. naive_solver.
Qed.
End Shifting.

(** ** Rounding *)

Section Rounding.
Lemma Zdigits2_log2 m : 0 < m → Zdigits2 m = Z.log2 m + 1.
Proof. destruct m; cbn [Zdigits2]; try lia. intros _. apply digits2_log2. Qed.

Lemma log2_range m : 0 < m → 2 ^ Z.log2 m ≤ m < 2 ^ (Z.log2 m + 1).
Proof. intros Hm. rewrite Z.add_1_r. by apply Z.log2_spec. Qed.

(** Of a mantissa that is large enough to be normal, exactly the bits beyond
    the 53rd are shifted out. *)
Lemma excess_normal m e :
  0 < m → -1074 ≤ Z.log2 m - 52 + e → excess m e = Z.max 0 (Z.log2 m - 52).
Proof.
  intros Hm Hn. unfold excess, fexp, emin. rewrite Zdigits2_log2 by done. lia.
Qed.

Lemma excess_quotient m e :
  0 < m → -1074 ≤ Z.log2 m - 52 + e →
  0 < m / 2 ^ excess m e < 2 ^ 53 ∧ (0 < excess m e → 2 ^ 52 ≤ m / 2 ^ excess m e).
Proof.
  intros Hm Hn. rewrite excess_normal by done. pose proof (log2_range m Hm) as [Hl Hu].
  destruct (Z.max_spec 0 (Z.log2 m - 52)) as [[H ->]|[H ->]].
  - assert (2 ^ (Z.log2 m - 52) * 2 ^ 52 = 2 ^ Z.log2 m) by (rewrite <- Z.pow_add_r; [f_equal|..]; lia).
    assert (2 ^ (Z.log2 m + 1) = 2 ^ (Z.log2 m - 52) * 2 ^ 53)
      by (rewrite <- Z.pow_add_r; [f_equal|..]; lia).
    assert (0 < 2 ^ (Z.log2 m - 52)) by (apply Z.pow_pos_nonneg; lia).
    assert (2 ^ 52 ≤ m / 2 ^ (Z.log2 m - 52)) by (apply Z.div_le_lower_bound; lia).
    split; [|done]. split; [lia|]. apply Z.div_lt_upper_bound; lia.
  - rewrite Z.pow_0_r, Z.div_1_r. split; [|lia]. split; [lia|].
    apply Z.lt_le_trans with (2 ^ (Z.log2 m + 1)); [lia|]. apply Z.pow_le_mono_r; lia.
Qed.

(** Rounding gives the truncated mantissa or its successor, the latter only if
    something was cut off. *)
Lemma round_spec s m e l :
  0 < m → -1074 ≤ Z.log2 m - 52 + e → -1074 ≤ e + excess m e ≤ 970 →
  ∃ q, reads (round s m e l) s (q * 2 ^ (e + excess m e + 1074)) ∧
    (q = m / 2 ^ excess m e ∨
     q = m / 2 ^ excess m e + 1 ∧ ¬ (l = loc_Exact ∧ m mod 2 ^ excess m e = 0)).
Proof.
  intros Hm Hn He. destruct (shr_fexp_spec m e l ltac:(lia)) as (r & E & Er & Hs).
  unfold binary_round_aux. rewrite E.
  destruct (excess_quotient m e Hm Hn) as [[Hq0 Hq1] _].
  set (q := round_nearest_even _ _).
  assert (Hq : q = m / 2 ^ excess m e ∨
               q = m / 2 ^ excess m e + 1 ∧ ¬ (l = loc_Exact ∧ m mod 2 ^ excess m e = 0)).
  { subst q. rewrite <- Hs, <- Er. destruct r as [rm [] []]; unfold sticky; cbn;
      [by right| |by left|by left]. destruct (Z.even rm); [by left|by right]. }
  exists q. split; [|done]. clearbody q. set (e' := e + excess m e) in *. clearbody e'.
  assert (Hq' : 0 < q ≤ 2 ^ 53) by lia.
  assert (Hx : excess q e' = if q =? 2 ^ 53 then 1 else 0).
  { unfold excess, fexp, emin. rewrite Zdigits2_log2 by lia. destruct (Z.eqb_spec q (2 ^ 53)) as [->|].
    - change (Z.log2 (2 ^ 53)) with 53. lia.
    - assert (Z.log2 q < 53) by (apply Z.log2_lt_pow2; lia). lia. }
  destruct (shr_fexp_spec q e' loc_Exact ltac:(lia)) as (r' & E' & Er' & _). rewrite E', Hx in *.
  destruct (Z.eqb_spec q (2 ^ 53)) as [->|Hne].
  - rewrite Er'. change (2 ^ 53 / 2 ^ 1) with (Z.pos (2 ^ 52)). cbn [shr_m].
    rewrite (proj2 (Z.leb_le (e' + 1) _)) by lia. exists (2 ^ 52)%positive, (e' + 1).
    split; [done|]. split; [lia|]. split; [done|]. replace (e' + 1 + 1074) with (Z.succ (e' + 1074)) by lia.
    rewrite Z.pow_succ_r by lia. lia.
  - rewrite Er', Z.pow_0_r, Z.div_1_r, Z.add_0_r. destruct q as [|q|]; try lia.
    rewrite (proj2 (Z.leb_le e' _)) by lia. exists q, e'. split; [done|]. repeat split; lia.
Qed.

(** [v / n] in units of 2^-1074 lies in the interval that the mantissa [m],
    the exponent [e] and the location [l] stand for. *)
Record located (m e : Z) (l : location) (v n : Z) : Prop := {
  lc_pos : 0 < m ∧ 0 < n;
  lc_exponent : -1000 ≤ e ≤ 800;
  lc_size : m < 2 ^ 170;
  lc_between : m * 2 ^ (e + 1074) * n ≤ v < (m + 1) * 2 ^ (e + 1074) * n;
  lc_exact : l = loc_Exact ↔ v = m * 2 ^ (e + 1074) * n;
  lc_full : l = loc_Exact ∨ 2 ^ 52 ≤ m
}.

(** Truncating a value of at most 53 significant bits to 53 bits or more does
    not change it. *)
Lemma aligned_exact q t k j :
  0 ≤ t → 0 ≤ j → 2 ^ 52 ≤ q → 0 ≤ k < 2 ^ 53 →
  q * 2 ^ t ≤ k * 2 ^ j < (q + 1) * 2 ^ t → k * 2 ^ j = q * 2 ^ t.
Proof.
  intros Ht Hj Hq Hk Hb. destruct (decide (t ≤ j)) as [H|H].
  - replace j with (j - t + t) in * by lia. rewrite Z.pow_add_r, Z.mul_assoc in * by lia.
    assert (0 < 2 ^ t) by (apply Z.pow_pos_nonneg; lia).
    f_equal. nia.
  - replace t with (t - j - 1 + 1 + j) in * by lia. rewrite (Z.pow_add_r 2 _ j), Z.pow_add_r in * by lia.
    assert (0 < 2 ^ j) by (apply Z.pow_pos_nonneg; lia).
    assert (0 < 2 ^ (t - j - 1)) by (apply Z.pow_pos_nonneg; lia). nia.
Qed.

(** Rounding what lies between two values is off by less than one part in
    2^52, and exact where 53 bits are enough. *)
Lemma round_located s m e l v n :
  located m e l v n →
  ∃ w, reads (round s m e l) s w ∧ 0 < w ∧ Z.abs (w * n - v) * 2 ^ 52 ≤ v ∧
    ∀ k j, 0 ≤ j → 0 ≤ k < 2 ^ 53 → v = k * 2 ^ j * n → w = k * 2 ^ j.
Proof.
  intros [[Hm Hn] He Hsz Hb Hx Hf].
  assert (Hl : 0 ≤ Z.log2 m < 170) by (split; [apply Z.log2_nonneg|by apply Z.log2_lt_pow2]).
  pose proof (excess_normal m e Hm ltac:(lia)) as Hd.
  destruct (round_spec s m e l) as (q & Hr & Hq); [done|lia|lia|].
  destruct (excess_quotient m e Hm ltac:(lia)) as [[Hq0 Hq1] Hq2].
  revert Hr Hq Hq0 Hq1 Hq2. generalize (excess m e), Hd. clear Hd. intros d Hd Hr Hq Hq0 Hq1 Hq2.
  assert (Hd0 : 0 ≤ d) by lia. assert (H2 : 0 < 2 ^ d) by (apply Z.pow_pos_nonneg; lia).
  assert (HE : 0 < 2 ^ (e + 1074)) by (apply Z.pow_pos_nonneg; lia).
  assert (Hu : 2 ^ (e + d + 1074) = 2 ^ (e + 1074) * 2 ^ d)
    by (rewrite <- Z.pow_add_r; [f_equal|..]; lia).
  pose proof (Z.div_mod m (2 ^ d) ltac:(lia)) as Hdm.
  pose proof (Z.mod_pos_bound m (2 ^ d) H2) as Hmod.
  set (q' := m / 2 ^ d) in *. set (r := m mod 2 ^ d) in *.
  set (E := 2 ^ (e + 1074)) in *. set (D := 2 ^ d) in *.
  assert (Hlow : q' * (E * D) * n ≤ v) by nia.
  assert (Hhigh : v < (q' + 1) * (E * D) * n) by nia.
  assert (HeD : 0 < E * D) by nia.
  assert (Hexact : l = loc_Exact → r = 0 → v = q' * (E * D) * n).
  { intros Hle Hr0. rewrite (proj1 Hx Hle). rewrite Hdm, Hr0. ring. }
  assert (Hcut : v = q' * (E * D) * n → l = loc_Exact ∧ r = 0).
  { intros Hv. assert (Hr0 : r = 0) by nia. split; [|done]. apply Hx. rewrite Hv, Hdm, Hr0. ring. }
  assert (Hbig : 2 ^ 52 ≤ q' ∨ v = q' * (E * D) * n).
  { destruct (decide (0 < d)) as [|H0]; [left; auto|]. destruct Hf as [Hle|Hf].
    - right. apply Hexact; [done|]. subst r D. assert (Ed : d = 0) by lia. rewrite Ed. apply Z.mod_1_r.
    - left. subst q' D. assert (Ed : d = 0) by lia. by rewrite Ed, Z.pow_0_r, Z.div_1_r. }
  exists (q * (E * D)). split; [by rewrite Hu in Hr|]. split; [nia|]. split.
  - destruct Hbig as [Hbig|Hv].
    + destruct Hq as [->|[-> _]]; nia.
    + destruct Hq as [->|[_ Hne]]; [nia|]. by destruct Hne; apply Hcut.
  - intros k j Hj Hk Hv.
    assert (HV : k * 2 ^ j = q' * (E * D)).
    { destruct Hbig as [Hbig|Hv']; [|nia]. subst E D. rewrite <- Hu in *.
      apply aligned_exact; try done; [lia|]. nia. }
    destruct Hq as [->|[_ Hne]]; [done|]. destruct Hne. apply Hcut. by rewrite Hv, HV.
Qed.
End Rounding.

(** ** Operations *)

Section Operations.
Lemma unit_scale_pos : 0 < unit_scale.
Proof. by apply Z.pow_pos_nonneg. Qed.

Lemma moderate_exponent m e :
  0 < m < 2 ^ 54 → -1074 ≤ e → moderate (m * 2 ^ (e + 1074)) → -125 ≤ e ≤ 100.
Proof.
  intros Hm He [Hl Hu]. unfold unit_scale in *. split.
  - destruct (decide (-125 ≤ e)) as [|H]; [done|]. exfalso.
    assert (2 ^ (e + 1074) ≤ 2 ^ 948) by (apply Z.pow_le_mono_r; lia).
    assert (0 < 2 ^ (e + 1074)) by (apply Z.pow_pos_nonneg; lia).
    assert (Ep : 2 ^ 1074 = 2 ^ 948 * 2 ^ 126) by reflexivity. rewrite Ep in Hl.
    generalize dependent (2 ^ (e + 1074)). generalize (2 ^ 948). intros. nia.
  - destruct (decide (e ≤ 100)) as [|H]; [done|]. exfalso.
    assert (2 ^ 1175 ≤ 2 ^ (e + 1074)) by (apply Z.pow_le_mono_r; lia).
    assert (Ep : 2 ^ 1175 = 2 ^ 1074 * 2 ^ 101) by reflexivity. rewrite Ep in *.
    assert (0 < 2 ^ 1074) by done.
    generalize dependent (2 ^ (e + 1074)). generalize dependent (2 ^ 1074). intros. nia.
Qed.

(** Rounding to an integer. *)
Lemma i64_of_double_reads x s v :
  reads x s v → i64_of_double x = i64 (cond_Zopp s (v / unit_scale)).
Proof.
  intros (m & e & -> & He & _ & ->). cbn [i64_of_double]. do 2 f_equal. unfold unit_scale.
  destruct (Z.leb_spec 0 e) as [H|H].
  - rewrite Z.pow_add_r, Z.mul_assoc by lia. by rewrite Z.div_mul.
  - replace (2 ^ 1074) with (2 ^ (- e) * 2 ^ (e + 1074))
      by (rewrite <- Z.pow_add_r; [f_equal|..]; lia).
    rewrite Z.div_mul_cancel_r; [done| |]; apply Z.neq_sym, Z.lt_neq, Z.pow_pos_nonneg; lia.
Qed.

(** What [round_located] says of a rounded result. *)
Definition rounded (x : double) (s : bool) (v n : Z) : Prop :=
  ∃ w, reads x s w ∧ 0 < w ∧ Z.abs (w * n - v) * 2 ^ 52 ≤ v ∧
    ∀ k j, 0 ≤ j → 0 ≤ k < 2 ^ 53 → v = k * 2 ^ j * n → w = k * 2 ^ j.

Lemma shift_pos_spec p d : Z.pos (Pos.iter xO p d) = Z.pos p * 2 ^ Z.pos d.
Proof.
  induction d as [|d IH] using Pos.peano_ind; [by rewrite Z.mul_comm|].
  rewrite Pos.iter_succ, Pos2Z.inj_xO, IH, Pos2Z.inj_succ, Z.pow_succ_r by lia. ring.
Qed.

Lemma double_of_Z_spec z :
  z ≠ 0 → Z.abs z < 2 ^ 63 → rounded (double_of_Z z) (z <? 0) (Z.abs z * unit_scale) 1.
Proof.
  intros Hz Hr. assert (Hp : ∀ s p, Z.pos p < 2 ^ 63 →
    rounded (binary_round 53 1024 s p 0) s (Z.pos p * unit_scale) 1).
  2: { destruct z as [|p|p]; [done|by apply Hp..]. }
  clear. intros s p Hp. unfold binary_round, shl_align.
  assert (0 ≤ Z.log2 (Z.pos p) < 63) by (split; [apply Z.log2_nonneg|by apply Z.log2_lt_pow2]).
  pose proof (log2_range (Z.pos p) ltac:(lia)) as [_ Hlt].
  assert (Hf : fexp 53 1024 (Z.pos (digits2_pos p) + 0) = Z.log2 (Z.pos p) - 52)
    by (rewrite digits2_log2; unfold fexp, emin; lia). rewrite Hf.
  destruct (_ - 0) as [|d|d] eqn:E; apply round_located.
  1,2: split; [lia|lia|lia| |by rewrite Z.mul_1_r|by left]; unfold unit_scale; lia.
  assert (Hd : Z.pos (Pos.iter xO p d) * 2 ^ (Z.log2 (Z.pos p) - 52 + 1074) * 1 = Z.pos p * unit_scale).
  { rewrite shift_pos_spec. unfold unit_scale. rewrite Z.mul_1_r, <- Z.mul_assoc, <- Z.pow_add_r by lia.
    do 2 f_equal. lia. }
  split; [lia|lia| | |by rewrite Hd|by left].
  - rewrite shift_pos_spec. assert (Z.pos d ≤ 52) by lia.
    assert (2 ^ Z.pos d ≤ 2 ^ 52) by (apply Z.pow_le_mono_r; lia). nia.
  - rewrite <- Hd. assert (0 < 2 ^ (Z.log2 (Z.pos p) - 52 + 1074)) by (apply Z.pow_pos_nonneg; lia). nia.
Qed.

Lemma double_mul_spec x y s1 s2 v1 v2 :
  reads x s1 v1 → reads y s2 v2 → moderate v1 → moderate v2 →
  rounded (double_mul x y) (xorb s1 s2) (v1 * v2) unit_scale.
Proof.
  intros (m1 & e1 & -> & He1 & Hm1 & ->) (m2 & e2 & -> & He2 & Hm2 & ->) H1 H2.
  apply moderate_exponent in H1, H2; try lia. unfold double_mul, SFmul.
  assert (E : Z.pos (m1 * m2) * 2 ^ (e1 + e2 + 1074) * unit_scale =
              Z.pos m1 * 2 ^ (e1 + 1074) * (Z.pos m2 * 2 ^ (e2 + 1074))).
  { unfold unit_scale. transitivity (Z.pos m1 * Z.pos m2 * 2 ^ (e1 + 1074 + (e2 + 1074))).
    - rewrite <- Z.mul_assoc, <- Z.pow_add_r by lia. do 2 f_equal. lia.
    - rewrite Z.pow_add_r by lia. ring. }
  pose proof unit_scale_pos. assert (0 < 2 ^ (e1 + e2 + 1074)) by (apply Z.pow_pos_nonneg; lia).
  apply round_located. split; [lia|lia|nia| |by rewrite E|by left]. rewrite <- E. nia.
Qed.

Lemma new_location_exact n r : new_location n r = loc_Exact ↔ r = 0.
Proof.
  unfold new_location, new_location_even, new_location_odd.
  destruct (Z.even n), (Z.eqb_spec r 0) as [->|]; naive_solver.
Qed.

Lemma located_quotient m1 e1 m2 e2 e' s q r :
  0 < m2 → 0 ≤ s → e1 - e2 - e' = s → -1000 ≤ e' ≤ 800 → -125 ≤ e1 → -125 ≤ e2 →
  m1 * 2 ^ s = m2 * q + r → 0 ≤ r < m2 → 2 ^ 52 * m2 ≤ m1 * 2 ^ s → m1 * 2 ^ s < 2 ^ 170 →
  located q e' (new_location m2 r) (m1 * 2 ^ (e1 + 1074) * unit_scale) (m2 * 2 ^ (e2 + 1074)).
Proof.
  intros Hm2 Hs He He' He1 He2 Hq Hr Hl Hu.
  assert (EV : m1 * 2 ^ (e1 + 1074) * unit_scale = (m2 * q + r) * 2 ^ (e' + e2 + 2148)).
  { rewrite <- Hq. unfold unit_scale. rewrite <- !Z.mul_assoc, <- !Z.pow_add_r by lia. do 2 f_equal. lia. }
  assert (ET : ∀ k, k * 2 ^ (e' + 1074) * (m2 * 2 ^ (e2 + 1074)) = k * m2 * 2 ^ (e' + e2 + 2148)).
  { intros k. replace (e' + e2 + 2148) with ((e' + 1074) + (e2 + 1074)) by lia.
    rewrite (Z.pow_add_r 2 (e' + 1074)) by lia. ring. }
  assert (0 < 2 ^ (e2 + 1074)) by (apply Z.pow_pos_nonneg; lia).
  assert (HT : 0 < 2 ^ (e' + e2 + 2148)) by (apply Z.pow_pos_nonneg; lia).
  assert (2 ^ 52 ≤ q) by nia. split; [nia|done|nia| | |by right]; rewrite EV, ?ET.
  - generalize dependent (2 ^ (e' + e2 + 2148)). intros T _ _ HT. nia.
  - rewrite new_location_exact. generalize dependent (2 ^ (e' + e2 + 2148)). intros T _ _ HT. nia.
Qed.

(** The quotient [SFdiv] rounds. *)
Lemma div_core_spec m1 e1 m2 e2 :
  Z.pos m1 < 2 ^ 54 → Z.pos m2 < 2 ^ 54 → -125 ≤ e1 ≤ 100 → -125 ≤ e2 ≤ 100 →
  ∃ q e l, SFdiv_core_binary 53 1024 (Z.pos m1) e1 (Z.pos m2) e2 = (q, e, l) ∧
    located q e l (Z.pos m1 * 2 ^ (e1 + 1074) * unit_scale) (Z.pos m2 * 2 ^ (e2 + 1074)).
Proof.
  intros Hm1 Hm2 He1 He2. unfold SFdiv_core_binary. cbn [Zdigits2]. rewrite !digits2_log2.
  assert (0 ≤ Z.log2 (Z.pos m1) < 54) by (split; [apply Z.log2_nonneg|by apply Z.log2_lt_pow2]).
  assert (0 ≤ Z.log2 (Z.pos m2) < 54) by (split; [apply Z.log2_nonneg|by apply Z.log2_lt_pow2]).
  pose proof (log2_range (Z.pos m1) ltac:(lia)) as [Hl1 Hu1].
  pose proof (log2_range (Z.pos m2) ltac:(lia)) as [Hl2 Hu2].
  set (e' := Z.min _ _).
  assert (He' : e' = Z.min (Z.log2 (Z.pos m1) - Z.log2 (Z.pos m2) - 53) 0 + (e1 - e2))
    by (subst e'; unfold fexp, emin; lia).
  clearbody e'. set (s := e1 - e2 - e'). assert (Hs : 0 ≤ s ≤ 107) by lia.
  assert (Hs' : Z.log2 (Z.pos m2) + 53 ≤ Z.log2 (Z.pos m1) + s) by lia.
  assert (Em : (match s with 0 => Z.pos m1 | Z.pos _ => Z.shiftl (Z.pos m1) s | Z.neg _ => 0 end) =
               Z.pos m1 * 2 ^ s).
  { rewrite <- Z.shiftl_mul_pow2 by lia. destruct s; [by rewrite Z.shiftl_0_r|done|lia]. }
  rewrite Em. pose proof (Z.div_eucl_eq (Z.pos m1 * 2 ^ s) (Z.pos m2) ltac:(lia)) as Hq.
  pose proof (Z.mod_pos_bound (Z.pos m1 * 2 ^ s) (Z.pos m2) ltac:(lia)) as Hr.
  unfold Z.modulo in Hr. destruct (Z.div_eucl _ _) as [q r].
  exists q, e', (new_location (Z.pos m2) r). split; [done|].
  apply located_quotient with (s := s) (r := r); try done; try lia.
  - assert (2 ^ (Z.log2 (Z.pos m2) + 53) ≤ 2 ^ (Z.log2 (Z.pos m1) + s)) by (apply Z.pow_le_mono_r; lia).
    rewrite !Z.pow_add_r in * by lia. nia.
  - assert (2 ^ s ≤ 2 ^ 107) by (apply Z.pow_le_mono_r; lia). nia.
Qed.

Lemma double_div_spec x y s1 s2 v1 v2 :
  reads x s1 v1 → reads y s2 v2 → moderate v1 → moderate v2 →
  rounded (double_div x y) (xorb s1 s2) (v1 * unit_scale) v2.
Proof.
  intros (m1 & e1 & -> & He1 & Hm1 & ->) (m2 & e2 & -> & He2 & Hm2 & ->) H1 H2.
  apply moderate_exponent in H1, H2; try lia. unfold double_div, SFdiv.
  destruct (div_core_spec m1 e1 m2 e2) as (q & e & l & E & Hl); [done..|].
  rewrite E. by apply round_located.
Qed.
End Operations.
