(* ===== verification/TimeDouble.v ===== *)
(** * TimeDouble: the floating-point conversions of [TimeDelta]

    Models [FromSecondsF], the four [To...F] and [RefreshRateToFrameBudget] of
    [include/footstone/time_delta.h] over the doubles of Double.v.  A
    [Milliseconds] is the double it wraps. *)

From Stdlib Require Import SpecFloat.
From S2P Require Import Prelude Time Double.

(** [1000.0], [1000.0 * 1000.0] and [1000.0 * 1000.0 * 1000.0]. *)
Definition thousand : double := double_of_Z 1000.
Definition million : double := double_mul thousand thousand.
Definition billion : double := double_mul million thousand.

Definition TimeDelta_FromSecondsF (seconds : double) : outcome Z :=
  let! n := i64_of_double (double_mul seconds billion) in TimeDelta_FromNanoseconds n.

Definition TimeDelta_ToNanosecondsF (d : Z) : double := double_of_Z d.
Definition TimeDelta_ToMicrosecondsF (d : Z) : double := double_div (double_of_Z d) thousand.
Definition TimeDelta_ToMillisecondsF (d : Z) : double := double_div (double_of_Z d) million.
Definition TimeDelta_ToSecondsF (d : Z) : double := double_div (double_of_Z d) billion.

(** One second, a [long double] duration, is converted to a [Milliseconds]
    before the division; the rate is converted to [double]. *)
Definition RefreshRateToFrameBudget (refresh_rate : double) : double :=
  double_div thousand refresh_rate.
Definition kDefaultFrameBudget : double := double_div thousand (double_of_Z 60).

Section SecondsF.
Lemma billion_reads : reads billion false (1000000000 * unit_scale).
Proof. by exists 8388608000000000%positive, (-23). Qed.

Lemma abs_moderate z : z ≠ 0 → Z.abs z < 2 ^ 63 → moderate (Z.abs z * unit_scale).
Proof. intros Hz Hr. pose proof unit_scale_pos. split; nia. Qed.

Lemma double_of_Z_exact z k j :
  z ≠ 0 → Z.abs z < 2 ^ 63 → 0 ≤ j → 0 ≤ k < 2 ^ 53 → Z.abs z = k * 2 ^ j →
  reads (double_of_Z z) (z <? 0) (Z.abs z * unit_scale).
Proof.
  intros Hz Hr Hj Hk E. destruct (double_of_Z_spec z Hz Hr) as (w & Hw & _ & _ & Hx).
  rewrite (Hx k (j + 1074)) in Hw; [|lia|done|].
  - by rewrite Z.pow_add_r, Z.mul_assoc, <- E in Hw by lia.
  - rewrite E, Z.pow_add_r by lia. unfold unit_scale. ring.
Qed.

(** 10^9 has only 21 significant bits. *)
Lemma billion_bits k : k * 1953125 * 2 ^ (9 + 1074) = k * 1000000000 * unit_scale.
Proof. unfold unit_scale. rewrite Z.pow_add_r by done. change (2 ^ 9) with 512. ring. Qed.

(** The multiplication and the truncation of [FromSecondsF]. *)
Lemma FromSecondsF_reads x s w :
  reads x s w → moderate w →
  ∃ w', TimeDelta_FromSecondsF x = i64 (cond_Zopp s (w' / unit_scale)) ∧ 0 < w' ∧
    Z.abs (w' - w * 1000000000) * 2 ^ 52 ≤ w * 1000000000 ∧
    ∀ k j, 0 ≤ j → 0 ≤ k < 2 ^ 53 → w * 1000000000 = k * 2 ^ j → w' = k * 2 ^ j.
Proof.
  intros Hx Hw. pose proof unit_scale_pos as HU.
  destruct (double_mul_spec x billion s false w _ Hx billion_reads Hw)
    as (w' & Hr & Hp & He & Hexact); [by apply (abs_moderate 1000000000)|].
  exists w'. unfold TimeDelta_FromSecondsF. rewrite (i64_of_double_reads _ _ _ Hr), xorb_false_r.
  split; [by destruct (i64 _)|]. split; [done|]. split; [nia|].
  intros k j Hj Hk E. apply Hexact; [done..|]. rewrite <- E. ring.
Qed.

(** The division of [ToSecondsF]. *)
Lemma ToSecondsF_reads d :
  d ≠ 0 → Z.abs d < 2 ^ 53 ∨ (∃ s, Z.abs d = s * 1000000000 ∧ s < 2 ^ 32) →
  ∃ w, reads (TimeDelta_ToSecondsF d) (d <? 0) w ∧ moderate w ∧
    Z.abs (w * 1000000000 - Z.abs d * unit_scale) * 2 ^ 52 ≤ Z.abs d * unit_scale ∧
    ∀ s, Z.abs d = s * 1000000000 → w = s * unit_scale.
Proof.
  intros Hd Hr. pose proof unit_scale_pos as HU.
  assert (Hd63 : Z.abs d < 2 ^ 63) by (destruct Hr as [|(s & ? & ?)]; lia).
  assert (Hx : reads (double_of_Z d) (d <? 0) (Z.abs d * unit_scale)).
  { destruct Hr as [Hr|(s & Es & Hs)].
    - apply (double_of_Z_exact d (Z.abs d) 0); lia.
    - apply (double_of_Z_exact d (s * 1953125) 9); lia. }
  destruct (double_div_spec _ _ _ _ _ _ Hx billion_reads) as (w & Hw & Hp & He & Hexact);
    [by apply abs_moderate|by apply (abs_moderate 1000000000)|].
  rewrite xorb_false_r in Hw. exists w. split; [done|].
  assert (He' : Z.abs (w * 1000000000 - Z.abs d * unit_scale) * 2 ^ 52 ≤ Z.abs d * unit_scale) by nia.
  split; [split; nia|]. split; [done|]. intros s Es. unfold unit_scale.
  apply Hexact; [done|destruct Hr as [|(s' & ? & ?)]; lia|]. rewrite Es. fold unit_scale. ring.
Qed.
End SecondsF.

(** The conversion of whole seconds, given as a [double], agrees with the
    integer one. *)
Theorem FromSecondsF_whole s (Hs : Z.abs s < 2 ^ 32) :
  TimeDelta_FromSecondsF (double_of_Z s) = TimeDelta_FromSeconds s.
Proof.
  destruct (decide (s = 0)) as [->|Hs0]; [done|].
  pose proof (double_of_Z_exact s (Z.abs s) 0 Hs0 ltac:(lia) ltac:(lia) ltac:(lia) ltac:(lia)) as Hx.
  destruct (FromSecondsF_reads _ _ _ Hx ltac:(by apply abs_moderate; lia)) as (w & -> & _ & _ & Hw).
  rewrite (Hw (Z.abs s * 1953125) (9 + 1074)), FromSeconds_spec.
  - rewrite billion_bits, Z.div_mul by (pose proof unit_scale_pos; lia).
    f_equal. destruct (Z.ltb_spec s 0); cbn [cond_Zopp]; lia.
  - lia.
  - lia.
  - rewrite billion_bits. ring.
Qed.

(** C31. [FromSecondsF (ToSecondsF d)], for durations up to 2^50 nanoseconds (13
    days) in either direction, overflows nowhere and gives back [d] or a
    duration one nanosecond closer to zero: the two roundings never add up to
    more, and the cast truncates.  Whole seconds come back unchanged. *)
Theorem SecondsF_roundtrip d (Hd : Z.abs d ≤ 2 ^ 50) :
  ∃ d', TimeDelta_FromSecondsF (TimeDelta_ToSecondsF d) = Ok d' ∧
        (d' = d ∨ d' = d - Z.sgn d) ∧ (d mod 1000000000 = 0 → d' = d).
Proof.
  destruct (decide (d = 0)) as [->|Hd0]; [exists 0; repeat split; auto; by vm_compute|].
  pose proof unit_scale_pos as HU.
  destruct (ToSecondsF_reads d Hd0 ltac:(lia)) as (w & Hw & Hm & He & Hexact).
  destruct (FromSecondsF_reads _ _ _ Hw Hm) as (w' & -> & Hp & He' & Hexact').
  assert (Hq : w' / unit_scale = Z.abs d ∨ w' / unit_scale = Z.abs d - 1).
  { assert (Hb : (Z.abs d - 1) * unit_scale ≤ w' < (Z.abs d + 1) * unit_scale) by nia.
    assert (Z.abs d - 1 ≤ w' / unit_scale) by (apply Z.div_le_lower_bound; lia).
    assert (w' / unit_scale < Z.abs d + 1) by (apply Z.div_lt_upper_bound; lia). lia. }
  rewrite i64_ok.
  2: { unfold i64_min, i64_max, cond_Zopp. destruct (d <? 0); lia. }
  eexists; split; [done|]. split.
  - destruct (Z.ltb_spec d 0); cbn [cond_Zopp]; lia.
  - intros Hs. assert (Es : d = d / 1000000000 * 1000000000) by (pose proof (Z.div_mod d 1000000000); lia).
    set (s := d / 1000000000) in *. assert (Es' : Z.abs d = Z.abs s * 1000000000) by lia.
    rewrite (Hexact' (Z.abs s * 1953125) (9 + 1074)).
    + rewrite billion_bits, Z.div_mul by lia.
      destruct (Z.ltb_spec d 0); cbn [cond_Zopp]; lia.
    + lia.
    + lia.
    + rewrite (Hexact (Z.abs s) Es'), billion_bits. ring.
Qed.

(** The nanosecond is lost already for 15 nanoseconds, and for 1.001 seconds
    written as a literal: that duration prints as 1000 milliseconds. *)
Theorem SecondsF_truncates :
  TimeDelta_FromSecondsF (TimeDelta_ToSecondsF 15) = Ok 14 ∧
  TimeDelta_FromSecondsF (double_div (double_of_Z 1001) thousand) = Ok 1000999999 ∧
  TimeDelta_ToMilliseconds 1000999999 = 1000.
Proof. repeat split; vm_compute; reflexivity. Qed.

(** The longest duration rounds up to 2^63 nanoseconds: converting it back is
    undefined. *)
Theorem SecondsF_max_overflows :
  TimeDelta_FromSecondsF (TimeDelta_ToSecondsF TimeDelta_Max) = Fault SignedOverflow.
Proof. vm_compute. reflexivity. Qed.

Lemma kDefaultFrameBudget_60 : kDefaultFrameBudget = RefreshRateToFrameBudget (double_of_Z 60).
Proof. reflexivity. Qed.

Lemma SecondsF_roundtrip_witness :
  ∃ d', TimeDelta_FromSecondsF (TimeDelta_ToSecondsF (-3000000000)) = Ok d' ∧ d' = -3000000000.
Proof.
  destruct (SecondsF_roundtrip (-3000000000) ltac:(lia)) as (d' & E & _ & H).
  exists d'. split; [exact E|]. by apply H.
Defined.
