(* ===== verification/PriorityQueue.v ===== *)
(** * The interface of [std::priority_queue]

    [TaskRunner] keeps its delayed tasks in a
    [std::priority_queue<DelayedEntry, vector<DelayedEntry>, DelayedEntryCompare>]
    whose comparator puts the {e smallest} deadline on top.  The C++ standard
    fixes what the container promises and not how it arranges its elements, so
    the promise is a class: [PriorityQueue] has the operations the source
    calls, [PriorityQueueLaws] states the promise.  In particular nothing says
    which of two entries with one deadline comes first.  Theorems about the
    runner are proved against the class; [sorted_queue] is an instance used to
    evaluate concrete inputs. *)

From S2P Require Import Prelude.
From Stdlib Require Import Sorted.

Class PriorityQueue (E Q : Type) := {
  pq_empty : Q;
  pq_top : Q → option E;          (* [None]: the queue is empty *)
  pq_push : E → Q → Q;
  pq_pop : Q → Q;
  (* writing through the reference [top()] returns (a [const_cast] away) *)
  pq_set_top : E → Q → Q;
  pq_elems : Q → list E;          (* its content, in no particular order *)
  pq_wf : Q → Prop                (* the container's own invariant *)
}.

(** The promise, for the order by [key]. *)
Class PriorityQueueLaws (E Q : Type) `{PriorityQueue E Q} (key : E → Z) : Prop := {
  pq_empty_wf : pq_wf pq_empty;
  pq_empty_elems : pq_elems pq_empty = [];
  pq_top_none q : pq_top q = None ↔ pq_elems q = [];
  pq_top_min q x : pq_wf q → pq_top q = Some x → Forall (λ y, key x ≤ key y) (pq_elems q);
  pq_push_wf q x : pq_wf q → pq_wf (pq_push x q);
  pq_push_elems q x : pq_elems (pq_push x q) ≡ₚ x :: pq_elems q;
  pq_pop_wf q : pq_wf q → pq_wf (pq_pop q);
  pq_pop_elems q x : pq_top q = Some x → pq_elems q ≡ₚ x :: pq_elems (pq_pop q);
  pq_set_top_wf q x y :
    pq_wf q → pq_top q = Some x → key y = key x → pq_wf (pq_set_top y q);
  pq_set_top_top q x y : pq_top q = Some x → pq_top (pq_set_top y q) = Some y;
  pq_set_top_elems q x y :
    pq_top q = Some x → pq_elems (pq_set_top y q) ≡ₚ y :: pq_elems (pq_pop q)
}.

Definition pq_size `{PriorityQueue E Q} (q : Q) : nat := length (pq_elems q).
Definition pq_is_empty `{PriorityQueue E Q} (q : Q) : bool :=
  match pq_top q with None => true | Some _ => false end.

Section Laws.
Context {E Q : Type} {key : E → Z} `{PriorityQueueLaws E Q key}.
Implicit Types q : Q.

Lemma pq_is_empty_spec q : pq_is_empty q = true ↔ pq_elems q = [].
Proof. unfold pq_is_empty. rewrite <- pq_top_none. by destruct (pq_top q). Qed.

Lemma pq_pop_size q x : pq_top q = Some x → pq_size q = S (pq_size (pq_pop q)).
Proof. intros Hx. unfold pq_size. by rewrite (pq_pop_elems q x Hx). Qed.

Lemma pq_top_elem q x : pq_top q = Some x → x ∈ pq_elems q.
Proof. intros Hx. rewrite (pq_pop_elems q x Hx). left. Qed.
End Laws.

(** ** An instance: a list kept sorted by key *)

Section SortedQueue.
Context {E : Type} (key : E → Z).

Fixpoint sq_insert (x : E) (l : list E) : list E :=
  match l with
  | [] => [x]
  | y :: l' => if key x <? key y then x :: l else y :: sq_insert x l'
  end.

Lemma sq_insert_perm x l : sq_insert x l ≡ₚ x :: l.
Proof.
  induction l as [|y l IH]; cbn; [done|].
  destruct (key x <? key y); [done|]. rewrite IH. apply Permutation_swap.
Qed.

Definition sq_sorted : list E → Prop := StronglySorted (λ x y, key x ≤ key y).

Lemma sq_insert_sorted x l : sq_sorted l → sq_sorted (sq_insert x l).
Proof.
  unfold sq_sorted. induction 1 as [|y l Hl IH Hy]; cbn.
  - repeat constructor.
  - destruct (Z.ltb_spec (key x) (key y)).
    + constructor; [by constructor|]. constructor; [lia|].
      eapply Forall_impl; [done|]. cbn; lia.
    + constructor; [done|]. rewrite sq_insert_perm. by constructor; [lia|].
Qed.

Definition sq_set_top (y : E) (l : list E) : list E :=
  match l with [] => [] | _ :: l' => y :: l' end.

Definition sorted_queue : PriorityQueue E (list E) := {|
  pq_empty := []; pq_top := head; pq_push := sq_insert; pq_pop := tail;
  pq_set_top := sq_set_top; pq_elems := λ l, l; pq_wf := sq_sorted |}.

Lemma sorted_queue_laws : @PriorityQueueLaws E (list E) sorted_queue key.
Proof.
  split; cbn.
  - constructor.
  - done.
  - by intros [|].
  - intros [|y l] x Hl [= ->]. apply StronglySorted_inv in Hl as [_ ?].
    by constructor.
  - intros; by apply sq_insert_sorted.
  - intros; apply sq_insert_perm.
  - intros [|y l] Hl; [done|]. by apply StronglySorted_inv in Hl as [? _].
  - by intros [|y l] x [= ->].
  - intros [|z l] x y Hl [= ->] Hk. cbn.
    apply StronglySorted_inv in Hl as [? Hx]. constructor; [done|].
    eapply Forall_impl; [exact Hx|]. cbn; intros; lia.
  - by intros [|z l] x y [= ->].
  - by intros [|z l] x y [= ->].
Qed.
End SortedQueue.
