(* ===== verification/Store.v ===== *)
(** * The store: objects of the runner library and the world they live in

    Data model shared by the task-runner, worker and worker-manager
    components.  Objects reached through [std::shared_ptr]/[weak_ptr] live in
    two heaps indexed by pointers, because the source aliases them freely: one
    [TaskRunner] is at once in a worker's group, in that worker's thread-local
    [curr_group] and in the caller's hands.

    - [Task], [IdleTask] (task.h, idle_task.h) with the [std::function]s the
      library itself creates as constructors of [Closure] and user code as an
      opaque number;
    - [TaskRunner Q] (task_runner.h), [Worker] (worker.h), the thread-local
      variables of worker.cc ([Tls]);
    - [World Q]: both heaps, the thread-locals, the process-wide counters, the
      clock position and a log of the calls that leave the library;
    - [M Q]: the monad every stateful operation runs in. *)

From Stdlib Require Import SpecFloat.
From S2P Require Import Prelude Time PriorityQueue.

Abbreviation runner_ptr := nat (only parsing).
Abbreviation worker_ptr := nat (only parsing).

(** ** Tasks *)

(** A [void*] is a number, 0 being [nullptr]; a destructor callback
    ([std::function<void(void* )>]) is the number of a user function. *)
Definition nullptr : Z := 0.

(** [Worker::WorkerKey]. *)
Record WorkerKey := MkWorkerKey { wk_is_used : bool; wk_destruct : option Z }.

Definition WorkerKey_default : WorkerKey := MkWorkerKey false None.
Definition kWorkerKeysMax : nat := 32.

(** The idle callbacks: user code, or the wrapper [IdleTimer::Start] posts,
    which holds a weak pointer to the timer's own copy. *)
Inductive IdleUnit :=
  | IdleUser (n : Z)
  | IdleWeak (slot : nat).

Record IdleTask := MkIdleTask { idle_id_ : Z; idle_unit_ : option IdleUnit }.
Record IdleCbParam := MkIdleCbParam { did_time_out : bool; res_time : Z }.

(** The bodies of tasks.  [CUser] is user code; the others are the lambdas
    the library posts: the two stages of
    [WorkerManager::MoveTaskRunnerSpecificNoLock], the idle wrapper of
    [Worker::GetNextTask] and the callback of [BaseTimer::ScheduleNewTask]. *)
Inductive Closure :=
  | CUser (n : Z)
  | CMoveSpecific (weak_from weak_to : worker_ptr) (runner_id : Z)
  | CInstallSpecific (runner_id : Z) (weak_to : worker_ptr)
      (keys : list WorkerKey) (specific : list Z)
  | CIdle (task : IdleTask) (time : Z)
  | CTimer (weak_self : nat).

(** [Task]; a [std::unique_ptr<Task>] is an [option Task], so that a null
    pointer put in a queue is a value of the model. *)
Record Task := MkTask { task_id_ : Z; task_unit_ : option Closure }.

#[global] Instance WorkerKey_eq_dec : EqDecision WorkerKey.
Proof. solve_decision. Defined.
#[global] Instance IdleUnit_eq_dec : EqDecision IdleUnit.
Proof. solve_decision. Defined.
#[global] Instance IdleTask_eq_dec : EqDecision IdleTask.
Proof. solve_decision. Defined.
#[global] Instance Closure_eq_dec : EqDecision Closure.
Proof. solve_decision. Defined.
#[global] Instance Task_eq_dec : EqDecision Task.
Proof. solve_decision. Defined.

(** [TaskRunner::DelayedEntry]: a pair of a deadline and a task. *)
Record DelayedEntry := MkEntry { deadline : Z; delayed_task : option Task }.

(** [DelayedEntryCompare]: [left] sinks below [right]. *)
Definition DelayedEntryCompare (left right : DelayedEntry) : bool :=
  TimePoint_gt (deadline left) (deadline right).

(** ** Task runners *)

(** The state of a [TaskRunner]; [Q] is the container of delayed tasks.  The
    mutexes are left out: each critical section is one step of the model. *)
Record TaskRunner (Q : Type) := MkTaskRunner {
  tr_group_id_ : Z;
  tr_name_ : string;
  tr_has_sub_runner_ : bool;
  tr_is_schedulable_ : bool;
  tr_priority_ : Z;
  tr_time_ : Z;
  tr_id_ : Z;
  tr_task_queue_ : list (option Task);
  tr_idle_task_queue_ : list (option IdleTask);
  tr_delayed_task_queue_ : Q;
  tr_worker_ : option worker_ptr
}.
Arguments tr_group_id_ {Q} _.
Arguments tr_name_ {Q} _.
Arguments tr_has_sub_runner_ {Q} _.
Arguments tr_is_schedulable_ {Q} _.
Arguments tr_priority_ {Q} _.
Arguments tr_time_ {Q} _.
Arguments tr_id_ {Q} _.
Arguments tr_task_queue_ {Q} _.
Arguments tr_idle_task_queue_ {Q} _.
Arguments tr_delayed_task_queue_ {Q} _.
Arguments tr_worker_ {Q} _.
Arguments MkTaskRunner {Q} _ _ _ _ _ _ _ _ _ _ _.

Definition set_tr_has_sub_runner_ {Q} (v : bool) (r : TaskRunner Q) : TaskRunner Q :=
  {| tr_group_id_ := tr_group_id_ r; tr_name_ := tr_name_ r; tr_has_sub_runner_ := v; tr_is_schedulable_ := tr_is_schedulable_ r; tr_priority_ := tr_priority_ r; tr_time_ := tr_time_ r; tr_id_ := tr_id_ r; tr_task_queue_ := tr_task_queue_ r; tr_idle_task_queue_ := tr_idle_task_queue_ r; tr_delayed_task_queue_ := tr_delayed_task_queue_ r; tr_worker_ := tr_worker_ r |}.
Definition set_tr_time_ {Q} (v : Z) (r : TaskRunner Q) : TaskRunner Q :=
  {| tr_group_id_ := tr_group_id_ r; tr_name_ := tr_name_ r; tr_has_sub_runner_ := tr_has_sub_runner_ r; tr_is_schedulable_ := tr_is_schedulable_ r; tr_priority_ := tr_priority_ r; tr_time_ := v; tr_id_ := tr_id_ r; tr_task_queue_ := tr_task_queue_ r; tr_idle_task_queue_ := tr_idle_task_queue_ r; tr_delayed_task_queue_ := tr_delayed_task_queue_ r; tr_worker_ := tr_worker_ r |}.
Definition set_tr_task_queue_ {Q} (v : list (option Task)) (r : TaskRunner Q) : TaskRunner Q :=
  {| tr_group_id_ := tr_group_id_ r; tr_name_ := tr_name_ r; tr_has_sub_runner_ := tr_has_sub_runner_ r; tr_is_schedulable_ := tr_is_schedulable_ r; tr_priority_ := tr_priority_ r; tr_time_ := tr_time_ r; tr_id_ := tr_id_ r; tr_task_queue_ := v; tr_idle_task_queue_ := tr_idle_task_queue_ r; tr_delayed_task_queue_ := tr_delayed_task_queue_ r; tr_worker_ := tr_worker_ r |}.
Definition set_tr_idle_task_queue_ {Q} (v : list (option IdleTask)) (r : TaskRunner Q) : TaskRunner Q :=
  {| tr_group_id_ := tr_group_id_ r; tr_name_ := tr_name_ r; tr_has_sub_runner_ := tr_has_sub_runner_ r; tr_is_schedulable_ := tr_is_schedulable_ r; tr_priority_ := tr_priority_ r; tr_time_ := tr_time_ r; tr_id_ := tr_id_ r; tr_task_queue_ := tr_task_queue_ r; tr_idle_task_queue_ := v; tr_delayed_task_queue_ := tr_delayed_task_queue_ r; tr_worker_ := tr_worker_ r |}.
Definition set_tr_delayed_task_queue_ {Q} (v : Q) (r : TaskRunner Q) : TaskRunner Q :=
  {| tr_group_id_ := tr_group_id_ r; tr_name_ := tr_name_ r; tr_has_sub_runner_ := tr_has_sub_runner_ r; tr_is_schedulable_ := tr_is_schedulable_ r; tr_priority_ := tr_priority_ r; tr_time_ := tr_time_ r; tr_id_ := tr_id_ r; tr_task_queue_ := tr_task_queue_ r; tr_idle_task_queue_ := tr_idle_task_queue_ r; tr_delayed_task_queue_ := v; tr_worker_ := tr_worker_ r |}.
Definition set_tr_worker_ {Q} (v : option worker_ptr) (r : TaskRunner Q) : TaskRunner Q :=
  {| tr_group_id_ := tr_group_id_ r; tr_name_ := tr_name_ r; tr_has_sub_runner_ := tr_has_sub_runner_ r; tr_is_schedulable_ := tr_is_schedulable_ r; tr_priority_ := tr_priority_ r; tr_time_ := tr_time_ r; tr_id_ := tr_id_ r; tr_task_queue_ := tr_task_queue_ r; tr_idle_task_queue_ := tr_idle_task_queue_ r; tr_delayed_task_queue_ := tr_delayed_task_queue_ r; tr_worker_ := v |}.

(** [GetId]/[GetPriority] convert the stored [uint32_t] to [int32_t]. *)
Definition GetId {Q} (r : TaskRunner Q) : Z := wrap_s 32 (tr_id_ r).
Definition GetPriority {Q} (r : TaskRunner Q) : Z := wrap_s 32 (tr_priority_ r).
Definition GetGroupId {Q} (r : TaskRunner Q) : Z := tr_group_id_ r.
Definition GetTime {Q} (r : TaskRunner Q) : Z := tr_time_ r.
Definition SetTime {Q} (time : Z) (r : TaskRunner Q) : TaskRunner Q := set_tr_time_ time r.
Definition IsSchedulable {Q} (r : TaskRunner Q) : bool := tr_is_schedulable_ r.
Definition AddTime {Q} (time : Z) (r : TaskRunner Q) : outcome (TaskRunner Q) :=
  let! t := i64 (tr_time_ r + time) in Ok (set_tr_time_ t r).

Definition kDefaultGroupId : Z := 0.

(** ** Workers *)

(** A group: the task runners that run as one stack, bottom first. *)
Abbreviation Group := (list runner_ptr) (only parsing).

(** The state of a [Worker].  [w_group_id_] is [None] until it is first
    assigned: no constructor initialises [group_id_]. *)
Record Worker := MkWorker {
  w_is_schedulable_ : bool;
  w_name_ : string;
  w_is_terminated_ : bool;
  w_need_balance_ : bool;
  w_is_stacking_mode_ : bool;
  w_min_wait_time_ : Z;
  w_next_task_time_ : Z;
  w_has_migration_data_ : bool;
  w_is_exit_immediately_ : bool;
  w_group_id_ : option Z;
  w_running_groups_ : list Group;
  w_pending_groups_ : list Group;
  w_worker_key_map_ : gmap Z (list WorkerKey);
  w_specific_map_ : gmap Z (list Z);
  w_immediate_task_queue_ : list (option Task)
}.

Definition set_w_is_terminated_ (v : bool) (r : Worker) : Worker :=
  {| w_is_schedulable_ := w_is_schedulable_ r; w_name_ := w_name_ r; w_is_terminated_ := v; w_need_balance_ := w_need_balance_ r; w_is_stacking_mode_ := w_is_stacking_mode_ r; w_min_wait_time_ := w_min_wait_time_ r; w_next_task_time_ := w_next_task_time_ r; w_has_migration_data_ := w_has_migration_data_ r; w_is_exit_immediately_ := w_is_exit_immediately_ r; w_group_id_ := w_group_id_ r; w_running_groups_ := w_running_groups_ r; w_pending_groups_ := w_pending_groups_ r; w_worker_key_map_ := w_worker_key_map_ r; w_specific_map_ := w_specific_map_ r; w_immediate_task_queue_ := w_immediate_task_queue_ r |}.
Definition set_w_need_balance_ (v : bool) (r : Worker) : Worker :=
  {| w_is_schedulable_ := w_is_schedulable_ r; w_name_ := w_name_ r; w_is_terminated_ := w_is_terminated_ r; w_need_balance_ := v; w_is_stacking_mode_ := w_is_stacking_mode_ r; w_min_wait_time_ := w_min_wait_time_ r; w_next_task_time_ := w_next_task_time_ r; w_has_migration_data_ := w_has_migration_data_ r; w_is_exit_immediately_ := w_is_exit_immediately_ r; w_group_id_ := w_group_id_ r; w_running_groups_ := w_running_groups_ r; w_pending_groups_ := w_pending_groups_ r; w_worker_key_map_ := w_worker_key_map_ r; w_specific_map_ := w_specific_map_ r; w_immediate_task_queue_ := w_immediate_task_queue_ r |}.
Definition set_w_is_stacking_mode_ (v : bool) (r : Worker) : Worker :=
  {| w_is_schedulable_ := w_is_schedulable_ r; w_name_ := w_name_ r; w_is_terminated_ := w_is_terminated_ r; w_need_balance_ := w_need_balance_ r; w_is_stacking_mode_ := v; w_min_wait_time_ := w_min_wait_time_ r; w_next_task_time_ := w_next_task_time_ r; w_has_migration_data_ := w_has_migration_data_ r; w_is_exit_immediately_ := w_is_exit_immediately_ r; w_group_id_ := w_group_id_ r; w_running_groups_ := w_running_groups_ r; w_pending_groups_ := w_pending_groups_ r; w_worker_key_map_ := w_worker_key_map_ r; w_specific_map_ := w_specific_map_ r; w_immediate_task_queue_ := w_immediate_task_queue_ r |}.
Definition set_w_min_wait_time_ (v : Z) (r : Worker) : Worker :=
  {| w_is_schedulable_ := w_is_schedulable_ r; w_name_ := w_name_ r; w_is_terminated_ := w_is_terminated_ r; w_need_balance_ := w_need_balance_ r; w_is_stacking_mode_ := w_is_stacking_mode_ r; w_min_wait_time_ := v; w_next_task_time_ := w_next_task_time_ r; w_has_migration_data_ := w_has_migration_data_ r; w_is_exit_immediately_ := w_is_exit_immediately_ r; w_group_id_ := w_group_id_ r; w_running_groups_ := w_running_groups_ r; w_pending_groups_ := w_pending_groups_ r; w_worker_key_map_ := w_worker_key_map_ r; w_specific_map_ := w_specific_map_ r; w_immediate_task_queue_ := w_immediate_task_queue_ r |}.
Definition set_w_next_task_time_ (v : Z) (r : Worker) : Worker :=
  {| w_is_schedulable_ := w_is_schedulable_ r; w_name_ := w_name_ r; w_is_terminated_ := w_is_terminated_ r; w_need_balance_ := w_need_balance_ r; w_is_stacking_mode_ := w_is_stacking_mode_ r; w_min_wait_time_ := w_min_wait_time_ r; w_next_task_time_ := v; w_has_migration_data_ := w_has_migration_data_ r; w_is_exit_immediately_ := w_is_exit_immediately_ r; w_group_id_ := w_group_id_ r; w_running_groups_ := w_running_groups_ r; w_pending_groups_ := w_pending_groups_ r; w_worker_key_map_ := w_worker_key_map_ r; w_specific_map_ := w_specific_map_ r; w_immediate_task_queue_ := w_immediate_task_queue_ r |}.
Definition set_w_group_id_ (v : option Z) (r : Worker) : Worker :=
  {| w_is_schedulable_ := w_is_schedulable_ r; w_name_ := w_name_ r; w_is_terminated_ := w_is_terminated_ r; w_need_balance_ := w_need_balance_ r; w_is_stacking_mode_ := w_is_stacking_mode_ r; w_min_wait_time_ := w_min_wait_time_ r; w_next_task_time_ := w_next_task_time_ r; w_has_migration_data_ := w_has_migration_data_ r; w_is_exit_immediately_ := w_is_exit_immediately_ r; w_group_id_ := v; w_running_groups_ := w_running_groups_ r; w_pending_groups_ := w_pending_groups_ r; w_worker_key_map_ := w_worker_key_map_ r; w_specific_map_ := w_specific_map_ r; w_immediate_task_queue_ := w_immediate_task_queue_ r |}.
Definition set_w_running_groups_ (v : list Group) (r : Worker) : Worker :=
  {| w_is_schedulable_ := w_is_schedulable_ r; w_name_ := w_name_ r; w_is_terminated_ := w_is_terminated_ r; w_need_balance_ := w_need_balance_ r; w_is_stacking_mode_ := w_is_stacking_mode_ r; w_min_wait_time_ := w_min_wait_time_ r; w_next_task_time_ := w_next_task_time_ r; w_has_migration_data_ := w_has_migration_data_ r; w_is_exit_immediately_ := w_is_exit_immediately_ r; w_group_id_ := w_group_id_ r; w_running_groups_ := v; w_pending_groups_ := w_pending_groups_ r; w_worker_key_map_ := w_worker_key_map_ r; w_specific_map_ := w_specific_map_ r; w_immediate_task_queue_ := w_immediate_task_queue_ r |}.
Definition set_w_pending_groups_ (v : list Group) (r : Worker) : Worker :=
  {| w_is_schedulable_ := w_is_schedulable_ r; w_name_ := w_name_ r; w_is_terminated_ := w_is_terminated_ r; w_need_balance_ := w_need_balance_ r; w_is_stacking_mode_ := w_is_stacking_mode_ r; w_min_wait_time_ := w_min_wait_time_ r; w_next_task_time_ := w_next_task_time_ r; w_has_migration_data_ := w_has_migration_data_ r; w_is_exit_immediately_ := w_is_exit_immediately_ r; w_group_id_ := w_group_id_ r; w_running_groups_ := w_running_groups_ r; w_pending_groups_ := v; w_worker_key_map_ := w_worker_key_map_ r; w_specific_map_ := w_specific_map_ r; w_immediate_task_queue_ := w_immediate_task_queue_ r |}.
Definition set_w_worker_key_map_ (v : gmap Z (list WorkerKey)) (r : Worker) : Worker :=
  {| w_is_schedulable_ := w_is_schedulable_ r; w_name_ := w_name_ r; w_is_terminated_ := w_is_terminated_ r; w_need_balance_ := w_need_balance_ r; w_is_stacking_mode_ := w_is_stacking_mode_ r; w_min_wait_time_ := w_min_wait_time_ r; w_next_task_time_ := w_next_task_time_ r; w_has_migration_data_ := w_has_migration_data_ r; w_is_exit_immediately_ := w_is_exit_immediately_ r; w_group_id_ := w_group_id_ r; w_running_groups_ := w_running_groups_ r; w_pending_groups_ := w_pending_groups_ r; w_worker_key_map_ := v; w_specific_map_ := w_specific_map_ r; w_immediate_task_queue_ := w_immediate_task_queue_ r |}.
Definition set_w_specific_map_ (v : gmap Z (list Z)) (r : Worker) : Worker :=
  {| w_is_schedulable_ := w_is_schedulable_ r; w_name_ := w_name_ r; w_is_terminated_ := w_is_terminated_ r; w_need_balance_ := w_need_balance_ r; w_is_stacking_mode_ := w_is_stacking_mode_ r; w_min_wait_time_ := w_min_wait_time_ r; w_next_task_time_ := w_next_task_time_ r; w_has_migration_data_ := w_has_migration_data_ r; w_is_exit_immediately_ := w_is_exit_immediately_ r; w_group_id_ := w_group_id_ r; w_running_groups_ := w_running_groups_ r; w_pending_groups_ := w_pending_groups_ r; w_worker_key_map_ := w_worker_key_map_ r; w_specific_map_ := v; w_immediate_task_queue_ := w_immediate_task_queue_ r |}.
Definition set_w_immediate_task_queue_ (v : list (option Task)) (r : Worker) : Worker :=
  {| w_is_schedulable_ := w_is_schedulable_ r; w_name_ := w_name_ r; w_is_terminated_ := w_is_terminated_ r; w_need_balance_ := w_need_balance_ r; w_is_stacking_mode_ := w_is_stacking_mode_ r; w_min_wait_time_ := w_min_wait_time_ r; w_next_task_time_ := w_next_task_time_ r; w_has_migration_data_ := w_has_migration_data_ r; w_is_exit_immediately_ := w_is_exit_immediately_ r; w_group_id_ := w_group_id_ r; w_running_groups_ := w_running_groups_ r; w_pending_groups_ := w_pending_groups_ r; w_worker_key_map_ := w_worker_key_map_ r; w_specific_map_ := w_specific_map_ r; w_immediate_task_queue_ := v |}.

(** The thread-local variables of worker.cc, one copy per worker thread. *)
Record Tls := MkTls {
  tls_local_worker_id : Z;
  tls_is_task_running : bool;
  tls_local_runner : option runner_ptr;
  tls_curr_group : Group
}.

Definition set_tls_local_worker_id (v : Z) (r : Tls) : Tls :=
  {| tls_local_worker_id := v; tls_is_task_running := tls_is_task_running r; tls_local_runner := tls_local_runner r; tls_curr_group := tls_curr_group r |}.
Definition set_tls_is_task_running (v : bool) (r : Tls) : Tls :=
  {| tls_local_worker_id := tls_local_worker_id r; tls_is_task_running := v; tls_local_runner := tls_local_runner r; tls_curr_group := tls_curr_group r |}.
Definition set_tls_local_runner (v : option runner_ptr) (r : Tls) : Tls :=
  {| tls_local_worker_id := tls_local_worker_id r; tls_is_task_running := tls_is_task_running r; tls_local_runner := v; tls_curr_group := tls_curr_group r |}.
Definition set_tls_curr_group (v : Group) (r : Tls) : Tls :=
  {| tls_local_worker_id := tls_local_worker_id r; tls_is_task_running := tls_is_task_running r; tls_local_runner := tls_local_runner r; tls_curr_group := v |}.

Definition tls_init : Tls := MkTls 0 false None [].

(** ** The world *)

(** Calls that leave the library: platform primitives and user callbacks. *)
Inductive Event :=
  | EvCvNotifyOne (w : worker_ptr)
  | EvCvWait (w : worker_ptr)
  | EvCvWaitFor (w : worker_ptr) (nanos : Z)
  | EvTimerfdSet (w : worker_ptr) (sec nsec : Z)
  | EvSetNextFireDate (w : worker_ptr) (delay : option spec_float) (* in seconds, from now *)
  | EvThreadStart (w : worker_ptr)
  | EvSetThreadName (name : string)
  | EvJoin (w : worker_ptr)
  | EvRunUser (n : Z)
  | EvRunIdle (n : Z) (param : IdleCbParam)
  | EvTimer (weak_self : nat)
  | EvDestruct (destruct data : Z).

Record World (Q : Type) := MkWorld {
  wd_runners : gmap runner_ptr (TaskRunner Q);
  wd_workers : gmap worker_ptr Worker;
  wd_tls : gmap worker_ptr Tls;
  wd_ticks : nat;
  wd_g_next_task_id : Z;
  wd_global_task_runner_id : Z;
  wd_global_worker_id : Z;
  wd_events : list Event
}.
Arguments wd_runners {Q} _.
Arguments wd_workers {Q} _.
Arguments wd_tls {Q} _.
Arguments wd_ticks {Q} _.
Arguments wd_g_next_task_id {Q} _.
Arguments wd_global_task_runner_id {Q} _.
Arguments wd_global_worker_id {Q} _.
Arguments wd_events {Q} _.
Arguments MkWorld {Q} _ _ _ _ _ _ _ _.

Definition set_wd_runners {Q} (v : gmap runner_ptr (TaskRunner Q)) (r : World Q) : World Q :=
  {| wd_runners := v; wd_workers := wd_workers r; wd_tls := wd_tls r; wd_ticks := wd_ticks r; wd_g_next_task_id := wd_g_next_task_id r; wd_global_task_runner_id := wd_global_task_runner_id r; wd_global_worker_id := wd_global_worker_id r; wd_events := wd_events r |}.
Definition set_wd_workers {Q} (v : gmap worker_ptr Worker) (r : World Q) : World Q :=
  {| wd_runners := wd_runners r; wd_workers := v; wd_tls := wd_tls r; wd_ticks := wd_ticks r; wd_g_next_task_id := wd_g_next_task_id r; wd_global_task_runner_id := wd_global_task_runner_id r; wd_global_worker_id := wd_global_worker_id r; wd_events := wd_events r |}.
Definition set_wd_tls {Q} (v : gmap worker_ptr Tls) (r : World Q) : World Q :=
  {| wd_runners := wd_runners r; wd_workers := wd_workers r; wd_tls := v; wd_ticks := wd_ticks r; wd_g_next_task_id := wd_g_next_task_id r; wd_global_task_runner_id := wd_global_task_runner_id r; wd_global_worker_id := wd_global_worker_id r; wd_events := wd_events r |}.
Definition set_wd_ticks {Q} (v : nat) (r : World Q) : World Q :=
  {| wd_runners := wd_runners r; wd_workers := wd_workers r; wd_tls := wd_tls r; wd_ticks := v; wd_g_next_task_id := wd_g_next_task_id r; wd_global_task_runner_id := wd_global_task_runner_id r; wd_global_worker_id := wd_global_worker_id r; wd_events := wd_events r |}.
Definition set_wd_g_next_task_id {Q} (v : Z) (r : World Q) : World Q :=
  {| wd_runners := wd_runners r; wd_workers := wd_workers r; wd_tls := wd_tls r; wd_ticks := wd_ticks r; wd_g_next_task_id := v; wd_global_task_runner_id := wd_global_task_runner_id r; wd_global_worker_id := wd_global_worker_id r; wd_events := wd_events r |}.
Definition set_wd_global_task_runner_id {Q} (v : Z) (r : World Q) : World Q :=
  {| wd_runners := wd_runners r; wd_workers := wd_workers r; wd_tls := wd_tls r; wd_ticks := wd_ticks r; wd_g_next_task_id := wd_g_next_task_id r; wd_global_task_runner_id := v; wd_global_worker_id := wd_global_worker_id r; wd_events := wd_events r |}.
Definition set_wd_global_worker_id {Q} (v : Z) (r : World Q) : World Q :=
  {| wd_runners := wd_runners r; wd_workers := wd_workers r; wd_tls := wd_tls r; wd_ticks := wd_ticks r; wd_g_next_task_id := wd_g_next_task_id r; wd_global_task_runner_id := wd_global_task_runner_id r; wd_global_worker_id := v; wd_events := wd_events r |}.
Definition set_wd_events {Q} (v : list Event) (r : World Q) : World Q :=
  {| wd_runners := wd_runners r; wd_workers := wd_workers r; wd_tls := wd_tls r; wd_ticks := wd_ticks r; wd_g_next_task_id := wd_g_next_task_id r; wd_global_task_runner_id := wd_global_task_runner_id r; wd_global_worker_id := wd_global_worker_id r; wd_events := v |}.

Definition M (Q A : Type) : Type := ST (World Q) A.

Section Access.
Context {Q : Type}.

Definition log (e : list Event) : M Q unit :=
  st_modify (λ w, set_wd_events (wd_events w ++ e) w).

(** Dereferencing a [shared_ptr]. *)
Definition get_runner (p : runner_ptr) : M Q (TaskRunner Q) := λ w,
  match wd_runners w !! p with Some r => Ok (r, w) | None => Fault NullDeref end.
Definition put_runner (p : runner_ptr) (r : TaskRunner Q) : M Q unit :=
  st_modify (λ w, set_wd_runners (<[p := r]> (wd_runners w)) w).
Definition get_worker (p : worker_ptr) : M Q Worker := λ w,
  match wd_workers w !! p with Some r => Ok (r, w) | None => Fault NullDeref end.
Definition put_worker (p : worker_ptr) (r : Worker) : M Q unit :=
  st_modify (λ w, set_wd_workers (<[p := r]> (wd_workers w)) w).
Definition modify_worker (p : worker_ptr) (g : Worker → Worker) : M Q unit :=
  do! r := get_worker p in put_worker p (g r).

(** [weak_ptr::lock]: succeeds while the object is alive. *)
Definition lock_worker (weak : option worker_ptr) : M Q (option worker_ptr) := λ w,
  Ok (match weak with
      | Some p => match wd_workers w !! p with Some _ => Some p | None => None end
      | None => None
      end, w).

Definition tls_of (w : World Q) (p : worker_ptr) : Tls := default tls_init (wd_tls w !! p).
Definition get_tls (p : worker_ptr) : M Q Tls := λ w, Ok (tls_of w p, w).
Definition modify_tls (p : worker_ptr) (g : Tls → Tls) : M Q unit :=
  st_modify (λ w, set_wd_tls (<[p := g (tls_of w p)]> (wd_tls w)) w).

(** [TimePoint::Now]: the next reading of the clock. *)
Definition Now (clock : nat → Z) : M Q Z := λ w,
  Ok (clock (wd_ticks w), set_wd_ticks (S (wd_ticks w)) w).

(** [Task::Task]: a fresh id from the process-wide 32-bit counter. *)
Definition Task_new (unit_ : option Closure) : M Q Task := λ w,
  Ok (MkTask (wd_g_next_task_id w) unit_,
      set_wd_g_next_task_id (wrap_u 32 (wd_g_next_task_id w + 1)) w).

(** [TDF_BASE_CHECK]: abort the process when the condition is false. *)
Definition TDF_BASE_CHECK (b : bool) : M Q unit := st_lift (guard_f b CheckFailed).
End Access.

(** ** Interface: what a worker needs from its platform thread

    [Worker] leaves [Notify] and [WaitFor] virtual; a backend says which
    platform calls they issue.  Neither can touch the rest of the world. *)
Class WorkerBackend := {
  backend_Notify : worker_ptr → Worker → list Event;
  backend_WaitFor : worker_ptr → Worker → Z → list Event
}.

Section Virtual.
Context {Q : Type} `{WorkerBackend}.

Definition Notify (p : worker_ptr) : M Q unit :=
  do! w := get_worker p in log (backend_Notify p w).
Definition WaitFor (p : worker_ptr) (delta : Z) : M Q unit :=
  do! w := get_worker p in log (backend_WaitFor p w delta).
End Virtual.

(** ** Running the primitive steps *)

Section Steps.
Context {Q A : Type}.
Implicit Types s : World Q.

Lemma bind_get_worker p w (k : Worker → M Q A) s :
  wd_workers s !! p = Some w → st_bind (get_worker p) k s = k w s.
Proof. unfold st_bind, get_worker. by intros ->. Qed.

Lemma bind_get_runner p r (k : TaskRunner Q → M Q A) s :
  wd_runners s !! p = Some r → st_bind (get_runner p) k s = k r s.
Proof. unfold st_bind, get_runner. by intros ->. Qed.

Lemma bind_lift {B} (o : outcome B) b (k : B → M Q A) s :
  o = Ok b → st_bind (st_lift o) k s = k b s.
Proof. by intros ->. Qed.

Lemma bind_lift_fault {B} (o : outcome B) f (k : B → M Q A) s :
  o = Fault f → st_bind (st_lift o) k s = Fault f.
Proof. by intros ->. Qed.

Lemma bind_put_runner p r (k : unit → M Q A) s :
  st_bind (put_runner p r) k s = k tt (set_wd_runners (<[p := r]> (wd_runners s)) s).
Proof. done. Qed.

Lemma bind_put_worker p w (k : unit → M Q A) s :
  st_bind (put_worker p w) k s = k tt (set_wd_workers (<[p := w]> (wd_workers s)) s).
Proof. done. Qed.

Lemma bind_Now clock (k : Z → M Q A) s :
  st_bind (Now clock) k s = k (clock (wd_ticks s)) (set_wd_ticks (S (wd_ticks s)) s).
Proof. done. Qed.

Lemma bind_ret {B} (b : B) (k : B → M Q A) s : st_bind (st_ret b) k s = k b s.
Proof. done. Qed.

Lemma st_bind_get (k : World Q → M Q A) s : st_bind st_get k s = k s s.
Proof. done. Qed.

Lemma st_bind_modify f (k : unit → M Q A) s : st_bind (st_modify f) k s = k tt (f s).
Proof. done. Qed.

Lemma bind_assoc {B C} (m : M Q B) (k : B → M Q C) (l : C → M Q A) s :
  st_bind (st_bind m k) l s = st_bind m (λ b, st_bind (k b) l) s.
Proof. unfold st_bind. by destruct (m s) as [[]|]. Qed.
End Steps.

(** Run the primitive steps at the head of a computation, using what the
    context knows about the heaps. *)
Ltac mrun :=
  repeat first
    [ rewrite bind_assoc | rewrite bind_ret | rewrite bind_put_runner
    | rewrite bind_put_worker | rewrite bind_Now | rewrite st_bind_get | rewrite st_bind_modify
    | erewrite bind_get_worker by eassumption
    | erewrite bind_get_runner by eassumption
    | erewrite bind_lift by eassumption
    | progress cbv beta match ].

(** ** What a computation leaves alone *)

Section Keeps.
Context {Q : Type}.

(** Whenever [c] returns, the observation [f] of the world is what it was. *)
Definition keeps {A B} (f : World Q → B) (c : M Q A) : Prop :=
  ∀ s a s', c s = Ok (a, s') → f s' = f s.

Context {B : Type} (f : World Q → B).

Lemma keeps_ret {A} (a : A) : keeps f (st_ret a).
Proof. intros s a' s' E. by injection E as _ <-. Qed.

Lemma keeps_get : keeps f st_get.
Proof. intros s a' s' E. by injection E as _ <-. Qed.

Lemma keeps_fault {A} e : keeps f (st_fault e : M Q A).
Proof. intros s a s' E. discriminate. Qed.

Lemma keeps_lift {A} (o : outcome A) : keeps f (st_lift o).
Proof. intros s a s' E. by apply st_lift_Ok in E as [_ ->]. Qed.

Lemma keeps_check b : keeps f (TDF_BASE_CHECK b).
Proof. apply keeps_lift. Qed.

Lemma keeps_get_runner p : keeps f (get_runner p).
Proof. intros s a s' E. unfold get_runner in E. case_match; by simplify_eq. Qed.

Lemma keeps_get_worker p : keeps f (get_worker p).
Proof. intros s a s' E. unfold get_worker in E. case_match; by simplify_eq. Qed.

Lemma keeps_lock_worker p : keeps f (lock_worker p).
Proof. intros s a s' E. unfold lock_worker in E. by simplify_eq. Qed.

Lemma keeps_modify g : (∀ s, f (g s) = f s) → keeps f (st_modify g).
Proof. intros Hg s a s' E. injection E as _ <-. apply Hg. Qed.

Lemma keeps_bind {A C} (c : M Q A) (k : A → M Q C) :
  keeps f c → (∀ a, keeps f (k a)) → keeps f (st_bind c k).
Proof.
  intros Hc Hk s a s' (a1 & s1 & E1 & E2)%st_bind_Ok.
  rewrite (Hk _ _ _ _ E2). by eapply Hc.
Qed.

Lemma keeps_iter {A} (g : A → M Q unit) l : (∀ x, keeps f (g x)) → keeps f (st_iter g l).
Proof.
  intros Hg. induction l as [|x l IH]; cbn; [apply keeps_ret|]. by apply keeps_bind.
Qed.
End Keeps.

#[export] Hint Resolve keeps_ret keeps_get keeps_fault keeps_lift keeps_check keeps_get_runner
  keeps_get_worker keeps_lock_worker keeps_bind keeps_iter : footstone.

(** Walk through a computation, leaving the steps the hints do not know. *)
Ltac keeps_auto :=
  repeat first
    [ solve [auto with footstone nocore]
    | match goal with
      | |- ∀ _, keeps _ _ => intros
      | |- keeps _ (st_bind _ _) => apply keeps_bind
      | |- keeps _ (st_iter _ _) => apply keeps_iter
      | |- keeps _ (match ?x with _ => _ end) => destruct x
      | |- keeps _ (let _ := ?x in _) => cbv zeta
      end ].
