(* ===== verification/TaskRunner.v ===== *)
(** * TaskRunner: the three task queues

    Models [src/footstone/task_runner.cc]: the immediate queue
    ([task_queue_]), the delayed queue ordered by deadline and the idle queue,
    with every operation that pushes to or pops from them.  Operations on the
    queues alone are functions on [TaskRunner Q]; those that also wake the
    worker run in the monad [M].  The [RunnerKey...] operations, which go
    through the worker, are in WorkerKeys.v, and the sub-runner operations in
    WorkerLoop.v. *)

From S2P Require Import Prelude Time PriorityQueue Store.
From Stdlib Require Import Sorted.

(** ** Operations *)

Section Operations.
Context {Q : Type} `{PriorityQueue DelayedEntry Q}.

(** The constructor, given the id drawn from [global_task_runner_id]. *)
Definition TaskRunner_init (group_id priority : Z) (is_schedulable : bool)
    (name : string) (id : Z) : TaskRunner Q :=
  MkTaskRunner group_id name false is_schedulable priority TimeDelta_Zero id
    [] [] pq_empty None.

Definition TaskRunner_new (group_id priority : Z) (is_schedulable : bool)
    (name : string) : M Q (TaskRunner Q) := λ w,
  Ok (TaskRunner_init group_id priority is_schedulable name (wd_global_task_runner_id w),
      set_wd_global_task_runner_id (wrap_u 32 (wd_global_task_runner_id w + 1)) w).

Definition push_task (task : option Task) (r : TaskRunner Q) : TaskRunner Q :=
  set_tr_task_queue_ (tr_task_queue_ r ++ [task]) r.

Definition PopTask (r : TaskRunner Q) : option Task * TaskRunner Q :=
  match tr_task_queue_ r with
  | result :: rest => (result, set_tr_task_queue_ rest r)
  | [] => (None, r)
  end.

Definition PopIdleTask (r : TaskRunner Q) : option IdleTask * TaskRunner Q :=
  match tr_idle_task_queue_ r with
  | result :: rest => (result, set_tr_idle_task_queue_ rest r)
  | [] => (None, r)
  end.

(** Moves the task out of the top entry and leaves the entry, now holding a
    null pointer, in the queue. *)
Definition GetTopDelayTask (r : TaskRunner Q) : option Task * TaskRunner Q :=
  match tr_task_queue_ r, pq_top (tr_delayed_task_queue_ r) with
  | [], Some top =>
      (delayed_task top, set_tr_delayed_task_queue_
                (pq_set_top (MkEntry (deadline top) None) (tr_delayed_task_queue_ r)) r)
  | _, _ => (None, r)
  end.

Definition popTaskFromDelayedQueueNoLock (now : Z) (r : TaskRunner Q) :
    option Task * TaskRunner Q :=
  match pq_top (tr_delayed_task_queue_ r) with
  | None => (None, r)
  | Some deadline_and_task =>
      if TimePoint_gt (deadline deadline_and_task) now then (None, r)
      else (delayed_task deadline_and_task,
            set_tr_delayed_task_queue_ (pq_pop (tr_delayed_task_queue_ r)) r)
  end.

(** The [while (task)] loop of [GetNext]. *)
Fixpoint GetNext_loop (fuel : nat) (now : Z) (task : option Task) (r : TaskRunner Q) :
    outcome (TaskRunner Q) :=
  match task with
  | None => Ok r
  | Some _ =>
      match fuel with
      | O => Fault OutOfFuel
      | S fuel =>
          let '(task', r') := popTaskFromDelayedQueueNoLock now (push_task task r) in
          GetNext_loop fuel now task' r'
      end
  end.

(** The fuel is one more than the number of delayed tasks; [GetNext_total]
    shows that it is enough. *)
Definition GetNext (now : Z) (r : TaskRunner Q) : outcome (option Task * TaskRunner Q) :=
  let '(task, r1) := popTaskFromDelayedQueueNoLock now r in
  let! r2 := GetNext_loop (S (pq_size (tr_delayed_task_queue_ r))) now task r1 in
  match tr_task_queue_ r2 with
  | result :: rest => Ok (result, set_tr_task_queue_ rest r2)
  | [] => Ok (None, r2)
  end.

Definition GetNextTimeDelta (now : Z) (r : TaskRunner Q) : outcome Z :=
  match pq_top (tr_delayed_task_queue_ r) with
  | Some delayed_task => TimePoint_minus (deadline delayed_task) now
  | None => Ok TimeDelta_Max
  end.

(** [while (!queue.empty()) queue.pop()]. *)
Fixpoint pq_pop_all (fuel : nat) (q : Q) : outcome Q :=
  if pq_is_empty q then Ok q
  else match fuel with O => Fault OutOfFuel | S fuel => pq_pop_all fuel (pq_pop q) end.

(** The third loop of [Clear] tests the idle queue and pops the delayed one. *)
Fixpoint Clear_idle_loop (fuel : nat) (r : TaskRunner Q) : outcome (TaskRunner Q) :=
  match tr_idle_task_queue_ r with
  | [] => Ok r
  | _ :: _ =>
      if pq_is_empty (tr_delayed_task_queue_ r) then Fault EmptyAccess
      else match fuel with
           | O => Fault OutOfFuel
           | S fuel => Clear_idle_loop fuel
               (set_tr_delayed_task_queue_ (pq_pop (tr_delayed_task_queue_ r)) r)
           end
  end.

Definition Clear (r : TaskRunner Q) : outcome (TaskRunner Q) :=
  let r1 := set_tr_task_queue_ [] r in
  let! q := pq_pop_all (pq_size (tr_delayed_task_queue_ r1)) (tr_delayed_task_queue_ r1) in
  let r2 := set_tr_delayed_task_queue_ q r1 in
  Clear_idle_loop (pq_size q) r2.

Context `{WorkerBackend}.

Definition NotifyWorker (p : runner_ptr) : M Q unit :=
  do! r := get_runner p in
  do! worker := lock_worker (tr_worker_ r) in
  match worker with
  | Some w => Notify w
  | None => st_fault CheckFailed
  end.

Definition PostTask (p : runner_ptr) (task : option Task) : M Q unit :=
  do! r := get_runner p in
  do! _ := put_runner p (push_task task r) in
  NotifyWorker p.

Definition push_delayed (e : DelayedEntry) (r : TaskRunner Q) : TaskRunner Q :=
  set_tr_delayed_task_queue_ (pq_push e (tr_delayed_task_queue_ r)) r.

Definition PostDelayedTask (clock : nat → Z) (p : runner_ptr) (task : option Task)
    (delay : Z) : M Q unit :=
  do! r := get_runner p in
  do! now := Now clock in
  do! deadline := st_lift (TimePoint_plus_delta now delay) in
  do! _ := put_runner p (push_delayed (MkEntry deadline task) r) in
  NotifyWorker p.

(** The templates: the callable, bound to its arguments and packaged, becomes
    the unit of a new task; what it returns or throws is never looked at. *)
Definition PostTask_callable (p : runner_ptr) (f : Closure) : M Q unit :=
  do! task := Task_new (Some f) in PostTask p (Some task).
Definition PostDelayedTask_callable (clock : nat → Z) (p : runner_ptr) (f : Closure)
    (delay : Z) : M Q unit :=
  do! task := Task_new (Some f) in PostDelayedTask clock p (Some task) delay.

Definition PostIdleTask (p : runner_ptr) (task : option IdleTask) : M Q unit :=
  do! r := get_runner p in
  do! _ := put_runner p (set_tr_idle_task_queue_ (tr_idle_task_queue_ r ++ [task]) r) in
  NotifyWorker p.

(** A runner that can be posted to: alive, with a live worker. *)
Definition postable (p : runner_ptr) (r : TaskRunner Q) (w : World Q) : Prop :=
  wd_runners w !! p = Some r ∧
  ∃ wp wk, tr_worker_ r = Some wp ∧ wd_workers w !! wp = Some wk.

Lemma NotifyWorker_run p r (w : World Q) :
  postable p r w →
  ∃ wp wk, NotifyWorker p w = Ok (tt, set_wd_events (wd_events w ++ backend_Notify wp wk) w).
Proof.
  intros (Hr & wp & wk & Hwp & Hw). exists wp, wk. unfold NotifyWorker. mrun.
  unfold lock_worker, st_bind at 1. rewrite Hwp, Hw. unfold Notify. by mrun.
Qed.
End Operations.

(** ** The queues of one runner *)

Section Queues.
Context {Q : Type} `{PriorityQueueLaws DelayedEntry Q deadline}.
Implicit Types r : TaskRunner Q.

(** The invariant of the delayed queue. *)
Definition tr_wf r : Prop := pq_wf (tr_delayed_task_queue_ r).

(** No null pointer waits in the delayed queue (what every caller that posts
    a real task maintains). *)
Definition no_null_delayed r : Prop :=
  Forall (λ e : DelayedEntry, delayed_task e ≠ None) (pq_elems (tr_delayed_task_queue_ r)).

(** [r'] differs from [r] in the two queues [GetNext] works on and nothing
    else. *)
Definition same_but_queues r r' : Prop :=
  r' = set_tr_task_queue_ (tr_task_queue_ r')
         (set_tr_delayed_task_queue_ (tr_delayed_task_queue_ r') r).

Lemma same_but_queues_trans r1 r2 r3 :
  same_but_queues r1 r2 → same_but_queues r2 r3 → same_but_queues r1 r3.
Proof. unfold same_but_queues. intros -> ->. by destruct r1. Qed.

(** What one pop of the delayed queue does: nothing when no entry is due, and
    otherwise it takes an entry of least deadline. *)
Lemma pop_delayed_cases now r :
  tr_wf r →
  (popTaskFromDelayedQueueNoLock now r = (None, r) ∧
   Forall (λ e, now < deadline e) (pq_elems (tr_delayed_task_queue_ r))) ∨
  (∃ e r', popTaskFromDelayedQueueNoLock now r = (delayed_task e, r') ∧
     tr_wf r' ∧ deadline e ≤ now ∧ tr_task_queue_ r' = tr_task_queue_ r ∧
     pq_elems (tr_delayed_task_queue_ r) ≡ₚ e :: pq_elems (tr_delayed_task_queue_ r') ∧
     Forall (λ e', deadline e ≤ deadline e') (pq_elems (tr_delayed_task_queue_ r')) ∧
     same_but_queues r r').
Proof.
  intros Hwf. unfold popTaskFromDelayedQueueNoLock, tr_wf in *.
  destruct (pq_top (tr_delayed_task_queue_ r)) as [e|] eqn:Htop.
  - pose proof (pq_top_min _ _ Hwf Htop) as Hmin.
    unfold TimePoint_gt. destruct (Z.ltb_spec now (deadline e)).
    + left. split; [done|]. eapply Forall_impl; [exact Hmin|]. cbn; intros; lia.
    + right. exists e. eexists. split; [done|]. cbn.
      pose proof (pq_pop_elems _ _ Htop) as Hperm. rewrite Hperm in Hmin.
      apply Forall_cons in Hmin as [_ Hmin].
      repeat split; auto; by apply pq_pop_wf.
  - left. split; [done|]. apply pq_top_none in Htop. by rewrite Htop.
Qed.

(** The entries a run of pops takes, in the order it takes them: due, by
    non-decreasing deadline, and none of them later than what is left. *)
Record drained (now : Z) (r r' : TaskRunner Q) (popped : list DelayedEntry) : Prop := {
  drained_wf : tr_wf r';
  drained_perm : pq_elems (tr_delayed_task_queue_ r) ≡ₚ
                 popped ++ pq_elems (tr_delayed_task_queue_ r');
  drained_due : Forall (λ e, deadline e ≤ now) popped;
  drained_sorted : StronglySorted (λ e e', deadline e ≤ deadline e') popped;
  drained_same : same_but_queues r r'
}.

(** The loop, entered with the task of the entry [e] already popped: it moves
    [e] and the following due entries to the immediate queue, until it meets
    an empty queue, an entry that is not due, or a null task (which it
    drops). *)
Lemma GetNext_loop_spec fuel now t r :
  tr_wf r → (pq_size (tr_delayed_task_queue_ r) < fuel)%nat →
  ∃ r' moved stop,
    GetNext_loop fuel now (Some t) r = Ok r' ∧
    drained now r r' (moved ++ stop) ∧
    tr_task_queue_ r' = tr_task_queue_ r ++ Some t :: map delayed_task moved ∧
    (stop = [] ∧ Forall (λ e, now < deadline e) (pq_elems (tr_delayed_task_queue_ r')) ∨
     ∃ d, stop = [MkEntry d None]).
Proof.
  revert t r. induction fuel as [|fuel IH]; intros t r Hwf Hfuel; [lia|]. cbn.
  assert (Hwf1 : tr_wf (push_task (Some t) r)) by done.
  destruct (pop_delayed_cases now _ Hwf1)
    as [[-> Hnone]|([d [t'|]] & r1 & -> & Hwf' & Hdue & Hq & Hperm & Hmin & Hsame)]; cbn.
  - assert (E : GetNext_loop fuel now None (push_task (Some t) r) =
                Ok (push_task (Some t) r)) by by destruct fuel.
    eexists _, [], []. split; [exact E|]. split; [|by auto].
    split; cbn; auto; [constructor|by destruct r].
  - destruct (IH t' r1) as (r' & moved & stop & E & [Hw Hp Hd Hs Hsm] & Hqueue & Hstop).
    { done. }
    { unfold pq_size in *. cbn in Hperm. rewrite Hperm in Hfuel. cbn in Hfuel. lia. }
    exists r', (MkEntry d (Some t') :: moved), stop. split; [done|].
    split; [|split; [|done]].
    + split; [done| | | |eapply same_but_queues_trans; [|exact Hsm]].
      * cbn in Hperm. rewrite Hperm, Hp. done.
      * by constructor.
      * constructor; [done|]. rewrite Hp in Hmin. by apply Forall_app in Hmin as [? _].
      * eapply same_but_queues_trans; [|exact Hsame]. by destruct r.
    + rewrite Hqueue, Hq. cbn. by rewrite <- app_assoc.
  - assert (E : GetNext_loop fuel now None r1 = Ok r1) by by destruct fuel.
    exists r1, [], [MkEntry d None]. split; [exact E|]. split; [|eauto].
    split; [done|done|by repeat constructor|repeat constructor|].
    eapply same_but_queues_trans; [|exact Hsame]. by destruct r.
Qed.

(** The general contract of [GetNext]: it takes a run of due entries off the
    delayed queue, appends their tasks to the immediate queue and hands out
    the front of the result.  Nothing due is left behind unless the run was
    cut short by a null task. *)
Lemma GetNext_general now r :
  tr_wf r →
  ∃ res r' moved stop,
    GetNext now r = Ok (res, r') ∧
    drained now r r' (moved ++ stop) ∧
    (res, tr_task_queue_ r') =
      match tr_task_queue_ r ++ map delayed_task moved with
      | [] => (None, [])
      | result :: rest => (result, rest)
      end ∧
    (stop = [] ∧ Forall (λ e, now < deadline e) (pq_elems (tr_delayed_task_queue_ r')) ∨
     ∃ d, stop = [MkEntry d None]).
Proof.
  intros Hwf. unfold GetNext.
  assert (Hfin : ∀ r2 moved stop, drained now r r2 (moved ++ stop) →
    tr_task_queue_ r2 = tr_task_queue_ r ++ map delayed_task moved →
    (stop = [] ∧ Forall (λ e, now < deadline e) (pq_elems (tr_delayed_task_queue_ r2)) ∨
     ∃ d, stop = [MkEntry d None]) →
    ∃ res r' moved stop,
      match tr_task_queue_ r2 with
      | result :: rest => Ok (result, set_tr_task_queue_ rest r2)
      | [] => Ok (None, r2)
      end = Ok (res, r') ∧ drained now r r' (moved ++ stop) ∧
      (res, tr_task_queue_ r') =
        match tr_task_queue_ r ++ map delayed_task moved with
        | [] => (None, []) | result :: rest => (result, rest) end ∧
      (stop = [] ∧ Forall (λ e, now < deadline e) (pq_elems (tr_delayed_task_queue_ r')) ∨
       ∃ d, stop = [MkEntry d None])).
  { intros r2 moved stop [Hw Hp Hd Hs Hsm] Hq Hstop.
    destruct (tr_task_queue_ r2) as [|t rest] eqn:E.
    - exists None, r2, moved, stop. rewrite <- Hq, E. done.
    - eexists t, _, moved, stop. rewrite <- Hq. split; [done|]. split; [|done].
      split; auto. unfold same_but_queues in *. rewrite Hsm. by destruct r. }
  destruct (pop_delayed_cases now r Hwf)
    as [[-> Hnone]|([d [t'|]] & r1 & -> & Hwf' & Hdue & Hq & Hperm & Hmin & Hsame)]; cbn.
  - apply (Hfin r [] []); cbn; rewrite ?app_nil_r; auto.
    split; [done|done|constructor|constructor|by destruct r].
  - destruct (GetNext_loop_spec (S (pq_size (tr_delayed_task_queue_ r))) now t' r1)
      as (r2 & moved & stop & E & [Hw Hp Hd Hs Hsm] & Hqueue & Hstop).
    { done. } { unfold pq_size. rewrite Hperm. cbn. lia. }
    cbn in E. rewrite E. cbn. apply (Hfin r2 (MkEntry d (Some t') :: moved) stop); auto.
    + split; auto; [|by constructor| |by eapply same_but_queues_trans].
      * by rewrite Hperm, Hp.
      * constructor; [done|]. rewrite Hp in Hmin. by apply Forall_app in Hmin as [? _].
    + rewrite Hqueue, Hq. done.
  - apply (Hfin r1 [] [MkEntry d None]); [|by rewrite app_nil_r|by eauto].
    split; [done|done|by repeat constructor|repeat constructor|done].
Qed.

(** A run over a queue without null pointers is never cut short. *)
Lemma drained_no_null now r r' moved d :
  no_null_delayed r → ¬ drained now r r' (moved ++ [MkEntry d None]).
Proof.
  unfold no_null_delayed. intros Hn [_ Hp _ _ _]. rewrite Hp in Hn.
  apply Forall_app in Hn as [Hn _]. apply Forall_app in Hn as [_ Hn].
  by apply Forall_inv in Hn.
Qed.

(** C7. [GetNext] on a runner whose delayed queue holds real tasks: the
    entries due at [now] — all of them, in order of deadline — are moved behind
    the tasks already waiting, nothing that is not due is touched, and the
    caller receives the front of the combined queue (or null exactly when it
    is empty).  The rest of the runner is unchanged. *)
Theorem GetNext_spec now r (Hwf : tr_wf r) (Hn : no_null_delayed r) :
  ∃ res r' due,
    GetNext now r = Ok (res, r') ∧
    pq_elems (tr_delayed_task_queue_ r) ≡ₚ due ++ pq_elems (tr_delayed_task_queue_ r') ∧
    Forall (λ e, deadline e ≤ now) due ∧
    Forall (λ e, now < deadline e) (pq_elems (tr_delayed_task_queue_ r')) ∧
    StronglySorted (λ e e', deadline e ≤ deadline e') due ∧
    (res, tr_task_queue_ r') =
      match tr_task_queue_ r ++ map delayed_task due with
      | [] => (None, [])
      | result :: rest => (result, rest)
      end ∧
    same_but_queues r r'.
Proof.
  destruct (GetNext_general now r Hwf)
    as (res & r' & moved & stop & E & Hdr & Hq & [[-> Hlate]|[d ->]]).
  - rewrite app_nil_r in Hdr. destruct Hdr. eauto 12.
  - by apply drained_no_null in Hdr.
Qed.

(** [GetNext] always returns: its loop ends within the fuel given by the
    number of delayed tasks, it meets no undefined behaviour, and it keeps
    the queue invariants — whatever the queues hold, null tasks included. *)
Theorem GetNext_total now r (Hwf : tr_wf r) :
  ∃ res r', GetNext now r = Ok (res, r') ∧ tr_wf r' ∧
    (no_null_delayed r → no_null_delayed r').
Proof.
  destruct (GetNext_general now r Hwf) as (res & r' & moved & stop & E & [] & _).
  exists res, r'. repeat split; auto. unfold no_null_delayed.
  intros Hn. rewrite drained_perm0 in Hn. by apply Forall_app in Hn as [_ ?].
Qed.

(** Call [GetNext] [k] times at time [now], collecting what it returns. *)
Fixpoint GetNext_repeat (k : nat) (now : Z) (r : TaskRunner Q) :
    outcome (list (option Task) * TaskRunner Q) :=
  match k with
  | O => Ok ([], r)
  | S k => let! '(t, r1) := GetNext now r in
           let! '(ts, r2) := GetNext_repeat k now r1 in Ok (t :: ts, r2)
  end.

(** With nothing due, [GetNext] serves the immediate queue in FIFO order. *)
Lemma GetNext_repeat_ready now r :
  tr_wf r → Forall (λ e, now < deadline e) (pq_elems (tr_delayed_task_queue_ r)) →
  GetNext_repeat (length (tr_task_queue_ r)) now r =
    Ok (tr_task_queue_ r, set_tr_task_queue_ [] r).
Proof.
  intros Hwf Hlate. remember (tr_task_queue_ r) as l eqn:El. revert r Hwf Hlate El.
  induction l as [|t l IH]; intros r Hwf Hlate El; cbn.
  { destruct r; cbn in *; by subst. }
  unfold GetNext.
  destruct (pop_delayed_cases now r Hwf)
    as [[-> _]|(e & r1 & _ & _ & Hdue & _ & Hperm & _)]; cbn.
  - rewrite <- El. cbn. rewrite IH; [|done..]. cbn. by destruct r.
  - rewrite Hperm in Hlate. apply Forall_inv in Hlate. lia.
Qed.

(** C10. Delivery: when every delayed task of a runner is due, calling [GetNext]
    as many times as there are tasks returns each of them exactly once — first
    the immediate ones in the order they were posted, then the delayed ones by
    deadline — and leaves both queues empty. *)
Theorem GetNext_delivers_all now r (Hwf : tr_wf r) (Hn : no_null_delayed r)
    (Hdue : Forall (λ e, deadline e ≤ now) (pq_elems (tr_delayed_task_queue_ r)))
    (Hsome : tr_task_queue_ r ≠ [] ∨ pq_elems (tr_delayed_task_queue_ r) ≠ []) :
  ∃ sorted r',
    sorted ≡ₚ pq_elems (tr_delayed_task_queue_ r) ∧
    StronglySorted (λ e e', deadline e ≤ deadline e') sorted ∧
    GetNext_repeat (length (tr_task_queue_ r) + pq_size (tr_delayed_task_queue_ r)) now r =
      Ok (tr_task_queue_ r ++ map delayed_task sorted, r') ∧
    tr_task_queue_ r' = [] ∧ pq_elems (tr_delayed_task_queue_ r') = [].
Proof.
  destruct (GetNext_general now r Hwf)
    as (res & r' & moved & stop & E & Hdr & Hq & [[-> Hlate]|[d ->]]);
    [|by apply drained_no_null in Hdr].
  rewrite app_nil_r in Hdr. destruct Hdr as [Hw Hp _ Hs _].
  assert (Hnil : pq_elems (tr_delayed_task_queue_ r') = []).
  { rewrite Hp in Hdue. apply Forall_app in Hdue as [_ Hd].
    destruct (pq_elems _) as [|e l]; [done|]. apply Forall_inv in Hd, Hlate. lia. }
  rewrite Hnil, app_nil_r in Hp.
  exists moved, (set_tr_task_queue_ [] r'). split; [done|]. split; [done|].
  split; [|done]. unfold pq_size. rewrite Hp, <- (length_map delayed_task), <- length_app.
  destruct (tr_task_queue_ r ++ map delayed_task moved) as [|t rest] eqn:El.
  { apply app_eq_nil in El as [E1 E2]. apply map_eq_nil in E2 as ->.
    apply Permutation_nil_r in Hp. naive_solver. }
  injection Hq as <- <-. cbn. rewrite E. cbn.
  rewrite GetNext_repeat_ready; [done|done|by rewrite Hnil].
Qed.

(** [GetTopDelayTask] hands out the task on top of the delayed queue but
    leaves its entry behind, now null.  Once that entry is due it blocks the
    queue for one call: the next [GetNext] stops at it and returns null, no
    matter how many other delayed tasks are due; only the null entry is
    consumed. *)
Theorem GetTopDelayTask_blocks_GetNext now r e
    (Hwf : tr_wf r) (Hq : tr_task_queue_ r = [])
    (Htop : pq_top (tr_delayed_task_queue_ r) = Some e) (Hdue : deadline e ≤ now) :
  ∃ r1 r2, GetTopDelayTask r = (delayed_task e, r1) ∧
    GetNext now r1 = Ok (None, r2) ∧ tr_task_queue_ r2 = [] ∧
    e :: pq_elems (tr_delayed_task_queue_ r2) ≡ₚ pq_elems (tr_delayed_task_queue_ r).
Proof.
  unfold GetTopDelayTask. rewrite Hq, Htop. eexists _, _. split; [done|].
  pose proof (pq_set_top_top _ _ (MkEntry (deadline e) None) Htop) as Htop1.
  unfold GetNext, popTaskFromDelayedQueueNoLock. cbn. rewrite Htop1. cbn.
  unfold TimePoint_gt. destruct (Z.ltb_spec now (deadline e)); [lia|]. cbn.
  rewrite Hq. split; [done|]. cbn. split; [done|].
  pose proof (pq_pop_elems _ _ Htop1) as P1.
  rewrite (pq_set_top_elems _ _ (MkEntry (deadline e) None) Htop) in P1.
  apply Permutation_cons_inv in P1. rewrite <- P1. symmetry. by apply pq_pop_elems.
Qed.

(** Emptying the delayed queue takes as many pops as it has entries. *)
Lemma pq_pop_all_spec fuel (q : Q) :
  (pq_size q ≤ fuel)%nat → ∃ q', pq_pop_all fuel q = Ok q' ∧ pq_elems q' = [].
Proof.
  revert q. induction fuel as [|fuel IH]; intros q Hf; cbn;
    unfold pq_is_empty; destruct (pq_top q) as [e|] eqn:E.
  - rewrite (pq_pop_size q e E) in Hf. lia.
  - apply pq_top_none in E. eauto.
  - rewrite (pq_pop_size q e E) in Hf. apply IH. lia.
  - apply pq_top_none in E. eauto.
Qed.

(** [Clear] empties the runner when it has no idle task; with an idle task
    pending it is undefined, whatever the other queues hold: the last loop
    tests [idle_task_queue_] but pops [delayed_task_queue_], already empty. *)
Theorem Clear_spec r :
  match tr_idle_task_queue_ r with
  | [] => ∃ r', Clear r = Ok r' ∧ tr_task_queue_ r' = [] ∧
            pq_elems (tr_delayed_task_queue_ r') = [] ∧ tr_idle_task_queue_ r' = []
  | _ :: _ => Clear r = Fault EmptyAccess
  end.
Proof.
  unfold Clear. cbn.
  destruct (pq_pop_all_spec (pq_size (tr_delayed_task_queue_ r)) (tr_delayed_task_queue_ r))
    as (q' & E & Hnil); [done|]. rewrite E. cbn. unfold pq_size. rewrite Hnil. cbn.
  destruct (tr_idle_task_queue_ r) eqn:Ei; [eauto 6|].
  unfold pq_is_empty. by rewrite (proj2 (pq_top_none q') Hnil).
Qed.
End Queues.

(** ** Evaluation on concrete runners *)

#[export] Instance delayed_queue : PriorityQueue DelayedEntry (list DelayedEntry) :=
  sorted_queue deadline.
#[export] Instance delayed_queue_laws :
  PriorityQueueLaws DelayedEntry (list DelayedEntry) deadline := sorted_queue_laws deadline.

Definition user_task (n : Z) : option Task := Some (MkTask n (Some (CUser n))).

(** A runner with one immediate and three delayed tasks. *)
Definition sample_runner : TaskRunner (list DelayedEntry) :=
  push_delayed (MkEntry 30 (user_task 3))
    (push_delayed (MkEntry 90 (user_task 9))
      (push_delayed (MkEntry 20 (user_task 2))
        (push_task (user_task 1) (TaskRunner_init 0 1 true "sample" 0)))).

Ltac sample_wf := repeat first [constructor | discriminate | (cbn; lia)].

Lemma GetNext_spec_witness :
  tr_wf sample_runner ∧ no_null_delayed sample_runner ∧
  ∃ res r' due, GetNext 40 sample_runner = Ok (res, r') ∧
    map delayed_task due = [user_task 2; user_task 3] ∧ res = user_task 1.
Proof.
  assert (W : tr_wf sample_runner) by sample_wf.
  assert (N : no_null_delayed sample_runner) by sample_wf.
  split; [exact W|]. split; [exact N|].
  destruct (GetNext_spec 40 sample_runner W N) as (res & r' & due & E & _).
  exists res, r', [MkEntry 20 (user_task 2); MkEntry 30 (user_task 3)].
  split; [exact E|]. split; [reflexivity|].
  assert (E' : fst <$> GetNext 40 sample_runner = Ok (user_task 1)) by reflexivity.
  rewrite E in E'. by injection E'.
Defined.

Lemma GetNext_total_witness :
  tr_wf sample_runner ∧ ∃ res r', GetNext 5 sample_runner = Ok (res, r').
Proof.
  assert (W : tr_wf sample_runner) by sample_wf.
  split; [exact W|]. destruct (GetNext_total 5 sample_runner W) as (res & r' & E & _). eauto.
Defined.

Lemma GetNext_delivers_all_witness :
  GetNext_repeat 4 100 sample_runner =
    Ok ([user_task 1; user_task 2; user_task 3; user_task 9],
        TaskRunner_init 0 1 true "sample" 0) ∧
  ∃ sorted r',
    GetNext_repeat 4 100 sample_runner = Ok (user_task 1 :: map delayed_task sorted, r') ∧
    tr_task_queue_ r' = [].
Proof.
  split; [reflexivity|].
  assert (W : tr_wf sample_runner) by sample_wf.
  assert (N : no_null_delayed sample_runner) by sample_wf.
  destruct (GetNext_delivers_all 100 sample_runner W N) as (s & r' & _ & _ & E & E1 & _).
  - sample_wf.
  - left. discriminate.
  - exists s, r'. split; [exact E|exact E1].
Defined.

Lemma GetTopDelayTask_blocks_GetNext_witness :
  let r := snd (PopTask sample_runner) in
  ∃ r1 r2, GetTopDelayTask r = (user_task 2, r1) ∧ GetNext 40 r1 = Ok (None, r2).
Proof.
  destruct (GetTopDelayTask_blocks_GetNext 40 (snd (PopTask sample_runner))
              (MkEntry 20 (user_task 2))) as (r1 & r2 & E1 & E2 & _).
  - sample_wf.
  - reflexivity.
  - reflexivity.
  - cbn. lia.
  - exists r1, r2. split; [exact E1|exact E2].
Defined.
