(* ===== verification/Worker.v ===== *)
(** * Worker: the groups of task runners of one worker

    Models the group bookkeeping of [src/footstone/worker.cc]: the lists
    [running_groups_] and [pending_groups_], how groups enter, are sorted,
    merged and handed over.  Each operation is a function of the runner heap
    and the [Worker] object it works on ([std::list<std::vector<...>>] is a
    list of lists of pointers); [lift_worker] runs it in the world.  Iterator
    validity is modelled: the loops that erase or splice the node their
    iterator stands on are undefined exactly where C++ says so. *)

From S2P Require Import Prelude Time PriorityQueue Store TaskRunner.
From Stdlib Require Import Sorted.

(** ** Reading runners through a group *)

Section Groups.
Context {Q : Type}.
Implicit Types (h : gmap runner_ptr (TaskRunner Q)) (g : Group) (gs : list Group).

Definition deref h (p : runner_ptr) : outcome (TaskRunner Q) := of_option NullDeref (h !! p).

(** The inner loop shared by the searches: stop at the first runner that
    satisfies [f]. *)
Fixpoint exists_runner (f : TaskRunner Q → bool) h g : outcome bool :=
  match g with
  | [] => Ok false
  | p :: g' => let! r := deref h p in if f r then Ok true else exists_runner f h g'
  end.

Fixpoint exists_group (f : TaskRunner Q → bool) h gs : outcome bool :=
  match gs with
  | [] => Ok false
  | g :: gs' => let! b := exists_runner f h g in if b then Ok true else exists_group f h gs'
  end.

Definition has_id (id : Z) (r : TaskRunner Q) : bool := GetId r =? id.

Definition HasUnschedulableRunner h (w : Worker) : outcome bool :=
  exists_group (λ r, negb (IsSchedulable r)) h (w_running_groups_ w).

(** [for (auto &group : groups) for (auto &runner : group) runner->SetTime(time)]. *)
Fixpoint SetTime_group (time : Z) h g : outcome (gmap runner_ptr (TaskRunner Q)) :=
  match g with
  | [] => Ok h
  | p :: g' => let! r := deref h p in SetTime_group time (<[p := SetTime time r]> h) g'
  end.

Fixpoint SetTime_groups (time : Z) h gs : outcome (gmap runner_ptr (TaskRunner Q)) :=
  match gs with
  | [] => Ok h
  | g :: gs' => let! h' := SetTime_group time h g in SetTime_groups time h' gs'
  end.

Definition BalanceNoLock h (w : Worker) : outcome (gmap runner_ptr (TaskRunner Q) * Worker) :=
  match w_pending_groups_ w with
  | [] => Ok (h, w)
  | _ :: _ =>
      let! time :=
        match w_running_groups_ w with
        | [] => Ok TimeDelta_Zero
        | g :: _ => let! p := vec_front g in let! r := deref h p in Ok (GetTime r)
        end in
      let! h' := SetTime_groups time h (w_pending_groups_ w) in
      (* running_groups_.splice(running_groups_.begin(), pending_groups_) *)
      Ok (h', set_w_pending_groups_ []
                (set_w_running_groups_ (w_pending_groups_ w ++ w_running_groups_ w) w))
  end.

(** [lhs[0]->GetPriority() * lhs[0]->GetTime().ToNanoseconds()], an [int64_t]
    product. *)
Definition sort_weight h g : outcome Z :=
  let! p := vec_at g 0 in
  let! r := deref h p in
  i64 (GetPriority r * TimeDelta_ToNanoseconds (GetTime r)).

(** The comparator of [SortNoLock]. *)
Definition sort_less h (lhs rhs : Group) : outcome bool :=
  let! _ := guard_f (negb (bool_decide (lhs = [])) && negb (bool_decide (rhs = [])))
              CheckFailed in
  let! left_ := sort_weight h lhs in
  let! right_ := sort_weight h rhs in
  Ok (left_ <? right_).
End Groups.

(** [std::list::sort]: a stable sort by a comparator that may itself fault. *)
Section ListSort.
Context {A : Type} (less : A → A → outcome bool).

Fixpoint sort_insert (x : A) (l : list A) : outcome (list A) :=
  match l with
  | [] => Ok [x]
  | y :: l' => let! b := less y x in
               if b then let! l'' := sort_insert x l' in Ok (y :: l'')
               else Ok (x :: y :: l')
  end.

Fixpoint list_sort (l : list A) : outcome (list A) :=
  match l with
  | [] => Ok []
  | x :: l' => let! l'' := list_sort l' in sort_insert x l''
  end.
End ListSort.

Section Operations.
Context {Q : Type}.
Implicit Types (h : gmap runner_ptr (TaskRunner Q)) (g : Group) (gs : list Group).

Definition SortNoLock h (w : Worker) : outcome Worker :=
  match w_running_groups_ w with
  | [] => Ok w
  | _ :: _ => let! sorted := list_sort (sort_less h) (w_running_groups_ w) in
              Ok (set_w_running_groups_ sorted w)
  end.

(** The position of the first group that holds a runner with the given id. *)
Fixpoint find_group (id : Z) h gs : outcome (option nat) :=
  match gs with
  | [] => Ok None
  | g :: gs' => let! b := exists_runner (has_id id) h g in
                if b then Ok (Some O)
                else let! o := find_group id h gs' in Ok (S <$> o)
  end.

(** When neither list has the father, [group_it] is [pending_groups_.end()]
    and [group_it->push_back] is undefined. *)
Definition BindGroup h (father_id : Z) (child : runner_ptr) (w : Worker) : outcome Worker :=
  let! found := find_group father_id h (w_running_groups_ w) in
  match found with
  | Some i => Ok (set_w_running_groups_
                    (alter (λ g, g ++ [child]) i (w_running_groups_ w)) w)
  | None =>
      let! found := find_group father_id h (w_pending_groups_ w) in
      match found with
      | Some i => Ok (set_w_pending_groups_
                        (alter (λ g, g ++ [child]) i (w_pending_groups_ w)) w)
      | None => Fault InvalidIterator
      end
  end.

(** [Worker::Bind(std::vector)], up to the call of [Notify]. *)
Definition Bind_group h g (w : Worker) : outcome Worker :=
  let! p := vec_at g 0 in
  let! r := deref h p in
  let group_id := GetGroupId r in
  let w1 := if group_id =? kDefaultGroupId then w else set_w_group_id_ (Some group_id) w in
  Ok (set_w_need_balance_ true
        (set_w_pending_groups_ (w_pending_groups_ w1 ++ [g]) w1)).

(** [Worker::Bind(std::list)], up to the call of [Notify]. *)
Definition Bind_list (list_ : list Group) (w : Worker) : Worker :=
  set_w_need_balance_ true
    (set_w_pending_groups_ (w_pending_groups_ w ++ list_) w).

(** Erase the first runner with the given id, if any. *)
Fixpoint erase_runner (id : Z) h g : outcome (option Group) :=
  match g with
  | [] => Ok None
  | p :: g' => let! r := deref h p in
               if has_id id r then Ok (Some g')
               else let! o := erase_runner id h g' in Ok (cons p <$> o)
  end.

Fixpoint erase_in_groups (id : Z) h gs : outcome (option (list Group)) :=
  match gs with
  | [] => Ok None
  | g :: gs' => let! o := erase_runner id h g in
                match o with
                | Some g' => Ok (Some (g' :: gs'))
                | None => let! o' := erase_in_groups id h gs' in Ok (cons g <$> o')
                end
  end.

Definition UnBind_runner h (runner : runner_ptr) (w : Worker) : outcome Worker :=
  let! r := deref h runner in
  let! found := erase_in_groups (GetId r) h (w_running_groups_ w) in
  match found with
  | Some gs => Ok (set_w_running_groups_ gs w)
  | None =>
      let! found := erase_in_groups (GetId r) h (w_pending_groups_ w) in
      match found with
      | Some gs => Ok (set_w_pending_groups_ gs w)
      | None => Ok w
      end
  end.

Definition GetRunningGroupSize (w : Worker) : Z :=
  wrap_s 32 (Z.of_nat (length (w_running_groups_ w))).

Definition UnBind_all (w : Worker) : list Group * Worker :=
  (w_running_groups_ w ++ w_pending_groups_ w,
   set_w_pending_groups_ [] (set_w_running_groups_ [] w)).

Definition ReleasePending (w : Worker) : list Group * Worker :=
  (w_pending_groups_ w, set_w_pending_groups_ [] w).

(** The iterator [group_it] of the loop below: it starts in
    [running_groups_], and [splice] takes it along into [ret]. *)
Inductive group_iterator :=
  | InRunning (i : nat)
  | InRet (i : nat).

(** The loop of [RetainActiveAndUnschedulable].  After a splice the iterator
    belongs to [ret], and both [++group_it] and the comparison with
    [running_groups_.end()] are made on it: comparing iterators of different
    containers is undefined. *)
Fixpoint retain_loop (fuel : nat) h (running ret : list Group) (group_it : group_iterator) :
    outcome (list Group * list Group) :=
  match fuel with
  | O => Fault OutOfFuel
  | S fuel =>
      match group_it with
      | InRet _ => Fault InvalidIterator
      | InRunning i =>
          match running !! i with
          | None => Ok (running, ret)
          | Some g =>
              match i with
              | O => retain_loop fuel h running ret (InRunning 1)
              | S _ =>
                  let! has_unschedulable := exists_runner IsSchedulable h g in
                  if has_unschedulable then retain_loop fuel h running ret (InRunning (S i))
                  else retain_loop fuel h (delete i running) (ret ++ [g])
                         (InRet (S (length ret)))
              end
          end
      end
  end.

Definition RetainActiveAndUnschedulable h (w : Worker) : outcome (list Group * Worker) :=
  let! '(running, ret) :=
    retain_loop (S (length (w_running_groups_ w))) h (w_running_groups_ w) [] (InRunning 0) in
  Ok (ret ++ w_pending_groups_ w,
      set_w_pending_groups_ [] (set_w_running_groups_ running w)).

(** [Retain]: erasing the group under the iterator and then incrementing that
    iterator (the [break] only leaves the inner loop) is undefined. *)
Definition Retain h (runner : runner_ptr) (w : Worker) : outcome (list Group * Worker) :=
  let! r := deref h runner in
  let! found := find_group (GetId r) h (w_running_groups_ w) in
  match found with
  | Some _ => Fault InvalidIterator
  | None => Ok (w_running_groups_ w, set_w_running_groups_ [[]] w)
  end.

Definition AddImmediateTask (task : option Task) (w : Worker) : Worker :=
  set_w_immediate_task_queue_ (w_immediate_task_queue_ w ++ [task]) w.

(** The constructor: [group_id_] is left indeterminate. *)
Definition Worker_init (is_schedulable : bool) (name : string) : Worker :=
  MkWorker is_schedulable name false false false TimeDelta_Max TimePoint_Max false true
    None [] [] ∅ ∅ [].

(** Reading [group_id_] before anything was stored in it is undefined. *)
Definition Worker_GetGroupId (w : Worker) : outcome Z := of_option Uninitialised (w_group_id_ w).

(** ** Running an operation in the world *)

Definition lift_worker {A} (p : worker_ptr)
    (f : gmap runner_ptr (TaskRunner Q) → Worker → outcome (A * Worker)) : M Q A :=
  do! w := get_worker p in
  do! s := st_get in
  do! '(a, w') := st_lift (f (wd_runners s) w) in
  do! _ := put_worker p w' in
  st_ret a.

Definition lift_worker_ (p : worker_ptr)
    (f : gmap runner_ptr (TaskRunner Q) → Worker → outcome Worker) : M Q unit :=
  lift_worker p (λ h w, let! w' := f h w in Ok (tt, w')).

Context `{WorkerBackend}.

Definition Worker_Bind_group (p : worker_ptr) g : M Q unit :=
  do! _ := lift_worker_ p (λ h w, Bind_group h g w) in Notify p.
Definition Worker_Bind_list (p : worker_ptr) (list_ : list Group) : M Q unit :=
  do! _ := lift_worker_ p (λ _ w, Ok (Bind_list list_ w)) in Notify p.
End Operations.

(** ** The stable sort *)

Section ListSortSpec.
Context {A : Type} (less : A → A → outcome bool) (k : A → Z).

(** When the comparator compares the keys [k] without faulting, the result is
    the stable sort by [k]. *)
Lemma sort_insert_spec x l :
  (∀ y, y ∈ l → less y x = Ok (k y <? k x)) →
  StronglySorted (λ a b, k a ≤ k b) l →
  ∃ l', sort_insert less x l = Ok l' ∧ l' ≡ₚ x :: l ∧
    StronglySorted (λ a b, k a ≤ k b) l' ∧
    ∀ v, filter (λ a, k a = v) l' = filter (λ a, k a = v) (x :: l).
Proof.
  induction l as [|y l IH]; intros Hless Hs.
  - exists [x]. repeat split; auto. by repeat constructor.
  - apply StronglySorted_inv in Hs as [Hs Hy]. cbn [sort_insert].
    rewrite Hless by left. cbn [obind]. destruct (Z.ltb_spec (k y) (k x)) as [Hlt|Hge].
    + destruct IH as (l' & -> & Hp & Hs' & Hf); auto.
      { intros z Hz. apply Hless. by right. }
      exists (y :: l'). cbn [obind]. split; [done|]. split; [|split].
      * rewrite Hp. apply Permutation_swap.
      * constructor; [done|]. rewrite Hp. constructor; [lia|done].
      * intros v. rewrite !filter_cons, Hf, filter_cons.
        repeat case_decide; try done. lia.
    + exists (x :: y :: l). split; [done|]. split; [done|]. split; [|done].
      constructor; [by constructor|]. constructor; [lia|].
      eapply Forall_impl; [exact Hy|]. cbn; intros; lia.
Qed.

Lemma list_sort_spec l :
  (∀ x y, x ∈ l → y ∈ l → less y x = Ok (k y <? k x)) →
  ∃ l', list_sort less l = Ok l' ∧ l' ≡ₚ l ∧
    StronglySorted (λ a b, k a ≤ k b) l' ∧
    ∀ v, filter (λ a, k a = v) l' = filter (λ a, k a = v) l.
Proof.
  induction l as [|x l IH]; intros Hless.
  - exists []. repeat split; auto. constructor.
  - destruct IH as (l1 & E1 & P1 & S1 & F1).
    { intros a b Ha Hb. apply Hless; by right. }
    destruct (sort_insert_spec x l1) as (l' & E & P & S & F); [|done|].
    { intros y Hy. apply Hless; [left|]. right. by rewrite <- P1. }
    exists l'. cbn [list_sort]. rewrite E1. cbn. split; [done|].
    split; [by rewrite P, P1|]. split; [done|].
    intros v. rewrite F, !filter_cons, F1. done.
Qed.
End ListSortSpec.

(** ** Well-formed group lists *)

Section Spec.
Context {Q : Type}.
Implicit Types (h : gmap runner_ptr (TaskRunner Q)) (g : Group) (gs : list Group) (w : Worker).

(** Every pointer of the group is live. *)
Definition live h g : Prop := Forall (λ p, is_Some (h !! p)) g.

(** The test a group search makes on a pointer. *)
Definition sat (f : TaskRunner Q → bool) h (p : runner_ptr) : bool :=
  match h !! p with Some r => f r | None => false end.

Lemma deref_live h p : is_Some (h !! p) → ∃ r, deref h p = Ok r ∧ h !! p = Some r.
Proof. intros [r Hr]. exists r. unfold deref. by rewrite Hr. Qed.

Lemma exists_runner_spec f h g :
  live h g → exists_runner f h g = Ok (existsb (sat f h) g).
Proof.
  induction 1 as [|p g Hp Hg IH]; cbn; [done|].
  unfold sat at 1. destruct (deref_live h p Hp) as (r & -> & ->). cbn.
  destruct (f r); [done|]. by rewrite IH.
Qed.

Lemma exists_group_spec f h gs :
  Forall (live h) gs → exists_group f h gs = Ok (existsb (existsb (sat f h)) gs).
Proof.
  induction 1 as [|g gs Hg Hgs IH]; cbn; [done|].
  rewrite exists_runner_spec by done. cbn. destruct (existsb _ g); [done|]. by rewrite IH.
Qed.

Lemma find_group_spec id h gs :
  Forall (live h) gs →
  find_group id h gs =
    Ok (fst <$> list_find (λ g, existsb (sat (has_id id) h) g = true) gs).
Proof.
  induction 1 as [|g gs Hg Hgs IH]; cbn; [done|].
  rewrite exists_runner_spec by done. cbn.
  destruct (existsb _ g) eqn:E; case_decide; try done.
  rewrite IH. cbn. by destruct (list_find _ gs) as [[]|].
Qed.

(** The invariant of the two group lists: no empty group, only live runners,
    and no runner in two places. *)
Record groups_wf h w : Prop := {
  gw_nonempty : Forall (λ g, g ≠ []) (w_running_groups_ w ++ w_pending_groups_ w);
  gw_live : Forall (live h) (w_running_groups_ w ++ w_pending_groups_ w);
  gw_nodup : NoDup (concat (w_running_groups_ w ++ w_pending_groups_ w))
}.

(** All runners of a worker, running groups first. *)
Definition worker_runners w : list runner_ptr :=
  concat (w_running_groups_ w) ++ concat (w_pending_groups_ w).

Lemma concat_perm {A} (l l' : list (list A)) : l ≡ₚ l' → concat l ≡ₚ concat l'.
Proof.
  induction 1 as [|x l l' _ IH|x y l|l l' l'' _ IH1 _ IH2]; cbn; auto.
  - by rewrite IH.
  - rewrite !app_assoc. by rewrite (Permutation_app_comm x y).
  - by rewrite IH1.
Qed.

(** Rearranging the groups of a worker keeps the invariant. *)
Lemma groups_wf_perm h h' w w' :
  w_running_groups_ w' ++ w_pending_groups_ w' ≡ₚ
  w_running_groups_ w ++ w_pending_groups_ w →
  dom h' = dom h → groups_wf h w → groups_wf h' w'.
Proof.
  intros Hp Hdom [H1 H2 H3]. split.
  - by rewrite Hp.
  - rewrite Hp. eapply Forall_impl; [exact H2|]. intros g Hg.
    eapply Forall_impl; [exact Hg|]. intros p. by rewrite <- !elem_of_dom, Hdom.
  - by rewrite (concat_perm _ _ Hp).
Qed.

(** *** Sorting *)

(** The sort key of a group: priority times accumulated run time of its first
    runner. *)
Definition weight h g : Z :=
  match g with
  | [] => 0
  | p :: _ => match h !! p with
              | Some r => GetPriority r * tr_time_ r
              | None => 0
              end
  end.

(** No product of the sort overflows. *)
Definition weight_fits h g : Prop := i64_min ≤ weight h g ≤ i64_max.

Lemma sort_weight_spec h g :
  g ≠ [] → live h g → weight_fits h g → sort_weight h g = Ok (weight h g).
Proof.
  unfold sort_weight, weight_fits, weight. intros Hne Hl Hw.
  destruct g as [|p g]; [done|]. apply Forall_inv in Hl as [r Hr].
  rewrite vec_at_0. unfold deref. rewrite Hr in *. cbn. rewrite Hr. by apply i64_ok.
Qed.

Lemma sort_less_spec h g g' :
  g ≠ [] → g' ≠ [] → live h g → live h g' → weight_fits h g → weight_fits h g' →
  sort_less h g g' = Ok (weight h g <? weight h g').
Proof.
  intros. unfold sort_less. rewrite !bool_decide_false by done. cbn.
  by rewrite !sort_weight_spec.
Qed.

Lemma sort_less_total h gs :
  Forall (λ g, g ≠ []) gs → Forall (live h) gs → Forall (weight_fits h) gs →
  ∀ g g', g ∈ gs → g' ∈ gs → sort_less h g g' = Ok (weight h g <? weight h g').
Proof. intros. rewrite !Forall_forall in *. apply sort_less_spec; auto. Qed.

Lemma SortNoLock_run h w gs :
  list_sort (sort_less h) (w_running_groups_ w) = Ok gs →
  SortNoLock h w = Ok (set_w_running_groups_ gs w).
Proof.
  intros E. unfold SortNoLock. rewrite E. cbn.
  destruct w as [? ? ? ? ? ? ? ? ? ? rg ? ? ? ?]; destruct rg; cbn in *; [|done].
  by injection E as <-.
Qed.

(** C19. [SortNoLock] is a stable sort of the running groups: with non-empty
    groups of live runners whose weights (priority times run time) fit 64
    bits it succeeds, permutes the groups, orders them by non-decreasing
    weight and keeps groups of equal weight in their order. *)
Theorem SortNoLock_stable h w
    (Hne : Forall (λ g, g ≠ []) (w_running_groups_ w))
    (Hlive : Forall (live h) (w_running_groups_ w))
    (Hfit : Forall (weight_fits h) (w_running_groups_ w)) :
  ∃ gs, SortNoLock h w = Ok (set_w_running_groups_ gs w) ∧
    gs ≡ₚ w_running_groups_ w ∧
    StronglySorted (λ g g', weight h g ≤ weight h g') gs ∧
    ∀ v, filter (λ g, weight h g = v) gs = filter (λ g, weight h g = v) (w_running_groups_ w).
Proof.
  destruct (list_sort_spec (sort_less h) (weight h) (w_running_groups_ w))
    as (gs & E & Hrest).
  { intros g g' Hg Hg'. by apply (sort_less_total h (w_running_groups_ w)). }
  exists gs. split; [by apply SortNoLock_run|done].
Qed.

(** *** Merging the pending groups *)

Lemma SetTime_group_spec time h g :
  live h g → ∃ h', SetTime_group time h g = Ok h' ∧ dom h' = dom h ∧
    ∀ p, h' !! p = (if bool_decide (p ∈ g) then SetTime time <$> h !! p else h !! p).
Proof.
  revert h. induction g as [|q g IH]; intros h Hl; cbn.
  - exists h. split; [done|]. split; [done|]. intros p.
    by rewrite bool_decide_false by set_solver.
  - apply Forall_cons in Hl as [[r Hr] Hl]. unfold deref. rewrite Hr. cbn.
    destruct (IH (<[q := SetTime time r]> h)) as (h' & -> & Hdom & Hlk).
    { eapply Forall_impl; [exact Hl|]. intros p. rewrite lookup_insert.
      case_decide; eauto. }
    exists h'. split; [done|]. split.
    { rewrite Hdom, dom_insert_L. apply elem_of_dom_2 in Hr. set_solver. }
    intros p. rewrite Hlk, lookup_insert. repeat case_bool_decide; case_decide; subst;
      rewrite ?Hr; cbn; try done; set_solver.
Qed.

Lemma SetTime_groups_spec time h gs :
  Forall (live h) gs → ∃ h', SetTime_groups time h gs = Ok h' ∧ dom h' = dom h ∧
    ∀ p, h' !! p = (if bool_decide (p ∈ concat gs) then SetTime time <$> h !! p else h !! p).
Proof.
  revert h. induction gs as [|g gs IH]; intros h Hl; cbn.
  - exists h. repeat split; auto.
  - apply Forall_cons in Hl as [Hg Hl].
    destruct (SetTime_group_spec time h g Hg) as (h1 & -> & Hd1 & L1). cbn.
    destruct (IH h1) as (h' & -> & Hdom & Hlk).
    { eapply Forall_impl; [exact Hl|]. intros g'. unfold live. intros Hg'.
      eapply Forall_impl; [exact Hg'|]. intros p. by rewrite <- !elem_of_dom, Hd1. }
    exists h'. split; [done|]. split; [by rewrite Hdom|].
    intros p. rewrite Hlk, L1.
    destruct (decide (p ∈ g)); destruct (decide (p ∈ concat gs));
      rewrite ?(bool_decide_true (p ∈ g)), ?(bool_decide_false (p ∈ g)),
        ?(bool_decide_true (p ∈ concat gs)), ?(bool_decide_false (p ∈ concat gs)) by done;
      rewrite ?bool_decide_true by (rewrite elem_of_app; tauto);
      rewrite ?bool_decide_false by (rewrite elem_of_app; tauto); try done.
    by destruct (h !! p).
Qed.

(** The run time a freshly merged runner starts from. *)
Definition balance_time h w : Z :=
  match w_running_groups_ w with
  | (p :: _) :: _ => match h !! p with Some r => tr_time_ r | None => 0 end
  | _ => 0
  end.

Lemma BalanceNoLock_run h w :
  groups_wf h w →
  ∃ h' w', BalanceNoLock h w = Ok (h', w') ∧ dom h' = dom h ∧
    w_running_groups_ w' = w_pending_groups_ w ++ w_running_groups_ w ∧
    w_pending_groups_ w' = [] ∧
    ∀ p, h' !! p = if bool_decide (p ∈ concat (w_pending_groups_ w))
                   then SetTime (balance_time h w) <$> h !! p else h !! p.
Proof.
  intros Hwf. unfold BalanceNoLock.
  destruct (w_pending_groups_ w) as [|g0 gs0] eqn:Ep.
  { exists h, w. by rewrite Ep. }
  rewrite <- Ep in *. destruct Hwf as [Hne Hlive _].
  apply Forall_app in Hlive as [Hlr Hlp]. apply Forall_app in Hne as [Hnr _].
  assert (Ht : (match w_running_groups_ w with
                | [] => Ok TimeDelta_Zero
                | g :: _ => let! p := vec_front g in let! r := deref h p in Ok (GetTime r)
                end) = Ok (balance_time h w)).
  { unfold balance_time. destruct (w_running_groups_ w) as [|[|p g] gs]; [done| |].
    - by apply Forall_inv in Hnr.
    - apply Forall_inv, Forall_inv in Hlr as [r Hr]. unfold deref. cbn. by rewrite !Hr. }
  rewrite Ht. cbn.
  destruct (SetTime_groups_spec (balance_time h w) h _ Hlp) as (h' & -> & Hdom & Hlk).
  cbn. by eexists h', _.
Qed.

Lemma BalanceNoLock_wf h w h' w' :
  groups_wf h w → BalanceNoLock h w = Ok (h', w') → groups_wf h' w'.
Proof.
  intros Hwf E. destruct (BalanceNoLock_run h w Hwf) as (h1 & w1 & E1 & Hd & Er & Ep & _).
  rewrite E in E1. injection E1 as <- <-. eapply groups_wf_perm; [|exact Hd|exact Hwf].
  rewrite Er, Ep, app_nil_r. apply Permutation_app_comm.
Qed.

(** C18. [BalanceNoLock] puts the pending groups, in their order, in front of the
    running ones, which keep theirs; every pending runner starts from the run
    time of the runner that was first (zero if none was), and no other runner
    changes.  It never faults on well-formed groups and keeps them so. *)
Theorem BalanceNoLock_spec h w (Hwf : groups_wf h w) :
  ∃ h' w', BalanceNoLock h w = Ok (h', w') ∧
    w_running_groups_ w' = w_pending_groups_ w ++ w_running_groups_ w ∧
    w_pending_groups_ w' = [] ∧
    (∀ p, h' !! p = if bool_decide (p ∈ concat (w_pending_groups_ w))
                    then SetTime (balance_time h w) <$> h !! p else h !! p) ∧
    groups_wf h' w'.
Proof.
  destruct (BalanceNoLock_run h w Hwf) as (h' & w' & E & _ & Er & Ep & Hlk).
  exists h', w'. eauto 6 using BalanceNoLock_wf.
Qed.

(** *** Adding groups and children *)

Lemma find_group_Some id h gs i :
  Forall (live h) gs → find_group id h gs = Ok (Some i) → (i < length gs)%nat.
Proof.
  intros Hl. rewrite find_group_spec by done. intros [= Hf].
  destruct (list_find _ gs) as [[j g]|] eqn:E; [|done]. injection Hf as ->.
  apply list_find_Some in E as (E & _). eauto using lookup_lt_Some.
Qed.

Lemma concat_alter_snoc (gs : list Group) i (p : runner_ptr) :
  (i < length gs)%nat → concat (alter (λ g, g ++ [p]) i gs) ≡ₚ p :: concat gs.
Proof.
  revert i. induction gs as [|g gs IH]; intros i Hi; cbn in *; [lia|].
  destruct i as [|i]; cbn.
  - rewrite <- app_assoc. cbn. by rewrite <- Permutation_middle.
  - change (alter _ (S i) (g :: gs)) with (g :: alter (λ g, g ++ [p]) i gs). cbn.
    rewrite IH by lia. by rewrite Permutation_middle.
Qed.

Lemma Forall_alter_snoc {P : Group → Prop} (p : runner_ptr) gs i :
  (∀ g, P g → P (g ++ [p])) → Forall P gs → Forall P (alter (λ g, g ++ [p]) i gs).
Proof. intros HP Hgs. apply Forall_alter; auto. Qed.

Lemma find_group_exists id h gs :
  Forall (live h) gs →
  if existsb (existsb (sat (has_id id) h)) gs
  then ∃ i, find_group id h gs = Ok (Some i) ∧ (i < length gs)%nat
  else find_group id h gs = Ok None.
Proof.
  induction 1 as [|g gs Hg Hgs IH]; cbn; [done|].
  rewrite exists_runner_spec by done. cbn. destruct (existsb _ g); cbn.
  - exists O. split; [done|lia].
  - destruct (existsb _ gs); [destruct IH as (i & -> & Hi); exists (S i); split; [done|lia]|].
    by rewrite IH.
Qed.

(** A new child appended to one of the groups keeps the invariant. *)
Lemma BindGroup_grows h father_id child w w' :
  groups_wf h w → is_Some (h !! child) → child ∉ worker_runners w →
  BindGroup h father_id child w = Ok w' →
  groups_wf h w' ∧ worker_runners w' ≡ₚ child :: worker_runners w.
Proof.
  intros [Hne Hlive Hnd] Hc Hfresh E. unfold worker_runners in *.
  rewrite Forall_app in Hne. destruct Hne as [Hnr Hnp].
  rewrite Forall_app in Hlive. destruct Hlive as [Hlr Hlp].
  rewrite concat_app in Hnd.
  assert (Hnd' : NoDup (child :: concat (w_running_groups_ w) ++ concat (w_pending_groups_ w)))
    by (by constructor).
  assert (Hlc : ∀ g, live h g → live h (g ++ [child]))
    by (intros g Hg; apply Forall_app; split; [done|by constructor]).
  assert (Hnc : ∀ g : Group, g ≠ [] → g ++ [child] ≠ []) by (by intros []).
  unfold BindGroup in E. mstep E. destruct a as [i|].
  - apply find_group_Some in E0; [|done]. injection E as <-. cbn.
    pose proof (concat_alter_snoc _ _ child E0) as Hp. split.
    + split; cbn; rewrite ?Forall_app, ?concat_app, ?Hp; auto using Forall_alter_snoc.
    + by rewrite Hp.
  - mstep E. destruct a as [i|]; [|done]. apply find_group_Some in E1; [|done].
    injection E as <-. cbn. pose proof (concat_alter_snoc _ _ child E1) as Hp. split.
    + split; cbn; rewrite ?Forall_app, ?concat_app, ?Hp; auto using Forall_alter_snoc.
      by rewrite <- Permutation_middle.
    + by rewrite Hp, <- Permutation_middle.
Qed.

(** [BindGroup] appends the child to the first group holding the father —
    looking through the running groups and then the pending ones — so that the
    child, at the back, blocks the runners below it; it keeps the group
    invariant when the child is new.  When no group holds the father the
    source pushes through the end iterator: undefined. *)
Theorem BindGroup_spec h father_id child w
    (Hwf : groups_wf h w) (Hc : is_Some (h !! child)) (Hfresh : child ∉ worker_runners w) :
  if existsb (existsb (sat (has_id father_id) h)) (w_running_groups_ w ++ w_pending_groups_ w)
  then ∃ w', BindGroup h father_id child w = Ok w' ∧ groups_wf h w' ∧
         worker_runners w' ≡ₚ child :: worker_runners w
  else BindGroup h father_id child w = Fault InvalidIterator.
Proof.
  destruct (Forall_app (live h) (w_running_groups_ w) (w_pending_groups_ w)) as [Hsplit _].
  destruct (Hsplit (gw_live _ _ Hwf)) as [Hlr Hlp].
  pose proof (find_group_exists father_id _ _ Hlr) as Fr.
  pose proof (find_group_exists father_id _ _ Hlp) as Fp.
  assert (Hok : ∀ w', BindGroup h father_id child w = Ok w' →
    ∃ w', BindGroup h father_id child w = Ok w' ∧ groups_wf h w' ∧
      worker_runners w' ≡ₚ child :: worker_runners w) by eauto using BindGroup_grows.
  rewrite existsb_app. destruct (existsb _ (w_running_groups_ w)); cbn [orb];
    [destruct Fr as (i & Fr & _)|destruct (existsb _ (w_pending_groups_ w));
      [destruct Fp as (i & Fp & _)|]].
  - eapply Hok. unfold BindGroup. by rewrite Fr.
  - eapply Hok. unfold BindGroup. rewrite Fr. cbn. by rewrite Fp.
  - unfold BindGroup. rewrite Fr. cbn. by rewrite Fp.
Qed.

(** *** Removing a runner *)

(** Runner ids tell the runners of [l] apart. *)
Definition ids_unique h (l : list runner_ptr) : Prop :=
  ∀ p q r r', p ∈ l → q ∈ l → h !! p = Some r → h !! q = Some r' →
    GetId r = GetId r' → p = q.

Lemma erase_runner_spec h g runner r :
  live h g → h !! runner = Some r →
  (∀ p, p ∈ g → sat (has_id (GetId r)) h p = true → p = runner) →
  if bool_decide (runner ∈ g)
  then ∃ g1 g2, g = g1 ++ runner :: g2 ∧ erase_runner (GetId r) h g = Ok (Some (g1 ++ g2))
  else erase_runner (GetId r) h g = Ok None.
Proof.
  intros Hl Hr. induction Hl as [|p g [rp Hp] Hg IH]; intros Hid; cbn; [done|].
  unfold deref. rewrite Hp. cbn. destruct (has_id (GetId r) rp) eqn:E.
  - assert (p = runner) as ->. { apply Hid; [left|]. unfold sat. by rewrite Hp. }
    rewrite bool_decide_true by left. by exists [], g.
  - assert (p ≠ runner).
    { intros ->. simplify_eq. unfold has_id in E. by rewrite Z.eqb_refl in E. }
    specialize (IH (λ q Hq, Hid q (list_elem_of_further _ _ _ Hq))).
    destruct (decide (runner ∈ g)).
    + rewrite bool_decide_true in * by (done || by right).
      destruct IH as (g1 & g2 & -> & ->). by exists (p :: g1), g2.
    + rewrite bool_decide_false in IH by done. rewrite IH.
      rewrite bool_decide_false; [done|]. rewrite elem_of_cons. naive_solver.
Qed.

Lemma erase_in_groups_spec h gs runner r :
  Forall (live h) gs → h !! runner = Some r →
  (∀ p, p ∈ concat gs → sat (has_id (GetId r)) h p = true → p = runner) →
  if bool_decide (runner ∈ concat gs)
  then ∃ gs1 g1 g2 gs2, gs = gs1 ++ (g1 ++ runner :: g2) :: gs2 ∧
         erase_in_groups (GetId r) h gs = Ok (Some (gs1 ++ (g1 ++ g2) :: gs2))
  else erase_in_groups (GetId r) h gs = Ok None.
Proof.
  intros Hl Hr. induction Hl as [|g gs Hg Hgs IH]; intros Hid; cbn; [done|].
  pose proof (erase_runner_spec h g runner r Hg Hr) as He.
  cbn in Hid. setoid_rewrite elem_of_app in Hid.
  specialize (He (λ p Hp, Hid p (or_introl Hp))).
  specialize (IH (λ p Hp, Hid p (or_intror Hp))).
  destruct (decide (runner ∈ g)).
  - rewrite bool_decide_true in * by (done || rewrite elem_of_app; by left).
    destruct He as (g1 & g2 & -> & ->). by exists [], g1, g2, gs.
  - rewrite bool_decide_false in He by done. rewrite He. cbn.
    destruct (decide (runner ∈ concat gs)).
    + rewrite bool_decide_true in * by (done || rewrite elem_of_app; by right).
      destruct IH as (gs1 & g1 & g2 & gs2 & -> & ->). by exists (g :: gs1), g1, g2, gs2.
    + rewrite bool_decide_false in IH by done. rewrite IH.
      rewrite bool_decide_false; [done|]. rewrite elem_of_app. naive_solver.
Qed.

Lemma concat_erase (gs1 gs2 : list Group) g1 g2 (p : runner_ptr) :
  concat (gs1 ++ (g1 ++ p :: g2) :: gs2) ≡ₚ p :: concat (gs1 ++ (g1 ++ g2) :: gs2).
Proof.
  rewrite !concat_app. cbn. rewrite <- Permutation_middle. cbn.
  by rewrite <- Permutation_middle.
Qed.

(** With every runner in one place, a runner that is alone in its group leaves
    an empty one. *)
Lemma singleton_group_split (gs1 : list Group) g1 g2 gs2 (runner : runner_ptr) :
  NoDup (concat (gs1 ++ (g1 ++ runner :: g2) :: gs2)) →
  [runner] ∈ gs1 ++ (g1 ++ runner :: g2) :: gs2 → g1 ++ g2 = [].
Proof.
  intros Hn Hsing. rewrite concat_erase in Hn.
  apply NoDup_cons in Hn as [Hn _]. rewrite concat_app in Hn. cbn in Hn.
  apply elem_of_app in Hsing as [Hs|[Hs|Hs]%elem_of_cons].
  - destruct Hn. apply elem_of_app. left. apply list_elem_of_In, in_concat.
    exists [runner]. rewrite <- !list_elem_of_In. split; [done|left].
  - destruct g1 as [|x g1], g2; cbn in Hs; try done; by destruct g1.
  - destruct Hn. rewrite !elem_of_app. right. right. apply list_elem_of_In, in_concat.
    exists [runner]. rewrite <- !list_elem_of_In. split; [done|left].
Qed.

(** [UnBind(runner)] takes the runner, and only it, out of the worker that
    holds it.  The group it leaves is kept even when that was its only
    runner: the worker is left with an empty group, and the group invariant
    is broken. *)
Theorem UnBind_runner_spec h w runner r
    (Hwf : groups_wf h w) (Hr : h !! runner = Some r)
    (Hid : ids_unique h (worker_runners w)) (Hin : runner ∈ worker_runners w) :
  ∃ w', UnBind_runner h runner w = Ok w' ∧
    worker_runners w ≡ₚ runner :: worker_runners w' ∧
    length (w_running_groups_ w') = length (w_running_groups_ w) ∧
    length (w_pending_groups_ w') = length (w_pending_groups_ w) ∧
    ([runner] ∈ w_running_groups_ w ++ w_pending_groups_ w → ¬ groups_wf h w').
Proof.
  pose proof Hwf as [Hne Hlive Hnd]. unfold worker_runners in *.
  apply Forall_app in Hlive as [Hlr Hlp].
  assert (Hsat : ∀ p, p ∈ concat (w_running_groups_ w) ++ concat (w_pending_groups_ w) →
    sat (has_id (GetId r)) h p = true → p = runner).
  { intros p Hp. unfold sat, has_id. destruct (h !! p) as [rp|] eqn:E; [|done].
    intros ?%Z.eqb_eq. eapply Hid; eauto. }
  setoid_rewrite elem_of_app in Hsat. unfold UnBind_runner, deref. rewrite Hr. cbn.
  pose proof (erase_in_groups_spec h _ runner r Hlr Hr (λ p Hp, Hsat p (or_introl Hp))) as Er.
  destruct (decide (runner ∈ concat (w_running_groups_ w))).
  - rewrite bool_decide_true in Er by done. destruct Er as (gs1 & g1 & g2 & gs2 & Eg & ->).
    cbn. eexists. split; [done|]. cbn. rewrite Eg, concat_erase, !length_app. cbn.
    repeat split; try done. rewrite Eg in Hnd. rewrite <- app_assoc in *. cbn in *.
    intros Hs%singleton_group_split; [|done]. intros [Hbad _ _]. cbn in Hbad.
    rewrite <- app_assoc in Hbad. cbn in Hbad. rewrite Forall_app, Forall_cons in Hbad.
    naive_solver.
  - rewrite bool_decide_false in Er by done. rewrite Er. cbn.
    apply elem_of_app in Hin as [?|Hin]; [done|].
    pose proof (erase_in_groups_spec h _ runner r Hlp Hr (λ p Hp, Hsat p (or_intror Hp))) as Ep.
    rewrite bool_decide_true in Ep by done. destruct Ep as (gs1 & g1 & g2 & gs2 & Eg & ->).
    cbn. eexists. split; [done|]. cbn. rewrite Eg, concat_erase, !length_app. cbn.
    repeat split; try done; [by rewrite <- Permutation_middle|]. rewrite Eg in Hnd.
    intros Hs. assert (g1 ++ g2 = []) as Hnil.
    { apply (singleton_group_split (w_running_groups_ w ++ gs1) g1 g2 gs2 runner);
        by rewrite <- app_assoc. }
    intros [Hbad _ _]. cbn in Hbad. rewrite !Forall_app, Forall_cons in Hbad. naive_solver.
Qed.

(** *** Handing groups over *)

Lemma retain_loop_spec h running ret n fuel :
  Forall (live h) running → (length running - S n < fuel)%nat → (S n ≤ length running)%nat →
  retain_loop fuel h running ret (InRunning (S n)) =
    if forallb (existsb (sat IsSchedulable h)) (drop (S n) running)
    then Ok (running, ret) else Fault InvalidIterator.
Proof.
  intros Hl. revert n. induction fuel as [|fuel IH]; intros n Hf Hn; [lia|].
  cbn [retain_loop]. destruct (running !! S n) as [g|] eqn:Eg.
  - rewrite (drop_S _ _ _ Eg). cbn [forallb].
    rewrite exists_runner_spec by (eapply (Forall_lookup_1 (live h)); eauto). cbn [obind].
    pose proof (lookup_lt_Some _ _ _ Eg).
    destruct (existsb _ g); cbn [andb].
    + rewrite IH by lia. done.
    + destruct fuel; [lia|done].
  - apply lookup_ge_None in Eg. by rewrite drop_ge by lia.
Qed.

Lemma retain_idle h w :
  w_running_groups_ w = [] → RetainActiveAndUnschedulable h w = Ok (ReleasePending w).
Proof.
  intros E. unfold RetainActiveAndUnschedulable, ReleasePending. rewrite E.
  destruct w; cbn in *. by subst.
Qed.

Lemma retain_running h w g gs :
  Forall (live h) (g :: gs) → w_running_groups_ w = g :: gs →
  RetainActiveAndUnschedulable h w =
    if forallb (existsb (sat IsSchedulable h)) gs
    then Ok (ReleasePending w) else Fault InvalidIterator.
Proof.
  intros Hlive E. unfold RetainActiveAndUnschedulable. rewrite E.
  change (retain_loop (S (length (g :: gs))) h (g :: gs) [] (InRunning 0))
    with (retain_loop (length (g :: gs)) h (g :: gs) [] (InRunning 1)).
  rewrite (retain_loop_spec h (g :: gs) [] 0) by first [done | cbn [length]; lia].
  cbn [drop]. rewrite drop_0.
  destruct (forallb _ gs); cbn; [|done]. rewrite <- E. unfold ReleasePending.
  by destruct w.
Qed.

Lemma retain_Ok h w r :
  Forall (live h) (w_running_groups_ w) →
  RetainActiveAndUnschedulable h w = Ok r → r = ReleasePending w.
Proof.
  intros Hlive. destruct (w_running_groups_ w) as [|g gs] eqn:E.
  - rewrite retain_idle by done. by intros [= <-].
  - erewrite retain_running by eassumption. destruct (forallb _ _); [|done]. by intros [= <-].
Qed.

(** C22. [RetainActiveAndUnschedulable] is defined exactly when every running
    group after the first holds a schedulable runner; it then keeps all
    running groups and hands over precisely the pending ones.  Otherwise — a
    group of unschedulable runners only, or an empty group — the splice drags
    the loop's iterator into the result list and the loop is undefined. *)
Theorem RetainActiveAndUnschedulable_spec h w
    (Hlive : Forall (live h) (w_running_groups_ w)) :
  RetainActiveAndUnschedulable h w =
    if forallb (existsb (sat IsSchedulable h)) (tail (w_running_groups_ w))
    then Ok (ReleasePending w) else Fault InvalidIterator.
Proof.
  destruct (w_running_groups_ w) as [|g gs] eqn:E;
    [by apply retain_idle|by apply retain_running with g].
Qed.

(** ** Reachable group lists *)

Lemma sort_insert_perm {A} (less : A → A → outcome bool) x l l' :
  sort_insert less x l = Ok l' → l' ≡ₚ x :: l.
Proof.
  revert l'. induction l as [|y l IH]; intros l' E; cbn in E.
  - by injection E as <-.
  - mstep E. destruct a; [|by injection E as <-]. mstep E. injection E as <-.
    rewrite (IH _ E1). apply Permutation_swap.
Qed.

Lemma list_sort_perm {A} (less : A → A → outcome bool) l l' :
  list_sort less l = Ok l' → l' ≡ₚ l.
Proof.
  revert l'. induction l as [|x l IH]; intros l' E; cbn in E.
  - by injection E as <-.
  - mstep E. apply sort_insert_perm in E. rewrite E. by rewrite (IH a).
Qed.

Lemma SortNoLock_perm h w w' :
  SortNoLock h w = Ok w' →
  w_running_groups_ w' ≡ₚ w_running_groups_ w ∧ w_pending_groups_ w' = w_pending_groups_ w.
Proof.
  unfold SortNoLock. destruct (w_running_groups_ w) as [|g gs] eqn:Er.
  - intros [= <-]. by rewrite Er.
  - intros E. mstep E. injection E as <-. cbn. by apply list_sort_perm in E0.
Qed.

(** The operations on the groups of one worker, interleaved in any order by
    the worker's own thread ([Sort], [Balance]) and by its callers; [Runners]
    is any change of the runner objects themselves. *)
Inductive group_step : gmap runner_ptr (TaskRunner Q) * Worker →
                       gmap runner_ptr (TaskRunner Q) * Worker → Prop :=
  | GsBind h w g w' :
      live h g → NoDup g → g ## worker_runners w → Bind_group h g w = Ok w' →
      group_step (h, w) (h, w')
  | GsBindList h w gs :
      Forall (live h) gs → Forall (λ g, g ≠ []) gs → NoDup (concat gs) →
      concat gs ## worker_runners w →
      group_step (h, w) (h, Bind_list gs w)
  | GsBindGroup h w father_id child w' :
      is_Some (h !! child) → child ∉ worker_runners w →
      BindGroup h father_id child w = Ok w' → group_step (h, w) (h, w')
  | GsSort h w w' : SortNoLock h w = Ok w' → group_step (h, w) (h, w')
  | GsBalance h w h' w' : BalanceNoLock h w = Ok (h', w') → group_step (h, w) (h', w')
  | GsRetain h w gs w' :
      RetainActiveAndUnschedulable h w = Ok (gs, w') → group_step (h, w) (h, w')
  | GsRelease h w : group_step (h, w) (h, (ReleasePending w).2)
  | GsUnBind h w : group_step (h, w) (h, (UnBind_all w).2)
  | GsRunners h w h' : dom h' = dom h → group_step (h, w) (h', w).

Lemma groups_wf_snoc h w gs w' :
  w_running_groups_ w' = w_running_groups_ w →
  w_pending_groups_ w' = w_pending_groups_ w ++ gs →
  Forall (live h) gs → Forall (λ g, g ≠ []) gs → NoDup (concat gs) →
  concat gs ## worker_runners w → groups_wf h w → groups_wf h w'.
Proof.
  intros Er Ep Hl Hn Hnd Hdis [H1 H2 H3]. unfold worker_runners in Hdis.
  split; rewrite Er, Ep, app_assoc; rewrite ?Forall_app in *; auto.
  rewrite concat_app. apply NoDup_app. split; [done|]. split; [|done].
  rewrite concat_app. intros p Hp Hp'. by apply (Hdis p).
Qed.

Lemma groups_wf_release h w : groups_wf h w → groups_wf h (ReleasePending w).2.
Proof.
  intros [H1 H2 H3]. rewrite Forall_app, ?concat_app in *. split; cbn.
  - rewrite app_nil_r. tauto.
  - rewrite app_nil_r. tauto.
  - rewrite app_nil_r. by apply NoDup_app in H3 as [? _].
Qed.

Lemma group_step_wf s s' : group_step s s' → groups_wf s.1 s.2 → groups_wf s'.1 s'.2.
Proof.
  intros Hst Hwf. destruct Hst as
    [h w g w' Hl Hnd Hdis E|h w gs Hl Hn Hnd Hdis|h w fid c w' Hc Hfr E|h w w' E
    |h w h' w' E|h w gs w' E|h w|h w|h w h' Hdom]; cbn in *.
  - unfold Bind_group in E. mstep E. mstep E. injection E as <-.
    apply vec_at_Ok in E0 as [_ E0]. apply groups_wf_snoc with w [g]; cbn; auto.
    + by destruct (_ =? _).
    + by destruct (_ =? _).
    + repeat constructor. by destruct g.
    + by rewrite app_nil_r.
    + by rewrite app_nil_r.
  - by apply groups_wf_snoc with w gs.
  - by eapply BindGroup_grows.
  - apply SortNoLock_perm in E as [Hp Hq]. eapply groups_wf_perm; [|done|done].
    by rewrite Hp, Hq.
  - by eapply BalanceNoLock_wf.
  - apply retain_Ok in E as [= _ ->]; [by apply groups_wf_release|].
    destruct Hwf as [_ Hl _]. by apply Forall_app in Hl as [? _].
  - by apply groups_wf_release.
  - split; cbn; constructor.
  - by eapply groups_wf_perm.
Qed.

End Spec.

(** ** Evaluation on a concrete worker *)

(** Runner [n] of a concrete heap: id [n], priority [prio], run time [time]. *)
Definition sample_tr (n prio time : Z) : TaskRunner (list DelayedEntry) :=
  SetTime time (TaskRunner_init 0 prio true "sample" n).

Definition sample_heap : gmap runner_ptr (TaskRunner (list DelayedEntry)) :=
  list_to_map [(1%nat, sample_tr 1 1 300); (2%nat, sample_tr 2 2 50);
               (3%nat, sample_tr 3 1 100); (4%nat, sample_tr 4 1 0);
               (5%nat, sample_tr 5 1 7)].

(** Running groups [1; 4], [2], [3]; pending group [5]. *)
Definition sample_worker : Worker :=
  set_w_pending_groups_ [[5%nat]]
    (set_w_running_groups_ [[1%nat; 4%nat]; [2%nat]; [3%nat]] (Worker_init true "sample")).

Lemma sample_groups_wf : groups_wf sample_heap sample_worker.
Proof. split; unfold live; decide_now. Defined.

Lemma SortNoLock_stable_witness :
  SortNoLock sample_heap sample_worker =
    Ok (set_w_running_groups_ [[2%nat]; [3%nat]; [1%nat; 4%nat]] sample_worker) ∧
  ∃ gs, SortNoLock sample_heap sample_worker = Ok (set_w_running_groups_ gs sample_worker).
Proof.
  split; [vm_compute; reflexivity|].
  destruct (SortNoLock_stable sample_heap sample_worker) as (gs & E & _).
  - decide_now.
  - unfold live. decide_now.
  - unfold weight_fits. decide_now.
  - exists gs. exact E.
Defined.

Lemma BalanceNoLock_spec_witness :
  ∃ h' w', BalanceNoLock sample_heap sample_worker = Ok (h', w') ∧
    w_running_groups_ w' = [[5%nat]; [1%nat; 4%nat]; [2%nat]; [3%nat]].
Proof.
  destruct (BalanceNoLock_spec sample_heap sample_worker sample_groups_wf)
    as (h' & w' & E & Er & _).
  exists h', w'. split; [exact E|exact Er].
Defined.

Lemma BindGroup_spec_witness :
  let h := <[6%nat := sample_tr 6 1 0]> sample_heap in
  (∃ w', BindGroup h 5 6%nat sample_worker = Ok w' ∧ groups_wf h w') ∧
  BindGroup h 9 6%nat sample_worker = Fault InvalidIterator.
Proof.
  set (h := <[6%nat := sample_tr 6 1 0]> sample_heap).
  assert (W : groups_wf h sample_worker) by (split; unfold live; decide_now).
  assert (C : is_Some (h !! 6%nat)) by decide_now.
  assert (F : 6%nat ∉ worker_runners sample_worker) by decide_now.
  pose proof (BindGroup_spec h 5 6 sample_worker W C F) as H5.
  pose proof (BindGroup_spec h 9 6 sample_worker W C F) as H9.
  vm_compute in H9. split; [|exact H9].
  match type of H5 with if ?b then _ else _ => replace b with true in H5 by reflexivity end.
  destruct H5 as (w' & E & Hw & _). exists w'. split; [exact E|exact Hw].
Defined.

Lemma UnBind_runner_spec_witness :
  ∃ w', UnBind_runner sample_heap 5%nat sample_worker = Ok w' ∧ ¬ groups_wf sample_heap w'.
Proof.
  destruct (UnBind_runner_spec sample_heap sample_worker 5%nat (sample_tr 5 1 7))
    as (w' & E & _ & _ & _ & Hbad).
  - exact sample_groups_wf.
  - reflexivity.
  - intros p q r r' Hp Hq Er Er' Eid.
    assert (Hall : ∀ p, p ∈ worker_runners sample_worker →
      GetId <$> sample_heap !! p = Some (Z.of_nat p)).
    { intros x Hx. revert x Hx. rewrite <- Forall_forall. decide_now. }
    apply Hall in Hp, Hq. rewrite Er in Hp. rewrite Er' in Hq.
    cbn in Hp, Hq. injection Hp as Hp. injection Hq as Hq. lia.
  - decide_now.
  - exists w'. split; [exact E|]. apply Hbad. decide_now.
Defined.

Lemma RetainActiveAndUnschedulable_spec_witness :
  RetainActiveAndUnschedulable sample_heap sample_worker = Ok (ReleasePending sample_worker) ∧
  RetainActiveAndUnschedulable sample_heap
    (set_w_running_groups_ [[1%nat]; []] sample_worker) = Fault InvalidIterator.
Proof.
  split; rewrite RetainActiveAndUnschedulable_spec by (unfold live; decide_now); reflexivity.
Defined.

