(* ===== verification/WorkerKeys.v ===== *)
(** * WorkerKeys: the runner-local storage of a worker

    Models the [WorkerKey...]/[Worker...Specific...] members of
    [src/footstone/worker.cc] and the [Runner...] entry points of
    [src/footstone/task_runner.cc].  A worker keeps, per task-runner id, an
    array of [kWorkerKeysMax] key slots ([worker_key_map_]) and an array of as
    many [void*] ([specific_map_]).  [std::array] copies by value and
    [auto array = map_it->second] is such a copy: the model keeps the copy
    apart from the map. *)

From S2P Require Import Prelude Time PriorityQueue Store TaskRunner Worker.

(** ** Operations *)

(** [key >= array.size()]: [key] is converted to [size_t] first. *)
Definition key_out_of_range {A} (key : Z) (array : list A) : bool :=
  Z.of_nat (length array) <=? wrap_u 64 key.

Definition WorkerKeyCreate (task_runner_id : Z) (destruct : option Z) (w : Worker) :
    Z * Worker :=
  match w_worker_key_map_ w !! task_runner_id with
  | None => (-1, w)
  | Some map_it_second =>
      let array := map_it_second in
      match list_find (λ k, wk_is_used k = false) array with
      | Some (i, _) =>
          (* the two assignments go to the local copy [array] *)
          let array := <[i := MkWorkerKey true destruct]> array in
          (Z.of_nat i, w)
      | None => (-1, w)
      end
  end.

Definition WorkerKeyDelete (task_runner_id key : Z) (w : Worker) : outcome (bool * Worker) :=
  match w_worker_key_map_ w !! task_runner_id with
  | None => Ok (false, w)
  | Some map_it_second =>
      let array := map_it_second in
      if key_out_of_range key array then Ok (false, w)
      else
        let! slot := vec_at array key in
        if negb (wk_is_used slot) then Ok (false, w)
        else
          let array := <[Z.to_nat key := MkWorkerKey false None]> array in
          Ok (true, w)
  end.

Definition WorkerSetSpecific (task_runner_id key p : Z) (w : Worker) : outcome (bool * Worker) :=
  match w_specific_map_ w !! task_runner_id with
  | None => Ok (false, w)
  | Some map_it_second =>
      let array := map_it_second in
      if key_out_of_range key array then Ok (false, w)
      else
        let! _ := vec_at array key in
        let array := <[Z.to_nat key := p]> array in
        Ok (true, w)
  end.

Definition WorkerGetSpecific (task_runner_id key : Z) (w : Worker) : outcome Z :=
  match w_specific_map_ w !! task_runner_id with
  | None => Ok nullptr
  | Some array =>
      if key_out_of_range key array then Ok nullptr else vec_at array key
  end.

(** The loop of [WorkerDestroySpecificNoLock]: the destructor calls it makes. *)
Fixpoint destroy_loop (i : nat) (key_array : list WorkerKey) (specific_array : list Z) :
    outcome (list Event) :=
  match specific_array with
  | [] => Ok []
  | data :: rest =>
      let! key := vec_at key_array (Z.of_nat i) in
      let! evs := destroy_loop (S i) key_array rest in
      match wk_destruct key with
      | Some destruct => if data =? nullptr then Ok evs
                         else Ok (EvDestruct destruct data :: evs)
      | None => Ok evs
      end
  end.

Definition WorkerDestroySpecificNoLock (task_runner_id : Z) (w : Worker) :
    outcome (list Event * Worker) :=
  match w_worker_key_map_ w !! task_runner_id, w_specific_map_ w !! task_runner_id with
  | Some key_array, Some specific_array =>
      let! evs := destroy_loop 0 key_array specific_array in
      Ok (evs, set_w_specific_map_ (delete task_runner_id (w_specific_map_ w))
                 (set_w_worker_key_map_ (delete task_runner_id (w_worker_key_map_ w)) w))
  | _, _ => Ok ([], w)
  end.

Definition WorkerDestroySpecific (task_runner_id : Z) (w : Worker) :
    outcome (list Event * Worker) :=
  WorkerDestroySpecificNoLock task_runner_id w.

(** Iteration over a [std::map]: [begin()] and [++it], keys in order. *)
Definition min_key (l : list Z) : option Z :=
  match l with [] => None | k :: l' => Some (fold_right Z.min k l') end.
Definition map_begin {A} (m : gmap Z A) : option Z := min_key (map_to_list m).*1.
Definition map_next {A} (m : gmap Z A) (k : Z) : option Z :=
  min_key (filter (λ k', k < k') (map_to_list m).*1).

(** The loop of [WorkerDestroySpecifics]; [None] is [end()].  The body first
    advances [map_it] ([auto next = ++map_it]), then reads [map_it->first] —
    undefined at the end — and destroys that entry.  The loop test then uses
    [next], the same position: undefined when the entry was erased. *)
Fixpoint destroy_specifics_loop (fuel : nat) (map_it : option Z) (w : Worker) :
    outcome (list Event * Worker) :=
  match map_it with
  | None => Ok ([], w)
  | Some k =>
      match fuel with
      | O => Fault OutOfFuel
      | S fuel =>
          match map_next (w_specific_map_ w) k with
          | None => Fault InvalidIterator
          | Some k' =>
              let! '(evs, w') := WorkerDestroySpecificNoLock k' w in
              match w_specific_map_ w' !! k' with
              | None => Fault InvalidIterator
              | Some _ => let! '(evs', w'') := destroy_specifics_loop fuel (Some k') w' in
                          Ok (evs ++ evs', w'')
              end
          end
      end
  end.

Definition WorkerDestroySpecifics (w : Worker) : outcome (list Event * Worker) :=
  destroy_specifics_loop (S (size (w_specific_map_ w))) (map_begin (w_specific_map_ w)) w.

(** [~Worker]. *)
Definition Worker_destroy (w : Worker) : outcome (list Event * Worker) :=
  let! _ := guard_f (w_is_terminated_ w) CheckFailed in WorkerDestroySpecifics w.

Definition keys_default : list WorkerKey := replicate kWorkerKeysMax WorkerKey_default.
Definition specific_default : list Z := replicate kWorkerKeysMax nullptr.

Arguments keys_default : simpl never.
Arguments specific_default : simpl never.

Definition GetMovedSpecificKeys (task_runner_id : Z) (w : Worker) : list WorkerKey * Worker :=
  match w_worker_key_map_ w !! task_runner_id with
  | Some ret => (ret, set_w_worker_key_map_ (delete task_runner_id (w_worker_key_map_ w)) w)
  | None => (keys_default, w)
  end.

Definition UpdateSpecificKeys (task_runner_id : Z) (array : list WorkerKey) (w : Worker) : Worker :=
  set_w_worker_key_map_ (<[task_runner_id := array]> (w_worker_key_map_ w)) w.

Definition GetMovedSpecific (task_runner_id : Z) (w : Worker) : list Z * Worker :=
  match w_specific_map_ w !! task_runner_id with
  | Some ret => (ret, set_w_specific_map_ (delete task_runner_id (w_specific_map_ w)) w)
  | None => (specific_default, w)
  end.

Definition UpdateSpecific (task_runner_id : Z) (array : list Z) (w : Worker) : Worker :=
  set_w_specific_map_ (<[task_runner_id := array]> (w_specific_map_ w)) w.

(** ** The entry points of a task

    [cur] is the thread the call is made on: the worker whose thread-locals
    [Worker::IsTaskRunning] and [Worker::GetCurrentTaskRunner] read. *)

Section RunnerOps.
Context {Q : Type}.

Definition IsTaskRunning (cur : worker_ptr) : M Q bool :=
  do! t := get_tls cur in st_ret (tls_is_task_running t).

Definition GetCurrentTaskRunner (cur : worker_ptr) : M Q (option runner_ptr) :=
  do! t := get_tls cur in
  do! _ := TDF_BASE_CHECK (tls_is_task_running t) in
  st_ret (tls_local_runner t).

Definition GetCurrentWorkerId (cur : worker_ptr) : M Q Z :=
  do! t := get_tls cur in st_ret (tls_local_worker_id t).

(** [TaskRunner::GetCurrentTaskRunner] and [TaskRunner::GetName] *)
Definition TaskRunner_GetCurrentTaskRunner := GetCurrentTaskRunner.
Definition GetName (this : runner_ptr) : M Q string :=
  do! r := get_runner this in st_ret (tr_name_ r).

(** The common preamble: the id of the current runner and this runner's
    worker. *)
Definition runner_preamble (cur : worker_ptr) (this : runner_ptr) : M Q (Z * worker_ptr) :=
  do! b := IsTaskRunning cur in
  do! _ := TDF_BASE_CHECK b in
  do! current := GetCurrentTaskRunner cur in
  do! p := st_lift (of_option NullDeref current) in
  do! r := get_runner p in
  do! self := get_runner this in
  do! worker := lock_worker (tr_worker_ self) in
  do! _ := TDF_BASE_CHECK (bool_decide (is_Some worker)) in
  do! w := st_lift (of_option NullDeref worker) in
  st_ret (GetId r, w).

Definition RunnerKeyCreate (cur : worker_ptr) (this : runner_ptr) (destruct : option Z) :
    M Q Z :=
  do! '(id, wp) := runner_preamble cur this in
  lift_worker wp (λ _ w, Ok (WorkerKeyCreate id destruct w)).

Definition RunnerKeyDelete (cur : worker_ptr) (this : runner_ptr) (key : Z) : M Q bool :=
  do! '(id, wp) := runner_preamble cur this in
  lift_worker wp (λ _ w, WorkerKeyDelete id key w).

Definition RunnerSetSpecific (cur : worker_ptr) (this : runner_ptr) (key p : Z) : M Q bool :=
  do! '(id, wp) := runner_preamble cur this in
  lift_worker wp (λ _ w, WorkerSetSpecific id key p w).

Definition RunnerGetSpecific (cur : worker_ptr) (this : runner_ptr) (key : Z) : M Q Z :=
  do! '(id, wp) := runner_preamble cur this in
  do! w := get_worker wp in
  st_lift (WorkerGetSpecific id key w).

Definition RunnerDestroySpecifics (cur : worker_ptr) (this : runner_ptr) : M Q unit :=
  do! '(id, wp) := runner_preamble cur this in
  do! evs := lift_worker wp (λ _ w, WorkerDestroySpecific id w) in
  log evs.

(** [~TaskRunner]. *)
Definition TaskRunner_destroy (this : runner_ptr) : M Q unit :=
  do! r := get_runner this in
  do! worker := lock_worker (tr_worker_ r) in
  do! _ := match worker with
           | Some wp => do! evs := lift_worker wp (λ _ w, WorkerDestroySpecific (GetId r) w) in
                        log evs
           | None => st_ret tt
           end in
  st_modify (λ s, set_wd_runners (delete this (wd_runners s)) s).
End RunnerOps.

(** ** Properties *)

(** Both maps hold arrays of the declared size. *)
Record keys_wf (w : Worker) : Prop := {
  kw_keys : map_Forall (λ _ a, length a = kWorkerKeysMax) (w_worker_key_map_ w);
  kw_specific : map_Forall (λ _ a, length a = kWorkerKeysMax) (w_specific_map_ w)
}.

Lemma key_out_of_range_spec {A} key (array : list A) :
  in_i32 key = true → length array = kWorkerKeysMax →
  key_out_of_range key array = negb ((0 <=? key) && (key <? 32)).
Proof.
  intros Hk Hlen. apply in_i32_spec in Hk. unfold key_out_of_range. rewrite Hlen.
  change (Z.of_nat kWorkerKeysMax) with 32. unfold wrap_u.
  destruct (Z.leb_spec 0 key).
  - rewrite Z.mod_small by lia. destruct (Z.ltb_spec key 32), (Z.leb_spec 32 key); cbn; lia || done.
  - replace (key mod 2 ^ 64) with (key + 2 ^ 64).
    + cbn [andb negb]. apply Z.leb_le. lia.
    + symmetry. rewrite <- (Z.mod_add key 1) by lia. rewrite Z.mul_1_l. apply Z.mod_small. lia.
Qed.

Lemma vec_at_in_range {A} key (array : list A) :
  length array = kWorkerKeysMax → (0 <=? key) && (key <? 32) = true →
  ∃ x, vec_at array key = Ok x ∧ array !! Z.to_nat key = Some x.
Proof.
  intros Hlen Hk. apply andb_true_iff in Hk as [Hk1%Z.leb_le Hk2%Z.ltb_lt].
  destruct (lookup_lt_is_Some_2 array (Z.to_nat key)) as [x Hx].
  { rewrite Hlen. unfold kWorkerKeysMax. lia. }
  exists x. by rewrite vec_at_Ok.
Qed.

(** Whatever 32-bit key a task passes, the storage operations stay inside
    their arrays: negative keys and keys from [kWorkerKeysMax] on are turned
    away ([false] / null), keys in range read their own slot, and no call
    faults. *)
Theorem key_ops_in_bounds (w : Worker) (id key p : Z)
    (Hwf : keys_wf w) (Hk : in_i32 key = true) :
  let in_range := (0 <=? key) && (key <? 32) in
  fst <$> WorkerSetSpecific id key p w =
    Ok (in_range && bool_decide (is_Some (w_specific_map_ w !! id))) ∧
  WorkerGetSpecific id key w =
    Ok (if in_range then default nullptr (w_specific_map_ w !! id ≫= (.!! Z.to_nat key))
        else nullptr) ∧
  fst <$> WorkerKeyDelete id key w =
    Ok (in_range && from_option wk_is_used false
                      (w_worker_key_map_ w !! id ≫= (.!! Z.to_nat key))).
Proof.
  destruct Hwf as [Hkeys Hspec].
  unfold WorkerSetSpecific, WorkerGetSpecific, WorkerKeyDelete. cbn zeta.
  destruct (w_specific_map_ w !! id) as [a|] eqn:Ea;
    destruct (w_worker_key_map_ w !! id) as [ka|] eqn:Ek; cbn.
  all: try (pose proof (Hspec _ _ Ea) as La; rewrite (key_out_of_range_spec key a) by done).
  all: try (pose proof (Hkeys _ _ Ek) as Lk; rewrite (key_out_of_range_spec key ka) by done).
  all: destruct ((0 <=? key) && (key <? 32)) eqn:R; cbn; try done.
  all: try (destruct (vec_at_in_range key a La R) as (x & -> & ->); cbn).
  all: try (destruct (vec_at_in_range key ka Lk R) as (y & -> & ->); cbn).
  all: repeat split; try done.
  all: by destruct (wk_is_used y).
Qed.

(** *** A runner's storage over time *)

Inductive key_op :=
  | OpCreate (destruct : option Z) | OpDelete (key : Z)
  | OpSet (key p : Z) | OpGet (key : Z).

Inductive key_result := RKey (key : Z) | RBool (b : bool) | RPtr (p : Z).

Definition run_key_op (id : Z) (op : key_op) (w : Worker) : outcome (key_result * Worker) :=
  match op with
  | OpCreate destruct => let '(k, w') := WorkerKeyCreate id destruct w in Ok (RKey k, w')
  | OpDelete key => let! '(b, w') := WorkerKeyDelete id key w in Ok (RBool b, w')
  | OpSet key p => let! '(b, w') := WorkerSetSpecific id key p w in Ok (RBool b, w')
  | OpGet key => let! p := WorkerGetSpecific id key w in Ok (RPtr p, w)
  end.

Fixpoint run_key_ops (id : Z) (ops : list key_op) (w : Worker) :
    outcome (list key_result * Worker) :=
  match ops with
  | [] => Ok ([], w)
  | op :: ops => let! '(r, w1) := run_key_op id op w in
                 let! '(rs, w2) := run_key_ops id ops w1 in Ok (r :: rs, w2)
  end.

Definition op_key_i32 (op : key_op) : Prop :=
  match op with
  | OpCreate _ => True
  | OpDelete key | OpSet key _ | OpGet key => in_i32 key = true
  end.

(** What each call answers on storage nothing was ever written to. *)
Definition blank_answer (op : key_op) : key_result :=
  match op with
  | OpCreate _ => RKey 0
  | OpDelete _ => RBool false
  | OpSet key _ => RBool ((0 <=? key) && (key <? 32))
  | OpGet _ => RPtr nullptr
  end.

Lemma lookup_default_key {A} (x : A) key :
  (0 <=? key) && (key <? 32) = true → replicate kWorkerKeysMax x !! Z.to_nat key = Some x.
Proof.
  intros Hk. apply andb_true_iff in Hk as [Hk1%Z.leb_le Hk2%Z.ltb_lt].
  apply lookup_replicate. split; [done|]. unfold kWorkerKeysMax. lia.
Qed.

(** The storage a runner gets ([UpdateWorkerSpecific] installs blank
    arrays) stays blank: every sequence of key operations leaves the worker
    exactly as it was.  Each [RunnerKeyCreate] therefore returns key 0 again,
    [RunnerKeyDelete] always fails, and [RunnerGetSpecific] always returns
    null, also after a [RunnerSetSpecific] that reported success. *)
Theorem runner_storage_stays_blank (w0 : Worker) (id : Z) (ops : list key_op)
    (Hwf : keys_wf w0) (Hops : Forall op_key_i32 ops) :
  let w := UpdateSpecific id specific_default (UpdateSpecificKeys id keys_default w0) in
  run_key_ops id ops w = Ok (map blank_answer ops, w).
Proof.
  cbn zeta. set (w := UpdateSpecific _ _ _).
  assert (Hk : w_worker_key_map_ w !! id = Some keys_default) by apply lookup_insert_eq.
  assert (Hs : w_specific_map_ w !! id = Some specific_default) by apply lookup_insert_eq.
  assert (Hw : keys_wf w).
  { destruct Hwf. split; cbn; apply map_Forall_insert_2; done || apply length_replicate. }
  induction Hops as [|op ops Hop _ IH]; cbn; [done|].
  assert (E : run_key_op id op w = Ok (blank_answer op, w)).
  { destruct op as [d|key|key p|key]; cbn in Hop |- *.
    - unfold WorkerKeyCreate. rewrite Hk. done.
    - unfold WorkerKeyDelete. rewrite Hk, key_out_of_range_spec by done.
      destruct (_ && _) eqn:R; cbn; [|done].
      destruct (vec_at_in_range key keys_default) as (x & -> & Hx); [done|done|]. cbn.
      unfold keys_default in Hx. rewrite lookup_default_key in Hx by done.
      by injection Hx as <-.
    - unfold WorkerSetSpecific. rewrite Hs, key_out_of_range_spec by done.
      destruct (_ && _) eqn:R; cbn; [|done].
      by destruct (vec_at_in_range key specific_default) as (x & -> & Hx).
    - unfold WorkerGetSpecific. rewrite Hs, key_out_of_range_spec by done.
      destruct (_ && _) eqn:R; cbn; [|done].
      destruct (vec_at_in_range key specific_default) as (x & -> & Hx); [done|done|].
      unfold specific_default in Hx. rewrite lookup_default_key in Hx by done.
      by injection Hx as <-. }
  rewrite E. cbn. by rewrite IH.
Qed.

(** *** Destroying the storage *)

(** The calls due for the slots of one runner, in slot order. *)
Definition due_destructors (keys : list WorkerKey) (specific : list Z) : list Event :=
  omap (λ '(k, data), match wk_destruct k with
                      | Some d => if data =? nullptr then None else Some (EvDestruct d data)
                      | None => None
                      end) (zip keys specific).

Lemma destroy_loop_spec i keys specific :
  (i + length specific ≤ length keys)%nat →
  destroy_loop i keys specific = Ok (due_destructors (drop i keys) specific).
Proof.
  revert i. induction specific as [|data specific IH]; intros i Hlen; cbn.
  - unfold due_destructors. by rewrite zip_with_nil_r.
  - cbn in Hlen. destruct (lookup_lt_is_Some_2 keys i) as [k Hk]; [lia|].
    rewrite (proj2 (vec_at_Ok keys (Z.of_nat i) k)) by (rewrite Nat2Z.id; auto with lia).
    cbn. rewrite IH by lia. rewrite (drop_S _ _ _ Hk). unfold due_destructors. cbn.
    destruct (wk_destruct k); [|done]. by destruct (data =? nullptr).
Qed.

Lemma destroy_NoLock_run (w : Worker) (id : Z) :
  keys_wf w →
  WorkerDestroySpecificNoLock id w =
    match w_worker_key_map_ w !! id, w_specific_map_ w !! id with
    | Some keys, Some specific =>
        Ok (due_destructors keys specific,
            set_w_specific_map_ (delete id (w_specific_map_ w))
              (set_w_worker_key_map_ (delete id (w_worker_key_map_ w)) w))
    | _, _ => Ok ([], w)
    end.
Proof.
  intros [Hk Hs]. unfold WorkerDestroySpecificNoLock.
  destruct (w_worker_key_map_ w !! id) as [keys|] eqn:Ek; [|done].
  destruct (w_specific_map_ w !! id) as [specific|] eqn:Es; [|done].
  rewrite destroy_loop_spec; [done|].
  rewrite (Hk _ _ Ek), (Hs _ _ Es). done.
Qed.

(** Destroying one runner's storage calls, in slot order, the destructor of
    every slot that has both a destructor and a non-null value, and removes
    the runner's two arrays and nothing else; a runner that lacks one of the
    arrays is left alone. *)
Theorem WorkerDestroySpecific_spec (w : Worker) (id : Z) (Hwf : keys_wf w) :
  WorkerDestroySpecific id w =
    match w_worker_key_map_ w !! id, w_specific_map_ w !! id with
    | Some keys, Some specific =>
        Ok (due_destructors keys specific,
            set_w_specific_map_ (delete id (w_specific_map_ w))
              (set_w_worker_key_map_ (delete id (w_worker_key_map_ w)) w))
    | _, _ => Ok ([], w)
    end.
Proof.
  by apply destroy_NoLock_run.
Qed.

Lemma min_key_Some l k : min_key l = Some k → k ∈ l.
Proof.
  destruct l as [|x l]; [done|]. cbn. intros [= <-].
  induction l as [|y l IH]; cbn; [left|].
  destruct (Z.min_spec y (fold_right Z.min x l)) as [[_ ->]|[_ ->]]; [right; left|].
  apply elem_of_cons in IH as [->|IH]; [left|right; right]; done.
Qed.

Lemma map_begin_None {A} (m : gmap Z A) : map_begin m = None ↔ m = ∅.
Proof.
  unfold map_begin. rewrite <- map_to_list_empty_iff.
  by destruct (map_to_list m) as [|[] ?].
Qed.

Lemma map_next_Some {A} (m : gmap Z A) k k' :
  map_next m k = Some k' → k < k' ∧ k' ∈ (map_to_list m).*1.
Proof. unfold map_next. intros H%min_key_Some. by apply list_elem_of_filter in H. Qed.

(** The keys still ahead of an iterator. *)
Definition keys_after {A} (m : gmap Z A) (k : Z) : list Z :=
  filter (λ k', k < k') (map_to_list m).*1.

Lemma keys_after_lt {A} (m : gmap Z A) k k' :
  map_next m k = Some k' → (length (keys_after m k') < length (keys_after m k))%nat.
Proof.
  intros [Hlt Hin]%map_next_Some. unfold keys_after.
  replace (filter (λ x, k' < x) (map_to_list m).*1)
    with (filter (λ x, k' < x) (filter (λ x, k < x) (map_to_list m).*1)).
  - apply length_filter_lt with k'; [|lia]. by apply list_elem_of_filter.
  - rewrite list_filter_filter. apply list_filter_iff. intros; lia.
Qed.

Lemma destroy_specifics_loop_ub fuel k w :
  keys_wf w → (length (keys_after (w_specific_map_ w) k) < fuel)%nat →
  destroy_specifics_loop fuel (Some k) w = Fault InvalidIterator.
Proof.
  revert k. induction fuel as [|fuel IH]; intros k Hwf Hf; [lia|]. cbn.
  destruct (map_next (w_specific_map_ w) k) as [k'|] eqn:En; [|done].
  pose proof (keys_after_lt _ _ _ En) as Hlt.
  rewrite (destroy_NoLock_run w k' Hwf).
  assert (Hrest : match w_specific_map_ w !! k' with
                  | Some _ => let! '(evs', w'') := destroy_specifics_loop fuel (Some k') w
                              in Ok ([] ++ evs', w'')
                  | None => Fault InvalidIterator
                  end = Fault InvalidIterator).
  { destruct (_ !! k'); [|done]. rewrite IH by (done || lia). done. }
  destruct (w_worker_key_map_ w !! k') as [keys|]; [|exact Hrest].
  destruct (w_specific_map_ w !! k') as [specific|] eqn:Es; cbn.
  - by rewrite lookup_delete_eq.
  - by rewrite Es.
Qed.

(** Destroying a terminated worker is undefined as soon as one runner has
    storage on it: the loop of [WorkerDestroySpecifics] advances its iterator
    before using it, so it either dereferences [end()] or goes on from an
    entry it erased.  Only a worker without storage is destroyed cleanly;
    one that was not terminated aborts. *)
Theorem Worker_destroy_spec (w : Worker) (Hwf : keys_wf w) :
  Worker_destroy w =
    if w_is_terminated_ w then
      if bool_decide (w_specific_map_ w = ∅) then Ok ([], w) else Fault InvalidIterator
    else Fault CheckFailed.
Proof.
  unfold Worker_destroy. destruct (w_is_terminated_ w); [|done]. cbn [guard_f obind].
  unfold WorkerDestroySpecifics. remember (S (size _)) as fuel eqn:Ef.
  destruct (map_begin (w_specific_map_ w)) as [k|] eqn:Eb.
  - rewrite bool_decide_false.
    + apply destroy_specifics_loop_ub; [done|]. unfold keys_after.
      pose proof (length_filter (λ k', k < k') (map_to_list (w_specific_map_ w)).*1) as Hl.
      rewrite length_fmap, length_map_to_list in Hl. lia.
    + intros He. rewrite <- map_begin_None in He. congruence.
  - apply map_begin_None in Eb. rewrite bool_decide_true by done. by destruct fuel.
Qed.

(** ** Evaluation on a concrete worker *)

(** A terminated worker on which runner 7 has one key with a destructor. *)
Definition storage_worker : Worker :=
  set_w_is_terminated_ true
    (UpdateSpecific 7 (<[0%nat := 55]> specific_default)
      (UpdateSpecificKeys 7 (<[0%nat := MkWorkerKey true (Some 3)]> keys_default)
        (Worker_init true "w"))).

Lemma storage_worker_wf : keys_wf storage_worker.
Proof. split; decide_now. Defined.

Lemma key_ops_in_bounds_witness :
  keys_wf storage_worker ∧ in_i32 (-1) = true ∧ in_i32 0 = true ∧
  WorkerGetSpecific 7 0 storage_worker = Ok 55 ∧
  WorkerGetSpecific 7 (-1) storage_worker = Ok nullptr.
Proof.
  split; [exact storage_worker_wf|]. do 2 (split; [reflexivity|]).
  destruct (key_ops_in_bounds storage_worker 7 0 1 storage_worker_wf eq_refl) as (_ & G0 & _).
  destruct (key_ops_in_bounds storage_worker 7 (-1) 1 storage_worker_wf eq_refl) as (_ & G1 & _).
  split; [exact G0|exact G1].
Defined.

Lemma runner_storage_stays_blank_witness :
  ∃ w, run_key_ops 4 [OpCreate (Some 1); OpSet 0 99; OpGet 0; OpCreate None] w =
         Ok ([RKey 0; RBool true; RPtr nullptr; RKey 0], w).
Proof.
  eexists.
  apply (runner_storage_stays_blank storage_worker 4
           [OpCreate (Some 1); OpSet 0 99; OpGet 0; OpCreate None] storage_worker_wf).
  repeat constructor.
Defined.

Lemma WorkerDestroySpecific_spec_witness :
  ∃ w', WorkerDestroySpecific 7 storage_worker = Ok ([EvDestruct 3 55], w').
Proof.
  eexists. rewrite (WorkerDestroySpecific_spec storage_worker 7 storage_worker_wf). reflexivity.
Defined.

Lemma Worker_destroy_spec_witness :
  Worker_destroy storage_worker = Fault InvalidIterator.
Proof. rewrite (Worker_destroy_spec storage_worker storage_worker_wf). reflexivity. Defined.
