(* ===== verification/WorkerLoop.v ===== *)
(** * WorkerLoop: choosing and running tasks

    Models [Worker::GetNextTask], [Worker::RunTask] and the bodies of the tasks
    the library posts itself ([src/footstone/worker.cc],
    [src/footstone/worker_manager.cc]), and the sub-runner operations of
    [src/footstone/task_runner.cc] that run tasks recursively.  The critical
    sections and the calls between them are the steps of the monad [M]; user
    callbacks are arguments ([Callbacks]). *)

From S2P Require Import Prelude Time PriorityQueue Store TaskRunner Worker WorkerKeys.
From stdpp Require sorting.
From Stdlib Require Import Sorted.

(** ** Operations *)

(** What the library does not define: the bodies of user tasks, of idle tasks
    and of the timer callback. *)
Record Callbacks (Q : Type) := MkCallbacks {
  cb_user : Z → M Q unit;
  cb_idle : IdleUnit → IdleCbParam → M Q unit;
  cb_timer : nat → M Q unit
}.
Arguments cb_user {Q} _ _.
Arguments cb_idle {Q} _ _ _.
Arguments cb_timer {Q} _ _.
Arguments MkCallbacks {Q} _ _ _.

Section Operations.
Context {Q : Type} `{PriorityQueue DelayedEntry Q} `{WorkerBackend}.
Variable clock : nat → Z.

(** [BalanceNoLock] in the world. *)
Definition Worker_Balance (p : worker_ptr) : M Q unit :=
  do! w := get_worker p in
  do! s := st_get in
  do! '(h', w') := st_lift (BalanceNoLock (wd_runners s) w) in
  do! _ := st_modify (set_wd_runners h') in
  put_worker p w'.

(** The scan over the running groups: the first group whose top runner has a
    task wins ([inl]); otherwise the first idle task found ([inr]).  Each
    [GetNext] reads the clock itself; [now] was read before the loop. *)
Fixpoint GetNextTask_scan (p : worker_ptr) (now : Z) (groups : list Group)
    (idle_task : option IdleTask) : M Q (Task + option IdleTask) :=
  match groups with
  | [] => st_ret (inr idle_task)
  | running_group :: groups =>
      do! runner := st_lift (vec_back running_group) in
      do! r := get_runner runner in
      do! t := Now clock in
      do! '(task, r') := st_lift (GetNext t r) in
      do! _ := put_runner runner r' in
      match task with
      | Some task =>
          do! _ := modify_tls p (λ l, set_tls_local_runner (Some runner)
                                        (set_tls_curr_group running_group l)) in
          st_ret (inl task)
      | None =>
          do! front := st_lift (vec_front running_group) in
          do! idle_task :=
            match idle_task with
            | Some _ => st_ret idle_task
            | None => do! f := get_runner front in
                      let '(i, f') := PopIdleTask f in
                      do! _ := put_runner front f' in st_ret i
            end in
          do! f := get_runner front in
          do! last_wait_time := st_lift (GetNextTimeDelta now f) in
          do! w := get_worker p in
          do! _ := if TimeDelta_gt (w_min_wait_time_ w) last_wait_time then
                     do! next := st_lift (TimePoint_plus_delta now last_wait_time) in
                     put_worker p (set_w_next_task_time_ next
                                     (set_w_min_wait_time_ last_wait_time w))
                   else st_ret tt in
          GetNextTask_scan p now groups idle_task
      end
  end.

Definition GetNextTask (p : worker_ptr) : M Q (option Task) :=
  do! w := get_worker p in
  match w_immediate_task_queue_ w with
  | task :: rest =>
      do! _ := put_worker p (set_w_immediate_task_queue_ rest w) in
      st_ret task
  | [] =>
      do! _ := if (1 <? length (w_running_groups_ w))%nat
               then lift_worker_ p (λ h w, SortNoLock h w) else st_ret tt in
      do! w := get_worker p in
      do! _ := if w_need_balance_ w then
                 do! _ := Worker_Balance p in
                 modify_worker p (set_w_need_balance_ false)
               else st_ret tt in
      do! now := Now clock in
      do! w := get_worker p in
      do! found := GetNextTask_scan p now (w_running_groups_ w) None in
      match found with
      | inl task => st_ret (Some task)
      | inr idle_task =>
          do! w := get_worker p in
          if negb (w_is_terminated_ w) then st_ret None
          else match idle_task with
               | Some task =>
                   do! wrapper := Task_new (Some (CIdle task (w_min_wait_time_ w))) in
                   st_ret (Some wrapper)
               | None => do! _ := WaitFor p (w_min_wait_time_ w) in st_ret None
               end
      end
  end.

(** [IdleTask::Run]. *)
Definition IdleTask_Run (cb : Callbacks Q) (task : IdleTask) (param : IdleCbParam) : M Q unit :=
  match idle_unit_ task with
  | Some u => cb_idle cb u param
  | None => st_ret tt
  end.

(** The bodies of tasks.  Stage one of a migration runs on the old worker and
    takes the runner's storage off it; stage two runs on the new worker. *)
Definition run_closure (cb : Callbacks Q) (c : Closure) : M Q unit :=
  match c with
  | CUser n => cb_user cb n
  | CTimer t => cb_timer cb t
  | CIdle task time => IdleTask_Run cb task (MkIdleCbParam false time)
  | CMoveSpecific weak_from weak_to runner_id =>
      do! from := lock_worker (Some weak_from) in
      do! _ := TDF_BASE_CHECK (bool_decide (is_Some from)) in
      do! specific_keys :=
        lift_worker weak_from (λ _ w, Ok (GetMovedSpecificKeys runner_id w)) in
      do! specific :=
        lift_worker weak_from (λ _ w, Ok (GetMovedSpecific runner_id w)) in
      do! to := lock_worker (Some weak_to) in
      match to with
      | Some to =>
          do! task := Task_new (Some (CInstallSpecific runner_id weak_to
                                        specific_keys specific)) in
          modify_worker to (AddImmediateTask (Some task))
      | None => st_ret tt
      end
  | CInstallSpecific runner_id weak_to moved_specific_keys moved_specific =>
      do! to := lock_worker (Some weak_to) in
      match to with
      | Some to =>
          do! _ := modify_worker to (UpdateSpecificKeys runner_id moved_specific_keys) in
          modify_worker to (UpdateSpecific runner_id moved_specific)
      | None => st_ret tt
      end
  end.

(** [Task::Run]. *)
Definition Task_Run (cb : Callbacks Q) (task : Task) : M Q unit :=
  match task_unit_ task with
  | Some c => run_closure cb c
  | None => st_ret tt
  end.

(** The loop of [RunTask]: each runner of the group is charged for the time
    since [begin], read again for each. *)
Definition charge (begin : Z) (p : runner_ptr) : M Q unit :=
  do! r := get_runner p in
  do! now := Now clock in
  do! d := st_lift (TimePoint_minus now begin) in
  do! r' := st_lift (AddTime d r) in
  put_runner p r'.

Definition RunTask (cb : Callbacks Q) (p : worker_ptr) : M Q bool :=
  do! task := GetNextTask p in
  match task with
  | Some task =>
      do! begin := Now clock in
      do! _ := modify_tls p (set_tls_is_task_running true) in
      do! _ := Task_Run cb task in
      do! _ := modify_tls p (set_tls_is_task_running false) in
      do! t := get_tls p in
      do! _ := st_iter (charge begin) (tls_curr_group t) in
      st_ret true
  | None =>
      do! w := get_worker p in
      if w_is_terminated_ w then st_ret false else st_ret true
  end.

(** ** Sub-runners *)

(** [while (has_sub_runner_) worker->RunTask()]. *)
Fixpoint sub_runner_loop (fuel : nat) (cb : Callbacks Q) (this : runner_ptr)
    (worker : worker_ptr) : M Q unit :=
  do! self := get_runner this in
  if tr_has_sub_runner_ self then
    match fuel with
    | O => st_fault OutOfFuel
    | S fuel => do! _ := RunTask cb worker in sub_runner_loop fuel cb this worker
    end
  else st_ret tt.

Definition AddSubTaskRunner (fuel : nat) (cb : Callbacks Q) (this sub_runner : runner_ptr)
    (is_task_running : bool) : M Q bool :=
  do! self := get_runner this in
  do! worker := lock_worker (tr_worker_ self) in
  match worker with
  | None => st_ret false
  | Some wp =>
      do! _ := lift_worker_ wp (λ h w, BindGroup h (GetId self) sub_runner w) in
      do! self := get_runner this in
      do! _ := put_runner this (set_tr_has_sub_runner_ true self) in
      if is_task_running then
        do! _ := modify_worker wp (set_w_is_stacking_mode_ true) in
        do! _ := sub_runner_loop fuel cb this wp in
        st_ret true
      else st_ret true
  end.

Definition RemoveSubTaskRunner (this : runner_ptr) (sub_runner : option runner_ptr) : M Q bool :=
  do! self := get_runner this in
  match sub_runner with
  | Some sub =>
      if negb (tr_has_sub_runner_ self) then st_ret false
      else
        do! worker := lock_worker (tr_worker_ self) in
        match worker with
        | None => st_ret false
        | Some wp =>
            do! _ := lift_worker_ wp (λ h w, UnBind_runner h sub w) in
            do! self := get_runner this in
            do! _ := put_runner this (set_tr_has_sub_runner_ false self) in
            do! _ := NotifyWorker this in
            st_ret true
        end
  | None => st_ret false
  end.

(** The inline accessors of worker.h that the loop's fields serve. *)
Definition GetTimeRemaining (p : worker_ptr) : M Q Z :=
  do! t := Now clock in
  do! w := get_worker p in
  st_lift (TimePoint_minus t (w_next_task_time_ w)).
Definition GetStackingMode (p : worker_ptr) : M Q bool :=
  do! w := get_worker p in st_ret (w_is_stacking_mode_ w).
Definition SetStackingMode (p : worker_ptr) (is_stacking_mode : bool) : M Q unit :=
  modify_worker p (set_w_is_stacking_mode_ is_stacking_mode).

(** The time [GetTimeRemaining] reports is the time that has passed since the
    next delayed task was due: negative exactly while that task is still ahead,
    and far below zero ([next_task_time_] is [TimePoint::Max]) when there is
    none. *)
Theorem GetTimeRemaining_sign p (s : World Q) w
    (Hw : wd_workers s !! p = Some w)
    (Hclock : 0 ≤ clock (wd_ticks s) ≤ i64_max) (Hnext : 0 ≤ w_next_task_time_ w ≤ i64_max) :
  ∃ d, GetTimeRemaining p s = Ok (d, set_wd_ticks (S (wd_ticks s)) s) ∧
       d = clock (wd_ticks s) - w_next_task_time_ w ∧
       (d < 0 ↔ clock (wd_ticks s) < w_next_task_time_ w) ∧
       (w_next_task_time_ w = i64_max → d ≤ 0).
Proof.
  eexists. split.
  { unfold GetTimeRemaining. mrun.
    unfold st_lift, TimePoint_minus, TimeDelta_FromNanoseconds. rewrite i64_ok; [done|].
    unfold i64_min, i64_max in *. lia. }
  unfold i64_max in *. lia.
Qed.
End Operations.

(** ** The scan *)

Section Scan.
Context {Q : Type} `{PriorityQueueLaws DelayedEntry Q deadline} `{WorkerBackend}.
Variable clock : nat → Z.
(** The steady clock counts nanoseconds up from its epoch. *)
Hypothesis clock_range : ∀ n, 0 ≤ clock n ≤ i64_max.
(** Bounds on priorities and on accumulated run times. *)
Variables P T : Z.
Implicit Types (s : World Q) (r : TaskRunner Q) (g : Group) (gs : list Group).

(** A runner whose numbers stay within bounds: deadlines are points of the
    clock, and priority and run time respect [P] and [T]. *)
Record runner_ok r : Prop := {
  ro_wf : tr_wf r;
  ro_deadlines : Forall (λ e, 0 ≤ deadline e ≤ i64_max) (pq_elems (tr_delayed_task_queue_ r));
  ro_time : 0 ≤ tr_time_ r ≤ T;
  ro_priority : - P ≤ GetPriority r ≤ P
}.

Lemma GetNext_ok now r :
  runner_ok r → ∃ res r', GetNext now r = Ok (res, r') ∧ runner_ok r'.
Proof.
  intros [Hwf Hd Ht Hp].
  destruct (GetNext_general now r Hwf) as (res & r' & moved & stop & E & [Hw Hpm _ _ Hs] & _).
  exists res, r'. split; [done|]. rewrite Hpm in Hd. apply Forall_app in Hd as [_ Hd].
  unfold same_but_queues in Hs. split; auto; by rewrite Hs.
Qed.

Lemma GetNextTimeDelta_ok now r :
  0 ≤ now ≤ i64_max → runner_ok r →
  ∃ d, GetNextTimeDelta now r = Ok d ∧
    (d = TimeDelta_Max ∨ (∃ e, e ∈ pq_elems (tr_delayed_task_queue_ r) ∧ d = deadline e - now)).
Proof.
  intros Hn [_ Hd _ _]. unfold GetNextTimeDelta.
  destruct (pq_top (tr_delayed_task_queue_ r)) as [e|] eqn:E; [|eauto].
  pose proof (pq_top_elem _ _ E) as Hin. rewrite Forall_forall in Hd.
  pose proof (Hd _ Hin) as He. unfold TimePoint_minus.
  rewrite i64_ok by (unfold i64_min, i64_max in *; lia). cbn. eauto 8.
Qed.

(** What the scan leaves alone, and how far it may move the wait time. *)
Record scan_frame (p : worker_ptr) s s' : Prop := {
  sf_events : wd_events s' = wd_events s;
  sf_ids : wd_g_next_task_id s' = wd_g_next_task_id s;
  sf_dom : dom (wd_runners s') = dom (wd_runners s);
  sf_ok : map_Forall (λ _ r, runner_ok r) (wd_runners s) →
          map_Forall (λ _ r, runner_ok r) (wd_runners s');
  sf_worker : ∀ w, wd_workers s !! p = Some w →
    ∃ m t, m ≤ w_min_wait_time_ w ∧
      wd_workers s' = <[p := set_w_next_task_time_ t (set_w_min_wait_time_ m w)]> (wd_workers s)
}.

Lemma scan_frame_trans p s1 s2 s3 w :
  wd_workers s1 !! p = Some w →
  scan_frame p s1 s2 → scan_frame p s2 s3 → scan_frame p s1 s3.
Proof.
  intros Hw [e1 i1 d1 o1 w1] [e2 i2 d2 o2 w2]. split; try congruence; auto.
  intros w' Hw'. simplify_eq.
  destruct (w1 w Hw) as (m & t & Hm & E). destruct (w2 _ (eq_trans (f_equal (.!! p) E)
    (lookup_insert_eq _ _ _))) as (m' & t' & Hm' & E'). cbn in Hm'.
  exists m', t'. split; [lia|]. by rewrite E', E, insert_insert_eq.
Qed.

(** The answer of a group's top runner to [GetNext] at a given time. *)
Definition top_answer (h : gmap runner_ptr (TaskRunner Q)) (now : Z) g : outcome (option Task) :=
  let! b := vec_back g in
  let! r := deref h b in
  let! a := GetNext now r in Ok a.1.

Lemma top_answer_run h now g b r o r' :
  vec_back g = Ok b → h !! b = Some r → GetNext now r = Ok (o, r') → top_answer h now g = Ok o.
Proof. intros Hb Hr E. unfold top_answer, deref. rewrite Hb. cbn. rewrite Hr. cbn. by rewrite E. Qed.

Lemma top_answer_frame h h' now g :
  (∀ q, q ∈ g → h' !! q = h !! q) → top_answer h' now g = top_answer h now g.
Proof.
  intros Hq. unfold top_answer, deref. destruct (vec_back g) as [b|] eqn:E; [|done]. cbn.
  apply vec_back_Ok in E as [g' ->]. rewrite Hq; [done|]. apply elem_of_app. right. left.
Qed.

Lemma modify_tls_frame p s f :
  scan_frame p s (set_wd_tls (<[p := f (tls_of s p)]> (wd_tls s)) s).
Proof.
  split; auto. intros w Hw. exists (w_min_wait_time_ w), (w_next_task_time_ w).
  split; [lia|]. cbn. rewrite insert_id; [done|]. rewrite Hw. by destruct w.
Qed.

Lemma put_runner_frame p q r s :
  is_Some (wd_runners s !! q) → runner_ok r →
  scan_frame p s (set_wd_runners (<[q := r]> (wd_runners s)) s).
Proof.
  intros Hq Hr. split; auto; cbn.
  - rewrite dom_insert_L. apply elem_of_dom in Hq. set_solver.
  - intros Hok. by apply map_Forall_insert_2.
  - intros w Hw. exists (w_min_wait_time_ w), (w_next_task_time_ w).
    split; [lia|]. rewrite insert_id; [done|]. rewrite Hw. by destruct w.
Qed.

Lemma ticks_frame p s n : scan_frame p s (set_wd_ticks n s).
Proof.
  split; auto. intros w Hw. exists (w_min_wait_time_ w), (w_next_task_time_ w).
  split; [lia|]. cbn. rewrite insert_id; [done|]. rewrite Hw. by destruct w.
Qed.

Lemma scan_frame_refl p s : scan_frame p s s.
Proof. pose proof (ticks_frame p s (wd_ticks s)) as F. by destruct s. Qed.

(** Taking the idle task of a group's front runner, when none was found yet. *)
Lemma scan_pop_idle p f idle s w rf :
  wd_workers s !! p = Some w → wd_runners s !! f = Some rf → runner_ok rf →
  ∃ idle' s' rf',
    (match idle with
     | Some _ => st_ret idle
     | None => do! f0 := get_runner f in
               let '(i, f') := PopIdleTask f0 in
               do! _ := put_runner f f' in st_ret i
     end) s = Ok (idle', s') ∧
    scan_frame p s s' ∧ wd_ticks s' = wd_ticks s ∧
    (∀ q, q ≠ f → wd_runners s' !! q = wd_runners s !! q) ∧
    (idle ≠ None → idle' = idle) ∧ wd_runners s' !! f = Some rf' ∧ runner_ok rf'.
Proof.
  intros Hw Hf Hrf. destruct idle as [i|].
  { exists (Some i), s, rf. split; [done|]. split; [|done].
    apply scan_frame_refl. }
  destruct (PopIdleTask rf) as [i f'] eqn:Ei.
  assert (Hf' : runner_ok f').
  { unfold PopIdleTask in Ei. destruct Hrf.
    destruct (tr_idle_task_queue_ rf); injection Ei as <- <-; done. }
  exists i, (set_wd_runners (<[f := f']> (wd_runners s)) s), f'.
  split; [mrun; by rewrite Ei|]. split; [apply put_runner_frame; eauto|]. split; [done|].
  split; [|split; [done|split; [apply lookup_insert_eq|done]]].
  intros q Hq. cbn. by rewrite lookup_insert_ne.
Qed.

(** Recording the wait time of a group's front runner. *)
Lemma scan_wait_update p f now s w rf :
  0 ≤ now ≤ i64_max → wd_workers s !! p = Some w → w_min_wait_time_ w ≤ i64_max →
  wd_runners s !! f = Some rf → runner_ok rf →
  ∃ s', (do! f0 := get_runner f in
         do! last_wait_time := st_lift (GetNextTimeDelta now f0) in
         do! w0 := get_worker p in
         if TimeDelta_gt (w_min_wait_time_ w0) last_wait_time then
           do! next := st_lift (TimePoint_plus_delta now last_wait_time) in
           put_worker p (set_w_next_task_time_ next (set_w_min_wait_time_ last_wait_time w0))
         else st_ret tt) s = Ok (tt, s') ∧
    scan_frame p s s' ∧ wd_ticks s' = wd_ticks s ∧ wd_runners s' = wd_runners s.
Proof.
  intros Hnow Hw Hmax Hf Hrf.
  destruct (GetNextTimeDelta_ok now rf Hnow Hrf) as (d & Ed & Hd). mrun.
  destruct (TimeDelta_gt _ d) eqn:Egt.
  - apply Z.ltb_lt in Egt.
    assert (En : TimePoint_plus_delta now d = Ok (now + d)).
    { unfold TimePoint_plus_delta, TimeDelta_ToNanoseconds. apply i64_ok.
      destruct Hd as [->|(e & He & ->)]; [unfold TimeDelta_Max in *; lia|].
      pose proof (ro_deadlines _ Hrf) as Hdl. rewrite Forall_forall in Hdl.
      specialize (Hdl _ He). unfold i64_min, i64_max in *. lia. }
    mrun. eexists. split; [done|]. split; [|done]. split; auto; cbn.
    intros w' Hw'. simplify_eq. exists d, (now + d). split; [lia|done].
  - exists s. split; [done|]. split; [|done].
    apply scan_frame_refl.
Qed.

(** One group whose top runner has nothing to run: the scan goes on with the
    next group, having touched at most runners of this one. *)
Lemma scan_step_none p now g gs idle s w b r r' :
  0 ≤ now ≤ i64_max → wd_workers s !! p = Some w → w_min_wait_time_ w ≤ i64_max →
  map_Forall (λ _ r, runner_ok r) (wd_runners s) → live (wd_runners s) g →
  vec_back g = Ok b → wd_runners s !! b = Some r →
  GetNext (clock (wd_ticks s)) r = Ok (None, r') →
  ∃ idle' s', GetNextTask_scan clock p now (g :: gs) idle s =
                GetNextTask_scan clock p now gs idle' s' ∧
    scan_frame p s s' ∧ wd_ticks s' = S (wd_ticks s) ∧
    (∀ q, q ∉ g → wd_runners s' !! q = wd_runners s !! q) ∧
    (idle ≠ None → idle' = idle).
Proof.
  intros Hnow Hw Hmax Hok Hlive Hb Hr E. cbn [GetNextTask_scan]. mrun.
  assert (Hbg : b ∈ g). { apply vec_back_Ok in Hb as [g' ->]. apply elem_of_app. right. left. }
  assert (Hrok' : runner_ok r').
  { destruct (GetNext_ok (clock (wd_ticks s)) r (Hok _ _ Hr)) as (? & ? & ? & ?). congruence. }
  set (s1 := set_wd_ticks (S (wd_ticks s)) s).
  set (s2 := set_wd_runners (<[b := r']> (wd_runners s1)) s1).
  assert (F2 : scan_frame p s s2).
  { eapply scan_frame_trans; [exact Hw|apply ticks_frame|apply put_runner_frame; eauto]. }
  destruct g as [|f g']; [by destruct (not_elem_of_nil b)|].
  erewrite bind_lift by reflexivity. cbv beta.
  assert (Hf : is_Some (wd_runners s2 !! f)).
  { apply elem_of_dom. rewrite (sf_dom _ _ _ F2). apply elem_of_dom. by apply Forall_inv in Hlive. }
  destruct Hf as [rf Hf].
  assert (Hrf : runner_ok rf) by (by eapply (sf_ok _ _ _ F2)).
  destruct (scan_pop_idle p f idle s2 w rf Hw Hf Hrf)
    as (idle' & s3 & rf' & Ep & F3 & Ht3 & Hfr3 & Hidle & Hf3 & Hrf').
  erewrite st_bind_step by exact Ep. cbv beta.
  pose proof (scan_frame_trans _ _ _ _ _ Hw F2 F3) as F23.
  destruct (sf_worker _ _ _ F23 w Hw) as (m & t & Hm & Ew).
  destruct (scan_wait_update p f now s3
    (set_w_next_task_time_ t (set_w_min_wait_time_ m w)) rf') as (s4 & E4 & F4 & Ht4 & Hr4);
    [done|rewrite Ew; apply lookup_insert_eq|cbn; lia|done|done|].
  exists idle', s4. split.
  { clear -E4. unfold st_bind in E4 |- *.
    destruct (get_runner f s3) as [[f0 s5]|]; [|done].
    destruct (st_lift _ s5) as [[d s6]|]; [|done].
    destruct (get_worker p s6) as [[w0 s7]|]; [|done]. by rewrite E4. }
  split; [by eapply scan_frame_trans|]. split; [by rewrite Ht4, Ht3|]. split; [|done].
  intros q Hq. rewrite Hr4, Hfr3 by (intros ->; apply Hq; left). cbn.
  rewrite lookup_insert_ne; [done|]. by intros ->.
Qed.

(** A group whose top runner answers: the scan stops there. *)
Lemma scan_step_some p now g gs idle s b r task r' :
  vec_back g = Ok b → wd_runners s !! b = Some r → runner_ok r →
  GetNext (clock (wd_ticks s)) r = Ok (Some task, r') →
  ∃ s', GetNextTask_scan clock p now (g :: gs) idle s = Ok (inl task, s') ∧
    scan_frame p s s' ∧ tls_curr_group (tls_of s' p) = g ∧
    tls_local_runner (tls_of s' p) = Some b.
Proof.
  intros Hb Hr Hok E. cbn [GetNextTask_scan]. mrun. eexists. split; [done|].
  assert (Hrok' : runner_ok r').
  { destruct (GetNext_ok (clock (wd_ticks s)) r Hok) as (? & ? & ? & ?). congruence. }
  set (s1 := set_wd_ticks (S (wd_ticks s)) s).
  split; [|split; unfold tls_of; cbn; by rewrite lookup_insert_eq].
  split; auto; cbn.
  - rewrite dom_insert_L. apply elem_of_dom_2 in Hr. set_solver.
  - intros Hall. by apply map_Forall_insert_2.
  - intros w Hw. exists (w_min_wait_time_ w), (w_next_task_time_ w).
    split; [lia|]. rewrite insert_id; [done|]. rewrite Hw. by destruct w.
Qed.

(** The scan never faults on well-formed groups.  It returns the task of the
    first group whose top runner answers, and [inr] only when none does;
    runners below the top of a group are never asked. *)
Lemma scan_spec p now gs idle s w :
  0 ≤ now ≤ i64_max → wd_workers s !! p = Some w → w_min_wait_time_ w ≤ i64_max →
  map_Forall (λ _ r, runner_ok r) (wd_runners s) → Forall (live (wd_runners s)) gs →
  Forall (λ g, g ≠ []) gs → NoDup (concat gs) →
  ∃ res s', GetNextTask_scan clock p now gs idle s = Ok (res, s') ∧ scan_frame p s s' ∧
    match res with
    | inl task => ∃ gs1 g gs2, gs = gs1 ++ g :: gs2 ∧
        (∀ i g', gs1 !! i = Some g' →
           top_answer (wd_runners s) (clock (wd_ticks s + i)) g' = Ok None) ∧
        top_answer (wd_runners s) (clock (wd_ticks s + length gs1)) g = Ok (Some task) ∧
        tls_curr_group (tls_of s' p) = g ∧ tls_local_runner (tls_of s' p) = last g
    | inr _ => ∀ i g', gs !! i = Some g' →
        top_answer (wd_runners s) (clock (wd_ticks s + i)) g' = Ok None
    end.
Proof.
  revert idle s w. induction gs as [|g gs IH]; intros idle s w Hnow Hw Hm Hok Hl Hne Hnd.
  { exists (inr idle), s. split; [done|]. split; [apply scan_frame_refl|]. by intros []. }
  apply Forall_cons in Hl as [Hlg Hl], Hne as [Hg Hne]. cbn [concat] in Hnd.
  apply NoDup_app in Hnd as (_ & Hdis & Hnd).
  destruct (last g) as [b|] eqn:Hlast; [|by apply last_None in Hlast].
  assert (Hb : vec_back g = Ok b) by (unfold vec_back; by rewrite Hlast).
  assert (Hbg : b ∈ g). { apply vec_back_Ok in Hb as [g' ->]. apply elem_of_app. right. left. }
  unfold live in Hlg. rewrite Forall_forall in Hlg. destruct (Hlg b Hbg) as [r Hr].
  destruct (GetNext_ok (clock (wd_ticks s)) r (Hok _ _ Hr)) as ([task|] & r' & E & Hr').
  { destruct (scan_step_some p now g gs idle s b r task r' Hb Hr (Hok _ _ Hr) E)
      as (s' & -> & F & Hc & Hlr).
    exists (inl task), s'. split; [done|]. split; [done|]. exists [], g, gs.
    rewrite Hlast. repeat split; auto; [by intros []|]. rewrite Nat.add_0_r.
    by eapply top_answer_run. }
  pose proof (top_answer_run _ _ _ _ _ _ _ Hb Hr E) as Htop.
  destruct (scan_step_none p now g gs idle s w b r r') as (idle' & s1 & -> & F & Ht & Hfr & _);
    auto; [by apply Forall_forall|].
  destruct (sf_worker _ _ _ F w Hw) as (m & t & Hle & Ew).
  destruct (IH idle' s1 (set_w_next_task_time_ t (set_w_min_wait_time_ m w)))
    as (res & s' & -> & F' & Hres); auto.
  { rewrite Ew. apply lookup_insert_eq. } { cbn. lia. } { by apply (sf_ok _ _ _ F). }
  { eapply Forall_impl; [exact Hl|]. intros g' Hg'. eapply Forall_impl; [exact Hg'|].
    intros q. by rewrite <- !elem_of_dom, (sf_dom _ _ _ F). }
  exists res, s'. split; [done|]. split; [by eapply scan_frame_trans|].
  assert (Hshift : ∀ i g' n, gs !! i = Some g' →
    top_answer (wd_runners s1) (clock (wd_ticks s1 + n)) g' =
    top_answer (wd_runners s) (clock (wd_ticks s + S n)) g').
  { intros i g' n Hi. rewrite Ht. replace (wd_ticks s + S n)%nat with (S (wd_ticks s) + n)%nat by lia.
    apply top_answer_frame. intros q Hq. apply Hfr. intros Hqg. apply (Hdis q Hqg).
    apply list_elem_of_In, in_concat. exists g'. rewrite <- !list_elem_of_In.
    split; [|done]. by eapply list_elem_of_lookup_2. }
  destruct res as [task|i].
  - destruct Hres as (gs1 & g1 & gs2 & -> & Hn & Hs & Hc).
    exists (g :: gs1), g1, gs2. split; [done|]. split; [|split; [|done]].
    + intros [|j] g' Hj; cbn in Hj.
      * injection Hj as <-. by rewrite Nat.add_0_r.
      * rewrite <- (Hshift j) by (by apply lookup_app_l_Some). by apply Hn.
    + cbn [length]. rewrite <- (Hshift (length gs1)); [done|]. by apply list_lookup_middle.
  - intros [|j] g' Hj; cbn in Hj.
    + injection Hj as <-. by rewrite Nat.add_0_r.
    + rewrite <- (Hshift j) by done. by apply Hres.
Qed.

(** ** [GetNextTask] *)

(** The bounds keep every sort weight within 64 bits. *)
Hypothesis weights : 0 ≤ P ∧ 0 ≤ T ∧ P * T ≤ i64_max.

(** The invariant of a worker's loop. *)
Record loop_ok (p : worker_ptr) s (w : Worker) : Prop := {
  lo_worker : wd_workers s !! p = Some w;
  lo_groups : groups_wf (wd_runners s) w;
  lo_runners : map_Forall (λ _ r, runner_ok r) (wd_runners s);
  lo_min_wait : w_min_wait_time_ w ≤ i64_max
}.

(** Two workers that differ in the order of their groups, their wait times and
    balance flag only. *)
Definition same_loop (w w' : Worker) : Prop :=
  w_is_terminated_ w' = w_is_terminated_ w ∧
  w_immediate_task_queue_ w' = w_immediate_task_queue_ w ∧
  w_min_wait_time_ w' ≤ w_min_wait_time_ w ∧
  w_running_groups_ w' ++ w_pending_groups_ w' ≡ₚ w_running_groups_ w ++ w_pending_groups_ w.

(** The next [GetNextTask] that scans merges all pending groups. *)
Definition balance_due (w : Worker) : Prop :=
  w_pending_groups_ w = [] ∨ w_need_balance_ w = true.

Lemma runner_ok_weight h g :
  map_Forall (λ _ r, runner_ok r) h → weight_fits h g.
Proof.
  intros Hok. unfold weight_fits, weight, i64_min, i64_max in *.
  destruct g as [|q g]; [lia|]. destruct (h !! q) as [r|] eqn:E; [|lia].
  destruct (Hok _ _ E) as [_ _ Ht Hp]. nia.
Qed.

Lemma loop_ok_sort p s w :
  loop_ok p s w →
  ∃ s' gs, (if (1 <? length (w_running_groups_ w))%nat
            then lift_worker_ p (λ h w, SortNoLock h w) else st_ret tt) s = Ok (tt, s') ∧
    s' = set_wd_workers (<[p := set_w_running_groups_ gs w]> (wd_workers s)) s ∧
    loop_ok p s' (set_w_running_groups_ gs w) ∧ gs ≡ₚ w_running_groups_ w ∧
    StronglySorted (λ g g', weight (wd_runners s) g ≤ weight (wd_runners s) g') gs.
Proof.
  intros [Hw [Hne Hl Hnd] Hr Hm].
  assert (Hwf : ∀ gs, gs ≡ₚ w_running_groups_ w →
    loop_ok p (set_wd_workers (<[p := set_w_running_groups_ gs w]> (wd_workers s)) s)
      (set_w_running_groups_ gs w)).
  { intros gs Hp. split; cbn; [apply lookup_insert_eq| |done|done].
    eapply groups_wf_perm; [|done|split; eassumption]. cbn. by rewrite Hp. }
  destruct (Nat.ltb_spec 1 (length (w_running_groups_ w))) as [Hlen|Hlen].
  - apply Forall_app in Hne as [Hne _], Hl as [Hl _].
    destruct (list_sort_spec (sort_less (wd_runners s)) (weight (wd_runners s))
      (w_running_groups_ w)) as (gs & E%SortNoLock_run & Hp & Hs & _).
    { intros g g' Hg Hg'. apply (sort_less_total _ (w_running_groups_ w)); try done.
      apply Forall_forall. intros g'' _. by apply runner_ok_weight. }
    eexists _, gs. split; [|split; [reflexivity|split; [by apply Hwf|done]]].
    unfold lift_worker_, lift_worker. mrun.
    erewrite bind_lift by (by rewrite E). mrun. done.
  - exists s, (w_running_groups_ w).
    assert (Eid : set_w_running_groups_ (w_running_groups_ w) w = w) by by destruct w.
    pose proof (Hwf _ (reflexivity _)) as Hwf'. rewrite Eid in *. rewrite insert_id in * by done.
    assert (Es : set_wd_workers (wd_workers s) s = s) by by destruct s.
    rewrite Es in *. split; [done|]. split; [done|]. split; [exact Hwf'|]. split; [done|].
    destruct (w_running_groups_ w) as [|g [|]]; cbn in Hlen; [constructor| |lia].
    repeat constructor.
Qed.

(** Two worlds that differ in their workers and in the run times of runners
    only. *)
Record retimed s s' : Prop := {
  rt_runners : ∀ q, wd_runners s' !! q = wd_runners s !! q ∨
                    ∃ t, wd_runners s' !! q = SetTime t <$> wd_runners s !! q;
  rt_tls : wd_tls s' = wd_tls s;
  rt_ticks : wd_ticks s' = wd_ticks s;
  rt_events : wd_events s' = wd_events s
}.

Lemma loop_ok_balance p s w :
  loop_ok p s w →
  ∃ s' w', (if w_need_balance_ w then
              do! _ := Worker_Balance p in modify_worker p (set_w_need_balance_ false)
            else st_ret tt) s = Ok (tt, s') ∧
    loop_ok p s' w' ∧ same_loop w w' ∧ retimed s s' ∧
    (w_need_balance_ w = false → s' = s ∧ w' = w) ∧
    (balance_due w → w_pending_groups_ w' = []).
Proof.
  intros Hlo. pose proof Hlo as [Hw Hwf Hr Hm]. destruct (w_need_balance_ w) eqn:Eb;
    [|exists s, w; split; [done|]; split; [exact Hlo|]; split; [by unfold same_loop|];
      split; [split; auto|]; split; [done|]; by intros [?|?]; [|congruence]].
  destruct (BalanceNoLock_run (wd_runners s) w Hwf) as (h' & w' & E & _ & Hrun & Hpend & Hlk).
  pose proof (BalanceNoLock_wf _ _ _ _ Hwf E) as Hwf'.
  assert (Hsame : same_loop w w').
  { assert (Hg : w_running_groups_ w' ++ w_pending_groups_ w' ≡ₚ
                 w_running_groups_ w ++ w_pending_groups_ w).
    { rewrite Hrun, Hpend, app_nil_r. apply Permutation_app_comm. }
    clear -E Hg. unfold same_loop, BalanceNoLock in *. destruct (w_pending_groups_ w);
      [by injection E as <- <-|]. mstep E. mstep E. by injection E as _ <-. }
  exists (set_wd_workers (<[p := set_w_need_balance_ false w']> (wd_workers s))
            (set_wd_runners h' s)), (set_w_need_balance_ false w').
  split; [|split; [|split; [done|split; [|split; [discriminate|by intros _]]]]].
  3: { split; auto. cbn. intros q. rewrite Hlk. case_bool_decide; eauto. }
  - unfold Worker_Balance. mrun. unfold modify_worker. erewrite bind_get_worker by apply lookup_insert_eq.
    unfold put_worker, st_modify. cbn. by rewrite insert_insert_eq.
  - split; cbn; [apply lookup_insert_eq|by destruct Hwf'; split| |].
    + intros q r Hq. rewrite Hlk in Hq. case_bool_decide; [|by apply (Hr q)].
      destruct (wd_runners s !! q) as [r0|] eqn:E0; [|done]. injection Hq as <-.
      destruct (Hr _ _ E0) as [H1' H2' H3' H4']. split; auto. cbn.
      unfold balance_time. destruct (w_running_groups_ w) as [|[|q' g'] gs']; try lia.
      destruct (wd_runners s !! q') eqn:E'; [|lia]. by destruct (Hr _ _ E').
    + destruct Hsame as (_ & _ & ? & _). cbn. lia.
Qed.

Lemma loop_ok_frame p s s' w :
  loop_ok p s w → scan_frame p s s' →
  ∃ w', loop_ok p s' w' ∧ same_loop w w' ∧ w_running_groups_ w' = w_running_groups_ w ∧
    w_pending_groups_ w' = w_pending_groups_ w.
Proof.
  intros [Hw Hwf Hr Hm] [He Hi Hd Hok Hfw]. destruct (Hfw w Hw) as (m & t & Hle & E).
  exists (set_w_next_task_time_ t (set_w_min_wait_time_ m w)). split; [|done].
  split; [rewrite E; apply lookup_insert_eq| |by apply Hok|cbn; lia].
  eapply groups_wf_perm; [|exact Hd|exact Hwf]. done.
Qed.

Lemma loop_ok_ticks p s w n : loop_ok p s w → loop_ok p (set_wd_ticks n s) w.
Proof. intros [H1' H2' H3' H4']. by split. Qed.

Lemma same_loop_trans w1 w2 w3 : same_loop w1 w2 → same_loop w2 w3 → same_loop w1 w3.
Proof.
  unfold same_loop. intros (? & ? & ? & Hp) (? & ? & ? & Hp'). rewrite <- Hp.
  repeat split; try congruence. lia.
Qed.

(** What happens after the scan found no task. *)
Definition no_task (p : worker_ptr) (idle_task : option IdleTask) : M Q (option Task) :=
  do! w := get_worker p in
  if negb (w_is_terminated_ w) then st_ret None
  else match idle_task with
       | Some task =>
           do! wrapper := Task_new (Some (CIdle task (w_min_wait_time_ w))) in
           st_ret (Some wrapper)
       | None => do! _ := WaitFor p (w_min_wait_time_ w) in st_ret None
       end.

(** [GetNextTask] with an empty immediate queue: sort, merge, scan. *)
Lemma GetNextTask_scans p s w :
  loop_ok p s w → w_immediate_task_queue_ w = [] →
  ∃ now s2 w2 gs found s3,
    GetNextTask clock p s = match found with
      | inl task => Ok (Some task, s3)
      | inr idle_task => no_task p idle_task s3
      end ∧
    GetNextTask_scan clock p now (w_running_groups_ w2) None s2 = Ok (found, s3) ∧
    now = clock (wd_ticks s) ∧ loop_ok p s2 w2 ∧ same_loop w w2 ∧
    retimed (set_wd_ticks (S (wd_ticks s)) s) s2 ∧
    scan_frame p s2 s3 ∧ gs ≡ₚ w_running_groups_ w ∧
    StronglySorted (λ g g', weight (wd_runners s) g ≤ weight (wd_runners s) g') gs ∧
    (w_need_balance_ w = false → w_running_groups_ w2 = gs ∧ wd_runners s2 = wd_runners s) ∧
    (balance_due w → w_pending_groups_ w2 = []).
Proof.
  intros Hlo Himm.
  destruct (loop_ok_sort p s w Hlo) as (s1 & gs & E1 & Es1 & Hlo1 & Hp & Hs).
  destruct (loop_ok_balance p s1 _ Hlo1) as (s2 & w2 & E2 & Hlo2 & Hsame & [Hq2 Ht2 Hn2 He2] & Hnb & Hdue).
  pose proof (loop_ok_ticks p s2 w2 (S (wd_ticks s2)) Hlo2) as Hlo3.
  pose proof Hlo3 as [Hw2 [Hne Hl Hnd] Hr Hm].
  apply Forall_app in Hne as [Hne _], Hl as [Hl _]. rewrite concat_app in Hnd.
  apply NoDup_app in Hnd as [Hnd _].
  destruct (scan_spec p (clock (wd_ticks s2)) (w_running_groups_ w2) None
    (set_wd_ticks (S (wd_ticks s2)) s2) w2) as (found & s3 & E3 & F & _); auto.
  exists (clock (wd_ticks s2)), (set_wd_ticks (S (wd_ticks s2)) s2), w2, gs, found, s3.
  pose proof (lo_worker _ _ _ Hlo) as Hw. pose proof (lo_worker _ _ _ Hlo1) as Hw1.
  split; [|split; [exact E3|repeat (split; [done|])]].
  - unfold GetNextTask. mrun. rewrite Himm. erewrite st_bind_step by exact E1. mrun.
    erewrite st_bind_step by exact E2. mrun. erewrite st_bind_step by exact E3. by destruct found.
  - split; [by cbn; rewrite Hn2, Es1|]. split; [done|]. split.
    { eapply same_loop_trans; [|exact Hsame]. repeat (split; [done|]). cbn. by rewrite Hp. }
    split.
    { split; cbn; rewrite ?Ht2, ?Hn2, ?He2, ?Es1; auto. intros q. by specialize (Hq2 q);
        rewrite Es1 in Hq2. }
    repeat (split; [done|]). split; [|exact Hdue]. cbn. intros Hb.
    destruct (Hnb Hb) as [-> ->]. by rewrite Es1.
Qed.

Lemma GetNextTask_general p s w :
  loop_ok p s w →
  ∃ res s' w', GetNextTask clock p s = Ok (res, s') ∧ loop_ok p s' w' ∧
    w_is_terminated_ w' = w_is_terminated_ w ∧ w_min_wait_time_ w' ≤ w_min_wait_time_ w ∧
    (wd_events s' = wd_events s ∨
     w_is_terminated_ w = true ∧ ∃ w1 d, w_is_terminated_ w1 = true ∧
       wd_events s' = wd_events s ++ backend_WaitFor p w1 d).
Proof.
  intros Hlo. destruct (w_immediate_task_queue_ w) as [|task rest] eqn:Himm.
  - destruct (GetNextTask_scans p s w Hlo Himm)
      as (now & s2 & w2 & gs & found & s3 & -> & Esc & _ & Hlo2 & Hsame & [_ _ _ He] & F & _).
    destruct (loop_ok_frame p s2 s3 w2 Hlo2 F) as (w3 & Hlo3 & Hsame3 & _).
    pose proof (same_loop_trans _ _ _ Hsame Hsame3) as (Ht & _ & Hle & _).
    assert (He3 : wd_events s3 = wd_events s) by by rewrite (sf_events _ _ _ F).
    destruct found as [task|idle].
    { exists (Some task), s3, w3. auto 10. }
    unfold no_task. pose proof (lo_worker _ _ _ Hlo3) as Hw3. mrun. rewrite Ht.
    destruct (w_is_terminated_ w); cbn [negb].
    + pose proof Hlo3 as [? ? ? ?]. destruct idle as [i|].
      * do 2 eexists. exists w3. split; [done|]. split; [by split|].
        split; [done|]. split; [done|]. by left.
      * unfold WaitFor. mrun. do 2 eexists. exists w3. split; [done|]. split; [by split|].
        split; [done|]. split; [done|]. right. split; [done|].
        exists w3, (w_min_wait_time_ w3). split; [done|]. cbn. by rewrite He3.
    + exists None, s3, w3. auto 10.
  - pose proof Hlo as [Hw Hwf Hr Hm]. unfold GetNextTask. mrun. rewrite Himm. mrun.
    do 2 eexists. exists (set_w_immediate_task_queue_ rest w). split; [done|].
    split; [|split; [done|split; [done|by left]]].
    split; cbn; [apply lookup_insert_eq|by destruct Hwf; split|done|done].
Qed.

(** C9. [GetNextTask] is safe and total: on a worker whose groups satisfy the
    group invariant and whose numbers are within bounds — priorities within
    [P], run times within [T], [P * T] within 64 bits — it returns without
    undefined behaviour, and the invariant and the bounds hold again.  The
    recorded minimum wait time never grows back. *)
Theorem GetNextTask_safe p s w (Hlo : loop_ok p s w) :
  ∃ res s' w', GetNextTask clock p s = Ok (res, s') ∧ loop_ok p s' w' ∧
    w_min_wait_time_ w' ≤ w_min_wait_time_ w.
Proof.
  destruct (GetNextTask_general p s w Hlo) as (res & s' & w' & E & Hlo' & _ & Hm & _).
  eauto 10.
Qed.

(** C8. Scheduling order: with nothing in the immediate queue and no groups to
    merge, a task [GetNextTask] returns to a live worker comes from the top
    (last) runner of a running group, which becomes the current group, and
    the top runner of every group of smaller weight (priority times run time)
    had nothing to run when it was asked. *)
Theorem GetNextTask_picks_lightest p s w task s'
    (Hlo : loop_ok p s w) (Himm : w_immediate_task_queue_ w = [])
    (Hbal : w_need_balance_ w = false) (Hlive : w_is_terminated_ w = false)
    (E : GetNextTask clock p s = Ok (Some task, s')) :
  ∃ g n, g ∈ w_running_groups_ w ∧ top_answer (wd_runners s) (clock n) g = Ok (Some task) ∧
    tls_curr_group (tls_of s' p) = g ∧ tls_local_runner (tls_of s' p) = last g ∧
    ∀ g', g' ∈ w_running_groups_ w →
      weight (wd_runners s) g' < weight (wd_runners s) g →
      ∃ n', (n' < n)%nat ∧ top_answer (wd_runners s) (clock n') g' = Ok None.
Proof.
  destruct (GetNextTask_scans p s w Hlo Himm)
    as (now & s2 & w2 & gs & found & s3 & E' & Esc & Hnow & Hlo2 & Hsame & He & F & Hp & Hs & Hb & _).
  destruct (Hb Hbal) as [Hgs Hrs]. rewrite E in E'.
  assert (0 ≤ now ≤ i64_max) by (by rewrite Hnow).
  pose proof Hlo2 as [Hw2 [Hne Hl Hnd] Hr Hm].
  apply Forall_app in Hne as [Hne _], Hl as [Hl _]. rewrite concat_app in Hnd.
  apply NoDup_app in Hnd as [Hnd _].
  destruct (scan_spec p now (w_running_groups_ w2) None s2 w2)
    as (found' & s3' & Esc' & _ & Hres); auto.
  rewrite Esc in Esc'. injection Esc' as <- <-. destruct found as [t|idle].
  - injection E' as <- ->. destruct Hres as (gs1 & g & gs2 & Eg & Hn & Hsome & Hc & Hlr).
    rewrite Hrs in *. exists g, (wd_ticks s2 + length gs1)%nat.
    split; [|split; [done|split; [done|split; [done|]]]].
    { rewrite <- Hp, <- Hgs, Eg. apply elem_of_app. right. left. }
    intros g' Hg' Hlt. rewrite <- Hp, <- Hgs, Eg in Hg'.
    apply elem_of_app in Hg' as [Hg'|Hg'].
    + apply list_elem_of_lookup in Hg' as [i Hi]. exists (wd_ticks s2 + i)%nat.
      split; [apply lookup_lt_Some in Hi; lia|by apply Hn].
    + rewrite <- Hgs, Eg in Hs. apply sorting.StronglySorted_app_1_r in Hs.
      apply StronglySorted_inv in Hs as [_ Hs]. rewrite Forall_forall in Hs.
      apply elem_of_cons in Hg' as [->|Hg']; [lia|]. specialize (Hs _ Hg'). lia.
  - destruct (loop_ok_frame p s2 s3 w2 Hlo2 F) as (w3 & Hlo3 & Hsame3 & _).
    pose proof (same_loop_trans _ _ _ Hsame Hsame3) as (Ht & _ & Hle & _).
    pose proof (lo_worker _ _ _ Hlo3) as Hw3. unfold no_task in E'. revert E'. mrun.
    by rewrite Ht, Hlive.
Qed.

(** A live worker never waits: whatever is or is not queued, and however
    far the next deadline, [GetNextTask] on a worker that is not terminated
    issues no call to its platform — in particular not [WaitFor] — so its
    [RunTask] loop spins; [WaitFor] is reached only once the worker has been
    terminated, when no group has a task. *)
Theorem GetNextTask_live_never_waits p s w
    (Hlo : loop_ok p s w) (Hlive : w_is_terminated_ w = false) :
  ∃ res s', GetNextTask clock p s = Ok (res, s') ∧ wd_events s' = wd_events s.
Proof.
  destruct (GetNextTask_general p s w Hlo) as (r & s1 & w' & E1 & _ & _ & _ & [He|[Ht _]]);
    [eauto|congruence].
Qed.

(** Idle tasks of a live worker are lost: when the only group of a live
    worker has nothing due, [GetNextTask] takes the next idle task off the
    queue of the group's runner, returns null, and keeps no trace of the
    task. *)
Theorem GetNextTask_drops_idle p s w q r i rest
    (Hlo : loop_ok p s w) (Himm : w_immediate_task_queue_ w = [])
    (Hlive : w_is_terminated_ w = false) (Hbal : w_need_balance_ w = false)
    (Hg : w_running_groups_ w = [[q]]) (Hr : wd_runners s !! q = Some r)
    (Hq : tr_task_queue_ r = []) (Hd : pq_elems (tr_delayed_task_queue_ r) = [])
    (Hi : tr_idle_task_queue_ r = Some i :: rest) :
  ∃ s', GetNextTask clock p s = Ok (None, s') ∧ wd_events s' = wd_events s ∧
    wd_workers s' = wd_workers s ∧
    wd_runners s' = <[q := set_tr_idle_task_queue_ rest r]> (wd_runners s).
Proof.
  pose proof Hlo as [Hw _ Hok Hm]. unfold GetNextTask. mrun. rewrite Himm, Hg. cbn [length Nat.ltb].
  mrun. cbn. mrun. rewrite Hbal. mrun. rewrite Hg. cbn [GetNextTask_scan]. rewrite bind_assoc.
  erewrite (bind_lift (vec_back [q])) by reflexivity. mrun.
  apply pq_top_none in Hd.
  assert (E : GetNext (clock (S (wd_ticks s))) r = Ok (None, r)).
  { unfold GetNext, popTaskFromDelayedQueueNoLock. rewrite Hd. cbn. by rewrite Hq. }
  mrun. erewrite (bind_lift (vec_front [q])) by reflexivity. mrun.
  erewrite bind_get_runner by apply lookup_insert_eq. unfold PopIdleTask. rewrite Hi. mrun.
  erewrite bind_get_runner by apply lookup_insert_eq.
  assert (Ed : GetNextTimeDelta (clock (wd_ticks s)) (set_tr_idle_task_queue_ rest r) =
               Ok TimeDelta_Max) by (unfold GetNextTimeDelta; cbn; by rewrite Hd).
  mrun. unfold TimeDelta_gt. destruct (Z.ltb_spec TimeDelta_Max (w_min_wait_time_ w));
    [unfold TimeDelta_Max in *; lia|]. mrun. rewrite Hlive. cbn. eexists. split; [done|].
  cbn. by rewrite insert_insert_eq.
Qed.

Lemma list_sort_empty_group h gs :
  Forall (live h) gs → map_Forall (λ _ r, runner_ok r) h →
  [] ∈ gs → (1 < length gs)%nat → list_sort (sort_less h) gs = Fault CheckFailed.
Proof.
  intros Hl Hok. induction gs as [|g gs IH]; [by intros ?%not_elem_of_nil|].
  apply Forall_cons in Hl as [Hg Hl]. specialize (IH Hl). intros Hin Hlen. cbn [list_sort].
  destruct (decide (([] : Group) ∈ gs)) as [Hin'|Hni].
  - destruct (decide (1 < length gs)%nat) as [Hlen'|]; [by rewrite IH|].
    destruct gs as [|g1 [|]]; cbn in *; [lia| |lia].
    apply list_elem_of_singleton in Hin' as <-. done.
  - apply elem_of_cons in Hin as [<-|]; [|done].
    destruct (list_sort (sort_less h) gs) as [gs'|f] eqn:E.
    + cbn. apply list_sort_perm in E. destruct gs' as [|g1 gs'].
      { apply Permutation_nil_l in E. subst. cbn in Hlen. lia. }
      cbn. unfold sort_less. rewrite (bool_decide_true ([] = [])) by done. cbn.
      by rewrite andb_false_r.
    + exfalso. destruct (list_sort_spec (sort_less h) (weight h) gs) as (gs' & E' & _); [|congruence].
      rewrite Forall_forall in Hl. intros g g' Hg1 Hg2.
      apply sort_less_spec; try (by apply runner_ok_weight); auto; by intros ->.
Qed.

(** An empty running group, the leftover of [UnBind_runner_spec], takes
    the worker down at its next [GetNextTask] that looks at the groups: with
    two or more groups the sort aborts on its [TDF_BASE_CHECK], and a sole
    empty group is undefined behaviour ([back()] of an empty vector). *)
Theorem GetNextTask_empty_group p s w
    (Hw : wd_workers s !! p = Some w) (Himm : w_immediate_task_queue_ w = [])
    (Hbal : w_need_balance_ w = false)
    (Hl : Forall (live (wd_runners s)) (w_running_groups_ w))
    (Hok : map_Forall (λ _ r, runner_ok r) (wd_runners s))
    (Hempty : [] ∈ w_running_groups_ w) :
  GetNextTask clock p s =
    Fault (if (1 <? length (w_running_groups_ w))%nat then CheckFailed else EmptyAccess).
Proof.
  unfold GetNextTask. mrun. rewrite Himm.
  destruct (Nat.ltb_spec 1 (length (w_running_groups_ w))) as [Hlen|Hlen].
  - unfold lift_worker_, lift_worker. mrun.
    rewrite (bind_lift_fault _ CheckFailed); [done|]. unfold SortNoLock.
    pose proof (list_sort_empty_group _ _ Hl Hok Hempty Hlen) as E.
    destruct (w_running_groups_ w); [cbn in Hlen; lia|]. by rewrite E.
  - mrun. rewrite Hbal. mrun. destruct (w_running_groups_ w) as [|g [|]]; cbn in Hlen;
      [by apply not_elem_of_nil in Hempty| |lia].
    apply list_elem_of_singleton in Hempty as <-. done.
Qed.
End Scan.

(** ** [RunTask] *)

Section Running.
Context {Q : Type} `{PriorityQueueLaws DelayedEntry Q deadline} `{WorkerBackend}.
Variable clock : nat → Z.
Hypothesis clock_range : ∀ n, 0 ≤ clock n ≤ i64_max.
Variable cb : Callbacks Q.
Implicit Types (s : World Q) (r : TaskRunner Q) (g : Group).

(** What charging a group for the time since [begin] does: the runner at
    position [i] is charged up to the [i]-th clock reading. *)
Record charged (begin : Z) g s s' : Prop := {
  ch_time : ∀ i q r, g !! i = Some q → wd_runners s !! q = Some r →
    wd_runners s' !! q =
      Some (SetTime (tr_time_ r + (clock (wd_ticks s + i) - begin)) r);
  ch_others : ∀ q, q ∉ g → wd_runners s' !! q = wd_runners s !! q;
  ch_rest : s' = set_wd_ticks (wd_ticks s + length g) (set_wd_runners (wd_runners s') s)
}.

(** No run time overflows when the runners of [g] are charged. *)
Definition charge_fits (begin : Z) g s : Prop :=
  ∀ q r n, q ∈ g → wd_runners s !! q = Some r →
    i64_min ≤ tr_time_ r + (clock n - begin) ≤ i64_max.

Lemma charge_group begin g s :
  0 ≤ begin ≤ i64_max → NoDup g → live (wd_runners s) g → charge_fits begin g s →
  ∃ s', st_iter (charge clock begin) g s = Ok (tt, s') ∧ charged begin g s s'.
Proof.
  intros Hb. revert s. induction g as [|q g IH]; intros s Hnd Hl Hfit; cbn [st_iter].
  { exists s. split; [done|]. split; [by intros []|done|].
    rewrite Nat.add_0_r. by destruct s. }
  apply NoDup_cons in Hnd as [Hq Hnd]. apply Forall_cons in Hl as [[r Hr] Hl]. unfold charge at 1. mrun.
  assert (Ed : TimePoint_minus (clock (wd_ticks s)) begin = Ok (clock (wd_ticks s) - begin)).
  { unfold TimePoint_minus. rewrite i64_ok; [done|].
    pose proof (clock_range (wd_ticks s)). unfold i64_min, i64_max in *. lia. }
  mrun.
  assert (Ea : AddTime (clock (wd_ticks s) - begin) r =
    Ok (SetTime (tr_time_ r + (clock (wd_ticks s) - begin)) r)).
  { unfold AddTime, TimeDelta_plus. rewrite i64_ok; [done|].
    apply (Hfit q); [left|done]. }
  mrun. set (r' := SetTime _ r).
  destruct (IH (set_wd_runners (<[q := r']> (wd_runners s)) (set_wd_ticks (S (wd_ticks s)) s)))
    as (s' & E & [Ht Ho Hrest]); [done| | |].
  { eapply Forall_impl; [exact Hl|]. intros q'. cbn. rewrite lookup_insert. case_decide; eauto. }
  { intros q' r1 n Hq'. cbn. rewrite lookup_insert_ne by (intros <-; done).
    intros. apply (Hfit q'); [by right|done]. }
  exists s'. split; [exact E|]. cbn in *. split.
  - intros [|i] q' r1 Hi Hr1; cbn in Hi.
    + injection Hi as <-. rewrite Ho, lookup_insert_eq by done. simplify_eq. by rewrite Nat.add_0_r.
    + rewrite (Ht i q' r1 Hi); [by rewrite Nat.add_succ_r|].
      rewrite lookup_insert_ne; [done|]. intros <-. apply Hq. by eapply list_elem_of_lookup_2.
  - intros q' Hq'. apply not_elem_of_cons in Hq' as [Hne Hq'].
    rewrite Ho by done. by apply lookup_insert_ne.
  - cbn [length]. rewrite Nat.add_succ_r. exact Hrest.
Qed.

(** C20. [RunTask] runs the task [GetNextTask] hands it exactly once, between
    setting and clearing [is_task_running], and charges the wall-clock time to
    every runner of the current group — the group the thread-local
    [curr_group] names once the task has run, and no other runner. *)
Theorem RunTask_charges_group p s task s1 s2 g
    (E1 : GetNextTask clock p s = Ok (Some task, s1))
    (E2 : Task_Run cb task
            (set_wd_tls (<[p := set_tls_is_task_running true (tls_of s1 p)]> (wd_tls s1))
              (set_wd_ticks (S (wd_ticks s1)) s1)) = Ok (tt, s2))
    (Hg : tls_curr_group (tls_of s2 p) = g)
    (Hnd : NoDup g) (Hl : live (wd_runners s2) g)
    (Hfit : charge_fits (clock (wd_ticks s1)) g s2) :
  ∃ s3, RunTask clock cb p s = Ok (true, s3) ∧
    charged (clock (wd_ticks s1)) g
      (set_wd_tls (<[p := set_tls_is_task_running false (tls_of s2 p)]> (wd_tls s2)) s2) s3.
Proof.
  destruct (charge_group (clock (wd_ticks s1)) g
    (set_wd_tls (<[p := set_tls_is_task_running false (tls_of s2 p)]> (wd_tls s2)) s2))
    as (s3 & E3 & Hch); auto.
  exists s3. split; [|done]. unfold RunTask. erewrite st_bind_step by exact E1. mrun.
  unfold modify_tls at 1. mrun. erewrite st_bind_step by exact E2.
  unfold modify_tls. mrun. unfold get_tls, st_bind at 1.
  unfold tls_of at 1. cbn [wd_tls set_wd_tls]. rewrite lookup_insert_eq. cbn [default from_option id].
  cbn [tls_curr_group set_tls_is_task_running]. rewrite Hg.
  unfold st_bind. by rewrite E3.
Qed.

(** A nested [RunTask] — the loop of [AddSubTaskRunner] runs the worker's
    other tasks inside a task — leaves [is_task_running] false although the
    outer task is still running: whatever storage operation the outer task
    makes next aborts on the check in [RunnerKeyCreate] and its siblings. *)
Theorem RunTask_nested_disables_storage p s s1 task b s3 this destruct
    (E1 : GetNextTask clock p s = Ok (Some task, s1))
    (E : RunTask clock cb p s = Ok (b, s3)) :
  tls_is_task_running (tls_of s3 p) = false ∧
  RunnerKeyCreate p this destruct s3 = Fault CheckFailed.
Proof.
  assert (Ht : tls_is_task_running (tls_of s3 p) = false).
  { unfold RunTask in E. erewrite st_bind_step in E by exact E1. cbv beta match in E.
    repeat mstep E. injection E as <- <-.
    eapply (st_iter_invariant (λ s, tls_is_task_running (tls_of s p) = false)); [| |eassumption].
    - intros q t t' v _ Hq Ec. unfold charge in Ec. repeat mstep Ec.
      unfold get_runner, Now, put_runner, st_modify in *.
      repeat case_match; simplify_eq. by mlifts.
    - unfold get_tls in *. simplify_eq. unfold modify_tls, st_modify in *. simplify_eq.
      unfold tls_of at 1. cbn. by rewrite lookup_insert_eq. }
  split; [done|]. unfold RunnerKeyCreate, runner_preamble, IsTaskRunning. rewrite !bind_assoc.
  unfold st_bind at 1, get_tls. cbn. by rewrite Ht.
Qed.

(** The worker without the storage of one runner. *)
Definition without_storage (id : Z) (w : Worker) : Worker :=
  set_w_specific_map_ (delete id (w_specific_map_ w))
    (set_w_worker_key_map_ (delete id (w_worker_key_map_ w)) w).

(** The worker with the storage of runner [id] replaced by what [from] holds
    for it (blank arrays if nothing). *)
Definition with_storage_of (from : Worker) (id : Z) (w : Worker) : Worker :=
  set_w_specific_map_
    (<[id := default specific_default (w_specific_map_ from !! id)]> (w_specific_map_ w))
    (set_w_worker_key_map_
      (<[id := default keys_default (w_worker_key_map_ from !! id)]> (w_worker_key_map_ w)) w).

Lemma GetMoved_spec id w :
  GetMovedSpecific id (GetMovedSpecificKeys id w).2 =
    (default specific_default (w_specific_map_ w !! id), without_storage id w) ∧
  (GetMovedSpecificKeys id w).1 = default keys_default (w_worker_key_map_ w !! id).
Proof.
  unfold GetMovedSpecific, GetMovedSpecificKeys, without_storage.
  destruct w as [? ? ? ? ? ? ? ? ? ? ? ? km sm ?]; cbn.
  destruct (km !! id) eqn:Ek, (sm !! id) eqn:Es; cbn; rewrite ?Es; split; try done;
    by rewrite ?(delete_id km), ?(delete_id sm) by done.
Qed.

(** C21. Migration of a runner's thread-local storage is a two-step hand-over.
    Stage one, on the old worker, takes exactly that runner's keys and values
    off it and queues one immediate task on the new worker; stage two, that
    task, run on the new worker in whatever state it then is, installs exactly
    what was taken.  Everything else on both workers stays as it is. *)
Theorem migration_moves_storage from to id s wf wt
    (Hne : from ≠ to) (Hf : wd_workers s !! from = Some wf) (Ht : wd_workers s !! to = Some wt) :
  ∃ task s1, run_closure cb (CMoveSpecific from to id) s = Ok (tt, s1) ∧
    wd_workers s1 = <[to := AddImmediateTask (Some task) wt]>
                      (<[from := without_storage id wf]> (wd_workers s)) ∧
    wd_runners s1 = wd_runners s ∧ wd_events s1 = wd_events s ∧
    ∀ s2 wt2, wd_workers s2 !! to = Some wt2 →
      Task_Run cb task s2 =
        Ok (tt, set_wd_workers (<[to := with_storage_of wf id wt2]> (wd_workers s2)) s2).
Proof.
  destruct (GetMoved_spec id wf) as [Esp Ek].
  destruct (GetMovedSpecificKeys id wf) as [keys w1] eqn:Eks. cbn in Esp, Ek.
  eexists _, _. split; [|split; [|split; [|split; [|]]]].
  - cbn [run_closure]. unfold lock_worker at 1, st_bind at 1. rewrite Hf.
    unfold TDF_BASE_CHECK. erewrite bind_lift by reflexivity. unfold lift_worker at 1. mrun.
    rewrite Eks. erewrite bind_lift by reflexivity. mrun.
    unfold lift_worker at 1. rewrite !bind_assoc.
    erewrite bind_get_worker by apply lookup_insert_eq. mrun.
    erewrite bind_lift by (by rewrite Esp). mrun.
    unfold lock_worker, st_bind at 1. cbn [wd_workers set_wd_workers].
    rewrite !lookup_insert_ne, Ht by done. unfold Task_new, st_bind at 1.
    unfold modify_worker. erewrite bind_get_worker
      by (cbn; rewrite !lookup_insert_ne by done; exact Ht). reflexivity.
  - cbn. by rewrite insert_insert_eq.
  - done.
  - done.
  - intros s2 wt2 H2. unfold Task_Run. cbn [task_unit_ run_closure].
    unfold lock_worker, st_bind at 1. rewrite H2. unfold modify_worker.
    rewrite bind_assoc. mrun. erewrite bind_get_worker by apply lookup_insert_eq.
    unfold put_worker, st_modify. cbn. rewrite insert_insert_eq.
    unfold with_storage_of. by rewrite <- Ek.
Qed.
End Running.

(** ** Evaluation on a concrete world *)

Section Sample.
#[local] Instance quiet_backend : WorkerBackend :=
  {| backend_Notify := λ _ _, []; backend_WaitFor := λ p _ d, [EvCvWaitFor p d] |}.

Definition sample_clock (n : nat) : Z := Z.min (10 * Z.of_nat n) i64_max.

Lemma sample_clock_range n : 0 ≤ sample_clock n ≤ i64_max.
Proof. unfold sample_clock, i64_max. lia. Qed.

Definition sample_callbacks : Callbacks (list DelayedEntry) :=
  MkCallbacks (λ n, log [EvRunUser n]) (λ _ _, st_ret tt) (λ _, st_ret tt).

(** Runners 1 to 5 of [sample_heap]; runner 3 also has a task due at 5. *)
Definition sample_runners : gmap runner_ptr (TaskRunner (list DelayedEntry)) :=
  <[3%nat := push_delayed (MkEntry 5 (user_task 33)) (sample_tr 3 1 100)]> sample_heap.

Definition sample_world : World (list DelayedEntry) :=
  MkWorld sample_runners
    {[ 0%nat := set_w_pending_groups_ [] sample_worker; 1%nat := Worker_init true "other" ]}
    ∅ 1 0 0 0 [].

Lemma sample_weights : 0 ≤ 2 ∧ 0 ≤ 1000 ∧ 2 * 1000 ≤ i64_max.
Proof. unfold i64_max. lia. Qed.

Ltac runner_ok_tac := split; [by sample_wf|decide_now|decide_now|decide_now].

Lemma sample_loop_ok :
  loop_ok 2 1000 0 sample_world (set_w_pending_groups_ [] sample_worker).
Proof.
  split; [reflexivity|split; unfold live; decide_now| |apply Z.le_refl].
  apply map_Forall_insert_2; [runner_ok_tac|].
  intros q r Hq. apply elem_of_list_to_map_2 in Hq.
  repeat (apply elem_of_cons in Hq as [[= -> ->]|Hq];
    [runner_ok_tac|]).
  by apply not_elem_of_nil in Hq.
Defined.

Lemma GetNextTask_safe_witness :
  ∃ res s', GetNextTask sample_clock 0 sample_world = Ok (res, s').
Proof.
  destruct (GetNextTask_safe sample_clock sample_clock_range 2 1000 sample_weights 0
    sample_world _ sample_loop_ok) as (res & s' & w' & E & _). eauto.
Defined.

Lemma GetNextTask_picks_lightest_witness :
  ∃ s', GetNextTask sample_clock 0 sample_world = Ok (Some (MkTask 33 (Some (CUser 33))), s') ∧
    ∃ n, top_answer sample_runners (sample_clock n) [3%nat] =
           Ok (Some (MkTask 33 (Some (CUser 33)))).
Proof.
  destruct (GetNextTask sample_clock 0 sample_world) as [[res s']|] eqn:E;
    [|vm_compute in E; discriminate].
  assert (Er : fst <$> GetNextTask sample_clock 0 sample_world =
    Ok (Some (MkTask 33 (Some (CUser 33))))) by (vm_compute; reflexivity).
  rewrite E in Er. injection Er as ->. exists s'. split; [reflexivity|].
  destruct (GetNextTask_picks_lightest sample_clock sample_clock_range 2 1000 sample_weights 0
    sample_world _ _ s' sample_loop_ok eq_refl eq_refl eq_refl E) as (g & n & _ & Ht & Hg & _).
  exists n. assert (Hc : (λ x, tls_curr_group (tls_of x.2 0)) <$>
    GetNextTask sample_clock 0 sample_world = Ok [3%nat]) by (vm_compute; reflexivity).
  rewrite E in Hc. cbn in Hc. injection Hc as Hc. rewrite <- Hg, Hc in Ht. exact Ht.
Defined.

Lemma GetNextTask_live_never_waits_witness :
  ∃ res s', GetNextTask sample_clock 0 sample_world = Ok (res, s') ∧ wd_events s' = [].
Proof.
  exact (GetNextTask_live_never_waits sample_clock sample_clock_range 2 1000 sample_weights 0
    sample_world _ sample_loop_ok eq_refl).
Defined.

(** One worker with one idle runner. *)
Definition idle_runner : TaskRunner (list DelayedEntry) :=
  set_tr_idle_task_queue_ [Some (MkIdleTask 0 (Some (IdleUser 7)))] (sample_tr 1 1 0).
Definition idle_world : World (list DelayedEntry) :=
  MkWorld {[ 1%nat := idle_runner ]}
    {[ 0%nat := set_w_running_groups_ [[1%nat]] (Worker_init true "w") ]} ∅ 0 0 0 0 [].

Lemma GetNextTask_drops_idle_witness :
  ∃ s', GetNextTask sample_clock 0 idle_world = Ok (None, s') ∧
    tr_idle_task_queue_ <$> wd_runners s' !! 1%nat = Some [].
Proof.
  destruct (GetNextTask_drops_idle sample_clock 2 1000 0 idle_world
    (set_w_running_groups_ [[1%nat]] (Worker_init true "w")) 1 idle_runner
    (MkIdleTask 0 (Some (IdleUser 7))) []) as (s' & E & _ & _ & Hr); try reflexivity.
  - split; [reflexivity|split; unfold live; decide_now| |apply Z.le_refl].
    apply map_Forall_singleton. runner_ok_tac.
  - exists s'. split; [exact E|]. rewrite Hr. reflexivity.
Defined.

Lemma GetNextTask_empty_group_witness :
  let w gs := set_w_running_groups_ gs (Worker_init true "w") in
  let s gs := MkWorld {[ 1%nat := idle_runner ]} {[ 0%nat := w gs ]} ∅ 0 0 0 0 [] in
  GetNextTask sample_clock 0 (s [[]]) = Fault EmptyAccess ∧
  GetNextTask sample_clock 0 (s [[1%nat]; []]) = Fault CheckFailed.
Proof.
  assert (Hok : map_Forall (λ _ r, runner_ok 2 1000 r)
    ({[ 1%nat := idle_runner ]} : gmap nat (TaskRunner (list DelayedEntry)))).
  { apply map_Forall_singleton. runner_ok_tac. }
  split.
  - rewrite (GetNextTask_empty_group sample_clock 2 1000 sample_weights 0 _
      (set_w_running_groups_ [[]] (Worker_init true "w")));
      first [reflexivity | exact Hok | unfold live; cbn; decide_now].
  - rewrite (GetNextTask_empty_group sample_clock 2 1000 sample_weights 0 _
      (set_w_running_groups_ [[1%nat]; []] (Worker_init true "w")));
      first [reflexivity | exact Hok | unfold live; cbn; decide_now].
Defined.

(** A worker with an immediate task; its thread last ran group [[1]]. *)
Definition immediate_worker : Worker :=
  AddImmediateTask (user_task 9) (set_w_running_groups_ [[1%nat]] (Worker_init true "w")).
Definition immediate_world : World (list DelayedEntry) :=
  MkWorld {[ 1%nat := idle_runner ]} {[ 0%nat := immediate_worker ]}
    {[ 0%nat := MkTls 0 false (Some 1%nat) [1%nat] ]} 0 0 0 0 [].

Lemma RunTask_charges_group_witness :
  ∃ s3, RunTask sample_clock sample_callbacks 0 immediate_world = Ok (true, s3) ∧
    tr_time_ <$> wd_runners s3 !! 1%nat = Some 10.
Proof.
  edestruct (RunTask_charges_group sample_clock sample_clock_range sample_callbacks 0
    immediate_world) as (s3 & E3 & [Ht _ _]);
    [reflexivity|reflexivity|reflexivity|decide_now| | |].
  - unfold live. decide_now.
  - intros q r n ->%list_elem_of_singleton E. pose proof (sample_clock_range n) as Hc.
    assert (Ht0 : tr_time_ r = 0) by (vm_compute in E; injection E as <-; reflexivity).
    rewrite Ht0.
    match goal with |- context [_ - sample_clock ?m] => pose proof (sample_clock_range m) end.
    unfold i64_min, i64_max in *. lia.
  - exists s3. split; [exact E3|]. rewrite (Ht 0%nat 1%nat idle_runner); vm_compute; reflexivity.
Defined.

Lemma RunTask_nested_disables_storage_witness :
  ∃ s3, RunTask sample_clock sample_callbacks 0 immediate_world = Ok (true, s3) ∧
    RunnerKeyCreate 0 1 None s3 = Fault CheckFailed.
Proof.
  eexists. split; [reflexivity|].
  eapply (RunTask_nested_disables_storage sample_clock sample_callbacks 0 immediate_world);
    reflexivity.
Defined.

Lemma migration_moves_storage_witness :
  let wf := UpdateSpecific 1 [7] (Worker_init true "from") in
  let s := MkWorld {[ 1%nat := idle_runner ]}
    {[ 0%nat := wf; 1%nat := Worker_init true "to" ]} ∅ 0 0 0 0 [] in
  ∃ task s1, run_closure sample_callbacks (CMoveSpecific 0 1 1) s = Ok (tt, s1) ∧
    (let! '(_, s2) := Task_Run sample_callbacks task s1 in
     of_option NullDeref (w_specific_map_ <$> wd_workers s2 !! 1%nat)) = Ok {[ 1 := [7] ]}.
Proof.
  cbv zeta.
  destruct (migration_moves_storage sample_callbacks 0 1 1
    (MkWorld {[ 1%nat := idle_runner ]}
      {[ 0%nat := UpdateSpecific 1 [7] (Worker_init true "from");
         1%nat := Worker_init true "to" ]} ∅ 0 0 0 0 [])
    (UpdateSpecific 1 [7] (Worker_init true "from")) (Worker_init true "to"))
    as (task & s1 & E & Ew & _ & _ & Hrun); [discriminate|reflexivity|reflexivity|].
  exists task, s1. split; [exact E|].
  rewrite (Hrun s1 (AddImmediateTask (Some task) (Worker_init true "to")))
    by (rewrite Ew; apply lookup_insert_eq).
  cbn. rewrite lookup_insert_eq. reflexivity.
Defined.
End Sample.
