(* ===== verification/ThreadWorker.v ===== *)
(** * ThreadWorker: workers on threads and on the Android looper

    Models [src/footstone/thread_worker.cc] (the worker whose platform thread
    is a [std::thread] waiting on a condition variable),
    [src/platform/adr/loop_worker_impl.cc] (the worker driven by an Android
    looper and a timerfd) and [Worker::Run]/[Terminate].  Both implement the
    [WorkerBackend] interface of Store.v.  The hand-shake between
    [TerminateWorker] and [WaitFor] is also modelled as an interleaving of
    their lock-level steps. *)

From S2P Require Import Prelude Time PriorityQueue Store TaskRunner Worker WorkerKeys WorkerLoop.

(** ** The thread worker *)

(** [ThreadWorker::Notify] and [ThreadWorker::WaitFor]. *)
Definition ThreadWorker_Notify (p : worker_ptr) (w : Worker) : list Event := [EvCvNotifyOne p].

Definition ThreadWorker_WaitFor (p : worker_ptr) (w : Worker) (delta : Z) : list Event :=
  if w_is_terminated_ w then []
  else if TimeDelta_ne delta TimeDelta_Max && TimeDelta_ne delta TimeDelta_Zero
       then [EvCvWaitFor p (TimeDelta_ToNanoseconds delta)]
       else [EvCvWait p].

Definition thread_backend : WorkerBackend :=
  {| backend_Notify := ThreadWorker_Notify; backend_WaitFor := ThreadWorker_WaitFor |}.

Definition event_eqb_join (p : worker_ptr) (e : Event) : bool :=
  match e with EvJoin q => (p =? q)%nat | _ => false end.
Definition event_eqb_start (p : worker_ptr) (e : Event) : bool :=
  match e with EvThreadStart q => (p =? q)%nat | _ => false end.

(** [std::thread::joinable]: started and not joined yet. *)
Definition thread_joinable (p : worker_ptr) (evs : list Event) : bool :=
  existsb (event_eqb_start p) evs && negb (existsb (event_eqb_join p) evs).

Section ThreadWorker.
Context {Q : Type} `{PriorityQueue DelayedEntry Q}.
Variable clock : nat → Z.
#[local] Existing Instance thread_backend.

(** [Start] only creates the thread; what the thread runs is
    [ThreadWorker_thread]. *)
Definition ThreadWorker_Start (p : worker_ptr) : M Q unit := log [EvThreadStart p].

(** [cur]: the worker on whose thread the call is made, if any. *)
Definition ThreadWorker_Join (cur : option worker_ptr) (p : worker_ptr) : M Q unit :=
  if bool_decide (cur = Some p) then st_ret tt
  else do! s := st_get in
       if thread_joinable p (wd_events s) then log [EvJoin p] else st_ret tt.

Definition ThreadWorker_TerminateWorker (cur : option worker_ptr) (p : worker_ptr) : M Q unit :=
  do! w := get_worker p in
  if w_is_terminated_ w then st_ret tt
  else do! _ := put_worker p (set_w_is_terminated_ true w) in
       do! _ := Notify p in
       ThreadWorker_Join cur p.

(** [Worker::Terminate] *)
Definition Worker_Terminate (cur : option worker_ptr) (p : worker_ptr) : M Q unit :=
  ThreadWorker_TerminateWorker cur p.

(** The two loops of [RunLoop]. *)
Fixpoint RunLoop_immediately (fuel : nat) (cb : Callbacks Q) (p : worker_ptr) : M Q unit :=
  do! w := get_worker p in
  if w_is_terminated_ w then st_ret tt
  else match fuel with
       | O => st_fault OutOfFuel
       | S fuel => do! _ := RunTask clock cb p in RunLoop_immediately fuel cb p
       end.

Fixpoint RunLoop_gracefully (fuel : nat) (cb : Callbacks Q) (p : worker_ptr) : M Q unit :=
  match fuel with
  | O => st_fault OutOfFuel
  | S fuel =>
      do! b := RunTask clock cb p in
      if b then RunLoop_gracefully fuel cb p else st_ret tt
  end.

Definition ThreadWorker_RunLoop (fuel : nat) (cb : Callbacks Q) (p : worker_ptr) : M Q unit :=
  do! w := get_worker p in
  if w_is_exit_immediately_ w then RunLoop_immediately fuel cb p
  else RunLoop_gracefully fuel cb p.

(** [Worker::Run], the body of the worker's thread. *)
Definition Worker_Run (fuel : nat) (cb : Callbacks Q) (p : worker_ptr) : M Q unit :=
  do! w := get_worker p in
  if w_is_terminated_ w then st_ret tt
  else
    do! s := st_get in
    do! _ := st_put (set_wd_global_worker_id (wrap_s 32 (wd_global_worker_id s + 1)) s) in
    do! _ := modify_tls p (set_tls_local_worker_id (wd_global_worker_id s)) in
    ThreadWorker_RunLoop fuel cb p.

(** [ThreadWorkerImpl::SetName]: the calling thread is named, unless the name
    is empty. *)
Definition SetName (name : string) : M Q unit :=
  if bool_decide (name = EmptyString) then st_ret tt else log [EvSetThreadName name].

(** The function [Start] runs on the new thread. *)
Definition ThreadWorker_thread (fuel : nat) (cb : Callbacks Q) (p : worker_ptr) : M Q unit :=
  do! w := get_worker p in
  do! _ := SetName (w_name_ w) in
  Worker_Run fuel cb p.
End ThreadWorker.

(** ** The looper worker *)

Record itimerspec := Itimerspec { it_value : timespec; it_interval : timespec }.

(** [static_cast<time_t>] and [static_cast<long>] of 64-bit values. *)
Definition SetItimerspec (nano_secs : Z) : itimerspec :=
  let v := Timespec (wrap_s 64 (nano_secs / 1000000000)) (wrap_s 64 (nano_secs mod 1000000000)) in
  Itimerspec v v.

Definition timerfd_event (p : worker_ptr) (spec : itimerspec) : Event :=
  EvTimerfdSet p (tv_sec (it_value spec)) (tv_nsec (it_value spec)).

Definition LoopWorker_Notify (p : worker_ptr) (w : Worker) : list Event :=
  [timerfd_event p (SetItimerspec 1)].

Definition LoopWorker_WaitFor (p : worker_ptr) (w : Worker) (delta : Z) : list Event :=
  let nano_secs := wrap_u 64 (TimeDelta_ToNanoseconds delta) in
  let nano_secs := if nano_secs <? 1 then 1 else nano_secs in
  [timerfd_event p (SetItimerspec nano_secs)].

Definition loop_backend : WorkerBackend :=
  {| backend_Notify := LoopWorker_Notify; backend_WaitFor := LoopWorker_WaitFor |}.

(** What one [ALooper_pollOnce(-1, ...)] came back with; [PollCallback] means
    that it ran [OnEventFired]. *)
Inductive PollResult := PollWake | PollCallback | PollTimeout | PollError.

Section LoopWorker.
Context {Q : Type} `{PriorityQueue DelayedEntry Q}.
Variable clock : nat → Z.
#[local] Existing Instance loop_backend.

Definition LoopWorker_TerminateWorker (p : worker_ptr) : M Q unit :=
  modify_worker p (set_w_is_terminated_ true).

(** [OnEventFired]; the result is the new value of [has_task_pending_]. *)
Definition OnEventFired (cb : Callbacks Q) (p : worker_ptr) : M Q bool := RunTask clock cb p.

(** The body of both loops of [RunLoop]. *)
Definition poll_once (cb : Callbacks Q) (p : worker_ptr) (result : PollResult)
    (has_task_pending_ : bool) : M Q bool :=
  match result with
  | PollCallback => OnEventFired cb p
  | PollWake => st_ret has_task_pending_
  | PollTimeout | PollError =>
      do! _ := modify_worker p (set_w_is_terminated_ true) in st_ret has_task_pending_
  end.

(** [LoopWorkerImpl::RunLoop] over the successive results of the looper. *)
Fixpoint LoopWorker_RunLoop (polls : list PollResult) (cb : Callbacks Q) (p : worker_ptr)
    (has_task_pending_ : bool) : M Q bool :=
  do! w := get_worker p in
  if (if w_is_exit_immediately_ w then negb (w_is_terminated_ w)
      else negb (w_is_terminated_ w) || has_task_pending_)
  then match polls with
       | [] => st_fault OutOfFuel
       | result :: polls =>
           do! b := poll_once cb p result has_task_pending_ in
           LoopWorker_RunLoop polls cb p b
       end
  else st_ret has_task_pending_.
End LoopWorker.

(** ** Properties *)

Section ThreadProperties.
Context {Q : Type} `{PriorityQueueLaws DelayedEntry Q deadline}.
Variable clock : nat → Z.
Hypothesis clock_range : ∀ n, 0 ≤ clock n ≤ i64_max.
Variables P T : Z.
Hypothesis weights : 0 ≤ P ∧ 0 ≤ T ∧ P * T ≤ i64_max.
Implicit Types (s : World Q) (w : Worker).
#[local] Existing Instance thread_backend.

(** A thread worker never blocks: neither a live nor a terminated one
    ever reaches [cv_.wait] or [cv_.wait_for] from [GetNextTask] — a live one
    returns before [WaitFor], a terminated one returns at the check inside
    [WaitFor] — so every [Notify] finds nobody waiting and a live worker
    without work polls. *)
Theorem ThreadWorker_never_blocks p s w (Hlo : loop_ok P T p s w) :
  ∃ res s', GetNextTask clock p s = Ok (res, s') ∧ wd_events s' = wd_events s.
Proof.
  destruct (GetNextTask_general clock clock_range P T weights p s w Hlo)
    as (res & s' & w' & E & _ & _ & _ & [He|(_ & w1 & d & Ht & He)]); [eauto|].
  exists res, s'. split; [done|]. rewrite He. cbn. unfold ThreadWorker_WaitFor.
  by rewrite Ht, app_nil_r.
Qed.

(** [Terminate] called from outside the worker's thread raises the flag,
    wakes the thread and joins it if it was started; called again, or for a
    worker that is already terminated, it does nothing.  Called from the
    worker's own thread it does not join. *)
Theorem Worker_Terminate_spec cur p s w (Hw : wd_workers s !! p = Some w) :
  let join := negb (bool_decide (cur = Some p)) && thread_joinable p (wd_events s) in
  ∃ s', Worker_Terminate cur p s = Ok (tt, s') ∧
    wd_workers s' = <[p := set_w_is_terminated_ true w]> (wd_workers s) ∧
    wd_runners s' = wd_runners s ∧
    wd_events s' = wd_events s ++ (if w_is_terminated_ w then []
                                   else EvCvNotifyOne p :: if join then [EvJoin p] else []) ∧
    Worker_Terminate cur p s' = Ok (tt, s').
Proof.
  cbn zeta. unfold Worker_Terminate, ThreadWorker_TerminateWorker. mrun.
  destruct (w_is_terminated_ w) eqn:Et.
  - exists s. assert (Ew : set_w_is_terminated_ true w = w) by (destruct w; cbn in *; by subst).
    rewrite Ew, insert_id, app_nil_r by done. repeat split; auto. mrun. by rewrite Et.
  - mrun. unfold Notify at 1. rewrite bind_assoc.
    erewrite bind_get_worker by apply lookup_insert_eq. unfold log at 1. mrun.
    unfold ThreadWorker_Join at 1.
    assert (Hj : thread_joinable p (wd_events s ++ [EvCvNotifyOne p]) =
                 thread_joinable p (wd_events s)).
    { unfold thread_joinable. rewrite !existsb_app. cbn. by rewrite !orb_false_r. }
    case_bool_decide; cbn [negb andb].
    + eexists. split; [done|]. cbn. repeat split; auto.
      erewrite bind_get_worker by apply lookup_insert_eq. done.
    + mrun. match goal with |- context [thread_joinable p ?e] =>
        change e with (wd_events s ++ [EvCvNotifyOne p]) end. rewrite Hj.
      destruct (thread_joinable p (wd_events s)).
      * eexists. split; [done|]. cbn. rewrite <- app_assoc. repeat split; auto.
        erewrite bind_get_worker by apply lookup_insert_eq. done.
      * eexists. split; [done|]. cbn. repeat split; auto.
        erewrite bind_get_worker by apply lookup_insert_eq. done.
Qed.
End ThreadProperties.

(** The looper worker arms its timerfd with exactly the requested delay —
    at least one nanosecond, split into seconds and nanoseconds within range,
    repeating with the same period — when the delay is not negative; a
    negative delay (an overdue task below the top of its group) is turned into
    one of at least 9223372036 seconds. *)
Theorem LoopWorker_WaitFor_spec p w delta (Hd : i64_min ≤ delta ≤ i64_max) :
  ∃ sec nsec, LoopWorker_WaitFor p w delta = [EvTimerfdSet p sec nsec] ∧
    0 ≤ nsec < 1000000000 ∧
    if 0 <=? delta then sec * 1000000000 + nsec = Z.max 1 delta else 9223372036 ≤ sec.
Proof.
  unfold LoopWorker_WaitFor, timerfd_event, SetItimerspec, TimeDelta_ToNanoseconds. cbn.
  set (n := if wrap_u 64 delta <? 1 then 1 else wrap_u 64 delta).
  assert (Hn : 1 ≤ n < 2 ^ 64).
  { unfold n. pose proof (wrap_u_range 64 delta ltac:(lia)).
    destruct (Z.ltb_spec (wrap_u 64 delta) 1); lia. }
  pose proof (Z.div_mod n 1000000000 ltac:(lia)). pose proof (Z.mod_pos_bound n 1000000000 ltac:(lia)).
  assert (0 ≤ n / 1000000000 < 2 ^ 63) by lia.
  rewrite !wrap_s_id by lia. do 2 eexists. split; [done|]. split; [done|].
  unfold i64_min, i64_max in Hd. destruct (Z.leb_spec 0 delta).
  - unfold n in *. rewrite wrap_u_id in * by lia. destruct (Z.ltb_spec delta 1); lia.
  - assert (wrap_u 64 delta = delta + 2 ^ 64).
    { unfold wrap_u. rewrite <- (Z.mod_add delta 1) by lia. rewrite Z.mul_1_l.
      apply Z.mod_small. lia. }
    unfold n in *. destruct (Z.ltb_spec (wrap_u 64 delta) 1); lia.
Qed.

(** ** The termination hand-shake

    [WaitFor] and [TerminateWorker] run on different threads and meet at
    [mutex_] and [cv_].  The steps below are theirs, one lock-level action at
    a time; a third thread posts a task and calls [Notify], which takes no
    lock. *)

Module Handshake.

(** The worker thread: looking for a task; calling [WaitFor]; holding the lock
    before and after the check (a worker that is not terminated may come there
    too, although [GetNextTask] returns before it calls [WaitFor]); blocked in [cv_.wait] (the lock released);
    woken and waiting to get the lock back; out of [RunLoop]. *)
Inductive waiter := Scanning | Calling | Locked | Checked | Blocked | Woken | Exited.

(** The terminating thread, before and inside its critical section, and
    joining. *)
Inductive terminator := TBefore | TLocked | TFlagged | TNotified | TJoining.

(** A thread in [PostTask]: before, between pushing the task and notifying,
    after. *)
Inductive poster := PBefore | PPushed | PNotified.

Inductive owner := Free | OwnedByWaiter | OwnedByTerminator.

Record state := MkState {
  hs_waiter : waiter; hs_terminator : terminator; hs_poster : poster;
  hs_mutex : owner; hs_is_terminated : bool; hs_queued : bool
}.

Definition init : state := MkState Scanning TBefore PBefore Free false false.

(** [cv_.notify_one()] *)
Definition notify (w : waiter) : waiter := match w with Blocked => Woken | _ => w end.

(** The steps of the worker thread.  A scan takes the queued task if there is
    one, and calls [WaitFor] otherwise. *)
Inductive waiter_step : state → state → Prop :=
  | WTake t p m f : waiter_step (MkState Scanning t p m f true) (MkState Scanning t p m f false)
  | WCall t p m f : waiter_step (MkState Scanning t p m f false) (MkState Calling t p m f false)
  | WLock t p f q :
      waiter_step (MkState Calling t p Free f q) (MkState Locked t p OwnedByWaiter f q)
  | WTerminated t p q :
      waiter_step (MkState Locked t p OwnedByWaiter true q) (MkState Exited t p Free true q)
  | WCheck t p q :
      waiter_step (MkState Locked t p OwnedByWaiter false q)
                  (MkState Checked t p OwnedByWaiter false q)
  | WWait t p f q :
      waiter_step (MkState Checked t p OwnedByWaiter f q) (MkState Blocked t p Free f q)
  | WReturn t p f q :
      waiter_step (MkState Woken t p Free f q)
                  (MkState (if f then Exited else Scanning) t p Free f q).

Inductive terminator_step : state → state → Prop :=
  | TLock w p f q :
      terminator_step (MkState w TBefore p Free f q) (MkState w TLocked p OwnedByTerminator f q)
  | TFlag w p f q :
      terminator_step (MkState w TLocked p OwnedByTerminator f q)
                      (MkState w TFlagged p OwnedByTerminator true q)
  | TNotify w p f q :
      terminator_step (MkState w TFlagged p OwnedByTerminator f q)
                      (MkState (notify w) TNotified p OwnedByTerminator f q)
  | TUnlock w p f q :
      terminator_step (MkState w TNotified p OwnedByTerminator f q) (MkState w TJoining p Free f q).

Inductive poster_step : state → state → Prop :=
  | PPush w t m f q : poster_step (MkState w t PBefore m f q) (MkState w t PPushed m f true)
  | PNotify w t m f q :
      poster_step (MkState w t PPushed m f q) (MkState (notify w) t PNotified m f q).

(** Any thread may step; a blocked waiter may also wake spuriously. *)
Inductive step : state → state → Prop :=
  | SWaiter s s' : waiter_step s s' → step s s'
  | STerminator s s' : terminator_step s s' → step s s'
  | SPoster s s' : poster_step s s' → step s s'
  | SSpurious t p m f q : step (MkState Blocked t p m f q) (MkState Woken t p m f q).

Definition in_section (t : terminator) : bool :=
  match t with TLocked | TFlagged | TNotified => true | _ => false end.
Definition raised (t : terminator) : bool :=
  match t with TFlagged | TNotified | TJoining => true | _ => false end.
Definition notified (t : terminator) : bool :=
  match t with TNotified | TJoining => true | _ => false end.

(** Mutual exclusion, the flag is up exactly from [TFlagged] on, and a waiter
    between its check and its wait has seen the flag down. *)
Record inv (s : state) : Prop := {
  inv_waiter : hs_waiter s = Locked ∨ hs_waiter s = Checked ↔ hs_mutex s = OwnedByWaiter;
  inv_terminator : in_section (hs_terminator s) = true ↔ hs_mutex s = OwnedByTerminator;
  inv_flag : hs_is_terminated s = raised (hs_terminator s);
  inv_checked : hs_waiter s = Checked → hs_is_terminated s = false;
  inv_blocked : hs_waiter s = Blocked → notified (hs_terminator s) = false
}.

Lemma hs_inv_init : inv init.
Proof. split; cbn; intuition discriminate. Qed.

Ltac hs_cases :=
  repeat match goal with
    | x : terminator |- _ => destruct x
    | x : waiter |- _ => destruct x
    | x : bool |- _ => destruct x
    end; cbn in *.
Ltac hs_solve :=
  split; cbn in *; first [done | solve [intuition congruence] | hs_cases; intuition congruence].

Lemma hs_inv_step s s' : step s s' → inv s → inv s'.
Proof.
  intros Hs [I1 I2 I3 I4 I5]. destruct Hs as [s s' Hs|s s' Hs|s s' Hs|t p m f q].
  - destruct Hs; cbn in *; hs_solve.
  - destruct Hs; cbn in *; hs_solve.
  - destruct Hs; cbn in *; hs_solve.
  - hs_solve.
Qed.

Lemma hs_inv_reachable s : rtc step init s → inv s.
Proof.
  intros Hs. assert (∀ s1 s2, rtc step s1 s2 → inv s1 → inv s2) as H.
  { induction 1; eauto using hs_inv_step. }
  eapply H; [exact Hs|apply hs_inv_init].
Qed.

(** C38. No termination is lost: however the threads interleave, once
    [TerminateWorker] has left its critical section and joins, the worker is
    not blocked, and it can run to its exit by its own steps. *)
Theorem TerminateWorker_no_lost_wakeup s
    (Hreach : rtc step init s) (Ht : hs_terminator s = TJoining) :
  hs_waiter s ≠ Blocked ∧
  ∃ s', rtc waiter_step s s' ∧ hs_waiter s' = Exited.
Proof.
  pose proof (hs_inv_reachable s Hreach) as [I1 I2 I3 I4 I5].
  destruct s as [w t p m f q]; cbn in *; subst t.
  subst f. split; [intros ->; discriminate (I5 eq_refl)|].
  assert (Hm : m = Free ∨ m = OwnedByWaiter).
  { destruct m; auto. discriminate (proj2 I2 eq_refl). }
  assert (Hcall : ∀ q, ∃ s', rtc waiter_step (MkState Calling TJoining p Free true q) s' ∧
    hs_waiter s' = Exited).
  { intros q'. eexists. split; [|].
    - eapply rtc_l; [apply WLock|]. eapply rtc_l; [apply WTerminated|]. apply rtc_refl.
    - reflexivity. }
  assert (Hscan : ∀ q, ∃ s', rtc waiter_step (MkState Scanning TJoining p Free true q) s' ∧
    hs_waiter s' = Exited).
  { intros q'. destruct (Hcall false) as (s' & Hr & He). exists s'. split; [|done].
    destruct q'; [eapply rtc_l; [apply WTake|]|]; (eapply rtc_l; [apply WCall|exact Hr]). }
  destruct w; destruct Hm as [-> | ->]; try (by auto);
    try (exfalso; destruct I1 as [I1a I1b];
      first [ discriminate (I1a (or_introl eq_refl)) | discriminate (I1a (or_intror eq_refl))
            | destruct (I1b eq_refl); discriminate | discriminate (I4 eq_refl)
            | discriminate (I5 eq_refl) ]);
    eexists; (split;
      [first [apply rtc_once, WTerminated | apply rtc_once, WReturn | apply rtc_refl]
      |reflexivity]).
Qed.

(** The wake-up of a posted task, in contrast, would be lost by such a run
    loop: [Notify] takes no lock, so it may run between the scan that found
    nothing and the wait.  There is a reachable state in which a task is queued,
    its poster is done, nobody is terminating, and the worker is blocked. *)
Theorem PostTask_wakeup_can_be_lost :
  rtc step init (MkState Blocked TBefore PNotified Free false true).
Proof.
  eapply rtc_l; [apply SWaiter, WCall|].
  eapply rtc_l; [apply SPoster, PPush|].
  eapply rtc_l; [apply SPoster, PNotify|].
  eapply rtc_l; [apply SWaiter, WLock|].
  eapply rtc_l; [apply SWaiter, WCheck|].
  eapply rtc_l; [apply SWaiter, WWait|]. apply rtc_refl.
Qed.

Lemma TerminateWorker_no_lost_wakeup_witness :
  let s := MkState Woken TJoining PBefore Free true false in
  rtc step init s ∧ ∃ s', rtc waiter_step s s' ∧ hs_waiter s' = Exited.
Proof.
  assert (R : rtc step init (MkState Woken TJoining PBefore Free true false)).
  { eapply rtc_l; [apply SWaiter, WCall|]. eapply rtc_l; [apply SWaiter, WLock|].
    eapply rtc_l; [apply SWaiter, WCheck|]. eapply rtc_l; [apply SWaiter, WWait|].
    eapply rtc_l; [apply STerminator, TLock|]. eapply rtc_l; [apply STerminator, TFlag|].
    eapply rtc_l; [apply STerminator, TNotify|]. eapply rtc_l; [apply STerminator, TUnlock|].
    apply rtc_refl. }
  split; [exact R|]. exact (proj2 (TerminateWorker_no_lost_wakeup _ R eq_refl)).
Defined.
End Handshake.

(** ** Evaluation on concrete workers *)

Lemma ThreadWorker_never_blocks_witness :
  ∃ res s', @GetNextTask _ _ thread_backend sample_clock 0 sample_world = Ok (res, s') ∧
    wd_events s' = [].
Proof.
  exact (ThreadWorker_never_blocks sample_clock sample_clock_range 2 1000 sample_weights 0
    sample_world _ sample_loop_ok).
Defined.

Lemma Worker_Terminate_spec_witness :
  ∃ s' : World (list DelayedEntry),
    Worker_Terminate None 0 (set_wd_events [EvThreadStart 0] idle_world) = Ok (tt, s') ∧
    wd_events s' = [EvThreadStart 0; EvCvNotifyOne 0; EvJoin 0].
Proof.
  destruct (Worker_Terminate_spec None 0 (set_wd_events [EvThreadStart 0] idle_world)
    (set_w_running_groups_ [[1%nat]] (Worker_init true "w")) eq_refl)
    as (s' & E & _ & _ & He & _).
  exists s'. split; [exact E|exact He].
Defined.

Lemma LoopWorker_WaitFor_spec_witness :
  LoopWorker_WaitFor 0 (Worker_init true "w") 1500000000 = [EvTimerfdSet 0 1 500000000] ∧
  ∃ sec nsec, LoopWorker_WaitFor 0 (Worker_init true "w") (-5) = [EvTimerfdSet 0 sec nsec] ∧
    9223372036 ≤ sec.
Proof.
  split; [reflexivity|].
  destruct (LoopWorker_WaitFor_spec 0 (Worker_init true "w") (-5)) as (sec & nsec & E & _ & H).
  - unfold i64_min, i64_max. lia.
  - exists sec, nsec. split; [exact E|exact H].
Defined.
