(* ===== verification/ThreadNames.v ===== *)
(** * ThreadNames: naming the thread of a worker

    Models [ThreadWorkerImpl::SetName] of the five
    [src/platform/*/thread_worker_impl.cc].  The build takes one of the files;
    the system calls are recorded.  ThreadWorker.v, where the thread of a worker
    names itself, takes Linux's. *)

From S2P Require Import Prelude Store Worker ThreadWorker.

Local Open Scope string_scope.
Local Open Scope Z_scope.

(** ** Windows: the exception that names a thread *)

Definition kVCThreadNameException : Z := 0x406D1388.

Record THREADNAME_INFO := MkTHREADNAME_INFO {
  dwType : Z;
  szName : string;
  dwThreadID : Z;
  dwFlags : Z
}.

(** Its size: a [DWORD], a pointer of [ptr] bytes and two more [DWORD]s, each
    aligned to its own size and the whole to its largest member. *)
Definition sizeof_DWORD : Z := 4.
Definition align_up (n a : Z) : Z := (n + a - 1) / a * a.
Definition sizeof_THREADNAME_INFO (ptr : Z) : Z :=
  align_up (align_up sizeof_DWORD ptr + ptr + sizeof_DWORD + sizeof_DWORD) ptr.

(** ** The files *)

Inductive os_call :=
  | pthread_setname_np_self (name : string)   (* of [pthread_self()] *)
  | pthread_setname_np (name : string)        (* of the calling thread *)
  | RaiseException (code flags nargs : Z) (args : THREADNAME_INFO).

Definition SetName_adr (name : string) : list os_call :=
  if bool_decide (name = "") then [] else [pthread_setname_np_self name].
Definition SetName_ios (name : string) : list os_call :=
  if bool_decide (name = "") then [] else [pthread_setname_np name].
Definition SetName_linux (name : string) : list os_call :=
  if bool_decide (name = "") then [] else [pthread_setname_np_self name].
Definition SetName_mac (name : string) : list os_call :=
  if bool_decide (name = "") then [] else [pthread_setname_np name].

(** The handler is [EXCEPTION_CONTINUE_EXECUTION]: the exception, whether a
    debugger took it or not, has no other effect. *)
Definition SetName_win (ptr GetCurrentThreadId : Z) (name : string) : list os_call :=
  if bool_decide (name = "") then []
  else
    let info := MkTHREADNAME_INFO 0x1000 name GetCurrentThreadId 0 in
    [RaiseException kVCThreadNameException 0 (sizeof_THREADNAME_INFO ptr / sizeof_DWORD) info].

(** ** Properties *)

(** The names given. *)
Definition given (c : os_call) : string :=
  match c with
  | pthread_setname_np_self name | pthread_setname_np name => name
  | RaiseException _ _ _ info => szName info
  end.

(** Every file names the thread once, unless the name is empty; that is what
    ThreadWorker.v logs. *)
Theorem SetName_names ptr tid name :
  let names := if bool_decide (name = "") then [] else [name] in
  given <$> SetName_adr name = names ∧ given <$> SetName_ios name = names ∧
  given <$> SetName_linux name = names ∧ given <$> SetName_mac name = names ∧
  given <$> SetName_win ptr tid name = names ∧
  ∀ (Q : Type) (w : World Q), SetName name w = log (EvSetThreadName <$> names) w.
Proof.
  unfold SetName_adr, SetName_ios, SetName_linux, SetName_mac, SetName_win, SetName.
  destruct (bool_decide (name = "")); repeat split.
  intros Q w. unfold log, st_modify, st_ret. cbn. by rewrite app_nil_r; destruct w.
Qed.

(** [RaiseException] takes its arguments to be [nargs] values of a pointer's
    size, and [SetName] counts them in [DWORD]s.  With pointers of 4 bytes that
    is the same; with pointers of 8 it reads twice the bytes that the record
    has. *)
Theorem RaiseException_reads ptr tid name (Hptr : ptr = 4 ∨ ptr = 8) (Hname : name ≠ "") :
  ∃ code nargs info, SetName_win ptr tid name = [RaiseException code 0 nargs info] ∧
    nargs <= 15 ∧
    nargs * ptr = (if ptr =? 8 then 2 else 1) * sizeof_THREADNAME_INFO ptr.
Proof.
  unfold SetName_win. rewrite bool_decide_false by done.
  eexists _, _, _. split; [reflexivity|]. by destruct Hptr as [-> | ->].
Qed.

Lemma RaiseException_reads_witness :
  SetName_win 8 7 "worker" =
    [RaiseException kVCThreadNameException 0 6 (MkTHREADNAME_INFO 0x1000 "worker" 7 0)] ∧
  sizeof_THREADNAME_INFO 8 = 24 ∧ ∃ nargs, nargs * 8 = 2 * sizeof_THREADNAME_INFO 8.
Proof.
  split; [reflexivity|]. split; [reflexivity|].
  destruct (RaiseException_reads 8 7 "worker" (or_intror eq_refl) ltac:(done)) as (c & n & i & _ & _ & H).
  by exists n.
Defined.
