(* ===== verification/LoopWorkerAndroid.v ===== *)
(** * LoopWorkerAndroid: the looper worker's registration

    Models the constructor and the destructor of
    [src/platform/adr/loop_worker_impl.cc] as the calls they make to the
    looper and to the kernel, and the callback they register; the run loop
    between the two is in ThreadWorker.v.  Loopers and file descriptors are
    numbers; what the calls return is an argument. *)

From S2P Require Import Prelude PriorityQueue Store WorkerLoop ThreadWorker.

(** The calls, with the results the code uses. *)
Inductive LooperCall :=
  | ALooper_prepare (looper : Z)
  | ALooper_acquire (looper : Z)
  | ALooper_release (looper : Z)
  | Timerfd_create (fd : Z)
  | Close (fd : Z)
  | ALooper_addFd (looper fd : Z)
  | ALooper_removeFd (looper fd : Z)
  | ALooper_wake (looper : Z).

#[global] Instance LooperCall_eq_dec : EqDecision LooperCall.
Proof. solve_decision. Defined.

(** [forThread] is what [ALooper_forThread] returns, [prepared] what
    [ALooper_prepare] would. *)
Definition AcquireLooperForThread (forThread : option Z) (prepared : Z) : Z * list LooperCall :=
  match forThread with
  | Some looper => (looper, [ALooper_acquire looper])
  | None => (prepared, [ALooper_prepare prepared; ALooper_acquire prepared])
  end.

(** [looper_], [fd_] and [has_task_pending_]. *)
Record LoopWorker := MkLoopWorker { lw_looper_ : Z; lw_fd_ : Z; lw_has_task_pending_ : bool }.

Definition LoopWorkerImpl_new (forThread : option Z) (prepared fd : Z) :
    LoopWorker * list LooperCall :=
  let '(looper, calls) := AcquireLooperForThread forThread prepared in
  (MkLoopWorker looper fd true, calls ++ [Timerfd_create fd; ALooper_addFd looper fd]).

Definition LoopWorkerImpl_destroy (lw : LoopWorker) : list LooperCall :=
  [ALooper_removeFd (lw_looper_ lw) (lw_fd_ lw); ALooper_wake (lw_looper_ lw)].

Definition kWakeEvents : Z := 1. (* ALOOPER_EVENT_INPUT *)

Section Callback.
Context {Q : Type} `{PriorityQueue DelayedEntry Q}.
Variable clock : nat → Z.
#[local] Existing Instance loop_backend.

(** The callback registered with [ALooper_addFd]; it returns 1, so it stays
    registered. *)
Definition wake_callback (events : Z) (cb : Callbacks Q) (p : worker_ptr) (has_task_pending_ : bool) :
    M Q (Z * bool) :=
  do! b := if Z.land events kWakeEvents =? 0 then st_ret has_task_pending_
           else OnEventFired clock cb p in
  st_ret (1, b).
End Callback.

(** Over its lifetime a worker unregisters the descriptor it registered, with
    the same looper, but neither closes the timerfd it creates nor releases
    the reference to the looper it acquires: both are leaked. *)
Theorem LoopWorkerImpl_leaks forThread prepared fd :
  let '(lw, created) := LoopWorkerImpl_new forThread prepared fd in
  let calls := created ++ LoopWorkerImpl_destroy lw in
  let looper := default prepared forThread in
  ALooper_addFd looper fd ∈ calls ∧ ALooper_removeFd looper fd ∈ calls ∧
  ALooper_acquire looper ∈ calls ∧ ALooper_release looper ∉ calls ∧
  Timerfd_create fd ∈ calls ∧ Close fd ∉ calls.
Proof.
  unfold LoopWorkerImpl_new, LoopWorkerImpl_destroy. destruct forThread as [l|]; cbn;
    repeat split; rewrite ?elem_of_cons, ?elem_of_nil; naive_solver.
Qed.
