(* ===== verification/LoopWorkerIos.v ===== *)
(** * LoopWorkerIos: the worker driven by a Core Foundation run loop

    Models [src/platform/ios/loop_worker_impl.cc] as it is written; the class
    it defines members of, [MainWorker], is declared as [LoopWorkerImpl] in its
    header, so the file does not compile.  The run loop and the clock of Core
    Foundation are outside: [OnRun] works through the successive results of
    [CFRunLoopRunInMode], and an armed timer is an event that holds the delay
    added to [CFAbsoluteTimeGetCurrent()]. *)

From S2P Require Import Prelude Time Double TimeDouble PriorityQueue Store Worker WorkerLoop ThreadWorker.
From Stdlib Require Import SpecFloat.

(** [IOS_WORKER_TIME_INTERVAL] is not defined anywhere in the library. *)
Definition kInterval : double := double_of_Z 10000000000.

(** The arguments of [CFRunLoopTimerCreate]. *)
Record CFTimer := MkCFTimer { fire_date : double; interval : double }.

(** The calls to Core Foundation that create, register and dispose of the
    timer; loops and timers are numbers, what the calls return is an
    argument. *)
Inductive CFCall :=
  | CFTimerCreate (timer : Z) (arguments : CFTimer)
  | CFRunLoopAddTimer (loop timer : Z)
  | CFTimerInvalidate (timer : Z)
  | CFRunLoopRemoveTimer (loop timer : Z)
  | CFRelease (object : Z).

(** [loop_] and [delayed_wake_timer_]. *)
Record IosWorker := MkIosWorker { iw_loop_ : Z; iw_delayed_wake_timer_ : Z }.

(** The constructor, given what [CFRunLoopGetMain] and [CFRunLoopTimerCreate]
    return. *)
Definition MainWorker_new (main_loop timer : Z) : IosWorker * list CFCall :=
  (MkIosWorker main_loop timer,
   [CFTimerCreate timer (MkCFTimer kInterval (S754_infinity false))]).

Definition MainWorker_destroy (iw : IosWorker) : list CFCall :=
  [CFTimerInvalidate (iw_delayed_wake_timer_ iw);
   CFRunLoopRemoveTimer (iw_loop_ iw) (iw_delayed_wake_timer_ iw)].

(** The timer that [Notify] and [WaitFor] arm is never added to a run loop, so
    nothing they do makes it fire; the destructor removes it from the loop it
    was never in, and the reference to it is not released. *)
Theorem timer_never_added main_loop timer loop t :
  let '(iw, created) := MainWorker_new main_loop timer in
  let calls := created ++ MainWorker_destroy iw in
  CFRunLoopAddTimer loop t ∉ calls ∧ CFRunLoopRemoveTimer main_loop timer ∈ calls ∧
  CFTimerInvalidate timer ∈ calls ∧ CFRelease timer ∉ calls.
Proof.
  unfold MainWorker_new, MainWorker_destroy. cbn [app iw_loop_ iw_delayed_wake_timer_].
  rewrite !not_elem_of_cons, !elem_of_cons.
  split_and!; try discriminate; try apply not_elem_of_nil; auto.
Qed.

Definition IosWorker_Notify (p : worker_ptr) (w : Worker) : list Event :=
  [EvSetNextFireDate p None].

Definition IosWorker_WaitFor (p : worker_ptr) (w : Worker) (delta : Z) : list Event :=
  [EvSetNextFireDate p (Some (TimeDelta_ToSecondsF delta))].

Definition ios_backend : WorkerBackend :=
  {| backend_Notify := IosWorker_Notify; backend_WaitFor := IosWorker_WaitFor |}.

(** The date a call arms the timer with, [now] being what
    [CFAbsoluteTimeGetCurrent] answers. *)
Definition next_fire_date (now : double) (delay : option double) : double :=
  match delay with None => now | Some d => double_add now d end.

(** The results of [CFRunLoopRunInMode]. *)
Inductive CFRunResult := RunFinished | RunStopped | RunTimedOut | RunHandledSource.

Section IosWorker.
Context {Q : Type} `{PriorityQueue DelayedEntry Q}.
Variable clock : nat → Z.
#[local] Existing Instance ios_backend.

Definition IosWorker_DoGetNextTask (p : worker_ptr) := GetNextTask (Q := Q) clock p.

Definition OnTimerFire (cb : Callbacks Q) (p : worker_ptr) : M Q bool := RunTask clock cb p.

(** One call of [CFRunLoopRunInMode]: its timer fires [n] times. *)
Fixpoint RunInMode (n : nat) (cb : Callbacks Q) (p : worker_ptr) : M Q unit :=
  match n with
  | O => st_ret tt
  | S n => do! _ := OnTimerFire cb p in RunInMode n cb p
  end.

Definition run_ended (result : CFRunResult) : bool :=
  match result with RunStopped | RunFinished => true | _ => false end.

(** [OnRun], over how often the timer fires in each call and its result. *)
Fixpoint OnRun (calls : list (nat * CFRunResult)) (cb : Callbacks Q) (p : worker_ptr) : M Q unit :=
  do! w := get_worker p in
  if w_is_terminated_ w then st_ret tt
  else match calls with
       | [] => st_fault OutOfFuel
       | (n, result) :: calls =>
           do! _ := RunInMode n cb p in
           if run_ended result then
             do! _ := RunTask clock cb p in
             do! _ := modify_worker p (set_w_is_terminated_ true) in
             OnRun calls cb p
           else OnRun calls cb p
       end.

(** The loop makes no call after the one that ended the run loop, whatever the
    worker still has to do: it runs one more task, raises the flag and
    returns. *)
Theorem OnRun_stops n result calls cb p s s1 b s2 w2
    (Hend : run_ended result = true)
    (Hlive : ∃ w, wd_workers s !! p = Some w ∧ w_is_terminated_ w = false)
    (Hfires : RunInMode n cb p s = Ok (tt, s1))
    (Htask : RunTask clock cb p s1 = Ok (b, s2)) (Hw : wd_workers s2 !! p = Some w2) :
  ∃ s3, OnRun ((n, result) :: calls) cb p s = Ok (tt, s3) ∧
    wd_workers s3 = <[p := set_w_is_terminated_ true w2]> (wd_workers s2) ∧
    wd_runners s3 = wd_runners s2 ∧ wd_events s3 = wd_events s2.
Proof.
  destruct Hlive as (w & Hl & Ht). cbn [OnRun]. mrun. rewrite Ht, Hend.
  erewrite st_bind_step by exact Hfires. erewrite st_bind_step by exact Htask.
  unfold modify_worker. mrun. eexists. split.
  { destruct calls as [|[]]; cbn [OnRun]; by erewrite bind_get_worker by apply lookup_insert_eq. }
  by repeat split.
Qed.
End IosWorker.

(** Waiting for a whole number of seconds, counted from a whole second, arms
    the timer with exactly the sum. *)
Example next_fire_date_sample :
  IosWorker_WaitFor 0 (Worker_init true "w") 90000000000 =
    [EvSetNextFireDate 0 (Some (double_of_Z 90))] ∧
  next_fire_date (double_of_Z 700000000) (Some (double_of_Z 90)) = double_of_Z 700000090.
Proof. split; vm_compute; reflexivity. Qed.
