(* ===== verification/Turns.v ===== *)
(** * Turns: what one turn of a worker does to the queues

    A turn is one call of [Worker::RunTask] (WorkerLoop.v).  Tasks are
    conserved by every part of it: what the scan hands out leaves the queues,
    what the task's own code posts enters them, and per runner they leave in
    the order they entered.  GracefulExit.v iterates turns of a terminated
    worker, EndToEnd.v those of a live one. *)

From S2P Require Import Prelude Time PriorityQueue Store TaskRunner Worker WorkerLoop.

(** ** Bags of queued things *)

Section Bag.
Context {Q A : Type} (f : TaskRunner Q → list A).
Implicit Types h : gmap runner_ptr (TaskRunner Q).

(** Everything [f] finds in the runners of a heap, in no particular order. *)
Definition bag h : list A := concat (map_to_list (f <$> h)).*2.

Lemma bag_lookup h q r :
  h !! q = Some r → bag h ≡ₚ f r ++ concat (map_to_list (delete q (f <$> h))).*2.
Proof.
  intros Hq. unfold bag. rewrite <- (map_to_list_delete (f <$> h) q (f r)); [done|].
  by rewrite lookup_fmap, Hq.
Qed.

(** What one runner gives up leaves the heap. *)
Lemma bag_insert h q r r' l :
  h !! q = Some r → f r ≡ₚ l ++ f r' → bag h ≡ₚ l ++ bag (<[q:=r']> h).
Proof.
  intros Hq Hf. rewrite (bag_lookup h q r Hq), (bag_lookup (<[q:=r']> h) q r')
    by apply lookup_insert_eq.
  by rewrite fmap_insert, delete_insert_eq, Hf, <- app_assoc.
Qed.

Lemma bag_ext h h' : (∀ q, f <$> h' !! q = f <$> h !! q) → bag h' = bag h.
Proof.
  intros Hq. unfold bag. replace (f <$> h') with (f <$> h); [done|].
  apply map_eq. intros q. by rewrite !lookup_fmap, Hq.
Qed.
End Bag.

(** ** Tasks are conserved *)

Section Conservation.
Context {Q : Type} `{PriorityQueueLaws DelayedEntry Q deadline} `{WorkerBackend}.
Variable clock : nat → Z.
Implicit Types (s : World Q) (r : TaskRunner Q) (g : Group) (gs : list Group).

(** The tasks a runner holds, waiting and delayed, and its idle tasks. *)
Definition runner_tasks r : list (option Task) :=
  tr_task_queue_ r ++ map delayed_task (pq_elems (tr_delayed_task_queue_ r)).
Definition heap_tasks s : list (option Task) := bag runner_tasks (wd_runners s).
Definition heap_idles s : list (option IdleTask) := bag tr_idle_task_queue_ (wd_runners s).

(** Only real tasks are queued: the callers never post a null pointer. *)
Definition real_tasks r : Prop :=
  tr_wf r ∧ Forall (λ t, t ≠ None) (tr_task_queue_ r) ∧ no_null_delayed r.

(** Nothing to run at time [now]. *)
Definition quiet (now : Z) r : Prop :=
  tr_task_queue_ r = [] ∧
  Forall (λ e, now < deadline e) (pq_elems (tr_delayed_task_queue_ r)).

(** The task [GetNext] answers with, as a list. *)
Definition taken (res : option Task) : list (option Task) :=
  match res with Some t => [Some t] | None => [] end.

(** *** Order

    [keep q] picks tasks of runner [q] that are followed: those of its
    immediate queue only, and none of another runner's. *)
Variable keep : runner_ptr → option Task → bool.

Definition homed q r : Prop :=
  (∀ q', q' ≠ q → Forall (λ t, keep q' t = false) (runner_tasks r)) ∧
  Forall (λ e, keep q (delayed_task e) = false) (pq_elems (tr_delayed_task_queue_ r)).
Definition all_homed s : Prop := map_Forall homed (wd_runners s).

(** The followed tasks of runner [q] that wait, in the order of its queue. *)
Definition followed q r : list (option Task) := List.filter (keep q) (tr_task_queue_ r).
Definition waiting s q : list (option Task) :=
  match wd_runners s !! q with Some r => followed q r | None => [] end.

(** [GetNext] hands over the front of the queue, as far as followed tasks go. *)
Lemma GetNext_order now r res r' q :
  real_tasks r → GetNext now r = Ok (res, r') → homed q r →
  homed q r' ∧ followed q r = List.filter (keep q) (taken res) ++ followed q r' ∧
  ∀ q', q' ≠ q → List.filter (keep q') (taken res) = [].
Proof.
  intros (Hwf & Hq & Hd) E [Ho Hk].
  destruct (GetNext_general now r Hwf) as (res1 & r1 & moved & stop & E1 & Hdr & Hres & Hstop).
  rewrite E in E1. injection E1 as <- <-.
  destruct Hstop as [[-> Hlate]|[d ->]]; [|by destruct (drained_no_null _ _ _ _ _ Hd Hdr)].
  rewrite app_nil_r in Hdr. destruct Hdr as [_ Hp _ _ _].
  unfold no_null_delayed in Hd. rewrite Hp in Hd, Hk.
  apply Forall_app in Hd as [Hdm _], Hk as [Hkm Hk].
  assert (Hfol : followed q r = List.filter (keep q) (tr_task_queue_ r ++ map delayed_task moved)).
  { rewrite List.filter_app, (proj2 (list_filter_nil (keep q) (map _ _))), app_nil_r; [done|].
    by apply Forall_fmap. }
  assert (Hother : ∀ q', q' ≠ q → Forall (λ t, keep q' t = false)
    ((tr_task_queue_ r ++ map delayed_task moved) ++
     map delayed_task (pq_elems (tr_delayed_task_queue_ r')))).
  { intros q' Hq'. specialize (Ho q' Hq'). unfold runner_tasks in Ho.
    by rewrite Hp, map_app, app_assoc in Ho. }
  assert (Hall : Forall (λ t, t ≠ None) (tr_task_queue_ r ++ map delayed_task moved)).
  { apply Forall_app. split; [done|]. by apply Forall_fmap. }
  rewrite Hfol. unfold homed, runner_tasks, followed.
  destruct (tr_task_queue_ r ++ map delayed_task moved) as [|t rest].
  - injection Hres as -> ->. auto.
  - injection Hres as -> ->. apply Forall_cons in Hall as [Ht _]. destruct t as [t|]; [|done].
    cbn. split; [split; [|done]|split; [by destruct (keep q _)|]].
    + intros q' Hq'. by apply Hother, Forall_cons in Hq' as [_ ?].
    + intros q' Hq'. apply Hother, Forall_cons in Hq' as [-> _]. done.
Qed.

Lemma GetNext_conserves now r res r' :
  real_tasks r → GetNext now r = Ok (res, r') →
  runner_tasks r ≡ₚ taken res ++ runner_tasks r' ∧ real_tasks r' ∧
  tr_idle_task_queue_ r' = tr_idle_task_queue_ r ∧ tr_worker_ r' = tr_worker_ r ∧
  (res = None → quiet now r').
Proof.
  intros (Hwf & Hq & Hd) E.
  destruct (GetNext_general now r Hwf) as (res1 & r1 & moved & stop & E1 & Hdr & Hres & Hstop).
  rewrite E in E1. injection E1 as <- <-.
  destruct Hstop as [[-> Hlate]|[d ->]]; [|by destruct (drained_no_null _ _ _ _ _ Hd Hdr)].
  rewrite app_nil_r in Hdr. destruct Hdr as [Hwf' Hp _ _ Hsame].
  unfold no_null_delayed in Hd. rewrite Hp in Hd. apply Forall_app in Hd as [Hdm Hd].
  assert (Hall : Forall (λ t, t ≠ None) (tr_task_queue_ r ++ map delayed_task moved)).
  { apply Forall_app. split; [done|]. by apply Forall_fmap. }
  assert (Hidle : tr_idle_task_queue_ r' = tr_idle_task_queue_ r).
  { unfold same_but_queues in Hsame. by rewrite Hsame. }
  assert (Hown : tr_worker_ r' = tr_worker_ r).
  { unfold same_but_queues in Hsame. by rewrite Hsame. }
  unfold runner_tasks at 1. rewrite Hp, map_app, app_assoc. unfold real_tasks, quiet, runner_tasks.
  destruct (tr_task_queue_ r ++ map delayed_task moved) as [|t rest].
  - injection Hres as -> ->. auto 10.
  - injection Hres as -> ->. apply Forall_cons in Hall as [Ht Hall].
    destruct t as [t|]; [|done]. by auto 10.
Qed.

Lemma bag_put_runner {A} (f : TaskRunner Q → list A) s q r r' l :
  wd_runners s !! q = Some r → f r ≡ₚ l ++ f r' →
  bag f (wd_runners s) ≡ₚ l ++ bag f (wd_runners (set_wd_runners (<[q:=r']> (wd_runners s)) s)).
Proof. intros Hq Hf. by apply bag_insert with r. Qed.

(** *** Deadlines

    The tasks a timer posts, [CTimer x], are followed by their deadlines. *)
Definition of_timer (x : nat) (t : option Task) : bool :=
  match t with Some (MkTask _ (Some (CTimer y))) => bool_decide (y = x) | _ => false end.

(** The clock was read at [D] or later. *)
Definition passed (D : Z) s : Prop := ∃ n, (n < wd_ticks s)%nat ∧ D ≤ clock n.

(** The tasks of timer [x] are delayed until [D], and reach the immediate queue
    no earlier. *)
Definition timer_after (x : nat) (D : Z) s : Prop :=
  map_Forall (λ _ r,
    Forall (λ e, of_timer x (delayed_task e) = true → D ≤ deadline e)
      (pq_elems (tr_delayed_task_queue_ r)) ∧
    Forall (λ t, of_timer x t = true → passed D s) (tr_task_queue_ r)) (wd_runners s).

(** They are delayed until [U] at the latest. *)
Definition timer_by (x : nat) (U : Z) s : Prop :=
  map_Forall (λ _ r, Forall (λ e, of_timer x (delayed_task e) = true → deadline e ≤ U)
    (pq_elems (tr_delayed_task_queue_ r))) (wd_runners s).

Record on_time (x : nat) (found : list (option Task)) s s' : Prop := {
  ot_after : ∀ D, timer_after x D s → timer_after x D s' ∧
    Forall (λ t, of_timer x t = true → passed D s') found;
  ot_by : ∀ U, timer_by x U s → timer_by x U s'
}.

Lemma passed_later D s s' : (wd_ticks s ≤ wd_ticks s')%nat → passed D s → passed D s'.
Proof. intros Hn (n & ? & ?). exists n. split; [lia|done]. Qed.

(** Only the delayed queue and the immediate queue matter, and the clock. *)
Lemma on_time_queues x s s' :
  (∀ q r', wd_runners s' !! q = Some r' → ∃ r, wd_runners s !! q = Some r ∧
     tr_task_queue_ r' = tr_task_queue_ r ∧ tr_delayed_task_queue_ r' = tr_delayed_task_queue_ r) →
  (wd_ticks s ≤ wd_ticks s')%nat → on_time x [] s s'.
Proof.
  intros Hq Hn. split.
  - intros D Hs. split; [|done]. intros q r' (r & Hr & -> & ->)%Hq.
    destruct (Hs q r Hr) as [Hd Ht]. split; [done|].
    eapply Forall_impl; [exact Ht|]. intros t Hp Hx. by eapply passed_later, Hp.
  - intros U Hs q r' (r & Hr & _ & ->)%Hq. by apply (Hs q r).
Qed.

Lemma on_time_trans x l1 l2 s1 s2 s3 :
  (wd_ticks s2 ≤ wd_ticks s3)%nat → on_time x l1 s1 s2 → on_time x l2 s2 s3 →
  on_time x (l1 ++ l2) s1 s3.
Proof.
  intros Hn [a1 b1] [a2 b2]. split; [|by auto]. intros D [H2 F1]%a1.
  destruct (a2 D H2) as [H3 F2]. split; [done|]. apply Forall_app. split; [|done].
  eapply Forall_impl; [exact F1|]. intros t Hp Hx. by eapply passed_later, Hp.
Qed.

(** What [GetNext] moves to the immediate queue is due, and so is what it
    answers with. *)
Lemma GetNext_on_time x n now r res r' s q :
  real_tasks r → GetNext now r = Ok (res, r') → wd_runners s !! q = Some r →
  (n < wd_ticks s)%nat → now = clock n →
  on_time x (taken res) s (set_wd_runners (<[q:=r']> (wd_runners s)) s).
Proof.
  intros (Hwf & _ & Hd) E Hq Hn ->.
  destruct (GetNext_general (clock n) r Hwf) as (res1 & r1 & moved & stop & E1 & Hdr & Hres & Hstop).
  rewrite E in E1. injection E1 as <- <-.
  destruct Hstop as [[-> _]|[d ->]]; [|by destruct (drained_no_null _ _ _ _ _ Hd Hdr)].
  rewrite app_nil_r in Hdr. destruct Hdr as [_ Hp Hdue _ _]. split.
  - intros D Hs. set (s' := set_wd_runners _ s).
    destruct (Hs q r Hq) as [He Ht]. rewrite Hp in He. apply Forall_app in He as [Hm He].
    assert (Hall : Forall (λ t, of_timer x t = true → passed D s')
      (tr_task_queue_ r ++ map delayed_task moved)).
    { apply Forall_app. split; [done|]. apply Forall_fmap. rewrite Forall_forall in *.
      intros e Hin Hx. specialize (Hm e Hin Hx). specialize (Hdue e Hin). exists n.
      split; [done|lia]. }
    assert (Hres' : Forall (λ t, of_timer x t = true → passed D s') (tr_task_queue_ r') ∧
                    Forall (λ t, of_timer x t = true → passed D s') (taken res)).
    { destruct (tr_task_queue_ r ++ map delayed_task moved) as [|t rest].
      - injection Hres as -> ->. by split.
      - injection Hres as -> ->. apply Forall_cons in Hall as [Ht1 Hall]. split; [done|].
        destruct t; by repeat constructor. }
    split; [|apply Hres']. apply map_Forall_insert_2; [by split; [|apply Hres']|]. exact Hs.
  - intros U Hs. apply map_Forall_insert_2; [|exact Hs]. specialize (Hs q r Hq). cbn in Hs.
    rewrite Hp in Hs. by apply Forall_app in Hs as [_ ?].
Qed.

(** What a piece of [GetNextTask] may do to the queues of the runners: hand
    out [found], drop some idle tasks, and leave a runner that was quiet at
    [now] quiet unless it hands a task out.  Runners keep their owner. *)
Record hands_out (now : Z) (found : list (option Task)) (popped : list (option IdleTask))
    s s' : Prop := {
  ho_tasks : heap_tasks s ≡ₚ found ++ heap_tasks s';
  ho_idles : heap_idles s ≡ₚ popped ++ heap_idles s';
  ho_real : map_Forall (λ _, real_tasks) (wd_runners s) → map_Forall (λ _, real_tasks) (wd_runners s');
  ho_quiet : found = [] → ∀ q, (∀ r, wd_runners s !! q = Some r → quiet now r) →
             ∀ r, wd_runners s' !! q = Some r → quiet now r;
  ho_ticks : (wd_ticks s ≤ wd_ticks s')%nat;
  ho_owner : ∀ q, tr_worker_ <$> wd_runners s' !! q = tr_worker_ <$> wd_runners s !! q;
  ho_order : all_homed s → all_homed s' ∧
             ∀ q, waiting s q = List.filter (keep q) found ++ waiting s' q;
  ho_time : ∀ x, on_time x found s s'
}.

Lemma hands_out_refl now s s' :
  wd_runners s' = wd_runners s → (wd_ticks s ≤ wd_ticks s')%nat → hands_out now [] [] s s'.
Proof.
  intros E Ht. split; unfold heap_tasks, heap_idles, all_homed, waiting; rewrite ?E; auto.
  intros x. apply on_time_queues; [|done]. rewrite E. eauto.
Qed.

Lemma hands_out_trans now l1 l2 p1 p2 s1 s2 s3 :
  hands_out now l1 p1 s1 s2 → hands_out now l2 p2 s2 s3 →
  hands_out now (l1 ++ l2) (p1 ++ p2) s1 s3.
Proof.
  intros [t1 i1 r1 q1 n1 w1 o1 c1] [t2 i2 r2 q2 n2 w2 o2 c2].
  split; [| |by auto| |lia|congruence| |intros x; by apply (on_time_trans x l1 l2 s1 s2)].
  - by rewrite t1, t2, app_assoc.
  - by rewrite i1, i2, app_assoc.
  - intros [-> ->]%app_nil q Hq. eauto.
  - intros [H2 E2]%o1. destruct (o2 H2) as [H3 E3]. split; [done|].
    intros q. by rewrite E2, E3, List.filter_app, app_assoc.
Qed.

(** A runner of the heap was replaced by [r'], which gave up [found]. *)
Lemma put_runner_order s q r r' found :
  wd_runners s !! q = Some r → tr_worker_ r' = tr_worker_ r →
  (homed q r → homed q r' ∧ followed q r = List.filter (keep q) found ++ followed q r' ∧
               ∀ q', q' ≠ q → List.filter (keep q') found = []) →
  let s' := set_wd_runners (<[q:=r']> (wd_runners s)) s in
  (∀ q, tr_worker_ <$> wd_runners s' !! q = tr_worker_ <$> wd_runners s !! q) ∧
  (all_homed s → all_homed s' ∧ ∀ q, waiting s q = List.filter (keep q) found ++ waiting s' q).
Proof.
  intros Hq Hw Ho. cbn. split.
  { intros q'. rewrite lookup_insert. case_decide as Eq; [|done]. subst q'. rewrite Hq. cbn. by rewrite Hw. }
  intros Hall. destruct (Ho (Hall _ _ Hq)) as (Hr' & E & Hother).
  split; [by apply map_Forall_insert_2|]. intros q'. unfold waiting. cbn.
  rewrite lookup_insert. case_decide as Eq; [subst q'; by rewrite Hq|].
  by rewrite (Hother q') by congruence.
Qed.

(** One question to the top runner of a group. *)
Lemma ask_hands_out now t n s q r res r' :
  map_Forall (λ _, real_tasks) (wd_runners s) → now ≤ t → t = clock n → (n < wd_ticks s)%nat →
  wd_runners s !! q = Some r → GetNext t r = Ok (res, r') →
  hands_out now (taken res) [] s (set_wd_runners (<[q:=r']> (wd_runners s)) s).
Proof.
  intros Hreal Ht Hn Hlt Hq E. destruct (GetNext_conserves t r res r' (Hreal _ _ Hq) E)
    as (Hc & Hr' & Hi & Hown & Hquiet).
  destruct (put_runner_order s q r r' (taken res) Hq Hown) as [Hwk Ho].
  { intros Hh. by apply (GetNext_order t r res r' q (Hreal _ _ Hq) E). }
  split; [by apply bag_put_runner with r| | | |done|exact Hwk|exact Ho|].
  - apply (bag_put_runner tr_idle_task_queue_ s q r r' []); [done|]. by rewrite Hi.
  - intros _. by apply map_Forall_insert_2.
  - intros Hnone q' Hq' r0. cbn. destruct res; [done|]. rewrite lookup_insert.
    case_decide; [|by apply Hq']. intros [= <-]. destruct (Hquiet eq_refl) as [? Hd].
    split; [done|]. eapply Forall_impl; [exact Hd|]. cbn. intros. lia.
  - intros x. exact (GetNext_on_time x n t r res r' s q (Hreal _ _ Hq) E Hq Hlt Hn).
Qed.

(** Taking an idle task. *)
Lemma pop_idle_hands_out now s q r i r' :
  wd_runners s !! q = Some r → PopIdleTask r = (i, r') →
  ∃ popped, hands_out now [] popped s (set_wd_runners (<[q:=r']> (wd_runners s)) s) ∧
    (∀ x, i = Some x → Some x ∈ popped).
Proof.
  intros Hq E. unfold PopIdleTask in E.
  assert (Hsame : tr_task_queue_ r' = tr_task_queue_ r ∧
                  tr_delayed_task_queue_ r' = tr_delayed_task_queue_ r).
  { destruct (tr_idle_task_queue_ r); by injection E as _ <-. }
  destruct Hsame as [Et Ed].
  exists (match tr_idle_task_queue_ r with [] => [] | x :: _ => [x] end). split.
  - destruct (put_runner_order s q r r' [] Hq) as [Hwk Ho].
    { destruct (tr_idle_task_queue_ r); by injection E as _ <-. }
    { unfold homed, followed, runner_tasks. rewrite Et, Ed. auto. }
    split; [| | | |done|exact Hwk|exact Ho|].
    + apply (bag_put_runner runner_tasks s q r r' []); [done|]. unfold runner_tasks. by rewrite Et, Ed.
    + apply bag_put_runner with r; [done|].
      destruct (tr_idle_task_queue_ r) eqn:Er; injection E as _ <-; cbn; by rewrite ?Er.
    + intros Hr. apply map_Forall_insert_2; [|done]. destruct (Hr _ _ Hq) as (?&?&?).
      unfold real_tasks, tr_wf, no_null_delayed. by rewrite Et, Ed.
    + intros _ q' Hq' r0. cbn. rewrite lookup_insert. case_decide; [|by apply Hq'].
      intros [= <-]. subst q'. destruct (Hq' _ Hq). unfold quiet. by rewrite Et, Ed.
    + intros x. apply on_time_queues; [|done]. cbn. intros q' r0. rewrite lookup_insert.
      case_decide; [|by eauto]. intros [= <-]. subst q'. exists r. by rewrite Et, Ed.
  - intros x ->. destruct (tr_idle_task_queue_ r); [done|]. injection E as -> _. left.
Qed.

Definition found_task (found : Task + option IdleTask) : list (option Task) :=
  match found with inl t => [Some t] | inr _ => [] end.

(** The part of the scan's loop body after a top runner had no task. *)
Lemma scan_tail_hands_out now f (idle : option IdleTask) s idle' s' :
  (match idle with
   | Some _ => st_ret idle
   | None => do! f0 := get_runner f in
             let '(i, f') := PopIdleTask f0 in
             do! _ := put_runner f f' in st_ret i
   end) s = Ok (idle', s') →
  ∃ popped, hands_out now [] popped s s' ∧ wd_tls s' = wd_tls s ∧
    (∀ i, idle' = Some i → idle = Some i ∨ Some i ∈ popped).
Proof.
  intros E. destruct idle as [i0|].
  - injection E as <- <-. exists []. split; [by apply hands_out_refl|]. auto.
  - mstep E. unfold get_runner in E0. destruct (wd_runners s !! f) as [r|] eqn:Hf; [|done].
    injection E0 as <- <-. destruct (PopIdleTask r) as [i r'] eqn:Ep. mstep E.
    injection E0 as _ <-. injection E as <- <-.
    destruct (pop_idle_hands_out now s f r i r' Hf Ep) as (popped & Hh & Hx). eauto 10.
Qed.

Lemma scan_hands_out p now gs idle s found s' :
  map_Forall (λ _, real_tasks) (wd_runners s) → (∀ n, (wd_ticks s ≤ n)%nat → now ≤ clock n) →
  GetNextTask_scan clock p now gs idle s = Ok (found, s') →
  ∃ popped, hands_out now (found_task found) popped s s' ∧
    (∀ i, found = inr (Some i) → idle = Some i ∨ Some i ∈ popped) ∧
    match found with
    | inl _ => tls_curr_group (tls_of s' p) ∈ gs
    | inr _ => wd_tls s' = wd_tls s ∧ ∀ g q r, g ∈ gs → last g = Some q →
                 wd_runners s' !! q = Some r → quiet now r
    end.
Proof.
  revert idle s. induction gs as [|g gs IH]; intros idle s Hreal Hnow E; cbn in E.
  { injection E as <- <-. exists []. split; [by apply hands_out_refl|].
    split; [intros i [= ->]; auto|]. split; [done|]. by intros g q r ?%not_elem_of_nil. }
  mstep E. mstep E0. apply of_option_Ok in E0. rename a into q, E0 into Hq.
  mstep E. unfold get_runner in E0. destruct (wd_runners s !! q) as [r|] eqn:Hr; [|done].
  injection E0 as <- <-. mstep E. injection E0 as <- <-.
  set (s1 := set_wd_ticks (S (wd_ticks s)) s) in *. mstep E. mstep E0.
  destruct a as [res r']. mstep E. injection E1 as _ <-.
  set (s2 := set_wd_runners _ s1) in *.
  assert (H12 : hands_out now (taken res) [] s s2).
  { apply (hands_out_trans now [] (taken res) [] [] s s1 s2).
    - apply hands_out_refl; [done|]. cbn. lia.
    - refine (ask_hands_out now (clock (wd_ticks s)) (wd_ticks s) s1 q r res r' Hreal _ eq_refl _ Hr E0);
        [by apply Hnow|cbn; lia]. }
  destruct res as [t|].
  { mstep E. injection E1 as _ <-. injection E as <- <-. exists [].
    split; [|split; [done|]].
    - apply (hands_out_trans now [Some t] [] [] [] s s2); [done|by apply hands_out_refl].
    - unfold tls_of. cbn. rewrite lookup_insert_eq. left. }
  mstep E. mstep E1. rename a0 into f. mstep E. rename a0 into idle'.
  destruct (scan_tail_hands_out now f idle s2 idle' s0 E2) as (pop1 & H23 & Ht3 & Hi3).
  set (k := GetNextTask_scan clock p now gs idle') in *.
  assert (Hrest : ∃ s4, wd_runners s4 = wd_runners s0 ∧ wd_ticks s4 = wd_ticks s0 ∧
    wd_tls s4 = wd_tls s0 ∧ k s4 = Ok (found, s')).
  { mstep E. unfold get_runner in E3. destruct (wd_runners s0 !! f); [|done].
    injection E3 as <- <-. mstep E. mstep E3. mstep E. unfold get_worker in E4.
    destruct (wd_workers s0 !! p); [|done]. injection E4 as <- <-. mstep E.
    destruct (TimeDelta_gt _ _).
    - mstep E4. mstep E5. injection E4 as _ <-. eexists. split; [|split; [|split; [|exact E]]]; done.
    - injection E4 as _ <-. by exists s0. }
  destruct Hrest as (s4 & Er4 & En4 & Et4 & Ek).
  pose proof (hands_out_trans _ _ _ _ _ _ _ _ H12 H23) as H13. cbn in H13.
  assert (H14 : hands_out now [] pop1 s s4).
  { rewrite <- (app_nil_r pop1). apply (hands_out_trans now [] [] _ [] s s0 s4 H13).
    apply hands_out_refl; [done|lia]. }
  destruct (IH idle' s4) as (pop2 & H45 & Hi5 & Hend); [by apply (ho_real _ _ _ _ _ H14)| |done|].
  { intros n Hn. apply Hnow. pose proof (ho_ticks _ _ _ _ _ H14). lia. }
  exists (pop1 ++ pop2). split; [by apply (hands_out_trans now [] _ _ _ s s4)|]. split.
  { intros i Ei. destruct (Hi5 i Ei) as [->|Hin]; [|right; apply elem_of_app; by right].
    destruct (Hi3 i eq_refl) as [->|Hin]; [by left|right; apply elem_of_app; by left]. }
  destruct found as [t|fi]; [by right|]. destruct Hend as [Htls Hq5].
  split; [by rewrite Htls, Et4, Ht3|]. intros g' q' r0 [->|Hg']%elem_of_cons Hl Hr0;
    [|by eapply Hq5].
  assert (q' = q) as -> by congruence. revert r0 Hr0.
  apply (ho_quiet _ _ _ _ _ H45 eq_refl). rewrite Er4.
  apply (ho_quiet _ _ _ _ _ H23 eq_refl). cbn. rewrite lookup_insert_eq. intros r0 [= <-].
  destruct (GetNext_conserves _ r None r' (Hreal _ _ Hr) E0) as (_ & _ & _ & _ & [? Hd]); [done|].
  split; [done|]. eapply Forall_impl; [exact Hd|]. cbn. intros e.
  pose proof (Hnow (wd_ticks s)). lia.
Qed.
End Conservation.

(** ** The parts of a turn *)

Section Step.
Context {Q : Type} `{PriorityQueueLaws DelayedEntry Q deadline} `{WorkerBackend}.
Variable clock : nat → Z.
Hypothesis clock_range : ∀ n, 0 ≤ clock n ≤ i64_max.
Hypothesis clock_mono : ∀ m n, (m ≤ n)%nat → clock m ≤ clock n.
(** Priorities are within [P]; run times start within [T0]; the clock stays
    below [C]; no sort weight reached from there overflows. *)
Variables P T0 C : Z.
Hypothesis clock_bound : ∀ n, clock n ≤ C.
Hypothesis weights : 0 ≤ P ∧ 0 ≤ T0 ∧ T0 + C ≤ i64_max ∧ P * (T0 + C) ≤ i64_max.
Variable keep : runner_ptr → option Task → bool.
Implicit Types (s : World Q) (w : Worker) (r : TaskRunner Q) (g : Group).

(** All tasks the worker may still run, and all it may still find. *)
Definition all_tasks s w : list (option Task) := w_immediate_task_queue_ w ++ heap_tasks s.
Definition backlog s w : nat := length (all_tasks s w) + length (heap_idles s).

(** A worker between two tasks, terminated or not, its runners charged up to
    [T]. *)
Record turn_ok (terminated : bool) (T : Z) (p : worker_ptr) s w : Prop := {
  tn_loop : loop_ok P T p s w;
  tn_real : map_Forall (λ _, real_tasks) (wd_runners s);
  tn_imm : Forall (λ t, t ≠ None) (w_immediate_task_queue_ w);
  tn_term : w_is_terminated_ w = terminated;
  tn_live : live (wd_runners s) (tls_curr_group (tls_of s p));
  tn_nodup : NoDup (tls_curr_group (tls_of s p))
}.

(** No runner on top of a running group has a task at [now]. *)
Definition finished (now : Z) s w : Prop :=
  w_immediate_task_queue_ w = [] ∧
  ∀ g q r, g ∈ w_running_groups_ w → last g = Some q → wd_runners s !! q = Some r → quiet now r.

(** What a turn of worker [p] leaves alone. *)
Record turn_frame (p : worker_ptr) s w s' w' : Prop := {
  tf_ticks : (wd_ticks s ≤ wd_ticks s')%nat;
  tf_owner : ∀ q, tr_worker_ <$> wd_runners s' !! q = tr_worker_ <$> wd_runners s !! q;
  tf_groups : w_running_groups_ w' ++ w_pending_groups_ w' ≡ₚ
              w_running_groups_ w ++ w_pending_groups_ w;
  tf_due : balance_due w → balance_due w';
  tf_imm : w_immediate_task_queue_ w = [] → w_immediate_task_queue_ w' = [];
  tf_others : ∀ p', p' ≠ p → wd_workers s' !! p' = wd_workers s !! p' ∧ tls_of s' p' = tls_of s p'
}.

Lemma turn_frame_trans p s1 w1 s2 w2 s3 w3 :
  turn_frame p s1 w1 s2 w2 → turn_frame p s2 w2 s3 w3 → turn_frame p s1 w1 s3 w3.
Proof.
  intros [n1 o1 g1 d1 i1 r1] [n2 o2 g2 d2 i2 r2].
  split; [lia|congruence|by rewrite g2|by auto|by auto|].
  intros p' Hp. destruct (r1 p' Hp), (r2 p' Hp). split; congruence.
Qed.

(** Followed tasks are where they belong: none among the worker's own. *)
Definition placed s w : Prop :=
  all_homed keep s ∧ Forall (λ t, ∀ q, keep q t = false) (w_immediate_task_queue_ w).

(** [out] left the queues and [inn] entered them; per runner the followed tasks
    left at the front and entered at the back. *)
Definition moves (out inn : list (option Task)) s w s' w' : Prop :=
  out ++ all_tasks s' w' ≡ₚ all_tasks s w ++ inn ∧
  (placed s w → placed s' w' ∧ ∀ q,
     waiting keep s q ++ List.filter (keep q) inn = List.filter (keep q) out ++ waiting keep s' q).

Lemma moves_trans o1 i1 o2 i2 s1 w1 s2 w2 s3 w3 :
  moves o1 i1 s1 w1 s2 w2 → moves o2 i2 s2 w2 s3 w3 → moves (o1 ++ o2) (i1 ++ i2) s1 w1 s3 w3.
Proof.
  intros [p1 f1] [p2 f2]. split.
  - by rewrite <- app_assoc, p2, app_assoc, p1, app_assoc.
  - intros [H2 e1]%f1. destruct (f2 H2) as [H3 e2]. split; [done|]. intros q.
    by rewrite !List.filter_app, app_assoc, e1, <- app_assoc, e2, app_assoc.
Qed.

Lemma hands_out_moves now found popped s s' w w' :
  hands_out clock keep now found popped s s' →
  w_immediate_task_queue_ w' = w_immediate_task_queue_ w → moves found [] s w s' w'.
Proof.
  intros Hh Ei. split.
  - unfold all_tasks. rewrite Ei, (ho_tasks _ _ _ _ _ _ _ Hh), app_nil_r. solve_Permutation.
  - intros [Ho Hi]. destruct (ho_order _ _ _ _ _ _ _ Hh Ho) as [Ho' E].
    split; [by split; [|rewrite Ei]|]. intros q. by rewrite E, app_nil_r.
Qed.

(** Task [t] was taken to be run and [inn] came in: either it left a queue, or
    it wraps an idle task. *)
Definition takes (t : Task) (inn : list (option Task)) s w s' w' : Prop :=
  (moves [Some t] inn s w s' w' ∧ (length (heap_idles s') ≤ length (heap_idles s))%nat) ∨
  ((∃ i m, task_unit_ t = Some (CIdle i m)) ∧ w_is_terminated_ w = true ∧
   moves [] inn s w s' w' ∧ (length (heap_idles s') < length (heap_idles s))%nat).

Lemma live_dom (h h' : gmap runner_ptr (TaskRunner Q)) g : dom h' = dom h → live h g → live h' g.
Proof.
  intros Hd Hl. eapply Forall_impl; [exact Hl|]. intros q. by rewrite <- !elem_of_dom, Hd.
Qed.

(** Runners that keep their owners stay alive. *)
Lemma owner_dom s s' :
  (∀ q, tr_worker_ <$> wd_runners s' !! q = tr_worker_ <$> wd_runners s !! q) →
  dom (wd_runners s') = dom (wd_runners s).
Proof.
  intros Ho. apply set_eq. intros q. rewrite !elem_of_dom, <- !(fmap_is_Some tr_worker_).
  by rewrite Ho.
Qed.

Lemma retimed_same {A} (f : TaskRunner Q → A) s s' q :
  (∀ t r, f (SetTime t r) = f r) → retimed s s' →
  f <$> wd_runners s' !! q = f <$> wd_runners s !! q.
Proof.
  intros Hf [Hq _ _ _]. destruct (Hq q) as [->|[t ->]]; [done|].
  destruct (wd_runners s !! q); [|done]. cbn. by rewrite Hf.
Qed.

Lemma retimed_runner s s' q r' :
  retimed s s' → wd_runners s' !! q = Some r' →
  ∃ r, wd_runners s !! q = Some r ∧ (r' = r ∨ ∃ t, r' = SetTime t r).
Proof.
  intros [Hq _ _ _] E. destruct (Hq q) as [E'|[t E']]; rewrite E in E'; [eauto|].
  destruct (wd_runners s !! q) as [r|]; [|done]. injection E' as ->. eauto.
Qed.

Lemma retimed_hands_out now s s' : retimed s s' → hands_out clock keep now [] [] s s'.
Proof.
  intros Hr.
  assert (Hbag : ∀ A (f : TaskRunner Q → list A), (∀ t r, f (SetTime t r) = f r) →
    bag f (wd_runners s') = bag f (wd_runners s)).
  { intros A f Hf. apply bag_ext. intros q. by apply retimed_same. }
  split.
  - unfold heap_tasks. by rewrite (Hbag _ runner_tasks).
  - unfold heap_idles. by rewrite (Hbag _ tr_idle_task_queue_).
  - intros Hreal q r' (r & Hq & [->|[t ->]])%(retimed_runner s); [| |done]; apply (Hreal q r Hq).
  - intros _ q Hqt r' (r & Hq & [->|[t ->]])%(retimed_runner s); [| |done]; apply (Hqt r Hq).
  - by rewrite (rt_ticks _ _ Hr).
  - intros q. by apply (retimed_same tr_worker_).
  - intros Hall. split.
    + intros q r' (r & Hq & [->|[t ->]])%(retimed_runner s); [| |done]; apply (Hall q r Hq).
    + intros q. pose proof (retimed_same (followed keep q) s s' q (λ _ _, eq_refl) Hr) as E.
      unfold waiting. cbn. by destruct (wd_runners s !! q), (wd_runners s' !! q); simplify_eq/=.
  - intros x. apply on_time_queues; [|by rewrite (rt_ticks _ _ Hr)].
    intros q r' (r & Hq & [->|[t ->]])%(retimed_runner s); [| |done]; eauto.
Qed.

(** The other workers and their threads are not touched. *)
Definition other (p' : worker_ptr) s : option Worker * Tls := (wd_workers s !! p', tls_of s p').

Lemma keeps_other_put_worker p p' w : p' ≠ p → keeps (other p') (put_worker p w : M Q unit).
Proof. intros Hne. apply keeps_modify. intros s. unfold other. cbn. by rewrite lookup_insert_ne. Qed.

Lemma keeps_other_modify_tls p p' f : p' ≠ p → keeps (other p') (modify_tls p f : M Q unit).
Proof.
  intros Hne. apply keeps_modify. intros s. unfold other, tls_of. cbn. by rewrite lookup_insert_ne.
Qed.

Lemma keeps_other_put_runner p' q r : keeps (other p') (put_runner q r).
Proof. by apply keeps_modify. Qed.

Lemma keeps_other_Now p' : keeps (other p') (Now clock : M Q Z).
Proof. intros s a s' E. by injection E as _ <-. Qed.

#[local] Hint Resolve keeps_other_put_worker keeps_other_modify_tls keeps_other_put_runner
  keeps_other_Now : footstone.

Lemma keeps_other_lift_worker_ p p' f : p' ≠ p → keeps (other p') (lift_worker_ p f : M Q unit).
Proof. intros. unfold lift_worker_, lift_worker. keeps_auto. Qed.

Lemma keeps_other_Balance p p' : p' ≠ p → keeps (other p') (Worker_Balance p : M Q unit).
Proof. intros. unfold Worker_Balance. keeps_auto. by apply keeps_modify. Qed.

Lemma keeps_other_scan p p' now gs idle :
  p' ≠ p → keeps (other p') (GetNextTask_scan clock p now gs idle : M Q _).
Proof.
  intros Hne. revert idle. induction gs as [|g gs IH]; intros idle; cbn [GetNextTask_scan];
    keeps_auto.
Qed.

#[local] Hint Resolve keeps_other_lift_worker_ keeps_other_Balance keeps_other_scan : footstone.

Lemma keeps_other_GetNextTask p p' : p' ≠ p → keeps (other p') (GetNextTask clock p : M Q _).
Proof.
  intros. unfold GetNextTask, modify_worker, WaitFor, Task_new, log.
  keeps_auto; try by apply keeps_modify. intros s a' s' E. by injection E as _ <-.
Qed.

(** The group under [local_runner] after a scan: the one the task came from, or
    the one before. *)
Lemma scan_curr_group T p s s' w' (found : Task + option IdleTask) gs :
  loop_ok P T p s' w' → w_running_groups_ w' = gs →
  dom (wd_runners s') = dom (wd_runners s) →
  live (wd_runners s) (tls_curr_group (tls_of s p)) → NoDup (tls_curr_group (tls_of s p)) →
  match found with
  | inl _ => tls_curr_group (tls_of s' p) ∈ gs
  | inr _ => tls_of s' p = tls_of s p
  end →
  live (wd_runners s') (tls_curr_group (tls_of s' p)) ∧ NoDup (tls_curr_group (tls_of s' p)).
Proof.
  intros [_ [_ Hl Hn] _ _] <- Hd Hlive Hnd Hend. destruct found as [t|i].
  - split; [rewrite Forall_forall in Hl; apply Hl, elem_of_app; by left|].
    rewrite concat_app in Hn. apply NoDup_app in Hn as [Hn _].
    apply list_elem_of_split in Hend as (l1 & l2 & El). rewrite El, concat_app in Hn.
    apply NoDup_app in Hn as (_ & _ & Hn). cbn in Hn. by apply NoDup_app in Hn as [? _].
  - rewrite Hend. split; [by eapply live_dom|done].
Qed.

(** [GetNextTask] up to the end of its scan, when the immediate queue is
    empty. *)
Lemma scan_turn b T p s w :
  0 ≤ T → P * T ≤ i64_max → turn_ok b T p s w → w_immediate_task_queue_ w = [] →
  ∃ found s' w' popped,
    GetNextTask clock p s = match found with
      | inl task => Ok (Some task, s')
      | inr idle_task => no_task p idle_task s'
      end ∧
    turn_ok b T p s' w' ∧ same_loop w w' ∧ wd_events s' = wd_events s ∧
    hands_out clock keep (clock (wd_ticks s)) (found_task found) popped s s' ∧
    (balance_due w → w_pending_groups_ w' = []) ∧
    ∀ idle, found = inr idle → (∀ i, idle = Some i → Some i ∈ popped) ∧
      ∀ g q r, g ∈ w_running_groups_ w' → last g = Some q → wd_runners s' !! q = Some r →
        quiet (clock (wd_ticks s)) r.
Proof.
  intros HT HPT [Hlo Hreal Himm Hterm Hlive Hnd] Ei. set (now := clock (wd_ticks s)).
  destruct (GetNextTask_scans clock clock_range P T (conj (proj1 weights) (conj HT HPT)) p s w Hlo Ei)
    as (now' & s2 & w2 & gs & found & s3 & E & Esc & -> & Hlo2 & Hsame & Hrt & F & _ & _ & _ & Hdue).
  set (s1 := set_wd_ticks (S (wd_ticks s)) s) in *.
  assert (H01 : hands_out clock keep now [] [] s s1) by (apply hands_out_refl; cbn; [done|lia]).
  pose proof (retimed_hands_out now _ _ Hrt) as H12.
  pose proof (hands_out_trans _ _ _ _ _ _ _ _ _ _ H01 H12) as H02. cbn in H02.
  pose proof (ho_real _ _ _ _ _ _ _ H02 Hreal) as Hreal2.
  destruct (scan_hands_out clock keep p now (w_running_groups_ w2) None s2 found s3 Hreal2)
    as (popped & H23 & Hpop & Hend); [|exact Esc|].
  { intros n Hn. apply clock_mono. rewrite (rt_ticks _ _ Hrt) in Hn. cbn in Hn. lia. }
  destruct (loop_ok_frame P T p s2 s3 w2 Hlo2 F) as (w3 & Hlo3 & Hsame3 & Hgs3 & Hps3).
  pose proof (same_loop_trans _ _ _ Hsame Hsame3) as Hsl.
  pose proof (hands_out_trans _ _ _ _ _ _ _ _ _ _ H02 H23) as H03. cbn in H03.
  pose proof (owner_dom _ _ (ho_owner _ _ _ _ _ _ _ H03)) as Hd.
  destruct (scan_curr_group T p s s3 w3 found (w_running_groups_ w2) Hlo3 Hgs3 Hd Hlive Hnd).
  { destruct found; [done|]. destruct Hend as [Et _]. unfold tls_of. by rewrite Et, (rt_tls _ _ Hrt). }
  exists found, s3, w3, popped. split; [exact E|]. pose proof Hsl as (Ht3 & Hi3 & _).
  split; [split; try done; [by apply (ho_real _ _ _ _ _ _ _ H03)|by rewrite Hi3|by rewrite Ht3]|].
  split; [exact Hsl|]. split; [by rewrite (sf_events _ _ _ _ _ F), (rt_events _ _ Hrt)|].
  split; [exact H03|]. split; [by rewrite Hps3|]. intros idle ->. rewrite Hgs3.
  split; [|apply Hend]. intros i ->. by destruct (Hpop i eq_refl).
Qed.

(** What the choice of a task guarantees. *)
Definition turn_choice (b : bool) p s w (res : option Task) s' w' : Prop :=
  match res with
  | Some t => takes t [] s w s' w' ∧ wd_events s' = wd_events s
  | None => moves [] [] s w s' w' ∧ finished (clock (wd_ticks s)) s' w' ∧
      (balance_due w → w_pending_groups_ w' = []) ∧
      if b then ∃ d, wd_events s' = wd_events s ++ backend_WaitFor p w' d
      else wd_events s' = wd_events s
  end.

Lemma turn_ok_rest b T p s s' w :
  turn_ok b T p s w → wd_workers s' = wd_workers s → wd_runners s' = wd_runners s →
  tls_curr_group (tls_of s' p) = tls_curr_group (tls_of s p) → turn_ok b T p s' w.
Proof.
  intros [[Hw Hwf Hr Hm] Hreal Himm Hterm Hl Hnd] Ew Er Et.
  split; [split|..]; rewrite ?Ew, ?Er, ?Et; done.
Qed.

Lemma GetNextTask_choice b T p s w :
  0 ≤ T → P * T ≤ i64_max → turn_ok b T p s w →
  ∃ res s' w', GetNextTask clock p s = Ok (res, s') ∧ turn_ok b T p s' w' ∧
    turn_choice b p s w res s' w' ∧ (wd_ticks s ≤ wd_ticks s')%nat ∧
    (∀ q, tr_worker_ <$> wd_runners s' !! q = tr_worker_ <$> wd_runners s !! q) ∧
    w_running_groups_ w' ++ w_pending_groups_ w' ≡ₚ
      w_running_groups_ w ++ w_pending_groups_ w ∧
    (balance_due w → balance_due w') ∧
    (w_immediate_task_queue_ w = [] → w_immediate_task_queue_ w' = []).
Proof.
  intros HT HPT Hok. destruct (w_immediate_task_queue_ w) as [|task rest] eqn:Ei.
  2: { pose proof Hok as [[Hw Hwf Hr Hm] Hreal Himm Hterm Hl Hnd]. rewrite Ei in Himm.
    apply Forall_cons in Himm as [Ht Himm]. destruct task as [t|]; [|done].
    set (w1 := set_w_immediate_task_queue_ rest w).
    exists (Some t), (set_wd_workers (<[p:=w1]> (wd_workers s)) s), w1.
    split; [unfold GetNextTask; mrun; by rewrite Ei|]. split.
    { split; try done. split; cbn; [apply lookup_insert_eq|by destruct Hwf; split|done|done]. }
    split; [|repeat (split; [done|]); done]. split; [|done]. left. split; [|done]. split.
    - unfold all_tasks. rewrite Ei. cbn. by rewrite app_nil_r.
    - intros [Ho Hi]. rewrite Ei in Hi. apply Forall_cons in Hi as [Hk Hi].
      split; [by split|]. intros q. cbn. by rewrite Hk, app_nil_r. }
  destruct (scan_turn b T p s w HT HPT Hok Ei)
    as (found & s3 & w3 & popped & E & Hok3 & Hsl & He & Hh & Hdue & Hend).
  pose proof Hsl as (Ht3 & Hi3 & _ & Hg3). rewrite E.
  pose proof (hands_out_moves _ _ _ _ _ w w3 Hh Hi3) as Hm.
  pose proof (Permutation_length (ho_idles _ _ _ _ _ _ _ Hh)) as Hlen. rewrite length_app in Hlen.
  pose proof (ho_ticks _ _ _ _ _ _ _ Hh) as Hn. pose proof (ho_owner _ _ _ _ _ _ _ Hh) as Ho.
  assert (Hdue' : balance_due w → balance_due w3) by (intros Hb; left; auto).
  assert (Hi : w_immediate_task_queue_ w = [] → w_immediate_task_queue_ w3 = []) by by by rewrite Hi3.
  destruct found as [t|idle].
  { exists (Some t), s3, w3. split; [done|]. split; [done|]. split; [|by auto 10].
    split; [|done]. left. split; [exact Hm|lia]. }
  destruct (Hend idle eq_refl) as [Hpop Hquiet].
  assert (Hfin : finished (clock (wd_ticks s)) s3 w3) by (split; [by rewrite Hi3, Ei|exact Hquiet]).
  pose proof (lo_worker _ _ _ _ _ (tn_loop _ _ _ _ _ Hok3)) as Hw3. unfold no_task. mrun.
  rewrite (tn_term _ _ _ _ _ Hok3). destruct b; cbn [negb].
  2: { exists None, s3, w3. split; [done|]. split; [done|]. split; [done|auto 10]. }
  destruct idle as [i|]; mrun; unfold WaitFor; mrun; do 2 eexists; exists w3; (split; [done|]).
  - split; [by eapply turn_ok_rest|]. split; [|by auto 10]. split; [|done]. right.
    split; [by do 2 eexists|]. split; [by rewrite <- Ht3, (tn_term _ _ _ _ _ Hok3)|].
    split; [exact Hm|]. pose proof (Hpop i eq_refl) as Hin.
    destruct popped; [by apply not_elem_of_nil in Hin|]. cbn in Hlen |- *. 
    change (length (heap_idles s3) < length (heap_idles s))%nat. lia.
  - split; [by eapply turn_ok_rest|]. split; [|by auto 10]. split; [exact Hm|]. split; [exact Hfin|].
    split; [exact Hdue|]. eexists. cbn. by rewrite He.
Qed.

Lemma GetNextTask_turn b T p s w :
  0 ≤ T → P * T ≤ i64_max → turn_ok b T p s w →
  ∃ res s' w', GetNextTask clock p s = Ok (res, s') ∧ turn_ok b T p s' w' ∧
    turn_choice b p s w res s' w' ∧ turn_frame p s w s' w'.
Proof.
  intros HT HPT Hok. destruct (GetNextTask_choice b T p s w HT HPT Hok)
    as (res & s' & w' & E & Hok' & Hc & ? & ? & ? & ? & ?).
  exists res, s', w'. split; [done|]. split; [done|]. split; [done|]. split; try done.
  intros p' Hp'. pose proof (keeps_other_GetNextTask p p' Hp' _ _ _ E) as Ho.
  by injection Ho as -> ->.
Qed.

(** ** Charging *)

Lemma turn_weights s : 0 ≤ T0 + clock (wd_ticks s) ∧ P * (T0 + clock (wd_ticks s)) ≤ i64_max.
Proof.
  pose proof (clock_range (wd_ticks s)). pose proof (clock_bound (wd_ticks s)).
  destruct weights as (? & ? & ? & ?). split; [lia|]. nia.
Qed.

(** Later, every bound still holds. *)
Lemma turn_ok_later b m n p s w :
  (m ≤ n)%nat → turn_ok b (T0 + clock m) p s w → turn_ok b (T0 + clock n) p s w.
Proof.
  intros Hmn [[Hw Hwf Hr Hm] Hreal Himm Hterm Hl Hnd]. pose proof (clock_mono m n Hmn).
  split; [split|..]; try done. intros q r Hq. destruct (Hr q r Hq). split; auto. lia.
Qed.

(** Charging the current group keeps the invariant, with the later clock, and
    moves no task. *)
Lemma charge_turn b p n0 s w :
  turn_ok b (T0 + clock n0) p s w → (n0 < wd_ticks s)%nat →
  ∃ s', st_iter (charge clock (clock n0)) (tls_curr_group (tls_of s p)) s = Ok (tt, s') ∧
    turn_ok b (T0 + clock (wd_ticks s')) p s' w ∧ hands_out clock keep 0 [] [] s s' ∧
    wd_events s' = wd_events s ∧ wd_workers s' = wd_workers s ∧ wd_tls s' = wd_tls s.
Proof.
  intros Hok Hlt. pose proof Hok as [[Hw Hwf Hr Hm] Hreal Himm Hterm Hl Hnd].
  set (g := tls_curr_group (tls_of s p)) in *. set (c := clock n0).
  pose proof (clock_range n0) as Hb0.
  destruct (charge_group clock clock_range c g s) as (s' & E & [Ht Ho Hs']); auto.
  { intros q r n Hq Er. destruct (Hr _ _ Er) as [_ _ Htr _]. pose proof (clock_range n).
    pose proof (clock_bound n). subst c. unfold i64_min, i64_max in *. lia. }
  assert (Hq : ∀ q, wd_runners s' !! q = wd_runners s !! q ∧ q ∉ g ∨
    ∃ i r, g !! i = Some q ∧ wd_runners s !! q = Some r ∧
      wd_runners s' !! q = Some (SetTime (tr_time_ r + (clock (wd_ticks s + i) - c)) r)).
  { intros q. destruct (decide (q ∈ g)) as [Hin|Hni]; [right|left; auto].
    pose proof (proj1 (Forall_forall _ _) Hl q Hin) as [r Er].
    apply list_elem_of_lookup in Hin as [i Hi]. exists i, r. auto. }
  assert (Hrt : retimed (set_wd_ticks (wd_ticks s') s) s').
  { split; [|by rewrite Hs'|done|by rewrite Hs']. intros q.
    destruct (Hq q) as [[E' _]|(i & r & _ & Er & E')]; [by left|right; eexists].
    cbn. by rewrite Er, E'. }
  assert (Hticks : wd_ticks s' = (wd_ticks s + length g)%nat) by by rewrite Hs'.
  assert (Hh : hands_out clock keep 0 [] [] s s').
  { apply (hands_out_trans _ _ _ [] [] [] [] s (set_wd_ticks (wd_ticks s') s) s');
      [apply hands_out_refl; cbn; [done|lia]|by apply retimed_hands_out]. }
  pose proof (owner_dom _ _ (ho_owner _ _ _ _ _ _ _ Hh)) as Hd.
  exists s'. split; [exact E|]. split; [|split; [exact Hh|by rewrite Hs']].
  assert (Etls : tls_of s' p = tls_of s p) by by rewrite Hs'.
  split; [split|..]; rewrite ?Etls; try done.
  - by rewrite Hs'.
  - eapply groups_wf_perm; [done|exact Hd|exact Hwf].
  - intros q r' Er'. destruct (Hq q) as [[E' _]|(i & r & Hi & Er & E')]; rewrite Er' in E'.
    + symmetry in E'. destruct (Hr _ _ E') as [? ? ? ?]. split; auto.
      pose proof (clock_mono n0 (wd_ticks s')). lia.
    + injection E' as ->. destruct (Hr _ _ Er) as [? ? ? ?]. split; auto. cbn.
      apply lookup_lt_Some in Hi.
      pose proof (clock_mono (wd_ticks s + i) (wd_ticks s')).
      pose proof (clock_mono n0 (wd_ticks s + i)). subst c. lia.
  - by apply (ho_real _ _ _ _ _ _ _ Hh).
  - by eapply live_dom.
Qed.

(** ** The whole turn *)

(** Closures whose body is the user's. *)
Definition user_closure (c : Closure) : bool :=
  match c with CUser _ | CTimer _ | CIdle _ _ => true | _ => false end.
Definition user_task_or_null (t : option Task) : Prop :=
  ∀ t' c, t = Some t' → task_unit_ t' = Some c → user_closure c = true.

(** Only user tasks wait: no migration of storage is under way. *)
Definition user_tasks s w : Prop := Forall user_task_or_null (all_tasks s w).

(** What user code may do to the world: post tasks, and make itself heard. *)
Record performs (born : list (option Task)) (said : list Event → Prop) s s' : Prop := {
  pf_workers : wd_workers s' = wd_workers s;
  pf_tls : wd_tls s' = wd_tls s;
  pf_ticks : (wd_ticks s ≤ wd_ticks s')%nat;
  pf_owner : ∀ q, tr_worker_ <$> wd_runners s' !! q = tr_worker_ <$> wd_runners s !! q;
  pf_runners : ∀ T, map_Forall (λ _, runner_ok P T) (wd_runners s) →
                    map_Forall (λ _, runner_ok P T) (wd_runners s');
  pf_real : map_Forall (λ _, real_tasks) (wd_runners s) →
            map_Forall (λ _, real_tasks) (wd_runners s');
  pf_tasks : heap_tasks s' ≡ₚ heap_tasks s ++ born;
  pf_idles : length (heap_idles s') = length (heap_idles s);
  pf_order : all_homed keep s → all_homed keep s' ∧
    ∀ q, waiting keep s' q = waiting keep s q ++ List.filter (keep q) born;
  pf_time : ∀ x, Forall (λ t, of_timer x t = false) born → on_time clock x [] s s';
  pf_events : ∃ ev, wd_events s' = wd_events s ++ ev ∧ said ev
}.

Lemma performs_moves born said s s' w : performs born said s s' → moves [] born s w s' w.
Proof.
  intros Hp. split.
  - unfold all_tasks. rewrite (pf_tasks _ _ _ _ Hp). by rewrite <- app_assoc.
  - intros [Ho Hi]. destruct (pf_order _ _ _ _ Hp Ho) as [Ho' E].
    split; [by split|]. intros q. by rewrite E.
Qed.

(** What code that leaves workers and owners alone does not disturb. *)
Record undisturbed s s' : Prop := {
  ud_workers : wd_workers s' = wd_workers s;
  ud_tls : wd_tls s' = wd_tls s;
  ud_ticks : (wd_ticks s ≤ wd_ticks s')%nat;
  ud_owner : ∀ q, tr_worker_ <$> wd_runners s' !! q = tr_worker_ <$> wd_runners s !! q;
  ud_runners : ∀ T, map_Forall (λ _, runner_ok P T) (wd_runners s) →
                    map_Forall (λ _, runner_ok P T) (wd_runners s');
  ud_real : map_Forall (λ _, real_tasks) (wd_runners s) →
            map_Forall (λ _, real_tasks) (wd_runners s')
}.

Lemma performs_undisturbed born said s s' : performs born said s s' → undisturbed s s'.
Proof. intros []. by split. Qed.

Lemma undisturbed_turn_ok b T p s s' w :
  undisturbed s s' → turn_ok b T p s w → turn_ok b T p s' w.
Proof.
  intros [Hws Htl _ Ho Hrs Hre] [[Hw Hwf Hr Hm] Hreal Himm Hterm Hl Hnd].
  pose proof (owner_dom _ _ Ho) as Hd.
  assert (Et : tls_of s' p = tls_of s p) by (unfold tls_of; by rewrite Htl).
  split; [split|..]; rewrite ?Et; try done.
  - by rewrite Hws.
  - by eapply groups_wf_perm.
  - by apply Hrs.
  - by apply Hre.
  - by eapply live_dom.
Qed.

Lemma performs_turn_ok b T p born said s s' w :
  performs born said s s' → turn_ok b T p s w → turn_ok b T p s' w.
Proof. intros Hp. by eapply undisturbed_turn_ok, performs_undisturbed. Qed.

Lemma takes_born t inn born s w s' w' s3 w3 :
  takes t inn s w s' w' → moves [] born s' w' s3 w3 →
  (length (heap_idles s3) ≤ length (heap_idles s'))%nat →
  takes t (inn ++ born) s w s3 w3.
Proof.
  intros [[Hm Hi]|(Hw & Ht & Hm & Hi)] Hb Hle; [left|right].
  - split; [by apply (moves_trans [Some t] inn [] born s w s' w')|lia].
  - split; [done|]. split; [done|]. split; [by apply (moves_trans [] inn [] born s w s' w')|lia].
Qed.

Lemma takes_user t inn s w s' w' :
  takes t inn s w s' w' → Forall user_task_or_null inn → user_tasks s w →
  user_tasks s' w' ∧ user_task_or_null (Some t).
Proof.
  unfold user_tasks. intros [[[Hp _] _]|((i & m & Hi) & _ & [Hp _] & _)] Hin Hu.
  - assert (Ha : Forall user_task_or_null (Some t :: all_tasks s' w')).
    { cbn in Hp. rewrite Hp. by apply Forall_app. }
    by apply Forall_cons in Ha as [? ?].
  - cbn in Hp. rewrite Hp. split; [by apply Forall_app|].
    intros t' c [= <-] Hc. rewrite Hi in Hc. by injection Hc as <-.
Qed.

(** When the chosen task starts to run. *)
Definition entered (p : worker_ptr) s : World Q :=
  let s := set_wd_ticks (S (wd_ticks s)) s in
  set_wd_tls (<[p:=set_tls_is_task_running true (tls_of s p)]> (wd_tls s)) s.

(** What is left of [RunTask] once the task has run. *)
Definition leave (p : worker_ptr) (begin : Z) : M Q bool :=
  do! _ := modify_tls p (set_tls_is_task_running false) in
  do! l := get_tls p in
  do! _ := st_iter (charge clock begin) (tls_curr_group l) in
  st_ret true.

Lemma rest_of_turn b p s w born sd s3 :
  turn_ok b (T0 + clock (wd_ticks s)) p s w → performs born sd (entered p s) s3 →
  ∃ s', leave p (clock (wd_ticks s)) s3 = Ok (true, s') ∧
    turn_ok b (T0 + clock (wd_ticks s')) p s' w ∧ turn_frame p s w s' w ∧
    moves [] born s w s' w ∧ length (heap_idles s') = length (heap_idles s) ∧
    (∃ ev, wd_events s' = wd_events s ++ ev ∧ sd ev) ∧ hands_out clock keep 0 [] [] s3 s'.
Proof.
  intros Hok Hp. set (s2 := entered p s) in *. unfold leave.
  set (s4 := set_wd_tls (<[p:=set_tls_is_task_running false (tls_of s3 p)]> (wd_tls s3)) s3).
  erewrite st_bind_step by reflexivity. fold s4. unfold get_tls, st_bind at 1.
  assert (Ht2 : tls_curr_group (tls_of s2 p) = tls_curr_group (tls_of s p)).
  { unfold s2, entered, tls_of. cbn. by rewrite lookup_insert_eq. }
  assert (Ht4 : tls_curr_group (tls_of s4 p) = tls_curr_group (tls_of s3 p)).
  { unfold s4, tls_of. cbn. by rewrite lookup_insert_eq. }
  assert (Hok4 : turn_ok b (T0 + clock (wd_ticks s)) p s4 w).
  { apply turn_ok_rest with s3; try done. eapply performs_turn_ok; [exact Hp|].
    by apply turn_ok_rest with s. }
  destruct (charge_turn b p (wd_ticks s) s4 w Hok4) as (s5 & E5 & Hok5 & Hh & He & Ew & Et).
  { cbn. pose proof (pf_ticks _ _ _ _ Hp) as Hn. cbn in Hn. lia. }
  exists s5. split; [by rewrite (st_bind_step _ _ _ _ _ E5)|]. split; [exact Hok5|].
  pose proof (ho_ticks _ _ _ _ _ _ _ Hh) as Hn5. pose proof (pf_ticks _ _ _ _ Hp) as Hn3.
  cbn in Hn5, Hn3. split; [split; try done; [lia| |]|split; [|split; [|split]]].
  - intros q. rewrite (ho_owner _ _ _ _ _ _ _ Hh). apply (pf_owner _ _ _ _ Hp).
  - intros p' Hp'. rewrite Ew. cbn. rewrite (pf_workers _ _ _ _ Hp). split; [done|].
    unfold tls_of. rewrite Et. cbn. rewrite lookup_insert_ne, (pf_tls _ _ _ _ Hp) by done.
    cbn. by rewrite lookup_insert_ne.
  - pose proof (performs_moves _ _ _ _ w Hp) as Hm.
    rewrite <- (app_nil_r born).
    exact (moves_trans [] born [] [] s w s4 w s5 w Hm (hands_out_moves _ _ _ _ _ w w Hh eq_refl)).
  - pose proof (Permutation_length (ho_idles _ _ _ _ _ _ _ Hh)) as Hi. cbn in Hi.
    rewrite <- Hi. apply (pf_idles _ _ _ _ Hp).
  - rewrite He. apply (pf_events _ _ _ _ Hp).
  - apply (hands_out_trans _ _ _ [] [] [] [] s3 s4 s5); [by apply hands_out_refl|done].
Qed.

(** The tasks of a timer keep their time when the next task is chosen. *)
Lemma GetNextTask_on_time b T x p s w res s' :
  0 ≤ T → P * T ≤ i64_max → turn_ok b T p s w → w_immediate_task_queue_ w = [] →
  GetNextTask clock p s = Ok (res, s') → on_time clock x (taken res) s s'.
Proof.
  intros HT HPT Hok Ei E. destruct (scan_turn b T p s w HT HPT Hok Ei)
    as (found & s3 & w3 & popped & E3 & Hok3 & _ & _ & Hh & _).
  rewrite E in E3. destruct found as [t|idle].
  { injection E3 as -> ->. apply (ho_time _ _ _ _ _ _ _ Hh). }
  pose proof (lo_worker _ _ _ _ _ (tn_loop _ _ _ _ _ Hok3)) as Hw3. unfold no_task in E3.
  assert (Hnt : wd_runners s' = wd_runners s3 ∧ (wd_ticks s3 ≤ wd_ticks s')%nat ∧
    ∀ t, res = Some t → of_timer x (Some t) = false).
  { revert E3. mrun. destruct (w_is_terminated_ w3); cbn [negb]; [|by intros [= -> ->]].
    destruct idle as [i|]; mrun.
    - unfold Task_new, st_bind. cbn. intros [= -> ->]. split; [done|]. split; [done|]. by intros t [= <-].
    - unfold WaitFor. mrun. by intros [= -> ->]. }
  destruct Hnt as (Er & Hn & Hmine).
  apply (on_time_trans clock x [] (taken res) s s3 s'); [done|apply (ho_time _ _ _ _ _ _ _ Hh)|].
  destruct (on_time_queues clock x s3 s') as [Ha Hb]; [rewrite Er; by eauto|done|].
  split; [|done]. intros D HD. split; [by apply Ha|]. destruct res as [t|]; [|done].
  repeat constructor. by rewrite Hmine.
Qed.

Variable cb : Callbacks Q.
(** [said t born ev]: running [t] may post the tasks [born] and log [ev]. *)
Variable said : Task → list (option Task) → list Event → Prop.
(** What user code relies on: the owners of runners and which workers are
    alive. *)
Variable ready : World Q → Prop.
Hypothesis ready_stable : ∀ s s',
  (∀ q, tr_worker_ <$> wd_runners s' !! q = tr_worker_ <$> wd_runners s !! q) →
  dom (wd_workers s') = dom (wd_workers s) → ready s → ready s'.
Hypothesis born_user : ∀ t born ev,
  user_task_or_null (Some t) → said t born ev → Forall user_task_or_null born.
Hypothesis runs : ∀ t s, user_task_or_null (Some t) → ready s →
  ∃ born s', Task_Run cb t s = Ok (tt, s') ∧ performs born (said t born) s s'.

(** A turn runs a task or finds every top runner without one; in the latter
    case a terminated worker says so. *)
Definition turn_result b p s w (more : bool) s' w' : Prop :=
  (more = true ∧ ∃ t born ev, user_task_or_null (Some t) ∧ takes t born s w s' w' ∧
     wd_events s' = wd_events s ++ ev ∧ said t born ev) ∨
  (more = negb b ∧ turn_choice b p s w None s' w').

Lemma turn_workers_dom p s w s' w' b b' T T' :
  turn_ok b T p s w → turn_ok b' T' p s' w' → turn_frame p s w s' w' →
  dom (wd_workers s') = dom (wd_workers s).
Proof.
  intros [[Hw _ _ _] _ _ _ _ _] [[Hw' _ _ _] _ _ _ _ _] Hf. apply set_eq. intros q.
  rewrite !elem_of_dom. destruct (decide (q = p)) as [->|Hne]; [by rewrite Hw, Hw'|].
  by destruct (tf_others _ _ _ _ _ Hf q Hne) as [-> _].
Qed.

(** Running the chosen task: the part of [RunTask] after [GetNextTask]. *)
Lemma run_turn b p s w t :
  turn_ok b (T0 + clock (wd_ticks s)) p s w → user_task_or_null (Some t) → ready s →
  ∃ born s', (do! begin := Now clock in
         do! _ := modify_tls p (set_tls_is_task_running true) in
         do! _ := Task_Run cb t in
         do! _ := modify_tls p (set_tls_is_task_running false) in
         do! l := get_tls p in
         do! _ := st_iter (charge clock begin) (tls_curr_group l) in
         st_ret true) s = Ok (true, s') ∧
    turn_ok b (T0 + clock (wd_ticks s')) p s' w ∧ turn_frame p s w s' w ∧
    moves [] born s w s' w ∧ length (heap_idles s') = length (heap_idles s) ∧
    ∃ ev, wd_events s' = wd_events s ++ ev ∧ said t born ev.
Proof.
  intros Hok Hut Hready. assert (Hready2 : ready (entered p s)) by by apply (ready_stable s).
  destruct (runs t _ Hut Hready2) as (born & s3 & E3 & Hp).
  destruct (rest_of_turn b p s w born _ s3 Hok Hp) as (s' & E & Hok' & Hf & Hm & Hi & He & _).
  exists born, s'. split; [|done]. mrun. erewrite st_bind_step by reflexivity.
  change (set_wd_tls _ _) with (entered p s). erewrite st_bind_step by exact E3. exact E.
Qed.

(** A turn never faults, keeps the invariant, and moves exactly the task it
    runs and those this task posts. *)
Lemma RunTask_turn b p s w :
  turn_ok b (T0 + clock (wd_ticks s)) p s w → user_tasks s w → ready s →
  ∃ more s' w', RunTask clock cb p s = Ok (more, s') ∧
    turn_ok b (T0 + clock (wd_ticks s')) p s' w' ∧ turn_frame p s w s' w' ∧
    user_tasks s' w' ∧ turn_result b p s w more s' w'.
Proof.
  intros Hok Hu Hready. destruct (turn_weights s) as [HT HPT].
  destruct (GetNextTask_turn b _ p s w HT HPT Hok) as (res & s1 & w1 & E1 & Hok1 & Hc & Hf1).
  apply (turn_ok_later _ _ (wd_ticks s1)) in Hok1; [|apply Hf1].
  unfold RunTask. erewrite st_bind_step by exact E1. destruct res as [t|].
  - destruct Hc as [Htk He1].
    destruct (takes_user _ _ _ _ _ _ Htk (List.Forall_nil _) Hu) as [Hu1 Hut].
    destruct (run_turn b p s1 w1 t Hok1 Hut)
      as (born & s2 & E2 & Hok2 & Hf2 & Hm2 & Hi2 & ev & He2 & Hs).
    { eapply ready_stable; [apply Hf1| |exact Hready]. by eapply turn_workers_dom. }
    assert (Htk2 : takes t born s w s2 w1).
    { apply (takes_born t [] born s w s1 w1 s2 w1 Htk Hm2). lia. }
    exists true, s2, w1. split; [exact E2|]. split; [exact Hok2|].
    split; [by eapply turn_frame_trans|]. split; [apply (takes_user _ _ _ _ _ _ Htk2); eauto|].
    left. split; [done|]. exists t, born, ev. split; [done|]. split; [done|]. by rewrite He2, He1.
  - pose proof (lo_worker _ _ _ _ _ (tn_loop _ _ _ _ _ Hok1)) as Hw1. mrun.
    rewrite (tn_term _ _ _ _ _ Hok1). exists (negb b), s1, w1.
    split; [by destruct b|]. split; [exact Hok1|]. split; [exact Hf1|].
    split; [|by right]. destruct Hc as ((Hp & _) & _). unfold user_tasks.
    cbn in Hp. rewrite Hp, app_nil_r. exact Hu.
Qed.
End Step.
