(* ===== verification/GracefulExit.v ===== *)
(** * GracefulExit: what a terminated worker still runs

    Iterates the turns of Turns.v along the graceful loop of
    [ThreadWorker::RunLoop] (ThreadWorker.v): a worker that was terminated but
    not told to exit at once goes on running tasks until no runner on top of a
    running group has one.  The constructor tells every worker to exit at once
    ([src/footstone/worker.cc]) and nothing clears that flag, so this is what
    the branch would do; the comment at the flag ([worker.h]) leaves delayed
    and idle tasks out, but the loop runs those that are due and the idle ones
    too.  The queues of all runners give the measure that bounds the loop. *)

From S2P Require Import Prelude Time PriorityQueue Store TaskRunner Worker WorkerLoop ThreadWorker Turns.

Definition add_events {Q} (e : list Event) (s : World Q) : World Q :=
  set_wd_events (wd_events s ++ e) s.
Definition task_body (body : Closure → list Event) (t : Task) : list Event :=
  match task_unit_ t with Some c => body c | None => [] end.

(** The order of the tasks of one runner is not followed here. *)
Definition follow_none (_ : runner_ptr) (_ : option Task) : bool := false.

Section Loop.
Context {Q : Type} `{PriorityQueueLaws DelayedEntry Q deadline}.
#[local] Existing Instance thread_backend.
Variable clock : nat → Z.
Hypothesis clock_range : ∀ n, 0 ≤ clock n ≤ i64_max.
Hypothesis clock_mono : ∀ m n, (m ≤ n)%nat → clock m ≤ clock n.
Variables P T0 C : Z.
Hypothesis clock_bound : ∀ n, clock n ≤ C.
Hypothesis weights : 0 ≤ P ∧ 0 ≤ T0 ∧ T0 + C ≤ i64_max ∧ P * (T0 + C) ≤ i64_max.
Variable cb : Callbacks Q.
Variable body : Closure → list Event.
(** User code that only makes itself heard, [body] being what it says: in
    particular it posts no further task. *)
Hypothesis harmless : ∀ c (s : World Q), user_closure c = true →
  run_closure cb c s = Ok (tt, add_events (body c) s).
Implicit Types (s : World Q) (w : Worker).

Lemma Task_Run_harmless t s :
  user_task_or_null (Some t) → Task_Run cb t s = Ok (tt, add_events (task_body body t) s).
Proof.
  intros Hu. unfold Task_Run, task_body. destruct (task_unit_ t) as [c|] eqn:Ec.
  - apply harmless. by eapply Hu.
  - unfold add_events. rewrite app_nil_r. by destruct s.
Qed.

(** One turn of a terminated worker. *)
Lemma RunTask_exit p s w :
  turn_ok P true (T0 + clock (wd_ticks s)) p s w → user_tasks s w →
  ∃ more s' w', RunTask clock cb p s = Ok (more, s') ∧
    turn_ok P true (T0 + clock (wd_ticks s')) p s' w' ∧ (wd_ticks s ≤ wd_ticks s')%nat ∧
    user_tasks s' w' ∧
    if more then ∃ t, takes follow_none t [] s w s' w' ∧
                      wd_events s' = wd_events s ++ task_body body t
    else all_tasks s w ≡ₚ all_tasks s' w' ∧ finished (clock (wd_ticks s)) s' w' ∧
         wd_events s' = wd_events s.
Proof.
  intros Hok Hu.
  destruct (RunTask_turn clock clock_range clock_mono P T0 C clock_bound weights follow_none cb
    (λ t born ev, born = [] ∧ ev = task_body body t) (λ _, True)) with (4 := Hok)
    as (more & s' & w' & E & Hok' & Hf & Hu' & Hres); try done.
  { by intros t born ev _ [-> _]. }
  { intros t s1 Ht _. exists []. eexists. split; [by apply Task_Run_harmless|]. split; try done.
    - cbn. by rewrite app_nil_r.
    - intros Hh. split; [done|]. intros q. cbn. by rewrite app_nil_r.
    - by exists (task_body body t). }
  exists more, s', w'. split; [done|]. split; [done|]. split; [apply Hf|]. split; [done|].
  destruct Hres as [(-> & t & born & ev & _ & Ht & He & -> & ->)|(-> & ([Hp _] & Hfin & _ & d & He))].
  - by exists t.
  - split; [cbn in Hp; by rewrite Hp, app_nil_r|]. split; [done|]. rewrite He. cbn.
    unfold ThreadWorker_WaitFor. by rewrite (tn_term _ _ _ _ _ _ Hok'), app_nil_r.
Qed.

(** [ran]: the tasks in the order they ran; [queued] those of them that were
    waiting in a queue, the others wrapping idle tasks. *)
Record ran_tasks (ran : list Task) s w s' w' : Prop := {
  rn_tasks : ∃ queued idles, ran ≡ₚ queued ++ idles ∧
    all_tasks s w ≡ₚ map Some queued ++ all_tasks s' w' ∧
    Forall (λ t, ∃ i m, task_unit_ t = Some (CIdle i m)) idles
}.

Lemma takes_queued t s w s' w' :
  takes follow_none t [] s w s' w' →
  (all_tasks s w ≡ₚ Some t :: all_tasks s' w' ∨
   (∃ i m, task_unit_ t = Some (CIdle i m)) ∧ all_tasks s w ≡ₚ all_tasks s' w') ∧
  (backlog s' w' < backlog s w)%nat.
Proof.
  unfold backlog. intros [[[Hp _] Hi]|(Hidle & _ & [Hp _] & Hi)]; cbn in Hp;
    rewrite app_nil_r in Hp; apply Permutation_length in Hp as Hl; cbn in Hl.
  - split; [by left|lia].
  - split; [by right|lia].
Qed.

Lemma ran_tasks_cons t ran s w s1 w1 s' w' :
  takes follow_none t [] s w s1 w1 → ran_tasks ran s1 w1 s' w' → ran_tasks (t :: ran) s w s' w'.
Proof.
  intros [Ht _]%takes_queued [(queued & idles & Hp & Ha & Hi)]. split.
  destruct Ht as [Ht|[Ht Ht']].
  - exists (t :: queued), idles. split; [by rewrite Hp|]. split; [by rewrite Ht, Ha|done].
  - exists queued, (t :: idles). split; [by rewrite Hp, Permutation_middle|].
    split; [by rewrite Ht', Ha|by constructor].
Qed.

Lemma RunLoop_exit fuel p s w :
  turn_ok P true (T0 + clock (wd_ticks s)) p s w → user_tasks s w → (backlog s w < fuel)%nat →
  ∃ s' w' ran now, RunLoop_gracefully clock fuel cb p s = Ok (tt, s') ∧
    ran_tasks ran s w s' w' ∧ wd_workers s' !! p = Some w' ∧
    clock (wd_ticks s) ≤ now ∧ finished now s' w' ∧
    wd_events s' = wd_events s ++ concat (map (task_body body) ran).
Proof.
  revert s w. induction fuel as [|fuel IH]; intros s w Hdr Hu Hfuel; [lia|].
  destruct (RunTask_exit p s w Hdr Hu) as (b & s1 & w1 & E1 & Hdr1 & Hn1 & Hu1 & Hb).
  cbn. erewrite st_bind_step by exact E1. destruct b.
  - destruct Hb as (t & Hh & He1). destruct (takes_queued _ _ _ _ _ Hh) as [_ Hlt].
    destruct (IH s1 w1) as (s' & w' & ran & now & E & Hran & Hw' & Hnow & Hfin & He);
      [done..|lia|].
    exists s', w', (t :: ran), now. split; [done|]. split; [by eapply ran_tasks_cons|].
    split; [done|]. pose proof (clock_mono _ _ Hn1). split; [lia|]. split; [done|].
    rewrite He, He1. cbn. by rewrite <- app_assoc.
  - destruct Hb as (Hall & Hfin & He). exists s1, w1, [], (clock (wd_ticks s)).
    split; [done|]. split; [|split; [apply Hdr1|split; [lia|split; [done|]]]].
    2: { rewrite He. cbn. by rewrite app_nil_r. }
    split. exists [], []. split; [done|]. split; [done|constructor].
Qed.

(** The graceful branch terminates: on a terminated worker with
    [is_exit_immediately_] cleared (no code of the repository clears it) whose
    groups and numbers are within bounds and whose
    tasks are user tasks that post no others, the loop of
    [ThreadWorker::RunLoop] returns after at most one turn per queued task
    (plus the last), runs each task it takes off a queue exactly once, loses
    none, and leaves behind no task that was due on top of a running group nor
    any in the immediate queue.  It never waits: [WaitFor] returns at once on a
    terminated worker. *)
Theorem graceful_exit_runs_all p s w
    (Hdr : turn_ok P true (T0 + clock (wd_ticks s)) p s w) (Hu : user_tasks s w)
    (Hexit : w_is_exit_immediately_ w = false) :
  ∃ s' w' ran now,
    ThreadWorker_RunLoop clock (S (backlog s w)) cb p s = Ok (tt, s') ∧
    ran_tasks ran s w s' w' ∧ wd_workers s' !! p = Some w' ∧
    clock (wd_ticks s) ≤ now ∧ finished now s' w' ∧
    wd_events s' = wd_events s ++ concat (map (task_body body) ran).
Proof.
  destruct (RunLoop_exit (S (backlog s w)) p s w Hdr Hu ltac:(lia))
    as (s' & w' & ran & now & E & Hrest).
  exists s', w', ran, now. split; [|done]. unfold ThreadWorker_RunLoop.
  pose proof (lo_worker _ _ _ _ _ (tn_loop _ _ _ _ _ _ Hdr)) as Hw. mrun. by rewrite Hexit.
Qed.
End Loop.

(** ** Evaluation on a concrete worker *)

Section Sample.
#[local] Existing Instance thread_backend.

Definition exit_clock (n : nat) : Z := Z.min (10 * Z.of_nat n) 1000000.

(** Runner 1 has two tasks waiting, one due at 5 and an idle task; runner 2,
    below runner 3, has a task that stays blocked. *)
Definition exit_runners : gmap runner_ptr (TaskRunner (list DelayedEntry)) :=
  {[ 1%nat := set_tr_idle_task_queue_ [Some (MkIdleTask 0 (Some (IdleUser 7)))]
                (push_delayed (MkEntry 5 (user_task 13))
                  (push_task (user_task 12) (push_task (user_task 11) (sample_tr 1 1 300))));
     2%nat := push_task (user_task 21) (sample_tr 2 2 50);
     3%nat := push_task (user_task 31) (sample_tr 3 1 100) ]}.
Definition exit_worker : Worker :=
  MkWorker true "w" true false false TimeDelta_Max TimePoint_Max false false
    None [[1%nat]; [2%nat; 3%nat]] [] ∅ ∅ [user_task 1].
Definition exit_world : World (list DelayedEntry) :=
  MkWorld exit_runners {[ 0%nat := exit_worker ]} ∅ 1 100 0 0 [].
Definition exit_body (c : Closure) : list Event :=
  match c with CUser n => [EvRunUser n] | _ => [] end.

Lemma exit_turn_ok : turn_ok 2 true (1000 + exit_clock 1) 0 exit_world exit_worker.
Proof.
  split; [split; [reflexivity|split; unfold live; decide_now| |apply Z.le_refl]| |decide_now|done|constructor|constructor].
  - repeat (apply map_Forall_insert_2; [split; [by sample_wf|decide_now|decide_now|decide_now]|]).
    apply map_Forall_empty.
  - repeat (apply map_Forall_insert_2; [split; [by sample_wf|split; unfold no_null_delayed; decide_now]|]).
    apply map_Forall_empty.
Defined.

Lemma exit_clock_range n : 0 ≤ exit_clock n ≤ i64_max.
Proof. unfold exit_clock, i64_max. lia. Qed.

Lemma exit_harmless c s :
  user_closure c = true → run_closure sample_callbacks c s = Ok (tt, add_events (exit_body c) s).
Proof.
  unfold add_events. destruct c as [n| | |i m|t]; cbn; intros ?; try discriminate; [done| |].
  - unfold IdleTask_Run. destruct (idle_unit_ i); cbn; rewrite app_nil_r; by destruct s.
  - rewrite app_nil_r; by destruct s.
Qed.

Lemma graceful_exit_runs_all_witness :
  ∃ s' w' ran, ThreadWorker_RunLoop exit_clock 8 sample_callbacks 0 exit_world = Ok (tt, s') ∧
    ran_tasks ran exit_world exit_worker s' w' ∧
    wd_events s' = [EvRunUser 1; EvRunUser 31; EvRunUser 11; EvRunUser 12; EvRunUser 13].
Proof.
  destruct (graceful_exit_runs_all exit_clock exit_clock_range ltac:(unfold exit_clock; lia)
    2 1000 1000000 ltac:(unfold exit_clock; lia) ltac:(unfold i64_max; lia)
    sample_callbacks exit_body exit_harmless 0 exit_world exit_worker
    exit_turn_ok) as (s' & w' & ran & now & E & Hran & _).
  - repeat constructor; intros t c; cbn; intros [= <-] [= <-]; reflexivity.
  - reflexivity.
  - assert (Eb : S (backlog exit_world exit_worker) = 8%nat) by (vm_compute; reflexivity).
    rewrite Eb in E. exists s', w', ran. split; [exact E|]. split; [exact Hran|].
    assert (Ee : (λ x, wd_events x.2) <$>
      ThreadWorker_RunLoop exit_clock 8 sample_callbacks 0 exit_world =
      Ok [EvRunUser 1; EvRunUser 31; EvRunUser 11; EvRunUser 12; EvRunUser 13])
      by (vm_compute; reflexivity).
    rewrite E in Ee.
    by injection Ee as ->.
Defined.
End Sample.
