(* ===== verification/WorkerManager.v ===== *)
(** * WorkerManager: placing task runners on workers

    Models [src/footstone/worker_manager.cc]: the pool of workers, the
    placement of new task runners, and [Balance], which moves groups between
    workers when the pool grows or shrinks.  The manager's own fields are a
    record passed through explicitly; everything else happens in the world.
    The workers are thread workers, as [CreateWorkers] makes them. *)

From S2P Require Import Prelude Time PriorityQueue Store TaskRunner Worker WorkerKeys WorkerLoop ThreadWorker.

(** [WorkerManager]; [runners_] is never used. *)
Record WorkerManager := MkWorkerManager {
  wm_workers_ : list worker_ptr;
  wm_index_ : Z;
  wm_size_ : Z
}.

Definition set_wm_index_ (v : Z) (m : WorkerManager) : WorkerManager :=
  MkWorkerManager (wm_workers_ m) v (wm_size_ m).
Definition set_wm_size_ (v : Z) (m : WorkerManager) : WorkerManager :=
  MkWorkerManager (wm_workers_ m) (wm_index_ m) v.
Definition set_wm_workers_ (v : list worker_ptr) (m : WorkerManager) : WorkerManager :=
  MkWorkerManager v (wm_index_ m) (wm_size_ m).

Definition kDefaultSize : Z := 3.

(** [std::make_shared]: a pointer not in use. *)
Definition alloc {A} (heap : gmap nat A) : nat := fresh (dom heap).

Lemma alloc_fresh {A} (heap : gmap nat A) : heap !! alloc heap = None.
Proof. apply not_elem_of_dom. apply is_fresh. Qed.

(** [index_ = size - 1 ? 0 : ++index_] parses as [(size - 1) ? 0 : ++index_]. *)
Definition next_index (size index : Z) : outcome Z :=
  if negb (size - 1 =? 0) then Ok 0 else i32 (index + 1).

Section Operations.
Context {Q : Type} `{PriorityQueue DelayedEntry Q} `{WorkerBackend}.

(** [true] in debug builds, where [TDF_BASE_DCHECK] is a check. *)
Variable debug : bool.

(** The worker on whose thread the call is made, if any. *)
Variable cur : option worker_ptr.

Definition TDF_BASE_DCHECK (b : bool) : M Q unit :=
  if debug then TDF_BASE_CHECK b else st_ret tt.

Definition new_worker : M Q worker_ptr :=
  do! s := st_get in
  let p := alloc (wd_workers s) in
  do! _ := put_worker p (Worker_init true EmptyString) in
  st_ret p.

Fixpoint create_workers (n : nat) (m : WorkerManager) : M Q WorkerManager :=
  match n with
  | O => st_ret m
  | S n => do! worker := new_worker in
           do! _ := ThreadWorker_Start worker in
           create_workers n (set_wm_workers_ (wm_workers_ m ++ [worker]) m)
  end.

Definition CreateWorkers (size : Z) (m : WorkerManager) : M Q WorkerManager :=
  create_workers (Z.to_nat size) m.

(** The constructor. *)
Definition WorkerManager_new (size : Z) : M Q WorkerManager :=
  CreateWorkers size (MkWorkerManager [] 0 size).

Definition GetDefaultManager (instance_ : option WorkerManager) : M Q WorkerManager :=
  match instance_ with
  | Some m => st_ret m
  | None => WorkerManager_new kDefaultSize
  end.

Definition WorkerManager_Terminate (m : WorkerManager) : M Q unit :=
  st_iter (Worker_Terminate cur) (wm_workers_ m).

Definition MoveTaskRunnerSpecificNoLock (runner_id : Z) (from to : worker_ptr) : M Q unit :=
  do! task := Task_new (Some (CMoveSpecific from to runner_id)) in
  modify_worker from (AddImmediateTask (Some task)).

Definition worker_at (m : WorkerManager) (i : Z) : M Q worker_ptr :=
  st_lift (vec_at (wm_workers_ m) i).

(** *** Growing *)

(** The first loop: what every existing worker gives up, the number of its
    groups before and after. *)
Fixpoint grow_collect (m : WorkerManager) (idxs : list nat) (groups_size : Z)
    (groups : list Group) (cur_worker_group : list Z) :
    M Q (Z * list Group * list Z) :=
  match idxs with
  | [] => st_ret (groups_size, groups, cur_worker_group)
  | i :: idxs =>
      do! wp := worker_at m (Z.of_nat i) in
      do! w := get_worker wp in
      do! groups_size := st_lift (i32 (groups_size + GetRunningGroupSize w)) in
      do! gs := lift_worker wp (λ h w, RetainActiveAndUnschedulable h w) in
      do! w := get_worker wp in
      grow_collect m idxs groups_size (groups ++ gs)
        (<[i := GetRunningGroupSize w]> cur_worker_group)
  end.

(** [cnt < groups.size()] compares an [int] with a [size_t]: a negative count
    is converted to a huge one. *)
Definition take_groups (cnt : Z) (groups : list Group) : list Group * list Group :=
  if wrap_u 64 cnt <? Z.of_nat (length groups)
  then (take (Z.to_nat cnt) groups, drop (Z.to_nat cnt) groups)
  else (groups, []).

Definition migrate (worker : worker_ptr) (runner : runner_ptr) : M Q unit :=
  do! r := get_runner runner in
  do! orig_worker := lock_worker (tr_worker_ r) in
  do! _ := TDF_BASE_CHECK (bool_decide (is_Some orig_worker)) in
  do! orig_worker := st_lift (of_option NullDeref orig_worker) in
  MoveTaskRunnerSpecificNoLock (GetId r) orig_worker worker.

(** The second loop: hand the collected groups to the workers, new ones
    first. *)
Fixpoint grow_distribute (m : WorkerManager) (size resize_group_size : Z)
    (cur_worker_group : list Z) (idxs : list Z) (groups : list Group) : M Q (list Group) :=
  match idxs with
  | [] => st_ret groups
  | i :: idxs =>
      let index := if size <=? i then Z.rem i size else i in
      do! worker := worker_at m index in
      do! c := st_lift (vec_at cur_worker_group index) in
      let '(list_, groups) := take_groups (resize_group_size - c) groups in
      do! _ := st_iter (st_iter (migrate worker)) list_ in
      do! _ := Worker_Bind_list worker list_ in
      grow_distribute m size resize_group_size cur_worker_group idxs groups
  end.

Definition Balance_grow (increase_worker_count : Z) (m : WorkerManager) : M Q WorkerManager :=
  do! size := st_lift (i32 (wm_size_ m + increase_worker_count)) in
  do! '(groups_size, groups, cur_worker_group) :=
    grow_collect m (seq 0 (Z.to_nat (wm_size_ m))) 0 [] (replicate (Z.to_nat size) 0) in
  (* std::ceil of an integer quotient *)
  let resize_group_size := Z.quot groups_size size in
  let m := set_wm_index_ (wm_size_ m) m in
  do! _ := grow_distribute m size resize_group_size cur_worker_group
             (seqZ (wm_index_ m) size) groups in
  st_ret (set_wm_size_ size m).

(** *** Shrinking *)

(** [for (i = size_ - 1; i > 0 || reduce_size > 0; --i)] *)
Fixpoint shrink_collect (fuel : nat) (m : WorkerManager) (i reduce_size : Z)
    (groups : list Group) : M Q (Z * list Group) :=
  if (0 <? i) || (0 <? reduce_size) then
    match fuel with
    | O => st_fault OutOfFuel
    | S fuel =>
        do! wp := worker_at m i in
        do! has := lift_worker wp (λ h w, let! b := HasUnschedulableRunner h w in Ok (b, w)) in
        if (has : bool) then shrink_collect fuel m (i - 1) reduce_size groups
        else
          do! gs := lift_worker wp (λ _ w, Ok (UnBind_all w)) in
          shrink_collect fuel m (i - 1) (reduce_size - 1) (groups ++ gs)
    end
  else st_ret (reduce_size, groups).

Fixpoint shrink_retain (m : WorkerManager) (idxs : list nat) (groups : list Group) :
    M Q (list Group) :=
  match idxs with
  | [] => st_ret groups
  | i :: idxs =>
      do! wp := worker_at m (Z.of_nat i) in
      do! gs := lift_worker wp (λ h w, RetainActiveAndUnschedulable h w) in
      shrink_retain m idxs (groups ++ gs)
  end.

(** Take a runner's storage over from its old worker and re-own it. *)
Definition adopt (new_worker : worker_ptr) (runner : runner_ptr) : M Q unit :=
  do! r := get_runner runner in
  let id := GetId r in
  do! orig_worker := lock_worker (tr_worker_ r) in
  do! _ := match orig_worker with
           | Some orig =>
               do! keys := lift_worker orig (λ _ w, Ok (GetMovedSpecificKeys id w)) in
               do! _ := modify_worker new_worker (UpdateSpecificKeys id keys) in
               do! specific := lift_worker orig (λ _ w, Ok (GetMovedSpecific id w)) in
               modify_worker new_worker (UpdateSpecific id specific)
           | None => st_ret tt
           end in
  put_runner runner (set_tr_worker_ (Some new_worker) r).

Fixpoint shrink_distribute (m : WorkerManager) (size : Z) (groups : list Group) :
    M Q WorkerManager :=
  match groups with
  | [] => st_ret m
  | group :: groups =>
      do! new_worker := worker_at m (wm_index_ m) in
      do! _ := Worker_Bind_group new_worker group in
      do! _ := st_iter (adopt new_worker) group in
      do! index := st_lift (next_index size (wm_index_ m)) in
      shrink_distribute (set_wm_index_ index m) size groups
  end.

(** [for (i = size_ - 1; i > size - 1; --i)], as many times as [n]. *)
Fixpoint shrink_terminate (n : nat) (i : Z) (m : WorkerManager) : M Q WorkerManager :=
  match n with
  | O => st_ret m
  | S n => do! wp := worker_at m i in
           do! _ := Worker_Terminate cur wp in
           shrink_terminate n (i - 1) (set_wm_workers_ (removelast (wm_workers_ m)) m)
  end.

Definition Balance_shrink (increase_worker_count : Z) (m : WorkerManager) : M Q WorkerManager :=
  do! size := st_lift (i32 (wm_size_ m + increase_worker_count)) in
  do! _ := TDF_BASE_CHECK (0 <? size) in
  do! reduce_size := st_lift (i32 (0 - increase_worker_count)) in
  do! '(reduce_size, groups) :=
    shrink_collect (S (Z.to_nat (wm_size_ m))) m (wm_size_ m - 1) reduce_size [] in
  do! _ := TDF_BASE_DCHECK (reduce_size =? 0) in
  if 0 <? reduce_size then st_ret m
  else
    do! groups := shrink_retain m (seq 0 (Z.to_nat size)) groups in
    let m := if size <=? wm_index_ m then set_wm_index_ 0 m else m in
    do! m := shrink_distribute m size groups in
    let m := set_wm_size_ size m in
    shrink_terminate (Z.to_nat (wm_size_ m - size)) (wm_size_ m - 1) m.

Definition WorkerManager_Balance (increase_worker_count : Z) (m : WorkerManager) :
    M Q WorkerManager :=
  if 0 <? increase_worker_count then Balance_grow increase_worker_count m
  else Balance_shrink increase_worker_count m.

Definition Resize (size : Z) (m : WorkerManager) : M Q WorkerManager :=
  if size =? wm_size_ m then st_ret m
  else
    do! m := if wm_size_ m <? size then
               do! d := st_lift (i32 (size - wm_size_ m)) in CreateWorkers d m
             else st_ret m in
    do! d := st_lift (i32 (size - wm_size_ m)) in
    WorkerManager_Balance d m.

Definition AddWorker (worker : worker_ptr) (m : WorkerManager) : M Q WorkerManager :=
  WorkerManager_Balance 1 (set_wm_workers_ (wm_workers_ m ++ [worker]) m).

(** *** Task runners *)

Definition set_owner (worker : worker_ptr) (runner : runner_ptr) : M Q unit :=
  do! r := get_runner runner in
  put_runner runner (set_tr_worker_ (Some worker) r).

Definition update_worker_specific (worker : worker_ptr) (it : runner_ptr) : M Q unit :=
  do! _ := set_owner worker it in
  do! r := get_runner it in
  do! _ := modify_worker worker (UpdateSpecificKeys (GetId r) keys_default) in
  modify_worker worker (UpdateSpecific (GetId r) specific_default).

Definition UpdateWorkerSpecific (worker : worker_ptr) (group : Group) : M Q unit :=
  st_iter (update_worker_specific worker) group.

Definition AddTaskRunner (runner : runner_ptr) (m : WorkerManager) : M Q WorkerManager :=
  let group := [runner] in
  do! worker := worker_at m (wm_index_ m) in
  do! _ := st_iter (set_owner worker) group in
  do! _ := Worker_Bind_group worker group in
  do! _ := UpdateWorkerSpecific worker group in
  do! index := st_lift (next_index (wm_size_ m) (wm_index_ m)) in
  st_ret (set_wm_index_ index m).

(** The search for a worker that already serves the group. *)
Fixpoint find_worker (group_id : Z) (ws : list worker_ptr) : M Q (option worker_ptr) :=
  match ws with
  | [] => st_ret None
  | worker :: ws =>
      do! w := get_worker worker in
      do! id := st_lift (Worker_GetGroupId w) in
      if id =? group_id then st_ret (Some worker) else find_worker group_id ws
  end.

Definition bind_runner (worker : worker_ptr) (task_runner : runner_ptr) : M Q unit :=
  do! _ := set_owner worker task_runner in
  Worker_Bind_group worker [task_runner].

Definition CreateTaskRunner (group_id priority : Z) (is_schedulable : bool) (name : string)
    (m : WorkerManager) : M Q (runner_ptr * WorkerManager) :=
  do! r := TaskRunner_new group_id priority is_schedulable name in
  do! s := st_get in
  let task_runner := alloc (wd_runners s) in
  do! _ := put_runner task_runner r in
  if negb is_schedulable then st_ret (task_runner, m)
  else if negb (group_id =? kDefaultGroupId) then
    do! found := find_worker group_id (wm_workers_ m) in
    match found with
    | Some worker => do! _ := bind_runner worker task_runner in st_ret (task_runner, m)
    | None =>
        do! worker := worker_at m (wm_index_ m) in
        do! index := st_lift (next_index (wm_size_ m) (wm_index_ m)) in
        do! _ := bind_runner worker task_runner in
        st_ret (task_runner, set_wm_index_ index m)
    end
  else do! m := AddTaskRunner task_runner m in st_ret (task_runner, m).

Definition RemoveTaskRunner (runner : runner_ptr) (m : WorkerManager) : M Q unit :=
  st_iter (λ worker, lift_worker_ worker (λ h w, UnBind_runner h runner w)) (wm_workers_ m).
End Operations.

(** ** Placement *)

Section Placement.
Context {Q : Type} `{PriorityQueue DelayedEntry Q} `{WorkerBackend}.
Implicit Types (s : World Q) (w : Worker) (m : WorkerManager).

(** The runner as the constructor leaves it, owned by [worker]. *)
Definition fresh_runner (group_id priority : Z) (sched : bool) (name : string)
    (worker : option worker_ptr) s : TaskRunner Q :=
  set_tr_worker_ worker
    (TaskRunner_init group_id priority sched name (wd_global_task_runner_id s)).

(** The worker once the new runner [q], of id [id], is bound to it as a group
    of its own. *)
Definition bound (q : runner_ptr) (group_id : Z) w : Worker :=
  let w1 := if group_id =? kDefaultGroupId then w else set_w_group_id_ (Some group_id) w in
  set_w_need_balance_ true (set_w_pending_groups_ (w_pending_groups_ w ++ [[q]]) w1).

Definition blank_storage (id : Z) w : Worker :=
  UpdateSpecific id specific_default (UpdateSpecificKeys id keys_default w).

(** The world after the id counter moved on and the runner was allocated. *)
Definition with_new_runner (r : TaskRunner Q) s : World Q :=
  set_wd_runners (<[alloc (wd_runners s) := r]> (wd_runners s))
    (set_wd_global_task_runner_id (wrap_u 32 (wd_global_task_runner_id s + 1)) s).

Lemma bind_get_worker_eq {A} p w (k : Worker → M Q A) s s' :
  s' = s → wd_workers s' !! p = Some w → st_bind (get_worker p) k s = k w s.
Proof. intros ->. apply bind_get_worker. Qed.

Lemma bind_runner_run wp q r s w :
  wd_runners s !! q = Some r → wd_workers s !! wp = Some w →
  bind_runner wp q s =
    Ok (tt, set_wd_events (wd_events s ++ backend_Notify wp (bound q (GetGroupId r) w))
      (set_wd_workers (<[wp := bound q (GetGroupId r) w]> (wd_workers s))
        (set_wd_runners (<[q := set_tr_worker_ (Some wp) r]> (wd_runners s)) s))).
Proof.
  intros Hr Hw. unfold bind_runner, set_owner. mrun.
  unfold Worker_Bind_group, lift_worker_, lift_worker. mrun.
  assert (E : Bind_group (<[q := set_tr_worker_ (Some wp) r]> (wd_runners s)) [q] w =
    Ok (bound q (GetGroupId r) w)).
  { unfold Bind_group, deref. rewrite vec_at_0. cbn. rewrite lookup_insert_eq. cbn.
    unfold bound, GetGroupId. cbn. by destruct (_ =? _). }
  cbn [wd_runners set_wd_runners]. erewrite bind_lift by (by rewrite E). mrun.
  unfold Notify. by erewrite bind_get_worker by apply lookup_insert_eq.
Qed.

Lemma AddTaskRunner_run q r m s wp w idx :
  wd_runners s !! q = Some r → vec_at (wm_workers_ m) (wm_index_ m) = Ok wp →
  wd_workers s !! wp = Some w → next_index (wm_size_ m) (wm_index_ m) = Ok idx →
  AddTaskRunner q m s =
    Ok (set_wm_index_ idx m,
        set_wd_events (wd_events s ++ backend_Notify wp (bound q (GetGroupId r) w))
          (set_wd_workers (<[wp := blank_storage (GetId r) (bound q (GetGroupId r) w)]>
                             (wd_workers s))
            (set_wd_runners (<[q := set_tr_worker_ (Some wp) r]> (wd_runners s)) s))).
Proof.
  intros Hr Hv Hw Hi. unfold AddTaskRunner, worker_at. mrun.
  assert (E : st_bind (st_iter (set_owner wp) [q]) (λ _, Worker_Bind_group wp [q]) s =
              bind_runner wp q s).
  { unfold bind_runner. cbn [st_iter]. unfold st_bind, st_ret.
    by destruct (set_owner wp q s) as [[[] ?]|]. }
  rewrite <- bind_assoc.
  erewrite st_bind_step by (rewrite E; eapply bind_runner_run; eassumption).
  unfold UpdateWorkerSpecific. cbn [st_iter]. unfold update_worker_specific, set_owner. mrun.
  erewrite bind_get_runner by apply lookup_insert_eq. mrun.
  erewrite bind_get_runner by apply lookup_insert_eq. unfold modify_worker. mrun.
  erewrite bind_get_worker by apply lookup_insert_eq. mrun.
  erewrite bind_get_worker by apply lookup_insert_eq. mrun.
  unfold st_ret. cbn. by rewrite !insert_insert_eq.
Qed.

(** A schedulable runner of the default group. *)
Lemma CreateTaskRunner_run priority name m s wp w idx :
  vec_at (wm_workers_ m) (wm_index_ m) = Ok wp → wd_workers s !! wp = Some w →
  next_index (wm_size_ m) (wm_index_ m) = Ok idx →
  let q := alloc (wd_runners s) in
  let r := fresh_runner kDefaultGroupId priority true name (Some wp) s in
  CreateTaskRunner kDefaultGroupId priority true name m s =
    Ok ((q, set_wm_index_ idx m),
        set_wd_events (wd_events s ++ backend_Notify wp (bound q kDefaultGroupId w))
          (set_wd_workers
            (<[wp := blank_storage (GetId r) (bound q kDefaultGroupId w)]> (wd_workers s))
            (with_new_runner r s))).
Proof.
  intros Hv Hw Hi q r. unfold CreateTaskRunner, TaskRunner_new, st_bind at 1. mrun.
  rewrite Z.eqb_refl. cbn [wd_runners set_wd_global_task_runner_id negb]. mrun.
  erewrite st_bind_step;
    [|eapply (AddTaskRunner_run _ _ _ _ wp w idx); [apply lookup_insert_eq|done..]].
  unfold st_ret. cbn. unfold with_new_runner. rewrite insert_insert_eq. reflexivity.
Qed.

(** Create [n] schedulable runners of the default group, one after the
    other. *)
Fixpoint create_many (n : nat) (priority : Z) (name : string) m :
    M Q (list runner_ptr * WorkerManager) :=
  match n with
  | O => st_ret ([], m)
  | S n => do! '(q, m) := CreateTaskRunner kDefaultGroupId priority true name m in
           do! '(qs, m) := create_many n priority name m in st_ret (q :: qs, m)
  end.

(** What [create_many] leaves: the runners are new, owned by [wp] and queued on
    it; nothing else changed. *)
Record placed_on (wp : worker_ptr) (n : nat) (qs : list runner_ptr) s s' : Prop := {
  po_length : length qs = n;
  po_distinct : NoDup qs;
  po_owned : Forall (λ q, wd_runners s !! q = None ∧
                          (tr_worker_ <$> wd_runners s' !! q) = Some (Some wp)) qs;
  po_old : ∀ q, is_Some (wd_runners s !! q) → wd_runners s' !! q = wd_runners s !! q;
  po_queued : (w_pending_groups_ <$> wd_workers s' !! wp) =
    ((λ w, w_pending_groups_ w ++ map (λ q, [q]) qs) <$> wd_workers s !! wp);
  po_others : ∀ p, p ≠ wp → wd_workers s' !! p = wd_workers s !! p
}.

Lemma create_many_run n priority name m s wp :
  next_index (wm_size_ m) (wm_index_ m) = Ok (wm_index_ m) →
  vec_at (wm_workers_ m) (wm_index_ m) = Ok wp → is_Some (wd_workers s !! wp) →
  ∃ qs s', create_many n priority name m s = Ok ((qs, m), s') ∧ placed_on wp n qs s s'.
Proof.
  intros Hnext Hv. assert (Hm : set_wm_index_ (wm_index_ m) m = m) by by destruct m.
  revert s. induction n as [|n IH]; intros s [w Hw]; cbn [create_many].
  { exists [], s. split; [done|]. split; [done|constructor|constructor|done| |done].
    rewrite Hw. cbn. by rewrite app_nil_r. }
  erewrite st_bind_step by (by apply (CreateTaskRunner_run priority name m s wp w)).
  rewrite Hm. cbv beta match. set (q := alloc (wd_runners s)).
  set (r := fresh_runner _ _ _ _ _ _).
  match goal with |- context [create_many n priority name m] =>
    match goal with |- context [st_bind _ _ ?t] => set (s1 := t) end end.
  destruct (IH s1) as (qs & s' & E & [Hlen Hnd Hqs Hr Hp Ho]).
  { cbn. rewrite lookup_insert_eq. eauto. }
  erewrite st_bind_step by exact E. cbv beta match.
  assert (Hq1 : wd_runners s1 !! q = Some r) by apply lookup_insert_eq.
  rewrite Forall_forall in Hqs.
  assert (Hqs1 : ∀ q', q' ∈ qs → q' ≠ q).
  { intros q' Hin ->. destruct (Hqs _ Hin) as [Hnone _]. congruence. }
  exists (q :: qs), s'. split; [done|]. split.
  - cbn. lia.
  - constructor; [|done]. intros Hin. by apply (Hqs1 q).
  - constructor; [split; [apply alloc_fresh|]; rewrite Hr, Hq1; eauto|].
    apply Forall_forall. intros q' Hin. destruct (Hqs _ Hin) as [Hnone Hown]. split; [|done].
    cbn in Hnone. rewrite lookup_insert_ne in Hnone; [done|]. intros Heq. by apply (Hqs1 q').
  - intros q' Hs. assert (q' ≠ q).
    { intros ->. unfold q in Hs. rewrite alloc_fresh in Hs. by destruct Hs. }
    rewrite Hr; cbn; rewrite lookup_insert_ne by done; done.
  - rewrite Hp. cbn. rewrite lookup_insert_eq, Hw. cbn. by rewrite <- app_assoc.
  - intros p Hne. rewrite Ho by done. cbn. by apply lookup_insert_ne.
Qed.

(** Placement never rotates: [index_ = size_ - 1 ? 0 : ++index_] keeps the
    index at 0 in any pool of two or more workers, so however many runners of
    the default group are created, every one of them is owned by and queued on
    the first worker, and no other worker is touched. *)
Theorem placement_never_rotates n priority name m s wp rest
    (Hsize : 2 ≤ wm_size_ m) (Hidx : wm_index_ m = 0)
    (Hws : wm_workers_ m = wp :: rest) (Hw : is_Some (wd_workers s !! wp)) :
  ∃ qs s', create_many n priority name m s = Ok ((qs, m), s') ∧
    length qs = n ∧ NoDup qs ∧
    Forall (λ q, wd_runners s !! q = None ∧
                 (tr_worker_ <$> wd_runners s' !! q) = Some (Some wp)) qs ∧
    (w_pending_groups_ <$> wd_workers s' !! wp) =
      ((λ w, w_pending_groups_ w ++ map (λ q, [q]) qs) <$> wd_workers s !! wp) ∧
    ∀ p, p ≠ wp → wd_workers s' !! p = wd_workers s !! p.
Proof.
  destruct (create_many_run n priority name m s wp) as (qs & s' & E & [? ? ? _ ? ?]);
    [|by rewrite Hws, Hidx|done|by exists qs, s'].
  rewrite Hidx. unfold next_index. destruct (Z.eqb_spec (wm_size_ m - 1) 0); [lia|done].
Qed.

(** In a pool of one worker the index is incremented past the end: the
    first runner of the default group is placed, the second is undefined
    behaviour ([workers_[1]]). *)
Theorem single_worker_overruns priority name m s wp w
    (Hsize : wm_size_ m = 1) (Hidx : wm_index_ m = 0)
    (Hws : wm_workers_ m = [wp]) (Hw : wd_workers s !! wp = Some w) :
  ∃ q m' s', CreateTaskRunner kDefaultGroupId priority true name m s = Ok ((q, m'), s') ∧
    CreateTaskRunner kDefaultGroupId priority true name m' s' = Fault OutOfRange.
Proof.
  assert (Hnext : next_index (wm_size_ m) (wm_index_ m) = Ok 1).
  { unfold next_index. by rewrite Hsize, Hidx. }
  assert (Hv : vec_at (wm_workers_ m) (wm_index_ m) = Ok wp) by by rewrite Hws, Hidx.
  do 3 eexists. split; [by apply (CreateTaskRunner_run priority name m s wp w 1)|].
  unfold CreateTaskRunner, TaskRunner_new, st_bind at 1. mrun. rewrite Z.eqb_refl. cbn [negb].
  mrun. unfold AddTaskRunner, worker_at. rewrite bind_assoc.
  rewrite (bind_lift_fault _ OutOfRange); [done|]. cbn [wm_workers_ wm_index_ set_wm_index_].
  by rewrite Hws.
Qed.

Lemma CreateTaskRunner_unschedulable group_id priority name m s :
  CreateTaskRunner group_id priority false name m s =
    Ok ((alloc (wd_runners s), m),
        with_new_runner (fresh_runner group_id priority false name None s) s).
Proof. reflexivity. Qed.

(** A runner created unschedulable has no worker, and every [PostTask] on
    it aborts on the check of [NotifyWorker] — after the task has been put in
    its queue. *)
Theorem unschedulable_runner_cannot_post group_id priority name m s :
  ∃ q s', CreateTaskRunner group_id priority false name m s = Ok ((q, m), s') ∧
    wd_workers s' = wd_workers s ∧ wd_runners s !! q = None ∧
    (tr_worker_ <$> wd_runners s' !! q) = Some None ∧
    ∀ task, PostTask q task s' = Fault CheckFailed.
Proof.
  eexists _, _. split; [apply CreateTaskRunner_unschedulable|].
  unfold with_new_runner. cbn [wd_runners wd_workers set_wd_runners].
  split; [done|]. split; [apply alloc_fresh|]. split; [by rewrite lookup_insert_eq|].
  intros task. unfold PostTask. erewrite bind_get_runner by apply lookup_insert_eq. mrun.
  unfold NotifyWorker. by erewrite bind_get_runner by apply lookup_insert_eq.
Qed.

(** *** Groups *)

Lemma create_workers_run n m s :
  ∃ ps s', create_workers n m s = Ok (set_wm_workers_ (wm_workers_ m ++ ps) m, s') ∧
    length ps = n ∧ wd_runners s' = wd_runners s ∧
    (∀ p, p ∈ ps → wd_workers s' !! p = Some (Worker_init true EmptyString)) ∧
    (∀ p, is_Some (wd_workers s !! p) → p ∉ ps ∧ wd_workers s' !! p = wd_workers s !! p) ∧
    wd_events s' = wd_events s ++ map EvThreadStart ps ∧ wd_tls s' = wd_tls s.
Proof.
  revert m s. induction n as [|n IH]; intros m s; cbn [create_workers].
  { exists [], s. rewrite app_nil_r. split; [by destruct m|]. split; [done|]. split; [done|].
    split; [by intros p ?%not_elem_of_nil|]. cbn. rewrite app_nil_r.
    split; [|split; done]. intros p _. split; [apply not_elem_of_nil|done]. }
  unfold new_worker. mrun. unfold ThreadWorker_Start, log. mrun.
  set (q := alloc (wd_workers s)).
  match goal with |- context [create_workers n ?m' ?t] => destruct (IH m' t)
    as (ps & s' & E & Hlen & Hr & Hps & Hold & Hev & Htl) end.
  rewrite E. cbn in Hr, Hold, Hev |- *.
  assert (Hq : q ∉ ps ∧ wd_workers s' !! q = Some (Worker_init true EmptyString)).
  { destruct (Hold q) as [Hn Hl]; rewrite lookup_insert_eq in *; eauto. }
  exists (q :: ps), s'. rewrite <- app_assoc. split; [done|]. split; [cbn; lia|].
  split; [done|]. split; [|split; [|split; [by rewrite Hev, <- app_assoc|exact Htl]]].
  - intros p [->|Hp]%elem_of_cons; [tauto|auto].
  - intros p Hp. assert (p ≠ q).
    { intros ->. unfold q in Hp. rewrite alloc_fresh in Hp. by destruct Hp. }
    destruct (Hold p) as [Hn Hl]; rewrite lookup_insert_ne in * by done; [done|].
    split; [|done]. rewrite not_elem_of_cons. done.
Qed.

(** In a newly built pool a runner with a group id cannot be created:
    [CreateTaskRunner] compares the id with each worker's [group_id_], which
    no constructor initialises. *)
Theorem fresh_pool_group_uninitialised n group_id priority name s
    (Hn : 0 < n) (Hg : group_id ≠ kDefaultGroupId) :
  (do! m := WorkerManager_new n in CreateTaskRunner group_id priority true name m) s =
    Fault Uninitialised.
Proof.
  unfold WorkerManager_new, CreateWorkers.
  destruct (create_workers_run (Z.to_nat n) (MkWorkerManager [] 0 n) s)
    as (ps & s' & E & Hlen & _ & Hps & _).
  erewrite st_bind_step by exact E. cbn [app wm_workers_].
  unfold CreateTaskRunner, TaskRunner_new, st_bind at 1. mrun.
  destruct (Z.eqb_spec group_id kDefaultGroupId); [done|]. cbn [negb]. mrun.
  destruct ps as [|p ps]; [cbn in Hlen; lia|]. cbn [wm_workers_ set_wm_workers_ find_worker].
  rewrite bind_assoc. erewrite bind_get_worker by (cbn; apply Hps; left).
  rewrite bind_assoc. by rewrite (bind_lift_fault _ Uninitialised).
Qed.

(** All workers of the pool are alive and have been given a group id. *)
Definition groups_assigned (ws : list worker_ptr) s : Prop :=
  Forall (λ p, ∃ w id, wd_workers s !! p = Some w ∧ w_group_id_ w = Some id) ws.

(** The first worker that serves a group. *)
Fixpoint first_serving (group_id : Z) (ws : list worker_ptr) s : option worker_ptr :=
  match ws with
  | [] => None
  | p :: ws => if bool_decide (wd_workers s !! p ≫= w_group_id_ = Some group_id) then Some p
               else first_serving group_id ws s
  end.

Lemma find_worker_run group_id ws s :
  groups_assigned ws s → find_worker group_id ws s = Ok (first_serving group_id ws s, s).
Proof.
  induction 1 as [|p ws (w & id & Hw & Hid) Hws IH]; cbn [find_worker first_serving]; [done|].
  mrun. unfold Worker_GetGroupId. rewrite Hid. erewrite bind_lift by reflexivity.
  rewrite Hw. cbn. rewrite Hid. destruct (Z.eqb_spec id group_id) as [->|Hne].
  - by rewrite bool_decide_true.
  - rewrite bool_decide_false by congruence. exact IH.
Qed.

(** Binding a runner of a group gives its worker the group's id. *)
Lemma CreateTaskRunner_group_run group_id priority name m s wp w m' :
  group_id ≠ kDefaultGroupId → groups_assigned (wm_workers_ m) s →
  wd_workers s !! wp = Some w →
  (first_serving group_id (wm_workers_ m) s = Some wp ∧ m' = m ∨
   first_serving group_id (wm_workers_ m) s = None ∧
   vec_at (wm_workers_ m) (wm_index_ m) = Ok wp ∧
   ∃ idx, next_index (wm_size_ m) (wm_index_ m) = Ok idx ∧ m' = set_wm_index_ idx m) →
  let q := alloc (wd_runners s) in
  CreateTaskRunner group_id priority true name m s =
    Ok ((q, m'),
        set_wd_events (wd_events s ++ backend_Notify wp (bound q group_id w))
          (set_wd_workers (<[wp := bound q group_id w]> (wd_workers s))
            (with_new_runner (fresh_runner group_id priority true name (Some wp) s) s))).
Proof.
  intros Hg Ha Hw Hcase q. unfold CreateTaskRunner, TaskRunner_new, st_bind at 1. mrun.
  destruct (Z.eqb_spec group_id kDefaultGroupId); [done|]. cbn [negb]. mrun.
  erewrite st_bind_step by (apply find_worker_run; exact Ha).
  assert (Hsame : ∀ ws s', wd_workers s' = wd_workers s →
    first_serving group_id ws s' = first_serving group_id ws s).
  { intros ws s' E. induction ws as [|p ws IH]; cbn; [done|]. by rewrite E, IH. }
  match goal with |- context [first_serving group_id (wm_workers_ m) ?t] =>
    rewrite (Hsame (wm_workers_ m) t eq_refl) end.
  destruct Hcase as [[-> ->]|(-> & Hv & idx & Hi & ->)].
  - erewrite st_bind_step; [|eapply bind_runner_run; [apply lookup_insert_eq|exact Hw]].
    unfold st_ret. cbn. unfold with_new_runner. rewrite insert_insert_eq. reflexivity.
  - unfold worker_at. mrun.
    erewrite st_bind_step; [|eapply bind_runner_run; [apply lookup_insert_eq|exact Hw]].
    unfold st_ret. cbn. unfold with_new_runner. rewrite insert_insert_eq. reflexivity.
Qed.

(** The worker [CreateTaskRunner] picks for a runner of a group. *)
Lemma group_worker_picked group_id m s :
  2 ≤ wm_size_ m → 0 ≤ wm_index_ m < Z.of_nat (length (wm_workers_ m)) →
  ∃ wp m', wp ∈ wm_workers_ m ∧ wm_workers_ m' = wm_workers_ m ∧
    (first_serving group_id (wm_workers_ m) s = Some wp ∧ m' = m ∨
     first_serving group_id (wm_workers_ m) s = None ∧
     vec_at (wm_workers_ m) (wm_index_ m) = Ok wp ∧
     ∃ idx, next_index (wm_size_ m) (wm_index_ m) = Ok idx ∧ m' = set_wm_index_ idx m).
Proof.
  intros Hsize Hidx. assert (Hnext : next_index (wm_size_ m) (wm_index_ m) = Ok 0).
  { unfold next_index. destruct (Z.eqb_spec (wm_size_ m - 1) 0); [lia|done]. }
  destruct (first_serving group_id (wm_workers_ m) s) as [wp|] eqn:E.
  - exists wp, m. split; [|auto]. clear -E. induction (wm_workers_ m) as [|p ws IH]; [done|].
    cbn in E. case_bool_decide; [injection E as ->; left|right; auto].
  - destruct (lookup_lt_is_Some_2 (wm_workers_ m) (Z.to_nat (wm_index_ m))) as [wp Hwp]; [lia|].
    exists wp, (set_wm_index_ 0 m). split; [by eapply list_elem_of_lookup_2|]. split; [done|].
    right. split; [done|]. split; [|by exists 0]. apply vec_at_Ok. split; [lia|done].
Qed.

(** Once it has a runner of the group, it is the one found. *)
Lemma first_serving_after group_id wp ws s s1 :
  wp ∈ ws → (wd_workers s1 !! wp ≫= w_group_id_) = Some group_id →
  (∀ p, p ≠ wp → wd_workers s1 !! p = wd_workers s !! p) →
  first_serving group_id ws s = Some wp ∨ first_serving group_id ws s = None →
  first_serving group_id ws s1 = Some wp.
Proof.
  intros Hin Hg Hother Hf. induction ws as [|p ws IH]; [by apply not_elem_of_nil in Hin|].
  cbn in *. destruct (decide (p = wp)) as [->|Hne].
  - by rewrite bool_decide_true.
  - rewrite Hother by done. case_bool_decide; [naive_solver|].
    apply IH; [|done]. by apply elem_of_cons in Hin as [?|?].
Qed.

Lemma groups_assigned_update wp w ws s s1 :
  groups_assigned ws s → wd_workers s1 !! wp = Some w → is_Some (w_group_id_ w) →
  (∀ p, p ≠ wp → wd_workers s1 !! p = wd_workers s !! p) → groups_assigned ws s1.
Proof.
  intros Ha Hw [id Hid] Hother. eapply Forall_impl; [exact Ha|]. intros p (w' & id' & Hw' & Hid').
  destruct (decide (p = wp)) as [->|Hne]; [by exists w, id|].
  exists w', id'. by rewrite Hother.
Qed.

(** C32. Runners of one group share a worker: in a pool whose workers have
    group ids, two runners created one after the other with the same non-zero
    group id are owned by the same worker, which then serves that group. *)
Theorem same_group_same_worker group_id priority1 priority2 name1 name2 m s
    (Hg : group_id ≠ kDefaultGroupId) (Ha : groups_assigned (wm_workers_ m) s)
    (Hnd : NoDup (wm_workers_ m))
    (Hidx : 0 ≤ wm_index_ m < Z.of_nat (length (wm_workers_ m)))
    (Hsize : 2 ≤ wm_size_ m) :
  ∃ q1 q2 wp m1 m2 s1 s2,
    CreateTaskRunner group_id priority1 true name1 m s = Ok ((q1, m1), s1) ∧
    CreateTaskRunner group_id priority2 true name2 m1 s1 = Ok ((q2, m2), s2) ∧
    q1 ≠ q2 ∧ wp ∈ wm_workers_ m ∧
    (tr_worker_ <$> wd_runners s2 !! q1) = Some (Some wp) ∧
    (tr_worker_ <$> wd_runners s2 !! q2) = Some (Some wp) ∧
    (wd_workers s2 !! wp ≫= w_group_id_) = Some group_id.
Proof.
  destruct (group_worker_picked group_id m s Hsize Hidx) as (wp & m1 & Hin & Hws & Hcase).
  pose proof (proj1 (Forall_forall _ _) Ha wp Hin) as (w & id & Hw & Hid).
  pose proof (CreateTaskRunner_group_run group_id priority1 name1 m s wp w m1 Hg Ha Hw Hcase) as E1.
  cbn zeta in E1. set (q1 := alloc (wd_runners s)) in *.
  match type of E1 with _ = Ok (_, ?t) => set (s1 := t) in * end.
  assert (Hbg : w_group_id_ (bound q1 group_id w) = Some group_id).
  { unfold bound. destruct (Z.eqb_spec group_id kDefaultGroupId); done. }
  assert (Hw1 : wd_workers s1 !! wp = Some (bound q1 group_id w)) by apply lookup_insert_eq.
  assert (Hother : ∀ p, p ≠ wp → wd_workers s1 !! p = wd_workers s !! p).
  { intros p Hp. cbn. by rewrite lookup_insert_ne. }
  assert (Hfirst : first_serving group_id (wm_workers_ m1) s1 = Some wp).
  { rewrite Hws. apply (first_serving_after group_id wp _ s); [done|by rewrite Hw1|done|tauto]. }
  assert (Ha1 : groups_assigned (wm_workers_ m1) s1).
  { rewrite Hws. by eapply groups_assigned_update; [exact Ha|exact Hw1|rewrite Hbg|]. }
  pose proof (CreateTaskRunner_group_run group_id priority2 name2 m1 s1 wp _ m1 Hg Ha1 Hw1
    (or_introl (conj Hfirst eq_refl))) as E2.
  cbn zeta in E2. set (q2 := alloc (wd_runners s1)) in *.
  assert (Hq1 : wd_runners s1 !! q1 = Some (fresh_runner group_id priority1 true name1 (Some wp) s))
    by apply lookup_insert_eq.
  assert (Hq : q1 ≠ q2).
  { intros Heq. rewrite Heq in Hq1. unfold q2 in Hq1. by rewrite alloc_fresh in Hq1. }
  exists q1, q2, wp, m1, m1. do 2 eexists. split; [exact E1|]. split; [exact E2|].
  split; [done|]. split; [done|]. split; [|split]; cbn.
  - by rewrite lookup_insert_ne, lookup_insert_eq.
  - by rewrite lookup_insert_eq.
  - rewrite lookup_insert_eq. cbn. destruct (Z.eqb_spec group_id kDefaultGroupId); done.
Qed.
End Placement.

(** ** Growing *)

Section Growing.
Context {Q : Type} `{PriorityQueue DelayedEntry Q} `{WorkerBackend}.
Implicit Types (s : World Q) (w : Worker) (m : WorkerManager).

Lemma keeps_runners_put_worker p w : keeps (@wd_runners Q) (put_worker p w).
Proof. by apply keeps_modify. Qed.

Lemma keeps_runners_log e : keeps (@wd_runners Q) (log e).
Proof. by apply keeps_modify. Qed.

Lemma keeps_runners_Task_new c : keeps (@wd_runners Q) (Task_new c).
Proof. intros s a s' E. unfold Task_new in E. by simplify_eq. Qed.

#[local] Hint Resolve keeps_runners_put_worker keeps_runners_log keeps_runners_Task_new : footstone.

Lemma keeps_runners_lift_worker {A} p (g : gmap runner_ptr (TaskRunner Q) → Worker → outcome (A * Worker)) :
  keeps (@wd_runners Q) (lift_worker p g).
Proof. unfold lift_worker. keeps_auto. Qed.

Lemma keeps_runners_Bind_list p gs : keeps (@wd_runners Q) (Worker_Bind_list p gs).
Proof.
  unfold Worker_Bind_list, lift_worker_, Notify. keeps_auto; try apply keeps_runners_lift_worker.
Qed.

Lemma keeps_runners_migrate wp q : keeps (@wd_runners Q) (migrate wp q).
Proof. unfold migrate, MoveTaskRunnerSpecificNoLock, modify_worker. keeps_auto. Qed.

#[local] Hint Resolve keeps_runners_lift_worker keeps_runners_Bind_list keeps_runners_migrate
  : footstone.

Lemma keeps_runners_grow_collect m idxs n gs c : keeps (@wd_runners Q) (grow_collect m idxs n gs c).
Proof.
  revert n gs c. induction idxs as [|i idxs IH]; intros; cbn [grow_collect];
    unfold worker_at; keeps_auto; apply IH.
Qed.

Lemma keeps_runners_grow_distribute m size n c idxs gs :
  keeps (@wd_runners Q) (grow_distribute m size n c idxs gs).
Proof.
  revert gs. induction idxs as [|i idxs IH]; intros; cbn [grow_distribute];
    unfold worker_at; keeps_auto; apply IH.
Qed.

(** Growing the pool does not re-own the runners it moves: [Balance] binds
    groups to other workers and posts the migration of their storage, but
    leaves every runner object exactly as it was, its [worker_] included — so
    [PostTask] on a moved runner goes on notifying the old worker, and later
    placements start at the first new worker. *)
Theorem grow_keeps_owner k m s m' s'
    (E : Balance_grow k m s = Ok (m', s')) :
  wd_runners s' = wd_runners s ∧ wm_workers_ m' = wm_workers_ m ∧ wm_index_ m' = wm_size_ m.
Proof.
  assert (K : keeps wd_runners (Balance_grow (Q := Q) k m)).
  { unfold Balance_grow. keeps_auto;
      first [apply keeps_runners_grow_collect | apply keeps_runners_grow_distribute]. }
  split; [by eapply K|]. unfold Balance_grow in E. mstep E. mstep E.
  destruct a0 as [[? ?] ?]. mstep E. by injection E as <- _.
Qed.

(** A worker that has not merged anything yet. *)
Definition not_running s (p : worker_ptr) : Prop :=
  ∃ w, wd_workers s !! p = Some w ∧ w_running_groups_ w = [].

(** A worker without any group. *)
Definition groupless s (p : worker_ptr) : Prop :=
  ∃ w, wd_workers s !! p = Some w ∧ w_running_groups_ w = [] ∧ w_pending_groups_ w = [].

(** Groups are not created: a step that writes one worker and makes it
    groupless keeps the groupless ones so. *)
Lemma groupless_put s p p' w :
  w_running_groups_ w = [] → w_pending_groups_ w = [] → groupless s p' ∨ p' = p →
  ∀ r e, groupless (set_wd_events e (set_wd_runners r
           (set_wd_workers (<[p := w]> (wd_workers s)) s))) p'.
Proof.
  intros Hr Hp Hcase r e. unfold groupless. cbn. destruct (decide (p' = p)) as [->|Hne].
  - rewrite lookup_insert_eq. eauto.
  - rewrite lookup_insert_ne by done. destruct Hcase; [done|congruence].
Qed.

Lemma grow_collect_idle m idxs gs c s :
  Forall (λ i, ∃ p, wm_workers_ m !! i = Some p) idxs →
  (∀ i p, i ∈ idxs → wm_workers_ m !! i = Some p → not_running s p) →
  Forall (λ x, x = 0) c →
  ∃ gs' c' s', grow_collect m idxs 0 gs c s = Ok ((0, gs', c'), s') ∧
    Forall (λ x, x = 0) c' ∧ length c' = length c ∧ wd_runners s' = wd_runners s ∧
    (∀ p, not_running s p → not_running s' p) ∧
    (∀ p, groupless s p → groupless s' p) ∧
    (∀ i p, i ∈ idxs → wm_workers_ m !! i = Some p → groupless s' p).
Proof.
  revert gs c s. induction idxs as [|i idxs IH]; intros gs c s Hl Hi Hc; cbn [grow_collect].
  { exists gs, c, s. repeat split; auto. by intros i p ?%not_elem_of_nil. }
  apply Forall_cons in Hl as [[p Hp] Hl].
  destruct (Hi i p ltac:(left) Hp) as (w & Hw & Hrun).
  unfold worker_at. assert (vec_at (wm_workers_ m) (Z.of_nat i) = Ok p).
  { apply vec_at_Ok. rewrite Nat2Z.id. split; [lia|done]. }
  mrun. assert (Hsz : GetRunningGroupSize w = 0) by (unfold GetRunningGroupSize; by rewrite Hrun).
  rewrite Hsz. erewrite bind_lift by reflexivity. unfold lift_worker. mrun.
  pose proof (retain_idle (wd_runners s) w Hrun) as Er.
  mrun. cbn [ReleasePending]. mrun. set (w1 := set_w_pending_groups_ [] w).
  erewrite bind_get_worker by apply lookup_insert_eq.
  set (s1 := set_wd_workers (<[p := w1]> (wd_workers s)) s).
  assert (Hs1 : ∀ p', groupless s p' ∨ p' = p → groupless s1 p').
  { intros p' Hor. eapply (groupless_put s p p' w1) in Hor; [by eapply Hor|done|done]. }
  assert (Hn1 : ∀ p', not_running s p' → not_running s1 p').
  { intros p' (w' & Hw' & Hr'). destruct (decide (p' = p)) as [->|Hne]; unfold not_running; cbn.
    - rewrite lookup_insert_eq. eauto.
    - rewrite lookup_insert_ne by done. eauto. }
  destruct (IH (gs ++ w_pending_groups_ w) (<[i := GetRunningGroupSize w1]> c) s1)
    as (gs' & c' & s' & E & Hc' & Hlen & Hr & Hnr & Hg & Hall).
  { done. } { intros j q Hj Hq. apply Hn1, (Hi j); [by right|done]. }
  { apply Forall_insert; [done|]. unfold GetRunningGroupSize, w1. cbn. by rewrite Hrun. }
  exists gs', c', s'. split; [exact E|]. rewrite length_insert in Hlen.
  repeat split; auto. intros j q [->|Hj]%elem_of_cons Hq; [|by eapply Hall].
  simplify_eq. apply Hg, Hs1. by right.
Qed.

Lemma grow_distribute_idle m size c idxs gs s :
  0 < size → length (wm_workers_ m) = Z.to_nat size → length c = Z.to_nat size →
  Forall (λ x, x = 0) c → Forall (λ i, 0 ≤ i) idxs →
  Forall (groupless s) (wm_workers_ m) →
  ∃ gs' s', grow_distribute m size 0 c idxs gs s = Ok (gs', s') ∧
    wd_runners s' = wd_runners s ∧ Forall (groupless s') (wm_workers_ m).
Proof.
  intros Hsize Hlw Hlc Hc. revert gs s.
  induction idxs as [|i idxs IH]; intros gs s Hi Hall; cbn [grow_distribute]; [eauto|].
  apply Forall_cons in Hi as [Hi0 Hi]. set (index := if size <=? i then Z.rem i size else i).
  assert (Hidx : 0 ≤ index < size).
  { unfold index. destruct (Z.leb_spec size i); [|lia]. by apply Z.rem_bound_pos. }
  destruct (lookup_lt_is_Some_2 (wm_workers_ m) (Z.to_nat index)) as [p Hp]; [lia|].
  destruct (lookup_lt_is_Some_2 c (Z.to_nat index)) as [x Hx]; [lia|].
  rewrite Forall_forall in Hc. pose proof (Hc x (list_elem_of_lookup_2 _ _ _ Hx)) as ->.
  unfold worker_at. rewrite (bind_lift _ p) by (apply vec_at_Ok; split; [lia|done]).
  cbn zeta. rewrite (bind_lift _ 0) by (apply vec_at_Ok; split; [lia|done]).
  assert (Ht : ∃ gs', take_groups (0 - 0) gs = ([], gs')).
  { unfold take_groups. change (0 - 0) with 0. change (wrap_u 64 0) with 0.
    destruct (Z.ltb_spec 0 (Z.of_nat (length gs))) as [|Hle].
    - cbn. rewrite drop_0. eauto.
    - destruct gs; cbn in Hle; [eauto|lia]. }
  destruct Ht as [gs' ->]. cbn [st_iter]. rewrite bind_ret.
  rewrite Forall_forall in Hall.
  destruct (Hall p (list_elem_of_lookup_2 _ _ _ Hp)) as (w & Hw & Hr & Hpend).
  unfold Worker_Bind_list, lift_worker_, lift_worker. mrun.
  erewrite bind_lift by reflexivity. mrun. unfold Notify. mrun.
  erewrite bind_get_worker by apply lookup_insert_eq. unfold log. mrun.
  match goal with |- context [grow_distribute _ _ _ _ _ _ ?t] =>
    destruct (IH gs' t) as (gs'' & s' & E & Hrun & Hfin) end; [done| |].
  - apply Forall_forall. intros p' Hp'.
    eapply (groupless_put s p p' (Bind_list [] w) Hr) with (r := wd_runners s);
      [cbn; by rewrite Hpend|left; by apply Hall].
  - exists gs'', s'. split; [exact E|]. split; [|done]. by rewrite Hrun.
Qed.

(** Growing the pool before its workers have run loses every task runner:
    if no worker has merged its pending groups yet, [Resize] to a larger size
    releases them all, computes a quota of zero groups per worker from the
    (still empty) running lists, and drops them.  Afterwards no worker of the
    pool holds any group, while the runner objects still name their old
    worker. *)
Theorem grow_before_running_loses_groups debug cur n m s
    (Hsize : wm_size_ m = Z.of_nat (length (wm_workers_ m)))
    (Hn : wm_size_ m < n ≤ 2 ^ 31 - 1)
    (Hidle : Forall (not_running s) (wm_workers_ m)) :
  ∃ m' s', Resize debug cur n m s = Ok (m', s') ∧ wm_size_ m' = n ∧
    length (wm_workers_ m') = Z.to_nat n ∧ wd_runners s' = wd_runners s ∧
    Forall (groupless s') (wm_workers_ m').
Proof.
  unfold Resize. destruct (Z.eqb_spec n (wm_size_ m)); [lia|].
  destruct (Z.ltb_spec (wm_size_ m) n); [|lia].
  assert (Hd : i32 (n - wm_size_ m) = Ok (n - wm_size_ m)) by (apply i32_ok; lia).
  rewrite bind_assoc. mrun. unfold CreateWorkers.
  destruct (create_workers_run (Z.to_nat (n - wm_size_ m)) m s)
    as (ps & s1 & E1 & Hlen & Hr1 & Hps & Hold & _).
  erewrite st_bind_step by exact E1. cbn [wm_size_ set_wm_workers_]. mrun.
  set (m1 := set_wm_workers_ (wm_workers_ m ++ ps) m).
  assert (Hlen1 : length (wm_workers_ m1) = Z.to_nat n) by (cbn; rewrite length_app; lia).
  assert (Hold1 : Forall (not_running s1) (wm_workers_ m)).
  { eapply Forall_impl; [exact Hidle|]. intros p (w & Hw & Hr). exists w. split; [|done].
    destruct (Hold p) as [_ ->]; eauto. }
  unfold WorkerManager_Balance. destruct (Z.ltb_spec 0 (n - wm_size_ m)); [|lia].
  unfold Balance_grow. cbn [wm_size_ m1 set_wm_workers_].
  rewrite (bind_lift _ n) by (rewrite i32_ok; [f_equal; lia|lia]).
  destruct (grow_collect_idle m1 (seq 0 (Z.to_nat (wm_size_ m))) [] (replicate (Z.to_nat n) 0) s1)
    as (gs & c & s2 & E2 & Hc & Hlc & Hr2 & Hnr2 & Hg2 & Hall2).
  { apply Forall_forall. intros i Hi%elem_of_seq. destruct (lookup_lt_is_Some_2 (wm_workers_ m1) i);
      [lia|eauto]. }
  { intros i p Hi%elem_of_seq Hp. cbn in Hp. rewrite lookup_app_l in Hp by lia.
    rewrite Forall_forall in Hold1. by apply Hold1, list_elem_of_lookup_2 with i. }
  { by apply Forall_replicate. }
  erewrite st_bind_step by exact E2. cbv beta match. rewrite length_replicate in Hlc.
  rewrite Z.quot_0_l by lia.
  destruct (grow_distribute_idle (set_wm_index_ (wm_size_ m) m1) n c (seqZ (wm_size_ m) n) gs s2)
    as (gs' & s3 & E3 & Hr3 & Hg3); [lia|done|done|done| | |].
  { apply Forall_forall. intros i Hi%elem_of_seqZ. lia. }
  { apply Forall_forall. intros p Hp. cbn in Hp. apply elem_of_app in Hp as [Hp|Hp].
    - apply list_elem_of_lookup in Hp as [i Hi]. apply (Hall2 i).
      + apply elem_of_seq. apply lookup_lt_Some in Hi. lia.
      + cbn. by apply lookup_app_l_Some.
    - apply Hg2. exists (Worker_init true EmptyString). auto. }
  erewrite st_bind_step by exact E3. eexists _, s3. split; [reflexivity|].
  split; [done|]. split; [done|]. split; [by rewrite Hr3, Hr2|done].
Qed.
End Growing.

(** ** Shrinking *)

Section Shrinking.
Context {Q : Type} `{PriorityQueue DelayedEntry Q} `{WorkerBackend}.
Implicit Types (s : World Q) (w : Worker) (m : WorkerManager).

(** The termination flag of every worker. *)
Definition flags s : gmap worker_ptr bool := w_is_terminated_ <$> wd_workers s.

(** An operation that keeps a field of the worker it changes keeps it on every
    worker. *)
Lemma keeps_field_lift_worker {A B} (F : Worker → B) p
    (g : gmap runner_ptr (TaskRunner Q) → Worker → outcome (A * Worker)) :
  (∀ h w a w', g h w = Ok (a, w') → F w' = F w) →
  keeps (λ s, F <$> wd_workers s) (lift_worker p g).
Proof.
  intros Hg s a s' E. unfold lift_worker in E. mstep E. unfold get_worker in E0.
  destruct (wd_workers s !! p) as [w|] eqn:Hw; [|done]. injection E0 as <- <-.
  mstep E. injection E0 as <- <-. mstep E. destruct a0 as [b w']. apply st_lift_Ok in E0 as [E0 ->].
  mstep E. injection E1 as <- <-. injection E as _ <-.
  cbn. rewrite fmap_insert. apply insert_id. rewrite lookup_fmap, Hw. cbn.
  f_equal. symmetry. by eapply Hg.
Qed.

Lemma keeps_field_modify_worker {B} (F : Worker → B) p g :
  (∀ w, F (g w) = F w) → keeps (λ s, F <$> wd_workers s) (modify_worker (Q := Q) p g).
Proof.
  intros Hg s a s' E. unfold modify_worker in E. mstep E. unfold get_worker in E0.
  destruct (wd_workers s !! p) as [w|] eqn:Hw; [|done]. injection E0 as <- <-.
  injection E as _ <-. cbn. rewrite fmap_insert. apply insert_id.
  rewrite lookup_fmap, Hw. cbn. by rewrite Hg.
Qed.

(** The storage that [adopt] moves is all it changes of a worker. *)
Lemma keeps_field_adopt {B} (F : Worker → B) p q :
  (∀ w keys, F (set_w_worker_key_map_ keys w) = F w) →
  (∀ w values, F (set_w_specific_map_ values w) = F w) →
  keeps (λ s : World Q, F <$> wd_workers s) (adopt p q).
Proof.
  intros Hk Hv. unfold adopt. keeps_auto.
  - apply (keeps_field_lift_worker F). intros h w b w' [= E].
    unfold GetMovedSpecificKeys in E. destruct (_ !! _); by simplify_eq.
  - apply (keeps_field_modify_worker F). intros. apply Hk.
  - apply (keeps_field_lift_worker F). intros h w b w' [= E].
    unfold GetMovedSpecific in E. destruct (_ !! _); by simplify_eq.
  - apply (keeps_field_modify_worker F). intros. apply Hv.
  - by apply keeps_modify.
Qed.

Lemma keeps_flags_lift_worker {A} p
    (g : gmap runner_ptr (TaskRunner Q) → Worker → outcome (A * Worker)) :
  (∀ h w a w', g h w = Ok (a, w') → w_is_terminated_ w' = w_is_terminated_ w) →
  keeps flags (lift_worker p g).
Proof. apply keeps_field_lift_worker. Qed.

Lemma keeps_flags_put_runner p r : keeps flags (put_runner p r).
Proof. by apply keeps_modify. Qed.

Lemma keeps_flags_log e : keeps flags (log e).
Proof. by apply keeps_modify. Qed.

#[local] Hint Resolve keeps_flags_put_runner keeps_flags_log : footstone.

Lemma RetainActiveAndUnschedulable_flag h w gs w' :
  RetainActiveAndUnschedulable (Q := Q) h w = Ok (gs, w') →
  w_is_terminated_ w' = w_is_terminated_ w.
Proof. unfold RetainActiveAndUnschedulable. intros E. mstep E. destruct a. by injection E as _ <-. Qed.

Lemma keeps_flags_Bind_group p g : keeps flags (Worker_Bind_group p g).
Proof.
  unfold Worker_Bind_group, lift_worker_, Notify. keeps_auto.
  apply keeps_flags_lift_worker. intros h w a w' E. mstep E. injection E as _ <-.
  unfold Bind_group in E0. mstep E0. mstep E0. injection E0 as <-. by destruct (_ =? _).
Qed.

Lemma keeps_flags_adopt p q : keeps flags (adopt p q).
Proof. by apply (keeps_field_adopt w_is_terminated_). Qed.

#[local] Hint Resolve keeps_flags_Bind_group keeps_flags_adopt : footstone.

Lemma keeps_flags_shrink_collect fuel m i k gs : keeps flags (shrink_collect fuel m i k gs).
Proof.
  revert i k gs. induction fuel as [|fuel IH]; intros; cbn [shrink_collect];
    destruct (_ || _); unfold worker_at; keeps_auto; try apply IH; apply keeps_flags_lift_worker.
  - intros h w b w' E. mstep E. by injection E as _ <-.
  - by intros h w b w' [= _ <-].
Qed.

Lemma keeps_flags_shrink_retain m idxs gs : keeps flags (shrink_retain m idxs gs).
Proof.
  revert gs. induction idxs as [|i idxs IH]; intros; cbn [shrink_retain];
    unfold worker_at; keeps_auto; try apply IH; apply keeps_flags_lift_worker.
  intros h w b w'. apply RetainActiveAndUnschedulable_flag.
Qed.

Lemma keeps_flags_shrink_distribute m size gs : keeps flags (shrink_distribute m size gs).
Proof.
  revert m. induction gs as [|g gs IH]; intros; cbn [shrink_distribute];
    unfold worker_at; keeps_auto; apply IH.
Qed.

Lemma shrink_distribute_workers size gs m s m' s' :
  shrink_distribute m size gs s = Ok (m', s') → wm_workers_ m' = wm_workers_ m.
Proof.
  revert m s. induction gs as [|g gs IH]; intros m s E; cbn [shrink_distribute] in E.
  - by injection E as <- _.
  - repeat mstep E. apply IH in E. done.
Qed.

(** The loop does not end before enough workers were unbound. *)
Lemma shrink_collect_enough fuel m i k gs s k' gs' s' :
  shrink_collect fuel m i k gs s = Ok ((k', gs'), s') → k' ≤ 0.
Proof.
  revert i k gs s. induction fuel as [|fuel IH]; intros i k gs s E; cbn [shrink_collect] in E;
    (destruct (_ || _) eqn:Ec; [|apply orb_false_iff in Ec as [_ Ec%Z.ltb_ge]; by injection E as <- _ _]);
    [done|].
  mstep E. mstep E. destruct a0; [by eapply IH|]. mstep E. by eapply IH.
Qed.

(** What a shrinking that returns has done. *)
Lemma Balance_shrink_inv debug cur k m s m' s' :
  Balance_shrink debug cur k m s = Ok (m', s') →
  ∃ k' gs gs' m1 s1 s2,
    shrink_collect (S (Z.to_nat (wm_size_ m))) m (wm_size_ m - 1) (- k) [] s = Ok ((k', gs), s1) ∧
    shrink_retain m (seq 0 (Z.to_nat (wm_size_ m + k))) gs s1 = Ok (gs', s2) ∧
    shrink_distribute (if wm_size_ m + k <=? wm_index_ m then set_wm_index_ 0 m else m)
      (wm_size_ m + k) gs' s2 = Ok (m1, s') ∧
    m' = set_wm_size_ (wm_size_ m + k) m1 ∧ k' ≤ 0 ∧ wm_size_ m' = wm_size_ m + k.
Proof.
  unfold Balance_shrink, TDF_BASE_CHECK. intros E. mstep E. apply st_lift_Ok in E0 as [[-> _]%i32_Ok ->].
  mstep E. mstep E. mlifts. apply i32_Ok in E1 as [-> _]. mstep E. destruct a0 as [k' gs].
  pose proof (shrink_collect_enough _ _ _ _ _ _ _ _ _ E1) as Hk.
  mstep E. rewrite (proj2 (Z.ltb_ge 0 k') Hk) in E. mstep E. mstep E. cbn [wm_size_ set_wm_size_] in E.
  rewrite Z.sub_diag in E. injection E as <- <-.
  assert (s1 = s0) as ->.
  { unfold TDF_BASE_DCHECK, TDF_BASE_CHECK, st_ret in E2. destruct debug; [by mlifts|by simplify_eq]. }
  by exists k', gs, a1, a2, s0, s2.
Qed.

(** Shrinking never terminates a worker: [size_] is overwritten before the
    loop that should terminate the surplus workers compares it with [size], so
    that loop never runs.  The pool keeps all its workers, and no worker's
    termination flag changes; their threads run on. *)
Theorem shrink_never_terminates debug cur k m s m' s'
    (E : Balance_shrink debug cur k m s = Ok (m', s')) :
  wm_workers_ m' = wm_workers_ m ∧ flags s' = flags s.
Proof.
  destruct (Balance_shrink_inv _ _ _ _ _ _ _ E)
    as (k' & gs & gs' & m1 & s1 & s2 & Hc & Hr & Hd & -> & _ & _).
  pose proof (shrink_distribute_workers _ _ _ _ _ _ Hd) as Hw.
  apply keeps_flags_shrink_collect in Hc. apply keeps_flags_shrink_retain in Hr.
  apply keeps_flags_shrink_distribute in Hd. split; [|congruence].
  cbn. rewrite Hw. by destruct (_ <=? _).
Qed.

(** Every runner in the running groups of the worker may move. *)
Definition movable s (p : worker_ptr) : Prop :=
  ∃ w, wd_workers s !! p = Some w ∧ HasUnschedulableRunner (wd_runners s) w = Ok false.

Lemma movable_unbind s p w p' :
  movable s p' → movable (set_wd_workers (<[p := (UnBind_all w).2]> (wd_workers s)) s) p'.
Proof.
  intros (w' & Hw' & Hm). destruct (decide (p' = p)) as [->|Hne]; unfold movable; cbn.
  - rewrite lookup_insert_eq. eexists. split; [done|]. done.
  - rewrite lookup_insert_ne by done. eauto.
Qed.

Lemma put_same s p w :
  wd_workers s !! p = Some w → set_wd_workers (<[p := w]> (wd_workers s)) s = s.
Proof. intros Hw. rewrite insert_id by done. by destruct s. Qed.

(** The first shrinking loop unbinds every movable worker but the first,
    however few were asked for. *)
Lemma shrink_collect_movable fuel m i reduce gs s :
  (Z.to_nat i < fuel)%nat → 0 ≤ i < Z.of_nat (length (wm_workers_ m)) → reduce ≤ i →
  Forall (movable s) (wm_workers_ m) →
  ∃ gs' s', shrink_collect fuel m i reduce gs s = Ok ((reduce - i, gs'), s').
Proof.
  revert i reduce gs s. induction fuel as [|fuel IH]; intros i reduce gs s Hf Hi Hr Hall; [lia|].
  cbn [shrink_collect]. destruct (Z.ltb_spec 0 i) as [Hpos|Hzero]; cbn [orb].
  - destruct (lookup_lt_is_Some_2 (wm_workers_ m) (Z.to_nat i)) as [p Hp]; [lia|].
    unfold worker_at. rewrite (bind_lift _ p) by (apply vec_at_Ok; split; [lia|done]).
    pose proof Hall as Hall'. rewrite Forall_forall in Hall'.
    destruct (Hall' p (list_elem_of_lookup_2 _ _ _ Hp)) as (w & Hw & Hm).
    unfold lift_worker at 1. mrun. rewrite Hm. erewrite bind_lift by reflexivity. mrun.
    rewrite put_same by done. unfold lift_worker. mrun. erewrite bind_lift by reflexivity. mrun.
    unfold UnBind_all. mrun.
    match goal with |- context [shrink_collect _ _ _ _ ?g ?t] =>
      destruct (IH (i - 1) (reduce - 1) g t) as (gs' & s' & ->) end; [lia|lia|lia| |].
    + eapply Forall_impl; [exact Hall|]. intros p'. apply (movable_unbind s p w).
    + exists gs', s'. do 3 f_equal. lia.
  - destruct (Z.ltb_spec 0 reduce); [lia|]. cbn. exists gs, s. unfold st_ret. do 3 f_equal. lia.
Qed.

(** In a debug build shrinking a pool of freely movable runners to two or
    more workers always aborts: the loop condition [i > 0 || reduce_size > 0]
    unbinds every worker except the first, so [reduce_size] has gone negative
    when [TDF_BASE_DCHECK(!reduce_size)] tests it. *)
Theorem shrink_debug_aborts cur k m s
    (Hsize : wm_size_ m = Z.of_nat (length (wm_workers_ m))) (Hmax : wm_size_ m ≤ 2 ^ 31 - 1)
    (Hk : k < 0) (Htwo : 2 ≤ wm_size_ m + k) (Hall : Forall (movable s) (wm_workers_ m)) :
  Balance_shrink true cur k m s = Fault CheckFailed.
Proof.
  unfold Balance_shrink, TDF_BASE_CHECK, TDF_BASE_DCHECK.
  rewrite (bind_lift _ (wm_size_ m + k)) by (apply i32_ok; lia).
  rewrite (bind_lift _ tt); [|unfold guard_f; by destruct (Z.ltb_spec 0 (wm_size_ m + k)); [|lia]].
  rewrite (bind_lift _ (0 - k)) by (apply i32_ok; lia).
  destruct (shrink_collect_movable (S (Z.to_nat (wm_size_ m))) m (wm_size_ m - 1) (0 - k) [] s)
    as (gs & s' & E); [lia|lia|lia|done|].
  erewrite st_bind_step by exact E. cbv beta match.
  apply (bind_lift_fault _ CheckFailed). unfold guard_f.
  destruct (Z.eqb_spec (0 - k - (wm_size_ m - 1)) 0); [lia|done].
Qed.
End Shrinking.

(** ** Removing a task runner *)

Section Removing.
Context {Q : Type} `{PriorityQueueLaws DelayedEntry Q deadline} `{WorkerBackend}.
Variable clock : nat → Z.
Variables P T : Z.
Hypothesis weights : 0 ≤ P ∧ 0 ≤ T ∧ P * T ≤ i64_max.
Implicit Types (s : World Q) (w : Worker) (m : WorkerManager).

(** [runner] is the only runner with its id in the pool, and on [wp] if
    anywhere. *)
Definition only_on (wp : worker_ptr) (runner : runner_ptr) (r : TaskRunner Q) (ws : list worker_ptr) s : Prop :=
  ∀ p, p ∈ ws → ∃ w, wd_workers s !! p = Some w ∧
    Forall (live (wd_runners s)) (w_running_groups_ w ++ w_pending_groups_ w) ∧
    ∀ q, q ∈ worker_runners w → sat (has_id (GetId r)) (wd_runners s) q = true →
      q = runner ∧ p = wp.

Lemma UnBind_absent h w runner r :
  h !! runner = Some r → Forall (live h) (w_running_groups_ w ++ w_pending_groups_ w) →
  (∀ q, q ∈ worker_runners w → sat (has_id (GetId r)) h q = true → False) →
  UnBind_runner (Q := Q) h runner w = Ok w.
Proof.
  intros Hr [Hl1 Hl2]%Forall_app Hno. unfold UnBind_runner, deref. rewrite Hr. cbn.
  unfold worker_runners in Hno. setoid_rewrite elem_of_app in Hno.
  assert (Hsat : sat (has_id (GetId r)) h runner = true).
  { unfold sat, has_id. rewrite Hr. apply Z.eqb_refl. }
  pose proof (erase_in_groups_spec h _ runner r Hl1 Hr) as E1.
  rewrite bool_decide_false in E1 by (intros Hin; by apply (Hno runner); [left|]).
  rewrite E1 by (intros q Hq Hs; exfalso; by apply (Hno q); [left|]). cbn.
  pose proof (erase_in_groups_spec h _ runner r Hl2 Hr) as E2.
  rewrite bool_decide_false in E2 by (intros Hin; by apply (Hno runner); [right|]).
  by rewrite E2 by (intros q Hq Hs; exfalso; by apply (Hno q); [right|]).
Qed.

(** Unbinding on a list of workers that does not include the holder. *)
Lemma unbind_elsewhere wp runner r ws s :
  wd_runners s !! runner = Some r → only_on wp runner r ws s → wp ∉ ws →
  st_iter (λ worker, lift_worker_ worker (λ h w, UnBind_runner h runner w)) ws s = Ok (tt, s).
Proof.
  intros Hr. induction ws as [|p ws IH]; intros Hon Hnin; cbn [st_iter]; [done|].
  apply not_elem_of_cons in Hnin as [Hne Hnin].
  destruct (Hon p) as (w & Hw & Hl & Hq); [left|].
  unfold lift_worker_ at 1, lift_worker. mrun.
  rewrite (UnBind_absent _ w runner r Hr Hl) by (intros q Hq1 Hq2; destruct (Hq q Hq1 Hq2); congruence).
  erewrite bind_lift by reflexivity. mrun. rewrite put_same by done.
  apply IH; [|done]. intros p' Hp'. apply Hon. by right.
Qed.

(** Unbinding the only runner of a running group leaves the group empty. *)
Lemma UnBind_sole h w runner r :
  h !! runner = Some r → Forall (live h) (w_running_groups_ w) →
  (∀ q, q ∈ concat (w_running_groups_ w) → sat (has_id (GetId r)) h q = true → q = runner) →
  [runner] ∈ w_running_groups_ w → NoDup (concat (w_running_groups_ w)) →
  ∃ gs1 gs2, w_running_groups_ w = gs1 ++ [runner] :: gs2 ∧
    UnBind_runner (Q := Q) h runner w = Ok (set_w_running_groups_ (gs1 ++ [] :: gs2) w).
Proof.
  intros Hr Hl Hq Hsole Hone. pose proof (erase_in_groups_spec h _ runner r Hl Hr Hq) as Er.
  rewrite bool_decide_true in Er.
  2: { apply list_elem_of_In, in_concat. exists [runner]. rewrite <- !list_elem_of_In.
       split; [done|left]. }
  destruct Er as (gs1 & g1 & g2 & gs2 & Eg & Er).
  assert (Hnil : g1 ++ g2 = []) by (rewrite Eg in *; by eapply singleton_group_split).
  exists gs1, gs2. split; [rewrite Eg; apply app_nil in Hnil as [-> ->]; done|].
  unfold UnBind_runner, deref. rewrite Hr. cbn. by rewrite Er, Hnil.
Qed.

(** [RemoveTaskRunner] only touches the worker that holds the runner. *)
Lemma RemoveTaskRunner_run m s wp w w' runner r :
  wp ∈ wm_workers_ m → NoDup (wm_workers_ m) → wd_workers s !! wp = Some w →
  wd_runners s !! runner = Some r → only_on wp runner r (wm_workers_ m) s →
  UnBind_runner (wd_runners s) runner w = Ok w' →
  RemoveTaskRunner runner m s = Ok (tt, set_wd_workers (<[wp := w']> (wd_workers s)) s).
Proof.
  intros (ws1 & ws2 & Ews)%list_elem_of_split Hnd Hw Hr Hon Hun. rewrite Ews in Hnd, Hon.
  apply NoDup_app in Hnd as (_ & Hd1 & [Hd2 _]%NoDup_cons).
  unfold RemoveTaskRunner. rewrite Ews, st_iter_app. erewrite st_bind_step.
  2: { apply (unbind_elsewhere wp runner r); [done| |].
       - intros p Hp. apply Hon. apply elem_of_app. by left.
       - intros Hp. apply (Hd1 wp); [done|left]. }
  cbn [st_iter]. unfold lift_worker_ at 1, lift_worker. mrun. rewrite Hun.
  erewrite bind_lift by reflexivity. mrun.
  apply (unbind_elsewhere wp runner r); [done| |done].
  intros p Hp. destruct (Hon p) as (wo & Hwo & Hlo & Hqo); [apply elem_of_app; right; by right|].
  exists wo. cbn. rewrite lookup_insert_ne by (intros ->; done). done.
Qed.

(** C40. Removing the only runner of a running group takes its worker down:
    [RemoveTaskRunner] succeeds, but the emptied group stays in the worker's
    list, and the next [GetNextTask] on that worker that looks at the groups
    aborts (two or more groups) or is undefined (the group was the only
    one). *)
Theorem RemoveTaskRunner_breaks_worker m s wp w runner r
    (Hws : wp ∈ wm_workers_ m) (Hnd : NoDup (wm_workers_ m))
    (Hw : wd_workers s !! wp = Some w) (Hr : wd_runners s !! runner = Some r)
    (Hon : only_on wp runner r (wm_workers_ m) s)
    (Hsole : [runner] ∈ w_running_groups_ w) (Hone : NoDup (concat (w_running_groups_ w)))
    (Himm : w_immediate_task_queue_ w = []) (Hbal : w_need_balance_ w = false)
    (Hok : map_Forall (λ _ r, runner_ok P T r) (wd_runners s)) :
  ∃ s', RemoveTaskRunner runner m s = Ok (tt, s') ∧
    GetNextTask clock wp s' =
      Fault (if (1 <? length (w_running_groups_ w))%nat then CheckFailed else EmptyAccess).
Proof.
  destruct (Hon wp Hws) as (w0 & Hw0 & [Hlr _]%Forall_app & Hq). simplify_eq.
  unfold worker_runners in Hq. setoid_rewrite elem_of_app in Hq.
  destruct (UnBind_sole (wd_runners s) w runner r Hr Hlr
    (λ q Hq1 Hq2, proj1 (Hq q (or_introl Hq1) Hq2)) Hsole Hone) as (gs1 & gs2 & Eg & Hun).
  eexists. split; [by eapply RemoveTaskRunner_run|].
  rewrite (GetNextTask_empty_group clock P T weights wp _
    (set_w_running_groups_ (gs1 ++ [] :: gs2) w)); cbn; try done.
  - by rewrite Eg, !length_app.
  - apply lookup_insert_eq.
  - rewrite Eg in Hlr. apply Forall_app in Hlr as [H1' [_ H2']%Forall_cons].
    apply Forall_app. split; [done|]. constructor; [constructor|done].
  - apply elem_of_app. right. left.
Qed.
End Removing.

(** ** Evaluation on a concrete pool *)

Section Sample.
#[local] Existing Instance thread_backend.

(** A pool of three idle workers. *)
Definition pool_worker : Worker := Worker_init true EmptyString.
Definition pool3 : WorkerManager := MkWorkerManager [0%nat; 1%nat; 2%nat] 0 3.
Definition pool_world : World (list DelayedEntry) :=
  MkWorld ∅ {[ 0%nat := pool_worker; 1%nat := pool_worker; 2%nat := pool_worker ]} ∅ 0 0 0 0 [].

Lemma placement_never_rotates_witness :
  ∃ qs s', create_many 4 1 "r" pool3 pool_world = Ok ((qs, pool3), s') ∧
    w_pending_groups_ <$> wd_workers s' !! 0%nat = Some (map (λ q, [q]) qs) ∧
    wd_workers s' !! 1%nat = Some pool_worker ∧ length qs = 4%nat.
Proof.
  destruct (placement_never_rotates 4 1 "r" pool3 pool_world 0 [1%nat; 2%nat])
    as (qs & s' & E & Hlen & _ & _ & Hp & Ho); [cbn; lia|reflexivity|reflexivity|decide_now|].
  exists qs, s'. split; [exact E|]. split; [exact Hp|]. split; [|exact Hlen].
  rewrite (Ho 1%nat) by discriminate. reflexivity.
Defined.

Lemma single_worker_overruns_witness :
  ∃ q m' s',
    CreateTaskRunner 0 1 true "r" (MkWorkerManager [0%nat] 0 1) pool_world = Ok ((q, m'), s') ∧
    CreateTaskRunner 0 1 true "r" m' s' = Fault OutOfRange.
Proof.
  exact (single_worker_overruns 1 "r" (MkWorkerManager [0%nat] 0 1) pool_world 0 pool_worker
    eq_refl eq_refl eq_refl eq_refl).
Defined.

Lemma fresh_pool_group_uninitialised_witness :
  (do! m := WorkerManager_new 3 in CreateTaskRunner 5 1 true "r" m) pool_world =
    Fault Uninitialised.
Proof. apply fresh_pool_group_uninitialised; [lia|discriminate]. Defined.

(** The same pool after [SetGroupId] on each worker. *)
Definition grouped_world : World (list DelayedEntry) :=
  set_wd_workers (set_w_group_id_ (Some 0) <$> wd_workers pool_world) pool_world.

Lemma same_group_same_worker_witness :
  ∃ q1 q2 wp m1 m2 s1 s2,
    CreateTaskRunner 7 1 true "a" pool3 grouped_world = Ok ((q1, m1), s1) ∧
    CreateTaskRunner 7 2 true "b" m1 s1 = Ok ((q2, m2), s2) ∧
    (tr_worker_ <$> wd_runners s2 !! q1) = Some (Some wp) ∧
    (tr_worker_ <$> wd_runners s2 !! q2) = Some (Some wp).
Proof.
  destruct (same_group_same_worker 7 1 2 "a" "b" pool3 grouped_world)
    as (q1 & q2 & wp & m1 & m2 & s1 & s2 & E1 & E2 & _ & _ & H1 & H2 & _).
  - discriminate.
  - repeat constructor; (eexists _, _; split; reflexivity).
  - decide_now.
  - cbn. lia.
  - cbn. lia.
  - exists q1, q2, wp, m1, m2, s1, s2. split; [exact E1|]. split; [exact E2|].
    split; [exact H1|exact H2].
Defined.

Lemma grow_keeps_owner_witness :
  ∃ m' s', Balance_grow 1 (MkWorkerManager [0%nat; 1%nat; 2%nat] 0 2)
      (set_wd_runners sample_heap pool_world) = Ok (m', s') ∧
    wd_runners s' = sample_heap ∧ wm_index_ m' = 2.
Proof.
  destruct (Balance_grow 1 (MkWorkerManager [0%nat; 1%nat; 2%nat] 0 2)
    (set_wd_runners sample_heap pool_world)) as [[m' s']|] eqn:E;
    [|vm_compute in E; discriminate].
  destruct (grow_keeps_owner _ _ _ _ _ E) as (Hr & _ & Hi).
  exists m', s'. split; [reflexivity|]. split; [exact Hr|exact Hi].
Defined.

(** Worker 0 with one pending runner. *)
Definition waiting_world : World (list DelayedEntry) :=
  set_wd_workers (<[0%nat := set_w_pending_groups_ [[1%nat]] pool_worker]> (wd_workers pool_world))
    (set_wd_runners sample_heap pool_world).

Lemma grow_before_running_loses_groups_witness :
  ∃ m' s', Resize true None 4 pool3 waiting_world = Ok (m', s') ∧
    Forall (groupless s') (wm_workers_ m').
Proof.
  destruct (grow_before_running_loses_groups true None 4 pool3 waiting_world)
    as (m' & s' & E & _ & _ & _ & Hg).
  - reflexivity.
  - cbn. lia.
  - repeat constructor; (eexists; split; reflexivity).
  - exists m', s'. split; [exact E|exact Hg].
Defined.

Lemma shrink_never_terminates_witness :
  ∃ m' s', Balance_shrink false None (-1) pool3 waiting_world = Ok (m', s') ∧
    wm_workers_ m' = [0%nat; 1%nat; 2%nat] ∧ wm_size_ m' = 2.
Proof.
  destruct (Balance_shrink false None (-1) pool3 waiting_world) as [[m' s']|] eqn:E;
    [|vm_compute in E; discriminate].
  destruct (shrink_never_terminates _ _ _ _ _ _ _ E) as [Hw _].
  assert (Hs : (λ x, wm_size_ x.1) <$> Balance_shrink false None (-1) pool3 waiting_world = Ok 2)
    by (vm_compute; reflexivity).
  rewrite E in Hs. injection Hs as Hs. exists m', s'. split; [reflexivity|]. split; [exact Hw|exact Hs].
Defined.

Lemma shrink_debug_aborts_witness :
  Balance_shrink true None (-1) pool3 waiting_world = Fault CheckFailed.
Proof.
  apply shrink_debug_aborts.
  - reflexivity.
  - cbn. lia.
  - lia.
  - cbn. lia.
  - repeat constructor; (eexists; split; reflexivity).
Defined.

Definition removal_worker : Worker := set_w_running_groups_ [[1%nat]; [2%nat]] pool_worker.
Definition removal_world : World (list DelayedEntry) :=
  MkWorld sample_runners {[ 0%nat := removal_worker; 1%nat := pool_worker ]} ∅ 0 0 0 0 [].

Lemma RemoveTaskRunner_breaks_worker_witness :
  ∃ s', RemoveTaskRunner 1 (MkWorkerManager [0%nat; 1%nat] 0 2) removal_world = Ok (tt, s') ∧
    GetNextTask sample_clock 0 s' = Fault CheckFailed.
Proof.
  apply (RemoveTaskRunner_breaks_worker sample_clock 2 1000 sample_weights
    (MkWorkerManager [0%nat; 1%nat] 0 2) removal_world 0 removal_worker 1 (sample_tr 1 1 300)).
  - left.
  - decide_now.
  - reflexivity.
  - reflexivity.
  - intros p Hp. cbn in Hp. apply elem_of_cons in Hp as [->|Hp%list_elem_of_singleton].
    + eexists. split; [reflexivity|]. split; [unfold live; decide_now|].
      intros q Hq Hs. cbn in Hq.
      apply elem_of_cons in Hq as [->|Hq%list_elem_of_singleton]; [done|]. subst q.
      vm_compute in Hs. discriminate.
    + subst p. eexists. split; [reflexivity|]. split; [constructor|].
      intros q Hq. by apply not_elem_of_nil in Hq.
  - cbn. left.
  - decide_now.
  - reflexivity.
  - reflexivity.
  - exact (lo_runners _ _ _ _ _ sample_loop_ok).
Defined.
End Sample.
