(* ===== verification/Resizing.v ===== *)
(** * Resizing: what happens to the groups of a pool that shrinks or grows

    [WorkerManager::Balance] takes the groups of some workers apart and binds
    them to others.  Here the groups of a pool are counted across its workers:
    shrinking neither loses nor duplicates one, whatever the workers hold;
    growing keeps all of them when some worker runs one, and loses all of them
    when none does. *)

From S2P Require Import Prelude PriorityQueue Store Worker WorkerKeys WorkerLoop ThreadWorker WorkerManager.

Section Groups.
Context {Q : Type} `{PriorityQueue DelayedEntry Q} `{WorkerBackend}.
Implicit Types (s : World Q) (w : Worker) (m : WorkerManager) (ps : list worker_ptr).

(** The groups on a worker, and on a pool of workers. *)
Definition worker_groups w : list Group := w_running_groups_ w ++ w_pending_groups_ w.
Definition groups_at s (p : worker_ptr) : list Group :=
  match wd_workers s !! p with Some w => worker_groups w | None => [] end.
Definition pool_groups ps s : list Group := concat (map (groups_at s) ps).

(** A computation on the pool that takes [given a] groups from the pool. *)
Definition gives {A} ps (given : A → list Group) (c : M Q A) : Prop :=
  ∀ s a s', c s = Ok (a, s') → pool_groups ps s ≡ₚ given a ++ pool_groups ps s'.

Lemma pool_groups_put ps p s w w' :
  NoDup ps → p ∈ ps → wd_workers s !! p = Some w →
  ∃ rest, pool_groups ps s ≡ₚ worker_groups w ++ rest ∧
    pool_groups ps (set_wd_workers (<[p := w']> (wd_workers s)) s) ≡ₚ worker_groups w' ++ rest.
Proof.
  intros Hnd Hp Hw. apply elem_of_Permutation in Hp as [ps' Hps].
  assert (Hp' : p ∉ ps') by (rewrite Hps in Hnd; by apply NoDup_cons in Hnd as [? _]).
  exists (concat (map (groups_at s) ps')). unfold pool_groups. rewrite !Hps. cbn [map concat].
  assert (E : groups_at s p = worker_groups w) by (unfold groups_at; by rewrite Hw).
  assert (E' : groups_at (set_wd_workers (<[p := w']> (wd_workers s)) s) p = worker_groups w')
    by (unfold groups_at; cbn; by rewrite lookup_insert_eq).
  rewrite E, E'. split; [done|]. f_equiv.
  apply Permutation_refl'. f_equal. apply map_ext_in. intros q Hq%list_elem_of_In. unfold groups_at. cbn.
  rewrite lookup_insert_ne; [done|congruence].
Qed.

(** A change of one worker of the pool. *)
Lemma pool_groups_lift {A} ps p s a s'
    (g : gmap runner_ptr (TaskRunner Q) → Worker → outcome (A * Worker)) :
  NoDup ps → p ∈ ps → lift_worker p g s = Ok (a, s') →
  ∃ w w' rest, g (wd_runners s) w = Ok (a, w') ∧
    pool_groups ps s ≡ₚ worker_groups w ++ rest ∧ pool_groups ps s' ≡ₚ worker_groups w' ++ rest.
Proof.
  intros Hnd Hp E. unfold lift_worker in E. mstep E. unfold get_worker in E0.
  destruct (wd_workers s !! p) as [w|] eqn:Hw; [|done]. injection E0 as <- <-.
  mstep E. injection E0 as <- <-. mstep E. destruct a0 as [b w']. apply st_lift_Ok in E0 as [E0 ->].
  mstep E. injection E1 as <- <-. injection E as <- <-.
  destruct (pool_groups_put ps p s w w' Hnd Hp Hw) as (rest & H1 & H2). by exists w, w', rest.
Qed.

Lemma gives_lift_worker {A} ps p (given : A → list Group)
    (g : gmap runner_ptr (TaskRunner Q) → Worker → outcome (A * Worker)) :
  NoDup ps → p ∈ ps →
  (∀ h w a w', g h w = Ok (a, w') → worker_groups w ≡ₚ given a ++ worker_groups w') →
  gives ps given (lift_worker p g).
Proof.
  intros Hnd Hp Hg s a s' E.
  destruct (pool_groups_lift ps p s a s' g Hnd Hp E) as (w & w' & rest & Eg & H1 & H2).
  rewrite H1, H2, (Hg _ _ _ _ Eg). by rewrite app_assoc.
Qed.

Lemma gives_keeps {A} ps (c : M Q A) :
  keeps (λ s, worker_groups <$> wd_workers s) c → gives ps (λ _, []) c.
Proof.
  intros Hk s a s' E. specialize (Hk _ _ _ E). cbv beta in Hk. cbn [app]. apply Permutation_refl'.
  unfold pool_groups. f_equal. apply map_ext. intros p. unfold groups_at.
  apply (f_equal (.!! p)) in Hk. rewrite !lookup_fmap in Hk.
  destruct (wd_workers s !! p), (wd_workers s' !! p); cbn in Hk; congruence.
Qed.

(** The operations that [Balance] uses. *)

(** When the loop returns it has spliced nothing out: a splice leaves the
    iterator in the wrong list. *)
Lemma retain_loop_returns fuel h running ret it running' ret' :
  retain_loop (Q := Q) fuel h running ret it = Ok (running', ret') →
  running' = running ∧ ret' = ret.
Proof.
  revert running ret it. induction fuel as [|fuel IH]; intros running ret it E; [done|].
  cbn in E. destruct it as [i|i]; [|done]. destruct (running !! i) as [g|] eqn:Hg.
  2: { by injection E as <- <-. }
  destruct i as [|i]; [by eapply IH|]. mstep E. destruct a; [by eapply IH|].
  by destruct fuel.
Qed.

Lemma retain_returns h w gs w' :
  RetainActiveAndUnschedulable (Q := Q) h w = Ok (gs, w') →
  gs = w_pending_groups_ w ∧ w' = set_w_pending_groups_ [] w.
Proof.
  unfold RetainActiveAndUnschedulable. intros E. mstep E. destruct a as [running ret].
  apply retain_loop_returns in E0 as [-> ->]. injection E as <- <-. split; [done|]. by destruct w.
Qed.

Lemma retain_gives h w gs w' :
  RetainActiveAndUnschedulable (Q := Q) h w = Ok (gs, w') → worker_groups w ≡ₚ gs ++ worker_groups w'.
Proof.
  intros [-> ->]%retain_returns. unfold worker_groups. cbn. rewrite app_nil_r.
  apply Permutation_app_comm.
Qed.

Lemma Bind_group_takes h g w w' :
  Bind_group (Q := Q) h g w = Ok w' → g :: worker_groups w ≡ₚ worker_groups w'.
Proof.
  unfold Bind_group, worker_groups. intros E. mstep E. mstep E. injection E as <-.
  destruct (_ =? _); cbn; rewrite app_assoc; by rewrite Permutation_cons_append.
Qed.

(** The pool's workers are distinct, and all of those a computation reaches. *)
Context (m : WorkerManager).
Let ps := wm_workers_ m.
Hypothesis distinct : NoDup ps.

Lemma worker_at_pool m0 i s wp s' :
  wm_workers_ m0 = ps → worker_at (Q := Q) m0 i s = Ok (wp, s') → wp ∈ ps ∧ s' = s.
Proof.
  unfold worker_at. intros <- [E ->]%st_lift_Ok. apply vec_at_Ok in E as [_ E].
  split; [|done]. by eapply list_elem_of_lookup_2.
Qed.

Lemma has_unschedulable_gives p :
  p ∈ ps → gives ps (λ _, []) (lift_worker (Q := Q) p
    (λ h w, let! b := HasUnschedulableRunner h w in Ok (b, w))).
Proof. intros Hp. apply gives_lift_worker; [done..|]. intros h w b w' E. mstep E. by injection E as _ <-. Qed.

Lemma unbind_gives p :
  p ∈ ps → gives ps id (lift_worker (Q := Q) p (λ _ w, Ok (UnBind_all w))).
Proof.
  intros Hp. apply gives_lift_worker; [done..|]. intros h w gs w' [= <- <-].
  unfold worker_groups. cbn. by rewrite app_nil_r.
Qed.

Lemma shrink_collect_gives fuel i k gs s k' gs' s' :
  shrink_collect fuel m i k gs s = Ok ((k', gs'), s') →
  gs ++ pool_groups ps s ≡ₚ gs' ++ pool_groups ps s'.
Proof.
  revert i k gs s. induction fuel as [|fuel IH]; intros i k gs s E; cbn [shrink_collect] in E;
    (destruct (_ || _); [|by injection E as _ <- <-]); [done|].
  mstep E. apply worker_at_pool in E0 as [Hp ->]; [|done]. mstep E. apply has_unschedulable_gives in E0; [|done].
  rewrite E0. destruct a0; [by eapply IH|]. mstep E. apply unbind_gives in E1; [|done].
  rewrite <- (IH _ _ _ _ E), E1. by rewrite <- app_assoc.
Qed.

Lemma shrink_retain_gives idxs gs s gs' s' :
  shrink_retain m idxs gs s = Ok (gs', s') →
  gs ++ pool_groups ps s ≡ₚ gs' ++ pool_groups ps s'.
Proof.
  revert gs s. induction idxs as [|i idxs IH]; intros gs s E; cbn [shrink_retain] in E.
  - by injection E as <- <-.
  - mstep E. apply worker_at_pool in E0 as [Hp ->]; [|done]. mstep E.
    apply (gives_lift_worker ps a id) in E0; [|done..|by intros h w b w' E1%retain_gives].
    rewrite <- (IH _ _ E), E0. by rewrite <- app_assoc.
Qed.

Lemma Bind_group_pool p g s s' :
  p ∈ ps → Worker_Bind_group p g s = Ok (tt, s') → g :: pool_groups ps s ≡ₚ pool_groups ps s'.
Proof.
  intros Hp E. unfold Worker_Bind_group, lift_worker_ in E. mstep E. destruct a.
  destruct (pool_groups_lift ps p s tt s0 _ distinct Hp E0) as (w & w' & rest & Eg & H1 & H2).
  mstep Eg. injection Eg as <-. apply Bind_group_takes in E1.
  assert (K : gives ps (λ _, []) (Notify (Q := Q) p)).
  { apply gives_keeps. unfold Notify, log. keeps_auto. by apply keeps_modify. }
  apply K in E. cbn in E. rewrite <- E, H1, H2, <- E1. done.
Qed.

Lemma shrink_distribute_takes m0 size gs s m' s' :
  wm_workers_ m0 = ps → shrink_distribute m0 size gs s = Ok (m', s') →
  gs ++ pool_groups ps s ≡ₚ pool_groups ps s'.
Proof.
  revert m0 s. induction gs as [|g gs IH]; intros m0 s Hm E; cbn [shrink_distribute] in E.
  - by injection E as _ <-.
  - mstep E. apply (worker_at_pool _ _ _ _ _ Hm) in E0 as [Hp ->]. mstep E. destruct a0.
    apply Bind_group_pool in E0; [|done]. mstep E. mstep E. apply st_lift_Ok in E2 as [_ ->].
    assert (K : gives ps (λ _, []) (st_iter (adopt (Q := Q) a) g)).
    { apply gives_keeps, keeps_iter. intros q. by apply keeps_field_adopt. }
    apply IH in E; [|exact Hm]. apply K in E1. cbn in E1. rewrite <- E, <- E1, <- E0. cbn.
    by rewrite Permutation_middle.
Qed.

(** *** Growing *)

(** The running groups of a worker, and their number as [int]. *)
Definition running_at s (p : worker_ptr) : list Group :=
  match wd_workers s !! p with Some w => w_running_groups_ w | None => [] end.
Definition pending_at s (p : worker_ptr) : list Group :=
  match wd_workers s !! p with Some w => w_pending_groups_ w | None => [] end.
Definition group_count s (p : worker_ptr) : Z := wrap_s 32 (Z.of_nat (length (running_at s p))).

Definition sum_counts s (idxs : list nat) : Z :=
  foldr (λ i n, default 0 (group_count s <$> ps !! i) + n) 0 idxs.

(** What the first loop of a growing [Balance] leaves. *)
Record collected (idxs : list nat) s (n' : Z) (c c' : list Z) s' : Prop := {
  co_running : ∀ p, running_at s' p = running_at s p;
  co_pending : ∀ p, pending_at s p = [] → pending_at s' p = [];
  co_released : ∀ i p, i ∈ idxs → ps !! i = Some p → pending_at s' p = [];
  co_length : length c' = length c;
  co_counts : ∀ i p, i ∈ idxs → (i < length c)%nat → ps !! i = Some p → c' !! i = Some (group_count s p);
  co_rest : ∀ i, i ∉ idxs → c' !! i = c !! i
}.

Lemma collect_step p s gs s1 :
  p ∈ ps → lift_worker p (λ h w, RetainActiveAndUnschedulable (Q := Q) h w) s = Ok (gs, s1) →
  pool_groups ps s ≡ₚ gs ++ pool_groups ps s1 ∧
  (∀ p', running_at s1 p' = running_at s p') ∧
  (∀ p', pending_at s1 p' = if decide (p' = p) then [] else pending_at s p').
Proof.
  intros Hp E. split.
  { by apply (gives_lift_worker ps p id) in E; [|done..|intros h w b w' E1%retain_gives]. }
  unfold lift_worker in E. mstep E. unfold get_worker in E0.
  destruct (wd_workers s !! p) as [w|] eqn:Hw; [|done]. injection E0 as <- <-.
  mstep E. injection E0 as <- <-. mstep E. destruct a as [b w']. apply st_lift_Ok in E0 as [E0 ->].
  apply retain_returns in E0 as [-> ->]. mstep E. injection E0 as _ <-. injection E as _ <-.
  split; intros p'; unfold running_at, pending_at; cbn; rewrite lookup_insert;
    repeat case_decide; subst; by rewrite ?Hw.
Qed.

Lemma grow_collect_spec idxs n gs c s n' gs' c' s' :
  NoDup idxs → grow_collect m idxs n gs c s = Ok ((n', gs', c'), s') →
  gs ++ pool_groups ps s ≡ₚ gs' ++ pool_groups ps s' ∧ n' = n + sum_counts s idxs ∧
  Forall (λ i, is_Some (ps !! i)) idxs ∧ collected idxs s n' c c' s'.
Proof.
  revert n gs c s. induction idxs as [|i idxs IH]; intros n gs c s Hnd E; cbn [grow_collect] in E.
  { injection E as <- <- <- <-. split; [done|]. split; [cbn; lia|]. split; [constructor|].
    split; try done; by intros i p ?%not_elem_of_nil. }
  apply NoDup_cons in Hnd as [Hi Hnd]. mstep E. unfold worker_at in E0.
  apply st_lift_Ok in E0 as [E0 ->]. apply vec_at_Ok in E0 as [_ Hp]. rewrite Nat2Z.id in Hp. fold ps in Hp.
  pose proof (list_elem_of_lookup_2 _ _ _ Hp) as Hin.
  mstep E. unfold get_worker in E0. destruct (wd_workers s !! a) as [w|] eqn:Hw; [|done].
  injection E0 as <- <-. mstep E. apply st_lift_Ok in E0 as [E0 ->].
  apply i32_Ok in E0 as [-> _]. mstep E. destruct (collect_step a s a0 s0 Hin E0) as (Hg & Hrun & Hpend).
  mstep E. unfold get_worker in E1. destruct (wd_workers s0 !! a) as [w1|] eqn:Hw1; [|done].
  injection E1 as <- <-.
  assert (Hc0 : GetRunningGroupSize w = group_count s a).
  { unfold group_count, running_at. by rewrite Hw. }
  assert (Hc1 : GetRunningGroupSize w1 = group_count s a).
  { unfold group_count. rewrite <- Hrun. unfold running_at. by rewrite Hw1. }
  destruct (IH _ _ _ _ Hnd E) as (Hgs & Hn & Hall & [r1 p1 l1 n1 c1 o1]).
  assert (Hcnt : ∀ p, group_count s0 p = group_count s p) by (intros p; unfold group_count; by rewrite Hrun).
  split; [by rewrite <- Hgs, <- app_assoc, Hg|]. split.
  { rewrite Hn, Hc0. unfold sum_counts. cbn. rewrite Hp. cbn. rewrite <- Z.add_assoc. f_equal. f_equal.
    clear -Hcnt. induction idxs as [|j idxs IH]; cbn; [done|]. rewrite IH. f_equal.
    destruct (ps !! j); cbn; [by rewrite Hcnt|done]. }
  split; [constructor; [by exists a|done]|]. rewrite length_insert in n1. split.
  - intros p. by rewrite r1.
  - intros p Hpe. apply p1. rewrite Hpend. by case_decide.
  - intros j p [->|Hj]%elem_of_cons Hpj; [|by eapply l1]. assert (p = a) as -> by congruence.
    apply p1. rewrite Hpend. by rewrite decide_True.
  - done.
  - intros j p Hj Hlt Hpj. destruct (decide (j ∈ idxs)) as [Hji|Hji].
    + rewrite (c1 j p Hji); [by rewrite Hcnt|by rewrite length_insert|done].
    + apply elem_of_cons in Hj as [->|]; [|done]. assert (p = a) as -> by congruence.
      rewrite o1 by done. rewrite Hc1. by apply list_lookup_insert_eq.
  - intros j Hj. apply not_elem_of_cons in Hj as [Hji Hj]. rewrite o1 by done.
    by apply list_lookup_insert_ne.
Qed.

(** What the second loop leaves over: each worker in turn takes its quota. *)
Definition grow_index (size i : Z) : Z := if size <=? i then Z.rem i size else i.
Definition quota (size resize_group_size : Z) (c : list Z) (i : Z) : Z :=
  resize_group_size - default 0 (c !! Z.to_nat (grow_index size i)).
Fixpoint leftover (cnts : list Z) (gs : list Group) : list Group :=
  match cnts with [] => gs | cnt :: cnts => leftover cnts (take_groups cnt gs).2 end.

Lemma take_groups_app cnt gs : (take_groups cnt gs).1 ++ (take_groups cnt gs).2 = gs.
Proof. unfold take_groups. case_match; cbn; [apply take_drop|apply app_nil_r]. Qed.

Lemma leftover_nil cnts : leftover cnts [] = [].
Proof.
  induction cnts as [|cnt cnts IH]; cbn; [done|]. unfold take_groups. case_match; cbn; [|done].
  by rewrite drop_nil.
Qed.

(** A worker with more groups than its quota takes all that are left. *)
Lemma leftover_negative cnts cnt gs :
  cnt ∈ cnts → - 2 ^ 31 ≤ cnt < 0 → Z.of_nat (length gs) < 2 ^ 31 → leftover cnts gs = [].
Proof.
  intros Hin Hcnt. revert gs. induction cnts as [|c cnts IH]; intros gs Hlen; cbn [leftover];
    [by apply not_elem_of_nil in Hin|].
  apply elem_of_cons in Hin as [<-|Hin].
  - unfold take_groups. destruct (Z.ltb_spec (wrap_u 64 cnt) (Z.of_nat (length gs))) as [Hlt|_];
      [|apply leftover_nil]. exfalso. unfold wrap_u in Hlt.
    rewrite <- (Z.mod_unique cnt (2 ^ 64) (-1) (cnt + 2 ^ 64)) in Hlt; lia.
  - apply IH; [done|]. pose proof (f_equal length (take_groups_app c gs)) as Hl.
    rewrite length_app in Hl. lia.
Qed.

Lemma leftover_zero cnts gs : Forall (λ cnt, cnt = 0) cnts → leftover cnts gs = gs.
Proof.
  induction 1 as [|cnt cnts -> _ IH]; cbn [leftover]; [done|]. unfold take_groups.
  change (wrap_u 64 0) with 0. destruct (Z.ltb_spec 0 (Z.of_nat (length gs))) as [|Hle]; cbn.
  - by rewrite drop_0.
  - destruct gs; cbn in Hle; [apply leftover_nil|lia].
Qed.

Lemma Bind_list_pool p l s s' :
  p ∈ ps → Worker_Bind_list p l s = Ok (tt, s') → l ++ pool_groups ps s ≡ₚ pool_groups ps s'.
Proof.
  intros Hp E. unfold Worker_Bind_list, lift_worker_ in E. mstep E. destruct a.
  destruct (pool_groups_lift ps p s tt s0 _ distinct Hp E0) as (w & w' & rest & Eg & H1 & H2).
  injection Eg as <-.
  assert (K : gives ps (λ _, []) (Notify (Q := Q) p)).
  { apply gives_keeps. unfold Notify, log. keeps_auto. by apply keeps_modify. }
  apply K in E. cbn in E. rewrite <- E, H1, H2. unfold worker_groups. cbn. solve_Permutation.
Qed.

Lemma migrate_keeps_groups p q :
  keeps (λ s : World Q, worker_groups <$> wd_workers s) (migrate p q).
Proof.
  unfold migrate, MoveTaskRunnerSpecificNoLock, Task_new. keeps_auto.
  - intros s1 t1 s2 E. by injection E as _ <-.
  - by apply (keeps_field_modify_worker worker_groups).
Qed.

Lemma grow_distribute_spec m0 size q c idxs gs s gs' s' :
  wm_workers_ m0 = ps → grow_distribute m0 size q c idxs gs s = Ok (gs', s') →
  gs ++ pool_groups ps s ≡ₚ gs' ++ pool_groups ps s' ∧
  gs' = leftover (map (quota size q c) idxs) gs.
Proof.
  intros Hm. revert gs s. induction idxs as [|i idxs IH]; intros gs s E; cbn [grow_distribute] in E.
  { by injection E as <- <-. }
  mstep E. apply (worker_at_pool _ _ _ _ _ Hm) in E0 as [Hp ->]. mstep E.
  apply st_lift_Ok in E0 as [E0 ->]. apply vec_at_Ok in E0 as [_ Hc].
  pose proof (take_groups_app (q - a0) gs) as Hl. destruct (take_groups (q - a0) gs) as [l gs1] eqn:Et.
  cbn in Hl. mstep E. destruct a1. mstep E. destruct a1. apply Bind_list_pool in E1; [|done].
  assert (K : gives ps (λ _, []) (st_iter (st_iter (migrate (Q := Q) a)) l)).
  { apply gives_keeps, keeps_iter. intros g. apply keeps_iter. intros r. apply migrate_keeps_groups. }
  apply K in E0. cbn in E0. apply IH in E as [Hg ->]. split.
  - rewrite <- Hl, E0, <- Hg, <- E1. solve_Permutation.
  - cbn [map leftover]. assert (Eq : quota size q c i = q - a0).
    { unfold quota, grow_index. by rewrite Hc. }
    by rewrite Eq, Et.
Qed.
End Groups.

Section Grow.
Context {Q : Type} `{PriorityQueue DelayedEntry Q} `{WorkerBackend}.
Implicit Types (s : World Q) (m : WorkerManager) (ps : list worker_ptr).

(** The groups that run somewhere in a pool. *)
Definition running_groups ps s : list Group := concat (map (running_at s) ps).

Lemma pool_groups_split ps s :
  pool_groups ps s ≡ₚ running_groups ps s ++ concat (map (pending_at s) ps).
Proof.
  unfold pool_groups, running_groups. induction ps as [|p ps IH]; cbn [map concat]; [done|].
  rewrite IH. unfold groups_at at 1, running_at at 2, pending_at at 2, worker_groups.
  destruct (wd_workers s !! p); cbn; solve_Permutation.
Qed.

Lemma running_length ps s p :
  p ∈ ps → (length (running_at s p) ≤ length (pool_groups ps s))%nat.
Proof.
  intros Hp. rewrite (Permutation_length (pool_groups_split ps s)), length_app.
  apply list_elem_of_split in Hp as (l1 & l2 & ->). unfold running_groups.
  rewrite map_app, concat_app. cbn. rewrite !length_app. lia.
Qed.

Section Pool.
Context (m : WorkerManager) (k : Z).
Let ps := wm_workers_ m.
Let n := wm_size_ m.
Implicit Types (idxs : list nat).

Lemma sum_counts_bound s idxs q :
  (∀ i, i ∈ idxs → 0 ≤ default 0 (group_count s <$> ps !! i) ≤ q) →
  0 ≤ sum_counts m s idxs ≤ Z.of_nat (length idxs) * q.
Proof.
  induction idxs as [|i idxs IH]; intros Hq; [cbn; lia|].
  unfold sum_counts. cbn [foldr length]. fold (sum_counts m s idxs).
  pose proof (Hq i ltac:(left)) as Hi. change (wm_workers_ m) with ps.
  destruct IH as [IH1 IH2]; [intros j Hj; apply Hq; by right|]. lia.
Qed.

Lemma sum_counts_zero s idxs i :
  (∀ j, j ∈ idxs → 0 ≤ default 0 (group_count s <$> ps !! j)) →
  sum_counts m s idxs = 0 → i ∈ idxs → default 0 (group_count s <$> ps !! i) = 0.
Proof.
  induction idxs as [|j idxs IH]; intros Hq Hs Hi; [by apply not_elem_of_nil in Hi|].
  unfold sum_counts in Hs. cbn [foldr] in Hs. fold (sum_counts m s idxs) in Hs.
  change (wm_workers_ m) with ps in Hs. pose proof (Hq j ltac:(left)).
  assert (0 ≤ sum_counts m s idxs).
  { clear -Hq. induction idxs as [|x idxs IH]; [done|]. unfold sum_counts. cbn [foldr].
    fold (sum_counts m s idxs). change (wm_workers_ m) with ps. pose proof (Hq x ltac:(right; left)).
    assert (0 ≤ sum_counts m s idxs); [|lia]. apply IH. intros y [->|Hy]%elem_of_cons; apply Hq;
      [left|by right; right]. }
  apply elem_of_cons in Hi as [->|Hi]; [lia|]. apply IH; [|lia|done]. intros y Hy. apply Hq. by right.
Qed.

(** The number of groups a worker of the old pool runs. *)
Definition count_at s (i : nat) : Z := default 0 (group_count s <$> ps !! i).

Lemma count_at_length s i p :
  Z.of_nat (length (pool_groups ps s)) < 2 ^ 31 → ps !! i = Some p →
  count_at s i = Z.of_nat (length (running_at s p)).
Proof.
  intros Hb Hp. unfold count_at. rewrite Hp. cbn. unfold group_count.
  pose proof (running_length ps s p (list_elem_of_lookup_2 _ _ _ Hp)). apply wrap_s_id; lia.
Qed.

(** If no worker is above the quota, which is rounded down, then nothing
    runs. *)
Lemma quota_pigeonhole s :
  0 < k → 0 ≤ n → (∀ i, (i < Z.to_nat n)%nat → 0 ≤ count_at s i ≤
    Z.quot (sum_counts m s (seq 0 (Z.to_nat n))) (n + k)) →
  sum_counts m s (seq 0 (Z.to_nat n)) = 0.
Proof.
  intros Hk Hn Hall. set (R := sum_counts m s (seq 0 (Z.to_nat n))) in *.
  destruct (sum_counts_bound s (seq 0 (Z.to_nat n)) (Z.quot R (n + k))) as [HR0 HR].
  { intros i Hi%elem_of_seq. apply Hall. lia. }
  fold R in HR0, HR. rewrite length_seq, Z2Nat.id in HR by done.
  rewrite Z.quot_div_nonneg in HR by lia.
  pose proof (Z.mul_div_le R (n + k) ltac:(lia)).
  pose proof (Z.div_pos R (n + k) HR0 ltac:(lia)). nia.
Qed.

(** The counts the second loop reads. *)
Lemma quota_counts s c i :
  0 < k → 0 ≤ n → length c = Z.to_nat (n + k) →
  (∀ j, (j < Z.to_nat n)%nat → c !! j = Some (count_at s j)) →
  (∀ j, (Z.to_nat n ≤ j < Z.to_nat (n + k))%nat → c !! j = Some 0) →
  ∀ q, (0 ≤ i < n + k → ∃ i', i' ∈ seqZ n (n + k) ∧
          quota (n + k) q c i' = q - (if decide (i < n) then count_at s (Z.to_nat i) else 0)).
Proof.
  intros Hk Hn Hlen Hold Hnew q Hi.
  assert (Hq : ∀ i', grow_index (n + k) i' = i →
    quota (n + k) q c i' = q - (if decide (i < n) then count_at s (Z.to_nat i) else 0)).
  { intros i' E. unfold quota. rewrite E. case_decide; [rewrite Hold by lia|rewrite Hnew by lia]; done. }
  destruct (Z.lt_ge_cases i n) as [Hlt|Hge].
  - exists (n + k + i). split; [apply elem_of_seqZ; lia|]. apply Hq.
    unfold grow_index. destruct (Z.leb_spec (n + k) (n + k + i)); [|lia].
    rewrite Z.rem_mod_nonneg by lia. replace (n + k + i) with (i + 1 * (n + k)) by lia.
    rewrite Z.mod_add by lia. apply Z.mod_small. lia.
  - exists i. split; [apply elem_of_seqZ; lia|]. apply Hq.
    unfold grow_index. destruct (Z.leb_spec (n + k) i); lia.
Qed.
(** The two loops of a growing [Balance], as what they leave. *)
Lemma Balance_grow_inv s m' s' :
  NoDup ps → Balance_grow k m s = Ok (m', s') →
  ∃ gs c s2,
    wm_workers_ m' = ps ∧ wm_size_ m' = n + k ∧
    pool_groups ps s ≡ₚ gs ++ pool_groups ps s2 ∧
    Forall (λ i, is_Some (ps !! i)) (seq 0 (Z.to_nat n)) ∧
    collected m (seq 0 (Z.to_nat n)) s (sum_counts m s (seq 0 (Z.to_nat n)))
      (replicate (Z.to_nat (n + k)) 0) c s2 ∧
    gs ++ pool_groups ps s2 ≡ₚ
      leftover (map (quota (n + k)
        (Z.quot (sum_counts m s (seq 0 (Z.to_nat n))) (n + k)) c) (seqZ n (n + k))) gs ++
      pool_groups ps s'.
Proof.
  intros Hnd E. unfold Balance_grow in E. mstep E. apply st_lift_Ok in E0 as [E0 ->].
  apply i32_Ok in E0 as [-> _]. mstep E. destruct a as [[R gs] c].
  apply (grow_collect_spec m Hnd) in E0 as (Hg & HR & Hall & Hc); [|apply NoDup_seq].
  rewrite Z.add_0_l in HR. subst R. mstep E. injection E as <- <-.
  apply (grow_distribute_spec m Hnd) in E0 as [Hd ->]; [|done].
  exists gs, c, s0. repeat (split; [done|]). exact Hd.
Qed.

Lemma collected_counts s c s2 :
  0 < k → 0 ≤ n → Forall (λ i, is_Some (ps !! i)) (seq 0 (Z.to_nat n)) →
  collected m (seq 0 (Z.to_nat n)) s (sum_counts m s (seq 0 (Z.to_nat n)))
    (replicate (Z.to_nat (n + k)) 0) c s2 →
  length c = Z.to_nat (n + k) ∧
  (∀ j, (j < Z.to_nat n)%nat → c !! j = Some (count_at s j)) ∧
  (∀ j, (Z.to_nat n ≤ j < Z.to_nat (n + k))%nat → c !! j = Some 0).
Proof.
  intros Hk Hn Hall [_ _ _ Hlen Hcnt Hrest]. rewrite length_replicate in *. split; [done|].
  split; intros j Hj.
  - rewrite Forall_forall in Hall. destruct (Hall j) as [p Hp]; [apply elem_of_seq; lia|].
    unfold count_at. rewrite Hp. apply Hcnt; [apply elem_of_seq; lia|lia|done].
  - rewrite Hrest by (rewrite elem_of_seq; lia). apply lookup_replicate. split; [done|lia].
Qed.

(** Nothing runs and the new workers are empty: after the first loop no worker
    of the pool holds a group. *)
Lemma collected_empty s s2 c c' R :
  running_groups ps s = [] → (∀ p, p ∈ drop (Z.to_nat n) ps → groups_at s p = []) →
  collected m (seq 0 (Z.to_nat n)) s R c c' s2 → pool_groups ps s2 = [].
Proof.
  intros Hrun Hnew [Hr Hp Hrel _ _ _].
  assert (Hall : ∀ p, p ∈ ps → groups_at s2 p = []).
  { intros p Hin. assert (Hra : running_at s p = []).
    { apply list_elem_of_split in Hin as (l1 & l2 & El). unfold running_groups in Hrun.
      rewrite El, map_app, concat_app in Hrun. apply app_eq_nil in Hrun as [_ Hrun].
      cbn in Hrun. by apply app_eq_nil in Hrun as [? _]. }
    assert (Hpa : pending_at s2 p = []).
    { apply list_elem_of_lookup in Hin as [i Hi]. destruct (decide (i < Z.to_nat n)%nat) as [Hlt|Hge].
      - apply (Hrel i p); [apply elem_of_seq; lia|done].
      - apply Hp. assert (Hg : groups_at s p = []).
        { apply Hnew. apply list_elem_of_lookup. exists (i - Z.to_nat n)%nat. rewrite lookup_drop.
          by replace (Z.to_nat n + (i - Z.to_nat n))%nat with i by lia. }
        unfold groups_at, pending_at, worker_groups in *. destruct (wd_workers s !! p); [|done].
        by apply app_eq_nil in Hg as [_ ?]. }
    rewrite <- Hr in Hra. unfold groups_at, running_at, pending_at, worker_groups in *.
    destruct (wd_workers s2 !! p); [|done]. by rewrite Hra, Hpa. }
  unfold pool_groups. clear -Hall. induction ps as [|p l IH]; [done|]. cbn [map concat].
  rewrite (Hall p) by left. apply IH. intros q Hq. apply Hall. by right.
Qed.

(** Nothing runs exactly when every count is zero. *)
Lemma running_groups_nil s :
  (∀ i p, (i < Z.to_nat n)%nat → ps !! i = Some p → running_at s p = []) →
  (∀ p, p ∈ drop (Z.to_nat n) ps → groups_at s p = []) → running_groups ps s = [].
Proof.
  intros Hold Hnew. assert (Hall : ∀ p, p ∈ ps → running_at s p = []).
  { intros p Hin. apply list_elem_of_lookup in Hin as [i Hi].
    destruct (decide (i < Z.to_nat n)%nat) as [Hlt|Hge]; [by eapply Hold|].
    assert (Hg : groups_at s p = []).
    { apply Hnew. apply list_elem_of_lookup. exists (i - Z.to_nat n)%nat. rewrite lookup_drop.
      by replace (Z.to_nat n + (i - Z.to_nat n))%nat with i by lia. }
    unfold groups_at, running_at, worker_groups in *. destruct (wd_workers s !! p); [|done].
    by apply app_eq_nil in Hg as [? _]. }
  unfold running_groups. clear -Hall. induction ps as [|p l IH]; [done|]. cbn [map concat].
  rewrite (Hall p) by left. apply IH. intros q Hq. apply Hall. by right.
Qed.

Lemma quota_zero s c i :
  length c = Z.to_nat (n + k) →
  (∀ j, (j < Z.to_nat n)%nat → c !! j = Some (count_at s j)) →
  (∀ j, (Z.to_nat n ≤ j < Z.to_nat (n + k))%nat → c !! j = Some 0) →
  (∀ j, (j < Z.to_nat n)%nat → count_at s j = 0) → quota (n + k) 0 c i = 0.
Proof.
  intros Hlen Hold Hnew Hz. unfold quota. set (j := Z.to_nat (grow_index (n + k) i)).
  destruct (Nat.lt_ge_cases j (Z.to_nat n)); [by rewrite Hold, Hz|].
  destruct (Nat.lt_ge_cases j (Z.to_nat (n + k))); [by rewrite Hnew|].
  by rewrite (lookup_ge_None_2 c j) by lia.
Qed.
Lemma gs_length s s2 gs :
  Z.of_nat (length (pool_groups ps s)) < 2 ^ 31 → pool_groups ps s ≡ₚ gs ++ pool_groups ps s2 →
  Z.of_nat (length gs) < 2 ^ 31.
Proof. intros Hb Hg. pose proof (Permutation_length Hg) as Hl. rewrite length_app in Hl. lia. Qed.

(** What the second loop starts from. *)
Context (s s2 : World Q) (gs : list Group) (c : list Z).
Hypothesis Hk : 0 < k.
Hypothesis Hn : 0 ≤ n.
Hypothesis Hbound : Z.of_nat (length (pool_groups ps s)) < 2 ^ 31.
Hypothesis Hall : Forall (λ i, is_Some (ps !! i)) (seq 0 (Z.to_nat n)).
Hypothesis Hgs : pool_groups ps s ≡ₚ gs ++ pool_groups ps s2.
Let R := sum_counts m s (seq 0 (Z.to_nat n)).
Hypothesis Hc : collected m (seq 0 (Z.to_nat n)) s R (replicate (Z.to_nat (n + k)) 0) c s2.
Let q := Z.quot R (n + k).
Let left_ := leftover (map (quota (n + k) q c) (seqZ n (n + k))) gs.

Lemma count_at_old i :
  (i < Z.to_nat n)%nat →
  ∃ p, ps !! i = Some p ∧ count_at s i = Z.of_nat (length (running_at s p)).
Proof.
  intros Hi. rewrite Forall_forall in Hall. destruct (Hall i) as [p Hp]; [apply elem_of_seq; lia|].
  exists p. split; [done|]. by apply count_at_length.
Qed.

Lemma over_quota i :
  (i < Z.to_nat n)%nat → q < count_at s i → left_ = [] ∧ running_groups ps s ≠ [].
Proof.
  intros Hi Hlt. destruct (count_at_old i Hi) as (p & Hp & Hcp).
  pose proof (list_elem_of_lookup_2 _ _ _ Hp) as Hin.
  destruct (sum_counts_bound s (seq 0 (Z.to_nat n)) (2 ^ 31)) as [HR _].
  { intros j Hj%elem_of_seq. destruct (count_at_old j ltac:(lia)) as (p' & Hp' & Hcp').
    unfold count_at in Hcp'. rewrite Hcp'.
    pose proof (running_length ps s p' (list_elem_of_lookup_2 _ _ _ Hp')). lia. }
  assert (Hq0 : 0 ≤ q) by (apply Z.quot_pos; [exact HR|lia]).
  pose proof (running_length ps s p Hin) as Hrl.
  destruct (collected_counts s c s2 Hk Hn Hall Hc) as (Hlen & Hold & Hnew0). split.
  - destruct (quota_counts s c (Z.of_nat i) Hk Hn Hlen Hold Hnew0 q) as (i' & Hi' & Eq); [lia|].
    rewrite decide_True, Nat2Z.id in Eq by lia.
    apply (leftover_negative _ (q - count_at s i) gs); [|lia|by eapply gs_length].
    apply list_elem_of_fmap. by exists i'.
  - intros Hrun. apply list_elem_of_split in Hin as (l1 & l2 & El). unfold running_groups in Hrun.
    rewrite El, map_app, concat_app in Hrun. apply app_eq_nil in Hrun as [_ Hrun]. cbn in Hrun.
    apply app_eq_nil in Hrun as [Hrun _]. rewrite Hrun in Hcp. cbn in Hcp. lia.
Qed.

Lemma within_quota :
  (∀ i, (i < Z.to_nat n)%nat → count_at s i ≤ q) →
  (∀ p, p ∈ drop (Z.to_nat n) ps → groups_at s p = []) →
  left_ = gs ∧ running_groups ps s = [] ∧ pool_groups ps s2 = [].
Proof.
  intros Hle Hnew. assert (Hpos : ∀ i, (i < Z.to_nat n)%nat → 0 ≤ count_at s i ≤ q).
  { intros i Hi. destruct (count_at_old i Hi) as (p & _ & Ec). split; [lia|by apply Hle]. }
  pose proof (quota_pigeonhole s Hk Hn Hpos) as HR. fold R in HR.
  assert (Hq : q = 0) by (unfold q; rewrite HR; by apply Z.quot_0_l; lia).
  assert (Hz : ∀ j, (j < Z.to_nat n)%nat → count_at s j = 0).
  { intros j Hj. specialize (Hpos j Hj). lia. }
  destruct (collected_counts s c s2 Hk Hn Hall Hc) as (Hlen & Hold & Hnew0).
  assert (Hrun : running_groups ps s = []).
  { apply running_groups_nil; [|done]. intros i p Hi Hp. destruct (count_at_old i Hi) as (p' & Hp' & Ec).
    rewrite Hz in Ec by done. assert (p' = p) as -> by congruence.
    destruct (running_at s p); [done|cbn in Ec; lia]. }
  split; [|split; [done|by eapply collected_empty]]. apply leftover_zero. rewrite Hq.
  apply Forall_fmap, Forall_forall. intros i _. by apply (quota_zero s).
Qed.
End Pool.

(** C34. Which groups a growing pool drops: all or none.  When [Balance] with a
    positive count returns, the pool has the size asked for, and either some
    worker was running a group and the groups on the pool's workers are the
    same as before, or none was running one and no worker has any group left:
    the quota of each worker, computed from the running groups only, is then
    zero, while otherwise it is so small that a busy worker exceeds it, its
    negative share converts to a huge unsigned number, and it takes all groups
    not yet dealt out. *)
Theorem grow_keeps_or_drops m k (s : World Q) m' s'
    (Hnd : NoDup (wm_workers_ m)) (Hk : 0 < k) (Hn : 0 ≤ wm_size_ m)
    (Hnew : ∀ p, p ∈ drop (Z.to_nat (wm_size_ m)) (wm_workers_ m) → groups_at s p = [])
    (Hbound : Z.of_nat (length (pool_groups (wm_workers_ m) s)) < 2 ^ 31)
    (E : Balance_grow k m s = Ok (m', s')) :
  wm_workers_ m' = wm_workers_ m ∧ wm_size_ m' = wm_size_ m + k ∧
  if bool_decide (running_groups (wm_workers_ m) s = [])
  then pool_groups (wm_workers_ m) s' = []
  else pool_groups (wm_workers_ m) s' ≡ₚ pool_groups (wm_workers_ m) s.
Proof.
  destruct (Balance_grow_inv m k s m' s' Hnd E) as (gs & c & s2 & Hm & Hs & Hg & Hall & Hc & Hd).
  split; [done|]. split; [done|].
  destruct (decide (Exists (λ i, Z.quot (sum_counts m s (seq 0 (Z.to_nat (wm_size_ m))))
    (wm_size_ m + k) < count_at m s i) (seq 0 (Z.to_nat (wm_size_ m))))) as [Hex|Hno].
  - apply Exists_exists in Hex as (i & Hi%elem_of_seq & Hlt).
    destruct (over_quota m k s s2 gs c Hk Hn Hbound Hall Hg Hc i) as [El Hrun]; [lia|done|].
    rewrite El in Hd. rewrite bool_decide_false by done. by rewrite Hg, Hd.
  - destruct (within_quota m k s s2 gs c Hk Hn Hbound Hall Hc) as (El & Hrun & He); [|done|].
    + intros i Hi. apply Z.nlt_ge. intros Hlt. apply Hno, Exists_exists. exists i.
      split; [apply elem_of_seq; lia|done].
    + rewrite El, He in Hd. rewrite bool_decide_true by done.
      apply Permutation_app_inv_l in Hd. symmetry. by apply Permutation_nil_l.
Qed.
End Grow.

Section Shrink.
Context {Q : Type} `{PriorityQueue DelayedEntry Q} `{WorkerBackend}.

(** C33. A pool that shrinks keeps every group: whenever [Balance] with a
    negative count returns, the groups on the workers of the pool, running
    and pending together, are the same as before, none lost and none bound
    twice — however many workers were unbound on the way — and [size_]
    is the one asked for.  (The workers taken out stay in [workers_]:
    WorkerManager.shrink_never_terminates.) *)
Theorem shrink_keeps_groups debug cur k m (s : World Q) m' s'
    (Hnd : NoDup (wm_workers_ m)) (E : Balance_shrink debug cur k m s = Ok (m', s')) :
  pool_groups (wm_workers_ m') s' ≡ₚ pool_groups (wm_workers_ m) s ∧
  wm_size_ m' = wm_size_ m + k.
Proof.
  destruct (Balance_shrink_inv _ _ _ _ _ _ _ E)
    as (k' & gs & gs' & m1 & s1 & s2 & Hc & Hr & Hd & -> & _ & Hsize).
  pose proof (shrink_distribute_workers _ _ _ _ _ _ Hd) as Hw. split; [|done].
  assert (Hw1 : wm_workers_ m1 = wm_workers_ m) by (rewrite Hw; by destruct (_ <=? _)).
  cbn [wm_workers_ set_wm_size_]. rewrite Hw1.
  apply shrink_collect_gives in Hc; [|done]. apply shrink_retain_gives in Hr; [|done].
  apply (shrink_distribute_takes m) in Hd; [|done|by destruct (_ <=? _)].
  cbn [app] in Hc. by rewrite Hc, Hr, Hd.
Qed.
End Shrink.

(** ** Evaluation on a concrete pool *)

Section Sample.
#[local] Existing Instance thread_backend.

(** Three workers with a waiting group each, shrunk to two. *)
Lemma shrink_keeps_groups_witness :
  ∃ m' s', Balance_shrink false None (-1) pool3 waiting_world = Ok (m', s') ∧
    pool_groups (wm_workers_ m') s' ≡ₚ pool_groups [0%nat; 1%nat; 2%nat] waiting_world ∧
    groups_at s' 2 = [] ∧ wm_size_ m' = 2.
Proof.
  destruct (Balance_shrink false None (-1) pool3 waiting_world) as [[m' s']|] eqn:E;
    [|vm_compute in E; discriminate].
  assert (Hnd : NoDup (wm_workers_ pool3)) by decide_now.
  destruct (shrink_keeps_groups _ _ _ _ _ _ _ Hnd E) as [Hp Hs].
  assert (Hg : (λ x, groups_at x.2 2%nat) <$> Balance_shrink false None (-1) pool3 waiting_world = Ok [])
    by (vm_compute; reflexivity).
  rewrite E in Hg. injection Hg as Hg.
  exists m', s'. split; [reflexivity|]. split; [exact Hp|]. split; [exact Hg|exact Hs].
Defined.

(** A pool of two that grows to three: worker 0 runs a group and has another
    one waiting, or only has one waiting. *)
Definition small_pool : WorkerManager := MkWorkerManager [0%nat; 1%nat; 2%nat] 0 2.
Definition owned_heap : gmap runner_ptr (TaskRunner (list DelayedEntry)) :=
  set_tr_worker_ (Some 0%nat) <$> sample_heap.
Definition growing_world (running : list (list runner_ptr)) : World (list DelayedEntry) :=
  set_wd_workers (<[0%nat := set_w_running_groups_ running
    (set_w_pending_groups_ [[2%nat]] pool_worker)]> (wd_workers pool_world))
    (set_wd_runners owned_heap pool_world).

Lemma grow_keeps_or_drops_witness :
  (∃ m' s', Balance_grow 1 small_pool (growing_world [[1%nat]]) = Ok (m', s') ∧
    pool_groups [0%nat; 1%nat; 2%nat] s' ≡ₚ [[1%nat]; [2%nat]]) ∧
  ∃ m' s', Balance_grow 1 small_pool (growing_world []) = Ok (m', s') ∧
    pool_groups [0%nat; 1%nat; 2%nat] s' = [].
Proof.
  assert (Hnd : NoDup (wm_workers_ small_pool)) by decide_now.
  assert (Hnew : ∀ running p, p ∈ drop 2 (wm_workers_ small_pool) → groups_at (growing_world running) p = []).
  { intros running p ->%list_elem_of_singleton. reflexivity. }
  split.
  - destruct (Balance_grow 1 small_pool (growing_world [[1%nat]])) as [[m' s']|] eqn:E;
      [|vm_compute in E; discriminate].
    destruct (grow_keeps_or_drops small_pool 1 (growing_world [[1%nat]]) m' s' Hnd ltac:(lia)
      ltac:(cbn; lia) (Hnew _) ltac:(vm_compute; reflexivity) E) as (_ & _ & Hg).
    exists m', s'. split; [reflexivity|]. exact Hg.
  - destruct (Balance_grow 1 small_pool (growing_world [])) as [[m' s']|] eqn:E;
      [|vm_compute in E; discriminate].
    destruct (grow_keeps_or_drops small_pool 1 (growing_world []) m' s' Hnd ltac:(lia)
      ltac:(cbn; lia) (Hnew _) ltac:(vm_compute; reflexivity) E) as (_ & _ & Hg).
    exists m', s'. split; [reflexivity|]. exact Hg.
Defined.
End Sample.
