(* ===== verification/ThreadSafeQueue.v ===== *)
(** * ThreadSafeQueue: bounded queues and the mutex-protected one

    Models [include/footstone/thread_safe_queue.h] and states what a bounded
    queue promises to its clients: the interface [BoundedQueue], its laws in
    terms of a list of contents and a capacity, and the reference queue they
    describe.  The rings of SpscQueue.v and MpmcQueue.v implement the same
    interface. *)

From S2P Require Import Prelude.

(** ** The interface *)

Class BoundedQueue (T Qt : Type) := {
  bq_push : T → Qt → bool * Qt;
  bq_pop : Qt → option T * Qt;
  bq_empty : Qt → bool
}.

(** A well-formed queue behaves as a list of at most [capacity] elements:
    [push] appends or reports that the queue is full, [pop] takes the front or
    reports that there is none. *)
Class BoundedQueueLaws (T Qt : Type) `{BoundedQueue T Qt} (wf : Qt → Prop)
    (contents : Qt → list T) (capacity : Qt → Z) := {
  bq_push_wf x q : wf q → wf (bq_push x q).2;
  bq_push_capacity x q : capacity (bq_push x q).2 = capacity q;
  bq_push_spec x q : wf q →
    (bq_push x q).1 = (Z.of_nat (length (contents q)) <? capacity q) ∧
    contents (bq_push x q).2 = if (bq_push x q).1 then contents q ++ [x] else contents q;
  bq_pop_wf q : wf q → wf (bq_pop q).2;
  bq_pop_capacity q : capacity (bq_pop q).2 = capacity q;
  bq_pop_spec q : wf q →
    (bq_pop q).1 = head (contents q) ∧ contents (bq_pop q).2 = tail (contents q);
  bq_empty_spec q : wf q → bq_empty q = bool_decide (contents q = [])
}.

(** ** Clients *)

(** One call on a queue and its answer. *)
Inductive queue_call (T : Type) := CallPush (x : T) | CallPop | CallEmpty.
Arguments CallPush {T} x.
Arguments CallPop {T}.
Arguments CallEmpty {T}.

Inductive queue_answer (T : Type) := AnsBool (b : bool) | AnsPop (o : option T).
Arguments AnsBool {T} b.
Arguments AnsPop {T} o.

Section Client.
Context {T Qt : Type} `{BoundedQueue T Qt}.

Definition run_call (c : queue_call T) (q : Qt) : queue_answer T * Qt :=
  match c with
  | CallPush x => let '(b, q) := bq_push x q in (AnsBool b, q)
  | CallPop => let '(o, q) := bq_pop q in (AnsPop o, q)
  | CallEmpty => (AnsBool (bq_empty q), q)
  end.

Fixpoint run_calls (cs : list (queue_call T)) (q : Qt) : list (queue_answer T) * Qt :=
  match cs with
  | [] => ([], q)
  | c :: cs => let '(a, q) := run_call c q in
               let '(l, q) := run_calls cs q in (a :: l, q)
  end.
End Client.

(** The reference: a list and a bound. *)
Definition spec_queue (T : Type) : Type := list T * Z.

#[export] Instance spec_bounded_queue (T : Type) : BoundedQueue T (spec_queue T) := {|
  bq_push x q := if Z.of_nat (length q.1) <? q.2 then (true, (q.1 ++ [x], q.2)) else (false, q);
  bq_pop q := (head q.1, (tail q.1, q.2));
  bq_empty q := match q.1 with [] => true | _ => false end
|}.

(** Every implementation answers every sequence of calls as the reference
    does, and ends with the same contents. *)
Lemma run_calls_refines {T Qt} `{BoundedQueueLaws T Qt wf contents capacity}
    (cs : list (queue_call T)) q :
  wf q →
  let '(l, q') := run_calls cs q in
  run_calls cs ((contents q, capacity q) : spec_queue T) = (l, (contents q', capacity q')) ∧ wf q'.
Proof.
  revert q. induction cs as [|c cs IH]; intros q Hwf; cbn [run_calls]; [done|].
  assert (Hstep : ∃ a q1, run_call c q = (a, q1) ∧ wf q1 ∧
    run_call c ((contents q, capacity q) : spec_queue T) = (a, (contents q1, capacity q1))).
  { destruct c as [x| |]; cbn [run_call].
    - pose proof (bq_push_wf (Qt := Qt) x q Hwf) as W. pose proof (bq_push_capacity x q) as C.
      destruct (bq_push_spec (Qt := Qt) x q Hwf) as [E1 E2]. destruct (bq_push x q) as [b q1]. cbn in *.
      exists (AnsBool b), q1. split; [done|]. split; [done|]. rewrite <- E1, C, E2. by destruct b.
    - pose proof (bq_pop_wf (Qt := Qt) q Hwf) as W. pose proof (bq_pop_capacity q) as C.
      destruct (bq_pop_spec (Qt := Qt) q Hwf) as [E1 E2]. destruct (bq_pop q) as [o q1]. cbn in *.
      exists (AnsPop o), q1. by rewrite C, E2, E1.
    - exists (AnsBool (bq_empty q)), q. split; [done|]. split; [done|].
      rewrite (bq_empty_spec (Qt := Qt) q Hwf). cbn. by destruct (contents q). }
  destruct Hstep as (a & q1 & -> & Hwf1 & ->). specialize (IH q1 Hwf1).
  destruct (run_calls cs q1) as [l q']. destruct IH as [-> Hwf']. done.
Qed.

(** ** [thread_safe_queue] *)

(** Each operation holds [queue_mutex_] from start to end, so it is one
    step. *)
Record thread_safe_queue (T : Type) := MkTsq { tsq_queue_ : list T; tsq_max_count_ : Z }.
Arguments MkTsq {T} _ _.
Arguments tsq_queue_ {T} _.
Arguments tsq_max_count_ {T} _.

Section ThreadSafeQueue.
Context {T : Type}.
Implicit Types q : thread_safe_queue T.

Definition tsq_new (max_count : Z) : thread_safe_queue T := MkTsq [] max_count.

Definition tsq_push (obj : T) q : bool * thread_safe_queue T :=
  if tsq_max_count_ q <=? Z.of_nat (length (tsq_queue_ q)) then (false, q)
  else (true, MkTsq (tsq_queue_ q ++ [obj]) (tsq_max_count_ q)).

Definition tsq_pop q : option T * thread_safe_queue T :=
  match tsq_queue_ q with
  | [] => (None, q)
  | obj :: rest => (Some obj, MkTsq rest (tsq_max_count_ q))
  end.

Definition tsq_empty q : bool := match tsq_queue_ q with [] => true | _ => false end.

(** [f] runs without the lock and may itself use the queue. *)
Context {S : Type} (f : T → thread_safe_queue T * S → thread_safe_queue T * S).

Definition consume_one (st : thread_safe_queue T * S) : bool * (thread_safe_queue T * S) :=
  let '(element, q) := tsq_pop st.1 in
  match element with
  | Some element => (true, f element (q, st.2))
  | None => (false, (q, st.2))
  end.

(** The count is a [size_t]. *)
Fixpoint consume_all_loop (fuel : nat) (element_count : Z) (st : thread_safe_queue T * S) :
    outcome (Z * (thread_safe_queue T * S)) :=
  match fuel with
  | O => Fault OutOfFuel
  | Datatypes.S fuel =>
      let '(success, st) := consume_one st in
      if success then consume_all_loop fuel (wrap_u 64 (element_count + 1)) st
      else Ok (element_count, st)
  end.

Definition consume_all (fuel : nat) (st : thread_safe_queue T * S) :
    outcome (Z * (thread_safe_queue T * S)) := consume_all_loop fuel 0 st.
End ThreadSafeQueue.

#[export] Instance tsq_bounded_queue (T : Type) : BoundedQueue T (thread_safe_queue T) :=
  {| bq_push := tsq_push; bq_pop := tsq_pop; bq_empty := tsq_empty |}.

#[export] Instance tsq_laws (T : Type) :
  BoundedQueueLaws T (thread_safe_queue T) (λ _, True) tsq_queue_ tsq_max_count_.
Proof.
  split; cbn; auto.
  - intros x q. unfold tsq_push. by destruct (_ <=? _).
  - intros x q _. unfold tsq_push.
    destruct (Z.leb_spec (tsq_max_count_ q) (Z.of_nat (length (tsq_queue_ q)))),
      (Z.ltb_spec (Z.of_nat (length (tsq_queue_ q))) (tsq_max_count_ q)); cbn; auto; lia.
  - intros q. unfold tsq_pop. by destruct (tsq_queue_ q).
  - intros q _. unfold tsq_pop. destruct (tsq_queue_ q) eqn:E; cbn; [by rewrite E|done].
  - intros q _. unfold tsq_empty. by destruct (tsq_queue_ q).
Qed.

Section Properties.
Context {T : Type}.
Implicit Types q : thread_safe_queue T.

(** [thread_safe_queue] is a bounded FIFO: any sequence of [push], [pop]
    and [empty] on a new queue gets the answers of a list bounded by
    [max_count], whatever the bound. *)
Theorem tsq_refines_fifo (cs : list (queue_call T)) (max_count : Z) :
  let '(l, q') := run_calls cs (tsq_new max_count) in
  run_calls cs (([], max_count) : spec_queue T) = (l, (tsq_queue_ q', max_count)).
Proof.
  pose proof (run_calls_refines (Qt := thread_safe_queue T) cs (tsq_new max_count) I) as R.
  pose proof (λ q, bq_push_capacity (Qt := thread_safe_queue T) (T := T)) as _.
  assert (C : ∀ cs q, tsq_max_count_ (run_calls cs q).2 = tsq_max_count_ q).
  { clear. induction cs as [|c cs IH]; intros q; cbn [run_calls]; [done|].
    destruct (run_call c q) as [a q1] eqn:E1. specialize (IH q1).
    destruct (run_calls cs q1) as [l q']. cbn in *. rewrite IH.
    destruct c as [x| |]; cbn in E1.
    - unfold tsq_push in E1. destruct (_ <=? _); by injection E1 as <- <-.
    - unfold tsq_pop in E1. destruct (tsq_queue_ q); by injection E1 as <- <-.
    - by injection E1 as <- <-. }
  specialize (C cs (tsq_new max_count)). destruct (run_calls cs (tsq_new max_count)) as [l q'].
  cbn in *. destruct R as [R _]. by rewrite C in R.
Qed.

(** [consume_all] drains the queue: when the consumer does not touch the
    queue it is applied to every element once, in FIFO order, the queue ends
    empty, and the count is the number of elements; one unit of fuel more than
    that number is enough. *)
Theorem consume_all_drains {S : Type} (g : T → S → S) q s fuel
    (Hfuel : (length (tsq_queue_ q) < fuel)%nat)
    (Hsize : Z.of_nat (length (tsq_queue_ q)) < 2 ^ 64) :
  consume_all (λ x st, (st.1, g x st.2)) fuel (q, s) =
    Ok (Z.of_nat (length (tsq_queue_ q)),
        (MkTsq [] (tsq_max_count_ q), foldl (λ s x, g x s) s (tsq_queue_ q))).
Proof.
  unfold consume_all. destruct q as [l m]. cbn [tsq_queue_ tsq_max_count_] in *.
  assert (Hgen : ∀ l fuel n s, (length l < fuel)%nat → 0 ≤ n →
    n + Z.of_nat (length l) < 2 ^ 64 →
    consume_all_loop (λ x st, (st.1, g x st.2)) fuel n (MkTsq l m, s) =
      Ok (n + Z.of_nat (length l), (MkTsq [] m, foldl (λ s x, g x s) s l))).
  { clear. induction l as [|x l IH]; intros fuel n s Hf Hn Hb; (destruct fuel; [cbn in Hf; lia|]).
    - cbn. by rewrite Z.add_0_r.
    - cbn [length] in *. cbn. rewrite wrap_u_id by lia. rewrite IH by lia. do 2 f_equal. lia. }
  by rewrite Hgen by lia.
Qed.

(** A consumer that pushes one element back for each it receives keeps
    [consume_all] running for ever: no amount of fuel is enough once the queue
    holds an element. *)
Theorem consume_all_feedback_diverges q fuel
    (Hne : tsq_queue_ q ≠ []) (Hmax : Z.of_nat (length (tsq_queue_ q)) ≤ tsq_max_count_ q) :
  consume_all (λ x st, ((tsq_push x st.1).2, st.2)) fuel (q, tt) = Fault OutOfFuel.
Proof.
  unfold consume_all. generalize 0. revert q Hne Hmax.
  induction fuel as [|fuel IH]; intros [l m] Hne Hmax n; [done|]. cbn in *.
  destruct l as [|x l]; [done|]. cbn in *. unfold tsq_push. cbn.
  destruct (Z.leb_spec m (Z.of_nat (length l))); [lia|]. cbn. apply IH; cbn.
  - by destruct l.
  - rewrite length_app. cbn. lia.
Qed.
End Properties.

Lemma consume_all_drains_witness :
  consume_all (λ x st, (st.1, x + st.2)) 4 (MkTsq [5; 6; 7] 10, 0) = Ok (3, (MkTsq [] 10, 18)).
Proof.
  rewrite (consume_all_drains Z.add (MkTsq [5; 6; 7] 10) 0 4); [reflexivity|cbn; lia|cbn; lia].
Defined.

Lemma consume_all_feedback_diverges_witness :
  consume_all (λ x st, ((tsq_push x st.1).2, st.2)) 1000 (MkTsq [5] 10, tt) = Fault OutOfFuel.
Proof. apply consume_all_feedback_diverges; [discriminate|cbn; lia]. Defined.
