(* ===== verification/SpscQueue.v ===== *)
(** * SpscQueue: the single-producer single-consumer ring

    Models [include/footstone/spsc_queue.h].  The index type [U] is an
    unsigned type of [w] bits; indices wrap, and the comparison of [push] is
    made after integer promotion.  The ring has [2^w] cells when [U] is narrower
    than [int], so that every index names a cell; for a wider [U] the array
    length wraps to 0 ([block_cells_wide]) and the class cannot be used, so the
    theorems are about [w < 32].  The sequential
    operations implement the [BoundedQueue] interface; the concurrent queue is
    a step relation on the atomic loads and stores of one producer and one
    consumer (sequentially consistent interleaving). *)

From S2P Require Import Prelude ThreadSafeQueue.

(** [spsc_queue<T, U>]; the cells of [block_] start with the value [T] gives
    them. *)
Record spsc_queue (T : Type) := MkSpsc {
  sp_max_size_ : Z;
  sp_block_ : list T;
  sp_tail_ : Z;
  sp_head_ : Z
}.
Arguments MkSpsc {T} _ _ _ _.
Arguments sp_max_size_ {T} _.
Arguments sp_block_ {T} _.
Arguments sp_tail_ {T} _.
Arguments sp_head_ {T} _.

Section Operations.
Context {T : Type}.
(** The width of [U] and the value of an untouched cell. *)
Variables (w : Z) (blank : T).
Implicit Types q : spsc_queue T.

Definition size_limit : Z := 2 ^ w - 1.

(** The length of [block_], [size_limit + 1]: computed in [int] when [U] is
    narrower, in [U] itself, where it wraps to 0, otherwise. *)
Definition block_cells : Z := if w <? 32 then size_limit + 1 else wrap_u w (size_limit + 1).

Definition spsc_new (max_size : Z) : spsc_queue T :=
  MkSpsc max_size (replicate (Z.to_nat block_cells) blank) 0 0.

Definition spsc_empty q : bool := sp_tail_ q =? sp_head_ q.

(** [id_tail - 1]: a type narrower than [int] is promoted first, so the result
    may be -1; a wider one wraps. *)
Definition minus_one (id_tail : Z) : Z :=
  if w <? 32 then id_tail - 1 else wrap_u w (id_tail - 1).

(** The two tests of [push], on the indices it has loaded. *)
Definition spsc_full (max_size id_head id_tail : Z) : bool :=
  (id_head =? minus_one id_tail) || (max_size <=? wrap_u w (id_head - id_tail)).

Definition spsc_push (val : T) q : bool * spsc_queue T :=
  let id_head := sp_head_ q in
  let id_tail := sp_tail_ q in
  if spsc_full (sp_max_size_ q) id_head id_tail then (false, q)
  else (true, MkSpsc (sp_max_size_ q) (<[Z.to_nat id_head := val]> (sp_block_ q))
                id_tail (wrap_u w (id_head + 1))).

Definition spsc_pop q : option T * spsc_queue T :=
  let id_tail := sp_tail_ q in
  if id_tail =? sp_head_ q then (None, q)
  else (sp_block_ q !! Z.to_nat id_tail,
        MkSpsc (sp_max_size_ q) (sp_block_ q) (wrap_u w (id_tail + 1)) (sp_head_ q)).

(** [while (!push(val)) pop(popedVal);] *)
Fixpoint push_until_success (fuel : nat) (val : T) q : outcome (spsc_queue T) :=
  let '(b, q') := spsc_push val q in
  if (b : bool) then Ok q'
  else match fuel with
       | O => Fault OutOfFuel
       | S fuel => push_until_success fuel val (spsc_pop q').2
       end.
End Operations.

(** An index type as wide as [int] or wider leaves the ring without cells. *)
Lemma block_cells_wide w : 32 ≤ w → block_cells w = 0.
Proof.
  intros Hw. unfold block_cells, size_limit, wrap_u. rewrite (proj2 (Z.ltb_ge _ _)) by done.
  rewrite Z.sub_add. apply Z.mod_same. pose proof (Z.pow_pos_nonneg 2 w). lia.
Qed.

(** ** The ring as a bounded queue *)

Section Ring.
Context {T : Type}.
Variable w : Z.
Hypothesis w_pos : 0 < w.
Implicit Types q : spsc_queue T.

(** The number of elements, and the elements from tail to head. *)
Definition spsc_len q : Z := wrap_u w (sp_head_ q - sp_tail_ q).

Definition spsc_contents q : list T :=
  omap (λ i, sp_block_ q !! Z.to_nat (wrap_u w (sp_tail_ q + i))) (seqZ 0 (spsc_len q)).

(** The indices are of type [U], the block has a cell for each, and
    [max_size_] respects the documented limit. *)
Record spsc_wf q : Prop := {
  sw_block : length (sp_block_ q) = Z.to_nat (2 ^ w);
  sw_tail : 0 ≤ sp_tail_ q < 2 ^ w;
  sw_head : 0 ≤ sp_head_ q < 2 ^ w;
  sw_max : 0 ≤ sp_max_size_ q ≤ 2 ^ w - 1;
  sw_len : spsc_len q ≤ sp_max_size_ q
}.

Lemma two_w_pos : 1 < 2 ^ w.
Proof. pose proof (Z.pow_gt_1 2 w). lia. Qed.

Lemma wrap_range z : 0 ≤ wrap_u w z < 2 ^ w.
Proof. apply wrap_u_range. lia. Qed.

Lemma wrap_add z y : wrap_u w (wrap_u w z + y) = wrap_u w (z + y).
Proof. unfold wrap_u. rewrite Zplus_mod_idemp_l. done. Qed.

Lemma wrap_sub z y : wrap_u w (wrap_u w z - y) = wrap_u w (z - y).
Proof. unfold wrap_u. by rewrite Zminus_mod_idemp_l. Qed.

Lemma wrap_sub_r z y : wrap_u w (z - wrap_u w y) = wrap_u w (z - y).
Proof. unfold wrap_u. by rewrite Zminus_mod_idemp_r. Qed.

(** Two indices less than a turn apart meet the same cell only if equal. *)
Lemma wrap_inj a b : wrap_u w a = wrap_u w b → - 2 ^ w < a - b < 2 ^ w → a = b.
Proof.
  intros E Hab. pose proof two_w_pos. assert (H0 : wrap_u w (a - b) = 0).
  { rewrite <- wrap_sub, E, wrap_sub, Z.sub_diag. unfold wrap_u. apply Z.mod_0_l. lia. }
  unfold wrap_u in H0. apply Z.mod_divide in H0; [|lia]. destruct H0 as [k Hk].
  set (N := 2 ^ w) in *. assert (-1 < k) by nia. assert (k < 1) by nia. nia.
Qed.

Lemma wrap_minus_one : wrap_u w (-1) = 2 ^ w - 1.
Proof.
  pose proof two_w_pos. unfold wrap_u. rewrite <- (Z.mod_add (-1) 1) by lia.
  rewrite Z.mod_small; lia.
Qed.

(** With [max_size] within the limit the promoted comparison adds nothing to
    the test on the size. *)
Lemma spsc_full_spec max_size h t :
  0 ≤ h < 2 ^ w → 0 ≤ t < 2 ^ w → max_size ≤ 2 ^ w - 1 →
  spsc_full w max_size h t = (max_size <=? wrap_u w (h - t)).
Proof.
  intros Hh Ht Hm. unfold spsc_full. destruct (Z.eqb_spec h (minus_one w t)) as [E|]; [|done].
  cbn. symmetry. apply Z.leb_le. unfold minus_one in E.
  assert (wrap_u w (h - t) = 2 ^ w - 1); [|lia].
  destruct (w <? 32).
  - replace (h - t) with (-1) by lia. apply wrap_minus_one.
  - rewrite E, wrap_sub. replace (t - 1 - t) with (-1) by lia. apply wrap_minus_one.
Qed.

Lemma omap_lookup_total {A B} (f : A → option B) (l : list A) :
  Forall (λ a, is_Some (f a)) l → length (omap f l) = length l ∧
  ∀ i a, l !! i = Some a → omap f l !! i = f a.
Proof.
  induction 1 as [|a l [b Hb] Hl [IHl IHi]]; cbn; [done|]. rewrite Hb. cbn.
  split; [by rewrite IHl|]. intros [|i] a' Hi; cbn in *; [congruence|auto].
Qed.

Lemma spsc_cell q i : spsc_wf q → is_Some (sp_block_ q !! Z.to_nat (wrap_u w i)).
Proof.
  intros [Hb _ _ _ _]. apply lookup_lt_is_Some_2. rewrite Hb.
  pose proof (wrap_range i). lia.
Qed.

Lemma spsc_contents_spec q :
  spsc_wf q → Z.of_nat (length (spsc_contents q)) = spsc_len q ∧
  ∀ i, 0 ≤ i < spsc_len q →
    spsc_contents q !! Z.to_nat i = sp_block_ q !! Z.to_nat (wrap_u w (sp_tail_ q + i)).
Proof.
  intros Hwf. destruct (omap_lookup_total
    (λ i, sp_block_ q !! Z.to_nat (wrap_u w (sp_tail_ q + i))) (seqZ 0 (spsc_len q)))
    as [Hl Hi]. { apply Forall_forall. intros i _. by apply spsc_cell. }
  pose proof (wrap_range (sp_head_ q - sp_tail_ q)). unfold spsc_contents, spsc_len in *.
  split; [rewrite Hl, length_seqZ; lia|]. intros i Hi'. rewrite (Hi _ i); [done|].
  apply lookup_seqZ. lia.
Qed.

(** One more element fits as long as the length stays below the number of
    cells. *)
Lemma spsc_len_push h t : 0 ≤ wrap_u w (h - t) < 2 ^ w - 1 →
  wrap_u w (wrap_u w (h + 1) - t) = wrap_u w (h - t) + 1.
Proof.
  intros Hl. rewrite wrap_sub. replace (h + 1 - t) with (h - t + 1) by lia.
  rewrite <- wrap_add. rewrite wrap_u_id; lia.
Qed.

Lemma spsc_len_pop h t : 0 < wrap_u w (h - t) →
  wrap_u w (h - wrap_u w (t + 1)) = wrap_u w (h - t) - 1.
Proof.
  intros Hl. rewrite wrap_sub_r. replace (h - (t + 1)) with (h - t + -1) by lia.
  rewrite <- wrap_add. pose proof (wrap_range (h - t)). rewrite wrap_u_id; lia.
Qed.

(** Contents given by their cells. *)
Lemma spsc_contents_eq q l :
  spsc_wf q → Z.of_nat (length l) = spsc_len q →
  (∀ i, 0 ≤ i < spsc_len q →
     l !! Z.to_nat i = sp_block_ q !! Z.to_nat (wrap_u w (sp_tail_ q + i))) →
  spsc_contents q = l.
Proof.
  intros Hwf Hlen Hi. destruct (spsc_contents_spec q Hwf) as [Hl Hc]. apply list_eq. intros i.
  destruct (decide (Z.of_nat i < spsc_len q)) as [Hlt|Hge].
  - rewrite <- (Nat2Z.id i). rewrite Hc, Hi by lia. done.
  - rewrite !lookup_ge_None_2 by lia. done.
Qed.

Lemma spsc_push_spec x q :
  spsc_wf q →
  let '(b, q') := spsc_push w x q in
  b = (spsc_len q <? sp_max_size_ q) ∧ spsc_wf q' ∧ sp_max_size_ q' = sp_max_size_ q ∧
  spsc_contents q' = if b then spsc_contents q ++ [x] else spsc_contents q.
Proof.
  intros Hwf. pose proof Hwf as [Hb Ht Hh Hm Hl]. pose proof two_w_pos as H2.
  unfold spsc_push. rewrite spsc_full_spec by (done || lia). unfold spsc_len in *.
  pose proof (wrap_range (sp_head_ q - sp_tail_ q)) as Hr.
  destruct (Z.leb_spec (sp_max_size_ q) (wrap_u w (sp_head_ q - sp_tail_ q))) as [Hfull|Hroom];
    [by rewrite (proj2 (Z.ltb_ge _ _))|].
  set (q' := MkSpsc _ _ _ _). split; [symmetry; apply Z.ltb_lt; lia|].
  assert (Hlen' : spsc_len q' = spsc_len q + 1).
  { unfold spsc_len, q'. cbn. apply spsc_len_push. lia. }
  assert (Hwf' : spsc_wf q').
  { split; cbn; [by rewrite length_insert|done|apply wrap_range|done|].
    rewrite Hlen'. unfold spsc_len. lia. }
  split; [done|]. split; [done|]. destruct (spsc_contents_spec q Hwf) as [Hlc Hc].
  apply spsc_contents_eq; [done|rewrite length_app; cbn; lia|].
  rewrite Hlen'. intros i Hi. cbn.
  assert (Hhead : wrap_u w (sp_tail_ q + spsc_len q) = sp_head_ q).
  { unfold spsc_len. rewrite Z.add_comm, wrap_add. replace (sp_head_ q - sp_tail_ q + sp_tail_ q)
      with (sp_head_ q) by lia. by apply wrap_u_id. }
  destruct (decide (i = spsc_len q)) as [->|Hne].
  - rewrite Hhead, list_lookup_insert_eq by (rewrite Hb; lia).
    apply list_lookup_middle. lia.
  - rewrite lookup_app_l by lia. rewrite Hc by lia. rewrite list_lookup_insert_ne; [done|].
    intros E. apply Hne. pose proof (wrap_range (sp_tail_ q + i)).
    assert (Ew : wrap_u w (sp_tail_ q + i) = wrap_u w (sp_tail_ q + spsc_len q)) by lia.
    apply wrap_inj in Ew; unfold spsc_len in *; lia.
Qed.

Lemma spsc_pop_spec q :
  spsc_wf q →
  let '(o, q') := spsc_pop w q in
  o = head (spsc_contents q) ∧ spsc_wf q' ∧ sp_max_size_ q' = sp_max_size_ q ∧
  spsc_contents q' = tail (spsc_contents q).
Proof.
  intros Hwf. pose proof Hwf as [Hb Ht Hh Hm Hl]. pose proof two_w_pos as H2.
  destruct (spsc_contents_spec q Hwf) as [Hlc Hc]. unfold spsc_pop.
  pose proof (wrap_range (sp_head_ q - sp_tail_ q)) as Hr.
  destruct (Z.eqb_spec (sp_tail_ q) (sp_head_ q)) as [E|Hne].
  - assert (Hnil : spsc_contents q = []).
    { destruct (spsc_contents q); [done|]. cbn in Hlc. unfold spsc_len in Hlc.
      rewrite E, Z.sub_diag, wrap_u_id in Hlc; lia. }
    by rewrite Hnil.
  - assert (Hpos : 0 < spsc_len q).
    { unfold spsc_len. destruct (decide (wrap_u w (sp_head_ q - sp_tail_ q) = 0)) as [E0|]; [|lia].
      destruct Hne. symmetry. apply wrap_inj; [|lia].
      replace (sp_head_ q) with (sp_head_ q - sp_tail_ q + sp_tail_ q) by lia.
      by rewrite <- wrap_add, E0. }
    set (q' := MkSpsc _ _ _ _).
    assert (Hlen' : spsc_len q' = spsc_len q - 1).
    { unfold spsc_len, q' in *. cbn. by apply spsc_len_pop. }
    assert (Hwf' : spsc_wf q').
    { split; cbn; [done|apply wrap_range|done|done|]. rewrite Hlen'. lia. }
    destruct (spsc_contents q) as [|x l] eqn:El; [cbn in Hlc; lia|]. cbn [head tail].
    split; [|split; [done|split; [done|]]].
    + specialize (Hc 0 ltac:(lia)). cbn in Hc. rewrite Z.add_0_r, wrap_u_id in Hc by lia. done.
    + apply spsc_contents_eq; [done|cbn in Hlc; lia|]. rewrite Hlen'. intros i Hi. cbn.
      rewrite wrap_add. replace (sp_tail_ q + 1 + i) with (sp_tail_ q + (i + 1)) by lia.
      rewrite <- Hc by lia. by replace (Z.to_nat (i + 1)) with (S (Z.to_nat i)) by lia.
Qed.

Lemma spsc_empty_spec q : spsc_wf q → spsc_empty q = bool_decide (spsc_contents q = []).
Proof.
  intros Hwf. pose proof (spsc_pop_spec q Hwf) as Hp. pose proof two_w_pos.
  destruct (spsc_contents_spec q Hwf) as [Hlc _]. unfold spsc_empty, spsc_pop in *.
  destruct (Z.eqb_spec (sp_tail_ q) (sp_head_ q)) as [E|Hne].
  - rewrite bool_decide_true; [done|]. destruct (spsc_contents q); [done|].
    cbn in Hlc. unfold spsc_len in Hlc. rewrite E, Z.sub_diag, wrap_u_id in Hlc; lia.
  - rewrite bool_decide_false; [done|]. intros E. rewrite E in Hp. cbn in Hp.
    destruct Hp as [Hn _]. destruct (spsc_cell q (sp_tail_ q) Hwf) as [x Hx].
    rewrite wrap_u_id in Hx by apply Hwf. congruence.
Qed.
End Ring.

Definition spsc_bounded_queue (T : Type) (w : Z) : BoundedQueue T (spsc_queue T) :=
  {| bq_push := spsc_push w; bq_pop := spsc_pop w; bq_empty := spsc_empty |}.

Section Sequential.
Context {T : Type}.
Variable w : Z.
Hypothesis w_pos : 0 < w.
Hypothesis w_narrow : w < 32.
Variable blank : T.
Implicit Types q : spsc_queue T.
#[local] Instance spsc_ring : BoundedQueue T (spsc_queue T) := spsc_bounded_queue T w.

Lemma spsc_laws : BoundedQueueLaws T (spsc_queue T) (spsc_wf w) (spsc_contents w) sp_max_size_.
Proof.
  split; cbn.
  - intros x q Hwf. pose proof (spsc_push_spec w w_pos x q Hwf) as Hp.
    destruct (spsc_push w x q). tauto.
  - intros x q. unfold spsc_push. by destruct (spsc_full _ _ _ _).
  - intros x q Hwf. pose proof (spsc_push_spec w w_pos x q Hwf) as Hp.
    destruct (spsc_contents_spec w w_pos q Hwf) as [Hl _]. rewrite Hl.
    destruct (spsc_push w x q). cbn. tauto.
  - intros q Hwf. pose proof (spsc_pop_spec w w_pos q Hwf) as Hp. destruct (spsc_pop w q). tauto.
  - intros q. unfold spsc_pop. by destruct (_ =? _).
  - intros q Hwf. pose proof (spsc_pop_spec w w_pos q Hwf) as Hp. destruct (spsc_pop w q).
    cbn. tauto.
  - intros q Hwf. by apply spsc_empty_spec.
Qed.

Lemma block_cells_narrow : block_cells w = 2 ^ w.
Proof. unfold block_cells, size_limit. rewrite (proj2 (Z.ltb_lt _ _)) by done. lia. Qed.

Lemma spsc_new_wf max_size : 0 ≤ max_size ≤ 2 ^ w - 1 → spsc_wf w (spsc_new w blank max_size).
Proof.
  intros Hm. pose proof (two_w_pos w w_pos). split; cbn; try lia.
  - by rewrite length_replicate, block_cells_narrow.
  - unfold spsc_len. cbn. rewrite wrap_u_id; lia.
Qed.

Lemma spsc_new_contents max_size : spsc_contents w (spsc_new w blank max_size) = [].
Proof.
  pose proof (two_w_pos w w_pos). unfold spsc_contents, spsc_len.
  change (sp_head_ _ - sp_tail_ _) with 0. by rewrite (wrap_u_id w 0) by lia.
Qed.

(** C23. Used by one thread at a time, the ring is a bounded FIFO: with
    [max_size] within the documented limit of [2^w - 1], any sequence of
    [push], [pop] and [empty] on a new ring gets the answers of a list bounded
    by [max_size], across any number of wrap-arounds of the indices. *)
Theorem spsc_refines_fifo (cs : list (queue_call T)) max_size
    (Hm : 0 ≤ max_size ≤ 2 ^ w - 1) :
  (run_calls (Qt := spsc_queue T) cs (spsc_new w blank max_size)).1 =
  (run_calls cs (([], max_size) : spec_queue T)).1.
Proof.
  pose proof (@run_calls_refines _ _ _ _ _ _ spsc_laws cs _ (spsc_new_wf max_size Hm)) as R.
  rewrite spsc_new_contents in R. destruct (run_calls cs (spsc_new w blank max_size)) as [l q'].
  destruct R as [R _]. cbn [fst]. change (sp_max_size_ (spsc_new w blank max_size)) with max_size in R.
  by rewrite R.
Qed.

(** Push a list of values, keeping the answers. *)
Fixpoint push_all (l : list T) q : list bool * spsc_queue T :=
  match l with
  | [] => ([], q)
  | x :: l => let '(b, q) := spsc_push w x q in
              let '(bs, q) := push_all l q in (b :: bs, q)
  end.

(** With an index narrower than [int] and a [max_size] above the limit the
    ring loses a full turn: the promoted [id_tail - 1] is -1, which no index
    equals, and the wrapped difference never reaches [max_size], so [2^w]
    pushes all report success and leave the head back at the tail — an empty
    queue. *)
Theorem spsc_oversized_loses_everything (l : list T) max_size
    (Hm : 2 ^ w ≤ max_size) (Hl : Z.of_nat (length l) = 2 ^ w) :
  let '(bs, q) := push_all l (spsc_new w blank max_size) in
  Forall (λ b, b = true) bs ∧ length bs = length l ∧
  spsc_empty q = true ∧ (spsc_pop w q).1 = None.
Proof.
  pose proof (two_w_pos w w_pos).
  assert (Hgen : ∀ l h b, 0 ≤ h → h + Z.of_nat (length l) ≤ 2 ^ w →
    ∃ bs b', push_all l (MkSpsc max_size b 0 (wrap_u w h)) =
      (bs, MkSpsc max_size b' 0 (wrap_u w (h + Z.of_nat (length l)))) ∧
      Forall (λ b, b = true) bs ∧ length bs = length l).
  { clear l Hl. induction l as [|x l IH]; intros h b Hh Hb; cbn [push_all length].
    - rewrite Z.add_0_r. eauto.
    - assert (Hnot : spsc_full w max_size (wrap_u w h) 0 = false).
      { unfold spsc_full, minus_one. rewrite (proj2 (Z.ltb_lt _ _) w_narrow).
        pose proof (wrap_range w w_pos h). rewrite wrap_sub, Z.sub_0_r by done.
        destruct (Z.eqb_spec (wrap_u w h) (0 - 1)), (Z.leb_spec max_size (wrap_u w h)); lia || done. }
      unfold spsc_push. cbn [sp_max_size_ sp_head_ sp_tail_]. rewrite Hnot.
      rewrite wrap_add by done. cbn [length] in Hb.
      destruct (IH (h + 1) (<[Z.to_nat (wrap_u w h) := x]> b)) as (bs & b' & E & Ht & Hlen); [lia|lia|].
      cbn [sp_block_] in *. rewrite E. exists (true :: bs), b'.
      replace (h + Z.of_nat (S (length l))) with (h + 1 + Z.of_nat (length l)) by lia.
      split; [done|]. split; [by constructor|]. cbn. lia. }
  destruct (Hgen l 0 (replicate (Z.to_nat (block_cells w)) blank)) as (bs & b' & E & Ht & Hlen);
    [lia|lia|]. unfold spsc_new. rewrite (wrap_u_id w 0) in E by lia. rewrite E, Z.add_0_l, Hl.
  assert (H0 : wrap_u w (2 ^ w) = 0) by (unfold wrap_u; apply Z.mod_same; lia).
  rewrite H0. done.
Qed.

(** [push_until_success] on a ring of capacity at least one always ends,
    after at most one eviction: it appends the value, dropping the oldest
    element exactly when the ring was full. *)
Theorem push_until_success_spec x q (Hwf : spsc_wf w q) (Hm : 1 ≤ sp_max_size_ q) :
  ∃ q', push_until_success w 1 x q = Ok q' ∧ spsc_wf w q' ∧
    spsc_contents w q' =
      (if spsc_len w q <? sp_max_size_ q then spsc_contents w q
       else tail (spsc_contents w q)) ++ [x].
Proof.
  cbn [push_until_success]. pose proof (spsc_push_spec w w_pos x q Hwf) as Hp.
  destruct (spsc_push w x q) as [b q1] eqn:E1. destruct Hp as (Hb & Hwf1 & Hmax & Hc).
  rewrite Hb in *. destruct (spsc_len w q <? sp_max_size_ q) eqn:Elt; [eauto|].
  assert (q1 = q) as ->.
  { unfold spsc_push in E1. destruct (spsc_full _ _ _ _); [by injection E1 as <-|discriminate]. }
  apply Z.ltb_ge in Elt. pose proof (spsc_pop_spec w w_pos q Hwf) as Hpop.
  destruct (spsc_pop w q) as [o q2]. cbn [snd]. destruct Hpop as (_ & Hwf2 & Hmax2 & Hc2).
  pose proof (spsc_push_spec w w_pos x q2 Hwf2) as Hp2.
  destruct (spsc_push w x q2) as [b2 q3]. destruct Hp2 as (Hb2 & Hwf3 & _ & Hc3).
  assert (Ht : b2 = true).
  { rewrite Hb2. apply Z.ltb_lt. destruct (spsc_contents_spec w w_pos q Hwf) as [Hl _].
    destruct (spsc_contents_spec w w_pos q2 Hwf2) as [Hl2 _]. rewrite Hc2 in Hl2.
    rewrite Hmax2. pose proof (sw_len _ _ Hwf). destruct (spsc_contents w q); cbn in *; lia. }
  rewrite Ht in *. exists q3. split; [done|]. split; [done|]. by rewrite Hc3, Hc2.
Qed.

(** With [max_size] 0 [push_until_success] never ends. *)
Theorem push_until_success_zero_diverges x fuel q (Hwf : spsc_wf w q) (Hm : sp_max_size_ q = 0) :
  push_until_success w fuel x q = Fault OutOfFuel.
Proof.
  revert q Hwf Hm. induction fuel as [|fuel IH]; intros q Hwf Hm; cbn [push_until_success];
    pose proof (spsc_push_spec w w_pos x q Hwf) as Hp;
    destruct (spsc_push w x q) as [b q1]; destruct Hp as (Hb & Hwf1 & Hmax & _);
    pose proof (wrap_range w w_pos (sp_head_ q - sp_tail_ q));
    (rewrite (proj2 (Z.ltb_ge _ _)) in Hb by (unfold spsc_len; lia)); rewrite Hb; [done|].
  pose proof (spsc_pop_spec w w_pos q1 Hwf1) as Hpop. destruct (spsc_pop w q1) as [o q2].
  destruct Hpop as (_ & Hwf2 & Hmax2 & _). apply IH; [done|cbn; congruence].
Qed.
End Sequential.

(** ** One producer and one consumer *)

Module Interleaving.

(** The producer inside [push val]: indices loaded ([id_tail] may be out of
    date by the time it is used), test passed, cell written. *)
Inductive producer (T : Type) :=
  | PIdle
  | PLoaded (val : T) (id_tail : Z)
  | PChecked (val : T)
  | PWritten (val : T).
Arguments PIdle {T}.
Arguments PLoaded {T} _ _.
Arguments PChecked {T} _.
Arguments PWritten {T} _.

(** The consumer inside [pop]: head loaded, test passed, cell read. *)
Inductive consumer (T : Type) :=
  | CIdle
  | CLoaded (id_head : Z)
  | CReady
  | CRead (val : T).
Arguments CIdle {T}.
Arguments CLoaded {T} _.
Arguments CReady {T}.
Arguments CRead {T} _.

(** The shared ring, the two threads, and what has been pushed (each value at
    the moment its [push] publishes it) and popped so far. *)
Record state (T : Type) := MkState {
  st_ring : spsc_queue T;
  st_producer : producer T;
  st_consumer : consumer T;
  st_pushed : list T;
  st_popped : list T
}.
Arguments MkState {T} _ _ _ _ _.
Arguments st_ring {T} _.
Arguments st_producer {T} _.
Arguments st_consumer {T} _.
Arguments st_pushed {T} _.
Arguments st_popped {T} _.

Section Steps.
Context {T : Type}.
Variable w : Z.

Definition set_block (b : list T) (q : spsc_queue T) : spsc_queue T :=
  MkSpsc (sp_max_size_ q) b (sp_tail_ q) (sp_head_ q).
Definition set_tail (t : Z) (q : spsc_queue T) : spsc_queue T :=
  MkSpsc (sp_max_size_ q) (sp_block_ q) t (sp_head_ q).
Definition set_head (h : Z) (q : spsc_queue T) : spsc_queue T :=
  MkSpsc (sp_max_size_ q) (sp_block_ q) (sp_tail_ q) h.

(** Each constructor is one access to the shared memory, or a test on values
    already loaded. *)
Inductive step : state T → state T → Prop :=
  | PushLoad q c i o val :
      step (MkState q PIdle c i o) (MkState q (PLoaded val (sp_tail_ q)) c i o)
  | PushFull q c i o val t :
      spsc_full w (sp_max_size_ q) (sp_head_ q) t = true →
      step (MkState q (PLoaded val t) c i o) (MkState q PIdle c i o)
  | PushCheck q c i o val t :
      spsc_full w (sp_max_size_ q) (sp_head_ q) t = false →
      step (MkState q (PLoaded val t) c i o) (MkState q (PChecked val) c i o)
  | PushWrite q c i o val :
      step (MkState q (PChecked val) c i o)
           (MkState (set_block (<[Z.to_nat (sp_head_ q) := val]> (sp_block_ q)) q)
              (PWritten val) c i o)
  | PushPublish q c i o val :
      step (MkState q (PWritten val) c i o)
           (MkState (set_head (wrap_u w (sp_head_ q + 1)) q) PIdle c (i ++ [val]) o)
  | PopLoad q p i o :
      step (MkState q p CIdle i o) (MkState q p (CLoaded (sp_head_ q)) i o)
  | PopEmpty q p i o :
      step (MkState q p (CLoaded (sp_tail_ q)) i o) (MkState q p CIdle i o)
  | PopCheck q p i o h :
      sp_tail_ q ≠ h →
      step (MkState q p (CLoaded h) i o) (MkState q p CReady i o)
  | PopRead q p i o val :
      sp_block_ q !! Z.to_nat (sp_tail_ q) = Some val →
      step (MkState q p CReady i o) (MkState q p (CRead val) i o)
  | PopPublish q p i o val :
      step (MkState q p (CRead val) i o)
           (MkState (set_tail (wrap_u w (sp_tail_ q + 1)) q) p CIdle i (o ++ [val])).

Variable blank : T.

Definition init (max_size : Z) : state T := MkState (spsc_new w blank max_size) PIdle CIdle [] [].

Variable max_size : Z.
Hypothesis w_pos : 0 < w.
Hypothesis w_narrow : w < 32.
Hypothesis max_ok : 0 ≤ max_size ≤ 2 ^ w - 1.

Notation H s := (Z.of_nat (length (st_pushed s))).
Notation D s := (Z.of_nat (length (st_popped s))).

(** The indices are the numbers of values published and taken, modulo the
    ring; the cells in between hold the values in flight. *)
Record inv (s : state T) : Prop := {
  in_max : sp_max_size_ (st_ring s) = max_size;
  in_block : length (sp_block_ (st_ring s)) = Z.to_nat (2 ^ w);
  in_head : sp_head_ (st_ring s) = wrap_u w (H s);
  in_tail : sp_tail_ (st_ring s) = wrap_u w (D s);
  in_bounds : D s ≤ H s ≤ D s + max_size;
  in_prefix : st_popped s = take (length (st_popped s)) (st_pushed s);
  in_cells : ∀ i, (length (st_popped s) ≤ i < length (st_pushed s))%nat →
    sp_block_ (st_ring s) !! Z.to_nat (wrap_u w (Z.of_nat i)) = st_pushed s !! i;
  in_producer : match st_producer s with
    | PIdle => True
    | PLoaded _ t => ∃ d, 0 ≤ d ≤ D s ∧ t = wrap_u w d ∧ H s ≤ d + max_size
    | PChecked _ => H s < D s + max_size
    | PWritten val => H s < D s + max_size ∧
        sp_block_ (st_ring s) !! Z.to_nat (sp_head_ (st_ring s)) = Some val
    end;
  in_consumer : match st_consumer s with
    | CIdle => True
    | CLoaded h => ∃ n, D s ≤ n ≤ H s ∧ h = wrap_u w n
    | CReady => D s < H s
    | CRead val => st_pushed s !! length (st_popped s) = Some val
    end
}.

Lemma inv_init : inv (init max_size).
Proof.
  pose proof (two_w_pos w w_pos). split; cbn; try done; try lia.
  by rewrite length_replicate, (block_cells_narrow w w_narrow).
Qed.

Lemma inv_push_check q c i o val t :
  inv (MkState q (PLoaded val t) c i o) →
  spsc_full w (sp_max_size_ q) (sp_head_ q) t = false → inv (MkState q (PChecked val) c i o).
Proof.
  intros [I1 I2 I3 I4 I5 I6 I7 (d & Hd & -> & Hm) I9] Hf. cbn in *.
  pose proof (two_w_pos w w_pos). split; cbn; auto.
  rewrite I1, I3, spsc_full_spec in Hf by (apply wrap_range || lia; done).
  apply Z.leb_gt in Hf. rewrite wrap_sub, wrap_sub_r in Hf by done.
  rewrite wrap_u_id in Hf by lia. lia.
Qed.

Lemma inv_push_write q c i o val :
  inv (MkState q (PChecked val) c i o) →
  inv (MkState (set_block (<[Z.to_nat (sp_head_ q) := val]> (sp_block_ q)) q)
         (PWritten val) c i o).
Proof.
  intros [I1 I2 I3 I4 I5 I6 I7 I8 I9]. cbn in *. pose proof (two_w_pos w w_pos).
  pose proof (wrap_range w w_pos (Z.of_nat (length i))).
  split; cbn; auto.
  - by rewrite length_insert.
  - intros j Hj. rewrite list_lookup_insert_ne; [by apply I7|]. rewrite I3. intros E.
    pose proof (wrap_range w w_pos (Z.of_nat j)).
    assert (Ew : wrap_u w (Z.of_nat (length i)) = wrap_u w (Z.of_nat j)) by lia.
    apply (wrap_inj w w_pos) in Ew; lia.
  - split; [done|]. apply list_lookup_insert_eq. rewrite I2, I3. lia.
Qed.

Lemma inv_push_publish q c i o val :
  inv (MkState q (PWritten val) c i o) →
  inv (MkState (set_head (wrap_u w (sp_head_ q + 1)) q) PIdle c (i ++ [val]) o).
Proof.
  intros [I1 I2 I3 I4 I5 I6 I7 [I8 Hcell] I9]. cbn in *.
  assert (Hlen : Z.of_nat (length (i ++ [val])) = Z.of_nat (length i) + 1)
    by (rewrite length_app; cbn; lia).
  split; cbn; rewrite ?Hlen; auto; try lia.
  - by rewrite I3, wrap_add.
  - rewrite take_app_le by lia. done.
  - intros j Hj. rewrite length_app in Hj. cbn in Hj.
    destruct (decide (j = length i)) as [->|Hne].
    + rewrite <- I3, Hcell. symmetry. by apply list_lookup_middle.
    + rewrite lookup_app_l by lia. apply I7. lia.
  - destruct c as [|h| |v]; auto.
    + destruct I9 as (n & Hn & ->). exists n. split; [lia|done].
    + lia.
    + by apply lookup_app_l_Some.
Qed.

Lemma inv_pop_read q p i o val :
  inv (MkState q p CReady i o) → sp_block_ q !! Z.to_nat (sp_tail_ q) = Some val →
  inv (MkState q p (CRead val) i o).
Proof.
  intros [I1 I2 I3 I4 I5 I6 I7 I8 I9] Hv. cbn in *. split; cbn; auto.
  rewrite I4, I7 in Hv by lia. done.
Qed.

Lemma inv_pop_publish q p i o val :
  inv (MkState q p (CRead val) i o) →
  inv (MkState (set_tail (wrap_u w (sp_tail_ q + 1)) q) p CIdle i (o ++ [val])).
Proof.
  intros [I1 I2 I3 I4 I5 I6 I7 I8 I9]. cbn in *.
  pose proof (lookup_lt_Some _ _ _ I9) as Hlt.
  assert (Hlen : Z.of_nat (length (o ++ [val])) = Z.of_nat (length o) + 1)
    by (rewrite length_app; cbn; lia).
  split; cbn; rewrite ?Hlen; auto; try lia.
  - by rewrite I4, wrap_add.
  - rewrite length_app. cbn. rewrite Nat.add_1_r, (take_S_r _ _ _ I9). by rewrite <- I6.
  - intros j Hj. apply I7. rewrite length_app in Hj. cbn in Hj. lia.
  - destruct p as [|v t|v|v]; auto.
    + destruct I8 as (d & Hd & -> & Hm). exists d. split; [lia|done].
    + lia.
    + split; [lia|tauto].
Qed.

Lemma inv_step s s' : step s s' → inv s → inv s'.
Proof.
  intros Hs Hi. destruct Hs as
    [q c i o val|q c i o val t Hf|q c i o val t Hf|q c i o val|q c i o val
    |q p i o|q p i o|q p i o h Hne|q p i o val Hv|q p i o val].
  - destruct Hi as [I1 I2 I3 I4 I5 I6 I7 I8 I9]. cbn in *. split; cbn; auto.
    exists (Z.of_nat (length o)). split; [lia|]. split; [done|lia].
  - destruct Hi as [I1 I2 I3 I4 I5 I6 I7 I8 I9]. by split.
  - by eapply inv_push_check.
  - by apply inv_push_write.
  - by apply inv_push_publish.
  - destruct Hi as [I1 I2 I3 I4 I5 I6 I7 I8 I9]. cbn in *. split; cbn; auto.
    exists (Z.of_nat (length i)). split; [lia|done].
  - destruct Hi as [I1 I2 I3 I4 I5 I6 I7 I8 I9]. by split.
  - destruct Hi as [I1 I2 I3 I4 I5 I6 I7 I8 (n & Hn & ->)]. cbn in *. split; cbn; auto.
    rewrite I4 in Hne. destruct (decide (n = Z.of_nat (length o))) as [->|]; [done|lia].
  - by eapply inv_pop_read.
  - by apply inv_pop_publish.
Qed.

(** C12. The ring is correct under any interleaving of one producer and one
    consumer: with [max_size] within the limit, what has been popped is always
    a prefix of what has been pushed — nothing lost, duplicated, reordered or
    read before it was written — and never more than [max_size] values are in
    flight. *)
Theorem spsc_concurrent_fifo s (Hreach : rtc step (init max_size) s) :
  st_popped s `prefix_of` st_pushed s ∧
  (length (st_popped s) ≤ length (st_pushed s))%nat ∧
  Z.of_nat (length (st_pushed s)) ≤ Z.of_nat (length (st_popped s)) + max_size ∧
  ∀ val, st_consumer s = CRead val → st_pushed s !! length (st_popped s) = Some val.
Proof.
  assert (Hinv : inv s).
  { assert (∀ s1 s2, rtc step s1 s2 → inv s1 → inv s2) as Hgen.
    { induction 1; eauto using inv_step. }
    eapply Hgen; [exact Hreach|apply inv_init]. }
  destruct Hinv as [_ _ _ _ Hb Hp _ _ Hc]. split; [|split; [lia|split; [lia|]]].
  - rewrite Hp. apply prefix_take.
  - intros val E. by rewrite E in Hc.
Qed.
End Steps.

(** One value published. *)
Definition sample_state : state Z :=
  let q := spsc_new 8 0 1 in
  MkState (set_head (wrap_u 8 (sp_head_ q + 1)) (set_block (<[0%nat := 7]> (sp_block_ q)) q))
    PIdle CIdle ([] ++ [7]) [].

Lemma sample_trace : rtc (step 8) (init 8 0 1) sample_state.
Proof.
  eapply rtc_l; [apply (PushLoad 8 _ _ _ _ 7)|]. eapply rtc_l; [apply PushCheck; reflexivity|].
  eapply rtc_l; [apply PushWrite|]. eapply rtc_l; [apply PushPublish|]. apply rtc_refl.
Qed.

Lemma spsc_concurrent_fifo_witness :
  st_pushed sample_state = [7] ∧ st_popped sample_state `prefix_of` [7].
Proof.
  split; [reflexivity|].
  exact (proj1 (spsc_concurrent_fifo 8 0 1 ltac:(lia) ltac:(lia) ltac:(lia) sample_state sample_trace)).
Defined.
End Interleaving.

Lemma spsc_refines_fifo_witness :
  (run_calls (H := spsc_bounded_queue Z 8) [CallPush 3; CallPush 4; CallPop; CallEmpty]
     (spsc_new 8 0 1)).1 = [AnsBool true; AnsBool false; AnsPop (Some 3); AnsBool true].
Proof.
  etransitivity;
  [exact (spsc_refines_fifo 8 ltac:(lia) ltac:(lia) 0 [CallPush 3; CallPush 4; CallPop; CallEmpty] 1
    ltac:(lia))|reflexivity].
Defined.

Lemma spsc_oversized_loses_everything_witness :
  let '(bs, q) := push_all 8 (replicate 256 tt) (spsc_new 8 tt 256) in
  length bs = 256%nat ∧ spsc_empty q = true.
Proof.
  pose proof (spsc_oversized_loses_everything 8 ltac:(lia) ltac:(lia) tt (replicate 256 tt)
    256 ltac:(lia) ltac:(reflexivity)) as Hlost.
  destruct (push_all 8 (replicate 256 tt) (spsc_new 8 tt 256)) as [bs q].
  destruct Hlost as (_ & Hl & He & _). split; [exact Hl|exact He].
Defined.

Lemma push_until_success_spec_witness :
  let q := (spsc_push 8 5 (spsc_new 8 0 1)).2 in
  ∃ q', push_until_success 8 1 6 q = Ok q' ∧ spsc_contents 8 q' = [6].
Proof.
  cbv zeta. pose proof (spsc_push_spec 8 ltac:(lia) 5 (spsc_new 8 0 1)
    (spsc_new_wf 8 ltac:(lia) ltac:(lia) 0 1 ltac:(lia))) as Hp.
  destruct (push_until_success_spec 8 ltac:(lia) 6 (spsc_push 8 5 (spsc_new 8 0 1)).2)
    as (q' & E & _ & Hc).
  - change (spsc_push 8 5 (spsc_new 8 0 1)) with (true, (spsc_push 8 5 (spsc_new 8 0 1)).2) in Hp.
    exact (proj1 (proj2 Hp)).
  - vm_compute. discriminate.
  - exists q'. split; [exact E|]. rewrite Hc. vm_compute. reflexivity.
Defined.

Lemma push_until_success_zero_diverges_witness :
  push_until_success 8 100 5 (spsc_new 8 0 0) = Fault OutOfFuel.
Proof.
  apply push_until_success_zero_diverges; [lia|apply spsc_new_wf; lia|reflexivity].
Defined.
