(* ===== verification/Threads.v ===== *)
(** * Threads: calls of a queue interleaved by a schedule

    What the lock-free containers share: a call is a sequence of atomic steps
    of a machine ([pc] is where it stands), a thread makes calls one after the
    other and notes their answers, and a schedule says which thread takes the
    next step.  A schedule entry also says whether a weak compare-exchange
    made by that step fails spuriously. *)

From S2P Require Import Prelude ThreadSafeQueue.

(** A machine: the steps of a call on a shared state [St]. *)
Record machine (T PC St : Type) := MkMachine {
  mc_start : queue_call T → PC;
  mc_step : bool → PC → St → outcome (PC * St);
  mc_answer : queue_call T → PC → option (queue_answer T)   (* [None]: still running *)
}.
Arguments MkMachine {T PC St} _ _ _.
Arguments mc_start {T PC St} _ _.
Arguments mc_step {T PC St} _ _ _ _.
Arguments mc_answer {T PC St} _ _ _.

(** A thread: the call it is in, the calls still to make, the answers so
    far. *)
Record thread (T PC : Type) := MkThread {
  th_call : option (queue_call T * PC);
  th_todo : list (queue_call T);
  th_answers : list (queue_answer T)
}.
Arguments MkThread {T PC} _ _ _.
Arguments th_call {T PC} _.
Arguments th_todo {T PC} _.
Arguments th_answers {T PC} _.

Record system (T PC St : Type) := MkSystem {
  sys_queue : St;
  sys_threads : list (thread T PC)
}.
Arguments MkSystem {T PC St} _ _.
Arguments sys_queue {T PC St} _.
Arguments sys_threads {T PC St} _.

Section System.
Context {T PC St : Type} (m : machine T PC St).

(** One step of a thread: make the next call, or take one step of the current
    one and note its answer when it returns. *)
Definition thread_step (spurious : bool) (t : thread T PC) (q : St) : outcome (thread T PC * St) :=
  match th_call t with
  | None =>
      match th_todo t with
      | [] => Ok (t, q)
      | c :: todo => Ok (MkThread (Some (c, mc_start m c)) todo (th_answers t), q)
      end
  | Some (c, pc) =>
      let! '(pc, q) := mc_step m spurious pc q in
      match mc_answer m c pc with
      | Some a => Ok (MkThread None (th_todo t) (th_answers t ++ [a]), q)
      | None => Ok (MkThread (Some (c, pc)) (th_todo t) (th_answers t), q)
      end
  end.

Definition sys_step (e : nat * bool) (s : system T PC St) : outcome (system T PC St) :=
  match sys_threads s !! e.1 with
  | None => Ok s
  | Some t => let! '(t, q) := thread_step e.2 t (sys_queue s) in
              Ok (MkSystem q (<[e.1 := t]> (sys_threads s)))
  end.

Fixpoint run_schedule (sched : list (nat * bool)) (s : system T PC St) : outcome (system T PC St) :=
  match sched with
  | [] => Ok s
  | e :: sched => let! s := sys_step e s in run_schedule sched s
  end.

Definition start (q : St) (programs : list (list (queue_call T))) : system T PC St :=
  MkSystem q ((λ p, MkThread None p []) <$> programs).

(** A call running alone. *)
Fixpoint call_alone (fuel : nat) (c : queue_call T) (pc : PC) (q : St) :
    outcome (queue_answer T * St) :=
  match mc_answer m c pc with
  | Some a => Ok (a, q)
  | None => match fuel with
            | O => Fault OutOfFuel
            | S fuel => let! '(pc, q) := mc_step m false pc q in call_alone fuel c pc q
            end
  end.

(** Calls made one after the other, [fuel] steps being enough for each. *)
Fixpoint calls_alone (fuel : nat) (cs : list (queue_call T)) (q : St) :
    outcome (list (queue_answer T) * St) :=
  match cs with
  | [] => Ok ([], q)
  | c :: cs => let! '(a, q) := call_alone fuel c (mc_start m c) q in
               let! '(l, q) := calls_alone fuel cs q in Ok (a :: l, q)
  end.

(** *** What threads were told *)

Definition answers (s : system T PC St) (i : nat) : list (queue_answer T) :=
  default [] (th_answers <$> sys_threads s !! i).

(** What the pops of a thread delivered, and the pushes it saw succeed. *)
Definition delivered (s : system T PC St) (i : nat) : list T :=
  omap (λ a, match a with AnsPop o => o | _ => None end) (answers s i).
Definition accepted (s : system T PC St) (i : nat) : nat :=
  length (filter (λ b, b = true)
    (omap (λ a, match a with AnsBool b => Some b | _ => None end) (answers s i))).

Lemma call_alone_step fuel c pc pc' q q' :
  mc_answer m c pc = None → mc_step m false pc q = Ok (pc', q') →
  call_alone (S fuel) c pc q = call_alone fuel c pc' q'.
Proof. intros Ha Hs. cbn. by rewrite Ha, Hs. Qed.

Lemma call_alone_answer fuel c pc a q : mc_answer m c pc = Some a → call_alone fuel c pc q = Ok (a, q).
Proof. intros Ha. destruct fuel; cbn; by rewrite Ha. Qed.
End System.
Arguments call_alone : simpl never.
