(* ===== verification/MpmcQueue.v ===== *)
(** * MpmcQueue: the multi-producer multi-consumer ring

    Models [include/footstone/mpmc_queue.h], which extends the ring of
    SpscQueue.v with a flag per cell and a second write index [flag_].  A call
    is a thread of atomic steps ([mpc], one constructor per point between two
    accesses to shared memory), so the same definition serves a call made
    alone, shown to implement the [BoundedQueue] interface, and any number of
    calls interleaved by a schedule (sequentially consistent; a weak
    compare-exchange may fail spuriously). *)

From S2P Require Import Prelude ThreadSafeQueue SpscQueue Threads.

(** [std::numeric_limits<std::uint64_t>::max()] *)
Definition invalid_index : Z := 2 ^ 64 - 1.

(** [rnode]: the data and its flag. *)
Abbreviation rnode T := (T * Z)%type (only parsing).

Record mpmc_queue (T : Type) := MkMpmc {
  mq_ring : spsc_queue (rnode T);
  mq_flag_ : Z
}.
Arguments MkMpmc {T} _ _.
Arguments mq_ring {T} _.
Arguments mq_flag_ {T} _.

(** Where a call of [push] or [pop] stands; the arguments are its local
    variables. *)
Inductive mpc (T : Type) :=
  | PushStart (val : T)
  | PushLoop (val : T) (cur_flag : Z)
  | PushClaim (val : T) (cur_flag next_flag : Z)
  | PushData (val : T) (cur_flag next_flag : Z)
  | PushReady (cur_flag next_flag : Z)
  | PushCheck (cur_flag next_flag : Z)
  | PushHead (cur_flag next_flag cac_flag : Z)
  | PushTake (cur_flag next_flag cac_flag : Z)
  | PushPublish (cur_flag next_flag : Z)
  | PopStart
  | PopHead (cur_tail : Z)
  | PopFlag (cur_head : Z)
  | PopTake (cur_head cac_flag : Z)
  | PopPublish (cur_head : Z)
  | PopRead (cur_tail : Z)
  | PopAdvance (cur_tail : Z) (val : T)
  | Returned (b : bool) (val : option T).
Arguments PushStart {T} _.
Arguments PushLoop {T} _ _.
Arguments PushClaim {T} _ _ _.
Arguments PushData {T} _ _ _.
Arguments PushReady {T} _ _.
Arguments PushCheck {T} _ _.
Arguments PushHead {T} _ _ _.
Arguments PushTake {T} _ _ _.
Arguments PushPublish {T} _ _.
Arguments PopStart {T}.
Arguments PopHead {T} _.
Arguments PopFlag {T} _.
Arguments PopTake {T} _ _.
Arguments PopPublish {T} _.
Arguments PopRead {T} _.
Arguments PopAdvance {T} _ _.
Arguments Returned {T} _ _.

Section Operations.
Context {T : Type}.
(** The width of [U], which is narrower than [int], and the value of an
    untouched cell. *)
Variables (w : Z) (blank : T).
Implicit Types q : mpmc_queue T.

Definition mpmc_new (max_size : Z) : mpmc_queue T :=
  MkMpmc (spsc_new w (blank, invalid_index) max_size) 0.

(** Cells; an index of type [U] always names one. *)
Definition cell q (i : Z) : rnode T :=
  default (blank, invalid_index) (sp_block_ (mq_ring q) !! Z.to_nat i).
Definition set_cell (i : Z) (n : rnode T) q : mpmc_queue T :=
  let r := mq_ring q in
  MkMpmc (MkSpsc (sp_max_size_ r) (<[Z.to_nat i := n]> (sp_block_ r)) (sp_tail_ r) (sp_head_ r))
    (mq_flag_ q).
Definition set_head (h : Z) q : mpmc_queue T :=
  let r := mq_ring q in
  MkMpmc (MkSpsc (sp_max_size_ r) (sp_block_ r) (sp_tail_ r) h) (mq_flag_ q).
Definition set_tail (t : Z) q : mpmc_queue T :=
  let r := mq_ring q in
  MkMpmc (MkSpsc (sp_max_size_ r) (sp_block_ r) t (sp_head_ r)) (mq_flag_ q).

(** The two tests of [push]. *)
Definition mpmc_full (max_size next_flag id_tail : Z) : bool :=
  (next_flag =? id_tail) || (max_size <=? wrap_u w (next_flag - id_tail)).

(** One step of a call.  [spurious] makes a weak compare-exchange fail. *)
Definition mpmc_step (spurious : bool) (pc : mpc T) q : mpc T * mpmc_queue T :=
  let r := mq_ring q in
  match pc with
  | PushStart val => (PushLoop val (mq_flag_ q), q)
  | PushLoop val cur_flag =>
      let next_flag := wrap_u w (cur_flag + 1) in
      if mpmc_full (sp_max_size_ r) next_flag (sp_tail_ r) then (Returned false None, q)
      else (PushClaim val cur_flag next_flag, q)
  | PushClaim val cur_flag next_flag =>
      if (mq_flag_ q =? cur_flag) && negb spurious
      then (PushData val cur_flag next_flag, MkMpmc r next_flag)
      else (PushLoop val (mq_flag_ q), q)
  | PushData val cur_flag next_flag =>
      (PushReady cur_flag next_flag, set_cell cur_flag (val, (cell q cur_flag).2) q)
  | PushReady cur_flag next_flag =>
      (PushCheck cur_flag next_flag, set_cell cur_flag ((cell q cur_flag).1, cur_flag) q)
  | PushCheck cur_flag next_flag => (PushHead cur_flag next_flag (cell q cur_flag).2, q)
  | PushHead cur_flag next_flag cac_flag =>
      if negb (cur_flag =? sp_head_ r) then (Returned true None, q)
      else if negb (cac_flag =? cur_flag) then (Returned true None, q)
      else (PushTake cur_flag next_flag cac_flag, q)
  | PushTake cur_flag next_flag cac_flag =>
      if (cell q cur_flag).2 =? cac_flag
      then (PushPublish cur_flag next_flag,
            set_cell cur_flag ((cell q cur_flag).1, invalid_index) q)
      else (Returned true None, q)
  | PushPublish cur_flag next_flag =>
      (PushCheck next_flag (wrap_u w (next_flag + 1)), set_head next_flag q)
  | PopStart => (PopHead (sp_tail_ r), q)
  | PopHead cur_tail =>
      if cur_tail =? sp_head_ r then (PopFlag (sp_head_ r), q) else (PopRead cur_tail, q)
  | PopFlag cur_head =>
      let cac_flag := (cell q cur_head).2 in
      if negb (cac_flag =? cur_head) then (Returned false None, q)
      else (PopTake cur_head cac_flag, q)
  | PopTake cur_head cac_flag =>
      if ((cell q cur_head).2 =? cac_flag) && negb spurious
      then (PopPublish cur_head, set_cell cur_head ((cell q cur_head).1, size_limit w) q)
      else (PopStart, q)
  | PopPublish cur_head => (PopStart, set_head (wrap_u w (cur_head + 1)) q)
  | PopRead cur_tail => (PopAdvance cur_tail (cell q cur_tail).1, q)
  | PopAdvance cur_tail val =>
      if (sp_tail_ r =? cur_tail) && negb spurious
      then (Returned true (Some val), set_tail (wrap_u w (cur_tail + 1)) q)
      else (PopHead (sp_tail_ r), q)
  | Returned b val => (pc, q)
  end.

(** A call running alone. *)
Fixpoint mpmc_run (fuel : nat) (pc : mpc T) q : outcome (bool * option T * mpmc_queue T) :=
  match pc with
  | Returned b val => Ok (b, val, q)
  | _ => match fuel with
         | O => Fault OutOfFuel
         | S fuel => let '(pc, q) := mpmc_step false pc q in mpmc_run fuel pc q
         end
  end.

Definition mpmc_fuel : nat := 16.

Definition mpmc_push (val : T) q : outcome (bool * mpmc_queue T) :=
  let! '(b, _, q) := mpmc_run mpmc_fuel (PushStart val) q in Ok (b, q).
Definition mpmc_pop q : outcome (option T * mpmc_queue T) :=
  let! '(_, o, q) := mpmc_run mpmc_fuel PopStart q in Ok (o, q).

(** Inherited from the ring. *)
Definition mpmc_empty q : bool := spsc_empty (mq_ring q).

(** [while (!push(val)) pop(popedVal);] *)
Fixpoint mpmc_push_until_success (fuel : nat) (val : T) q : outcome (mpmc_queue T) :=
  let! '(b, q) := mpmc_push val q in
  if (b : bool) then Ok q
  else match fuel with
       | O => Fault OutOfFuel
       | S fuel => let! '(_, q) := mpmc_pop q in mpmc_push_until_success fuel val q
       end.
End Operations.

Arguments mpmc_run : simpl never.

(** ** One call at a time *)

Section Running.
Context {T : Type} (w : Z) (blank : T).
Implicit Types q : mpmc_queue T.

Definition returned (pc : mpc T) : bool := match pc with Returned _ _ => true | _ => false end.

Lemma mpmc_run_step fuel pc q pc' q' :
  returned pc = false → mpmc_step w blank false pc q = (pc', q') →
  mpmc_run w blank (S fuel) pc q = mpmc_run w blank fuel pc' q'.
Proof. intros Hp E. destruct pc; (discriminate || (unfold mpmc_run at 1; by rewrite E)). Qed.

Lemma mpmc_run_returned fuel b v q : mpmc_run w blank fuel (Returned b v) q = Ok (b, v, q).
Proof. by destruct fuel. Qed.

(** Steps do not touch [max_size_]. *)
Lemma mpmc_step_max s pc q :
  sp_max_size_ (mq_ring (mpmc_step w blank s pc q).2) = sp_max_size_ (mq_ring q).
Proof. destruct pc; cbn; repeat case_match; done. Qed.

Lemma mpmc_run_max fuel pc q r q' :
  mpmc_run w blank fuel pc q = Ok (r, q') → sp_max_size_ (mq_ring q') = sp_max_size_ (mq_ring q).
Proof.
  revert pc q. induction fuel as [|fuel IH]; intros pc q E;
    destruct (returned pc) eqn:Hp.
  1,3: destruct pc; try discriminate; rewrite mpmc_run_returned in E; by injection E as <- <-.
  - by destruct pc.
  - destruct (mpmc_step w blank false pc q) as [pc1 q1] eqn:E1.
    rewrite (mpmc_run_step _ _ _ _ _ Hp E1) in E. rewrite (IH _ _ E).
    pose proof (mpmc_step_max false pc q) as Hm. by rewrite E1 in Hm.
Qed.
End Running.

(** Take one step of a call running alone. *)
Tactic Notation "mpmc_go" "using" tactic3(tac) :=
  erewrite mpmc_run_step; [|reflexivity|cbn [mpmc_step]; tac; reflexivity]; cbn [negb andb fst snd].

Definition mpmc_bounded_queue (T : Type) (w : Z) (blank : T) : BoundedQueue T (mpmc_queue T) :=
  {| bq_push x q := match mpmc_push w blank x q with Ok r => r | Fault _ => (false, q) end;
     bq_pop q := match mpmc_pop w blank q with Ok r => r | Fault _ => (None, q) end;
     bq_empty := mpmc_empty |}.

Section Sequential.
Context {T : Type}.
Variable w : Z.
Hypothesis w_pos : 0 < w.
Hypothesis w_narrow : w < 32.
Variable blank : T.
Implicit Types q : mpmc_queue T.
#[local] Instance mpmc_ring : BoundedQueue T (mpmc_queue T) := mpmc_bounded_queue T w blank.

(** Without its flags the queue is a single-producer ring of one element
    less. *)
Definition view q : spsc_queue T :=
  let r := mq_ring q in
  MkSpsc (sp_max_size_ r - 1) (fst <$> sp_block_ r) (sp_tail_ r) (sp_head_ r).

(** Between calls both write indices agree and no cell is marked ready. *)
Record mpmc_wf q : Prop := {
  mw_view : spsc_wf w (view q);
  mw_flag : mq_flag_ q = sp_head_ (mq_ring q);
  mw_cells : ∀ i, 0 ≤ i < 2 ^ w → (cell blank q i).2 ≠ i
}.

Lemma mpmc_full_spec q :
  mpmc_wf q →
  mpmc_full w (sp_max_size_ (mq_ring q)) (wrap_u w (sp_head_ (mq_ring q) + 1))
    (sp_tail_ (mq_ring q)) =
  spsc_full w (sp_max_size_ (view q)) (sp_head_ (view q)) (sp_tail_ (view q)).
Proof.
  intros [[_ Ht Hh Hm Hl] _ _]. pose proof (two_w_pos w w_pos) as H2.
  rewrite (spsc_full_spec w w_pos) by (done || lia).
  unfold view, spsc_len, mpmc_full in *. cbn in *.
  set (h := sp_head_ (mq_ring q)) in *. set (t := sp_tail_ (mq_ring q)) in *.
  set (m := sp_max_size_ (mq_ring q)) in *.
  pose proof (wrap_range w w_pos (h - t)) as Hr.
  destruct (Z.eqb_spec (wrap_u w (h + 1)) t) as [E|Hne]; cbn.
  - symmetry. apply Z.leb_le. assert (wrap_u w (h - t) = 2 ^ w - 1); [|lia].
    rewrite <- E, (wrap_sub_r w). replace (h - (h + 1)) with (-1) by lia.
    apply (wrap_minus_one w w_pos).
  - assert (Hlt : wrap_u w (h - t) < 2 ^ w - 1).
    { destruct (decide (wrap_u w (h - t) = 2 ^ w - 1)) as [E|]; [|lia]. destruct Hne.
      rewrite <- (wrap_u_id w t) by lia. replace (h + 1) with (h - t + (t + 1)) by lia.
      rewrite <- (wrap_add w), E. replace (2 ^ w - 1 + (t + 1)) with (t + 1 * 2 ^ w) by lia.
      unfold wrap_u. apply Z.mod_add. lia. }
    rewrite (spsc_len_push w) by lia.
    destruct (Z.leb_spec m (wrap_u w (h - t) + 1)), (Z.leb_spec (m - 1) (wrap_u w (h - t)));
      lia || done.
Qed.

Lemma cell_set_cell q i n j :
  length (sp_block_ (mq_ring q)) = Z.to_nat (2 ^ w) → 0 ≤ i < 2 ^ w → 0 ≤ j < 2 ^ w →
  cell blank (set_cell i n q) j = if decide (i = j) then n else cell blank q j.
Proof.
  intros Hl Hi Hj. unfold cell, set_cell. cbn [mq_ring sp_block_]. case_decide as E.
  - subst j. rewrite list_lookup_insert_eq; [done|]. rewrite Hl. lia.
  - rewrite list_lookup_insert_ne; [done|]. lia.
Qed.

(** The state a successful [push] leaves. *)
Definition pushed (x : T) q : mpmc_queue T :=
  let h := sp_head_ (mq_ring q) in
  let h' := wrap_u w (h + 1) in
  MkMpmc (mq_ring (set_head h' (set_cell h (x, invalid_index) q))) h'.

Lemma view_pushed x q :
  view (pushed x q) =
  MkSpsc (sp_max_size_ (view q)) (<[Z.to_nat (sp_head_ (view q)) := x]> (sp_block_ (view q)))
    (sp_tail_ (view q)) (wrap_u w (sp_head_ (view q) + 1)).
Proof. unfold view. cbn. by rewrite list_fmap_insert. Qed.

Lemma mpmc_push_run x q :
  mpmc_wf q →
  mpmc_push w blank x q =
    Ok (if spsc_full w (sp_max_size_ (view q)) (sp_head_ (view q)) (sp_tail_ (view q))
        then (false, q) else (true, pushed x q)).
Proof.
  intros Hwf. pose proof (mpmc_full_spec q Hwf) as Hfull.
  destruct Hwf as [[Hb Ht Hh Hm Hl] Hf Hc]. cbn [view sp_block_ sp_head_] in Hb, Hh.
  rewrite length_fmap in Hb. pose proof (two_w_pos w w_pos) as H2.
  unfold mpmc_push, mpmc_fuel. set (h := sp_head_ (mq_ring q)) in *.
  mpmc_go using (rewrite Hf). fold h in Hfull |- *.
  destruct (spsc_full _ _ _ _).
  { mpmc_go using (rewrite Hfull). by rewrite mpmc_run_returned. }
  set (h' := wrap_u w (h + 1)) in *.
  assert (Hne : h' ≠ h).
  { intros E. unfold h' in E. rewrite <- (wrap_u_id w h) in E at 2 by lia.
    apply (wrap_inj w w_pos) in E; lia. }
  assert (Hh' : 0 ≤ h' < 2 ^ w) by apply (wrap_range w w_pos).
  mpmc_go using (fold h'; rewrite Hfull). mpmc_go using (rewrite Hf; fold h; rewrite Z.eqb_refl).
  set (q1 := MkMpmc (mq_ring q) h').
  mpmc_go using idtac. set (q2 := set_cell h _ q1).
  mpmc_go using idtac. set (q3 := set_cell h _ q2).
  assert (E2 : cell blank q2 h = (x, (cell blank q1 h).2)).
  { unfold q2. rewrite cell_set_cell by (done || lia). by rewrite decide_True. }
  assert (E3 : cell blank q3 h = (x, h)).
  { unfold q3. rewrite cell_set_cell; [|cbn; by rewrite length_insert|lia..].
    by rewrite decide_True, E2. }
  mpmc_go using (rewrite E3).
  mpmc_go using (change (sp_head_ (mq_ring q3)) with h; rewrite !Z.eqb_refl).
  mpmc_go using (rewrite E3, Z.eqb_refl).
  mpmc_go using idtac.
  set (q4 := set_head h' (set_cell h (x, invalid_index) q3)).
  assert (E4 : cell blank q4 h' = cell blank q h').
  { transitivity (cell blank (set_cell h (x, invalid_index) q3) h'); [done|].
    rewrite cell_set_cell, decide_False;
      [|congruence|cbn; by rewrite !length_insert|lia..].
    unfold q3. rewrite cell_set_cell, decide_False; [|congruence|cbn; by rewrite length_insert|lia..].
    unfold q2. rewrite cell_set_cell, decide_False by (congruence || done || lia). done. }
  mpmc_go using (rewrite E4).
  mpmc_go using (change (sp_head_ (mq_ring q4)) with h'; rewrite Z.eqb_refl;
    rewrite (proj2 (Z.eqb_neq _ _)) by (by apply Hc)).
  rewrite mpmc_run_returned. cbn. unfold pushed, q4, q3, q2, q1, set_head, set_cell. cbn.
  fold h h'. by rewrite !list_insert_insert_eq.
Qed.

Lemma pushed_wf x q :
  mpmc_wf q → spsc_wf w (view (pushed x q)) → mpmc_wf (pushed x q).
Proof.
  intros [Hv Hf Hc] Hwf. split; [done|done|]. intros i Hi.
  destruct Hv as [Hb _ Hh _ _]. cbn in Hb, Hh. rewrite length_fmap in Hb.
  change (cell blank (pushed x q) i) with
    (cell blank (set_cell (sp_head_ (mq_ring q)) (x, invalid_index) q) i).
  rewrite cell_set_cell by (done || lia). case_decide; [|by apply Hc].
  cbn. unfold invalid_index. assert (2 ^ w < 2 ^ 32) by (apply Z.pow_lt_mono_r; lia). lia.
Qed.

Lemma mpmc_pop_run q :
  mpmc_wf q →
  mpmc_pop w blank q =
    Ok (if sp_tail_ (mq_ring q) =? sp_head_ (mq_ring q) then (None, q)
        else (Some (cell blank q (sp_tail_ (mq_ring q))).1,
              set_tail (wrap_u w (sp_tail_ (mq_ring q) + 1)) q)).
Proof.
  intros [[_ Ht Hh _ _] Hf Hc]. cbn in Ht, Hh. unfold mpmc_pop, mpmc_fuel. mpmc_go using idtac.
  destruct (Z.eqb_spec (sp_tail_ (mq_ring q)) (sp_head_ (mq_ring q))) as [E|Hne].
  - mpmc_go using (rewrite E, Z.eqb_refl).
    mpmc_go using (rewrite (proj2 (Z.eqb_neq _ _)) by (by apply Hc)).
    by rewrite mpmc_run_returned.
  - mpmc_go using (rewrite (proj2 (Z.eqb_neq _ _) Hne)). mpmc_go using idtac.
    mpmc_go using (rewrite Z.eqb_refl). by rewrite mpmc_run_returned.
Qed.

(** The queue and the ring of its data take the same steps. *)
Lemma mpmc_push_view x q :
  mpmc_wf q → ∃ q', bq_push x q = ((spsc_push w x (view q)).1, q') ∧
    view q' = (spsc_push w x (view q)).2 ∧ mpmc_wf q'.
Proof.
  intros Hwf. cbn [bq_push mpmc_ring mpmc_bounded_queue]. rewrite (mpmc_push_run x q Hwf).
  pose proof (spsc_push_spec w w_pos x (view q) (mw_view q Hwf)) as Hp. unfold spsc_push in *.
  destruct (spsc_full _ _ _ _).
  - exists q. by split; [|split].
  - destruct Hp as (_ & Hwf' & _). exists (pushed x q). rewrite view_pushed.
    split; [done|]. split; [done|]. apply pushed_wf; [done|]. by rewrite view_pushed.
Qed.

Lemma mpmc_pop_view q :
  mpmc_wf q → ∃ q', bq_pop q = ((spsc_pop w (view q)).1, q') ∧
    view q' = (spsc_pop w (view q)).2 ∧ mpmc_wf q'.
Proof.
  intros Hwf. cbn [bq_pop mpmc_ring mpmc_bounded_queue]. rewrite (mpmc_pop_run q Hwf).
  pose proof (spsc_pop_spec w w_pos (view q) (mw_view q Hwf)) as Hp. unfold spsc_pop in *.
  cbn [view sp_tail_ sp_head_] in *. destruct (_ =? _).
  - exists q. by split; [|split].
  - destruct Hp as (_ & Hwf' & _).
    destruct (spsc_cell w w_pos (view q) (sp_tail_ (mq_ring q)) (mw_view q Hwf)) as [x Hx].
    rewrite wrap_u_id in Hx by apply (mw_view q Hwf). cbn in Hx.
    exists (set_tail (wrap_u w (sp_tail_ (mq_ring q) + 1)) q). cbn [fst snd].
    split; [|split; [done|]].
    + f_equal. cbn. rewrite Hx. apply list_lookup_fmap_Some in Hx as ([y f] & -> & Hx).
      unfold cell. by rewrite Hx.
    + destruct Hwf as [_ Hf Hc]. by split.
Qed.

Lemma mpmc_laws : BoundedQueueLaws T (mpmc_queue T) mpmc_wf (λ q, spsc_contents w (view q))
  (λ q, sp_max_size_ (view q)).
Proof.
  split.
  - intros x q Hwf. by destruct (mpmc_push_view x q Hwf) as (q' & -> & _ & Hwf').
  - intros x q. cbn. unfold mpmc_push. destruct (mpmc_run _ _ _ _ _) as [[[b o] q']|f] eqn:E; [|done].
    apply mpmc_run_max in E. cbn. lia.
  - intros x q Hwf. destruct (mpmc_push_view x q Hwf) as (q' & -> & E & Hwf').
    pose proof (spsc_push_spec w w_pos x (view q) (mw_view q Hwf)) as Hp. cbn [fst snd]. rewrite E.
    destruct (spsc_contents_spec w w_pos _ (mw_view q Hwf)) as [Hl _]. rewrite Hl.
    destruct (spsc_push w x (view q)). cbn. tauto.
  - intros q Hwf. by destruct (mpmc_pop_view q Hwf) as (q' & -> & _ & Hwf').
  - intros q. cbn. unfold mpmc_pop. destruct (mpmc_run _ _ _ _ _) as [[[b o] q']|f] eqn:E; [|done].
    apply mpmc_run_max in E. cbn. lia.
  - intros q Hwf. destruct (mpmc_pop_view q Hwf) as (q' & -> & E & Hwf').
    pose proof (spsc_pop_spec w w_pos (view q) (mw_view q Hwf)) as Hp. cbn [fst snd]. rewrite E.
    destruct (spsc_pop w (view q)). cbn. tauto.
  - intros q Hwf. exact (spsc_empty_spec w w_pos (view q) (mw_view q Hwf)).
Qed.

Lemma mpmc_new_wf max_size : 1 ≤ max_size ≤ 2 ^ w → mpmc_wf (mpmc_new w blank max_size).
Proof.
  intros Hm. pose proof (two_w_pos w w_pos). split; [split|done|].
  - cbn. rewrite length_fmap, length_replicate. by rewrite (block_cells_narrow w w_narrow).
  - cbn. lia.
  - cbn. lia.
  - cbn. lia.
  - unfold spsc_len. cbn. rewrite wrap_u_id; lia.
  - intros i Hi. unfold cell, mpmc_new, spsc_new. cbn [mq_ring sp_block_].
    rewrite lookup_replicate_2 by (rewrite (block_cells_narrow w w_narrow); lia). cbn.
    unfold invalid_index. assert (2 ^ w < 2 ^ 32) by (apply Z.pow_lt_mono_r; lia). lia.
Qed.

(** C24. Used by one thread at a time, the multi-producer ring is a bounded FIFO of
    one element less than it was asked for: [push] tests the size the queue
    would have, not the size it has, so [max_size] elements never fit.  After
    any calls the next [push] or [pop] returns: neither faults nor retries for
    ever. *)
Theorem mpmc_refines_fifo (cs : list (queue_call T)) max_size (Hm : 1 ≤ max_size ≤ 2 ^ w) :
  let r := run_calls (Qt := mpmc_queue T) cs (mpmc_new w blank max_size) in
  r.1 = (run_calls cs (([], max_size - 1) : spec_queue T)).1 ∧
  (∀ x, is_ok (mpmc_push w blank x r.2)) ∧ is_ok (mpmc_pop w blank r.2).
Proof.
  pose proof (@run_calls_refines _ _ _ _ _ _ mpmc_laws cs _ (mpmc_new_wf max_size Hm)) as R.
  destruct (run_calls cs (mpmc_new w blank max_size)) as [l q']. destruct R as [R Hwf].
  change (sp_max_size_ (view (mpmc_new w blank max_size))) with (max_size - 1) in R.
  replace (spsc_contents w (view (mpmc_new w blank max_size))) with ([] : list T) in R.
  - cbn. split; [by rewrite R|]. split; [intros x; by rewrite (mpmc_push_run x q' Hwf)|].
    by rewrite (mpmc_pop_run q' Hwf).
  - pose proof (two_w_pos w w_pos). unfold spsc_contents, spsc_len.
    change (sp_head_ _ - sp_tail_ _) with 0. by rewrite (wrap_u_id w 0) by lia.
Qed.

(** In particular a queue of [max_size] 1 holds nothing, and
    [push_until_success] on it never returns. *)
Theorem mpmc_size_one_never_accepts x fuel :
  mpmc_push_until_success w blank fuel x (mpmc_new w blank 1) = Fault OutOfFuel.
Proof.
  pose proof (two_w_pos w w_pos). set (q := mpmc_new w blank 1).
  assert (Hwf : mpmc_wf q) by (apply mpmc_new_wf; lia).
  assert (Epush : mpmc_push w blank x q = Ok (false, q)).
  { rewrite (mpmc_push_run x q Hwf), (spsc_full_spec w w_pos); [|cbn; lia..].
    rewrite (proj2 (Z.leb_le _ _)); [done|]. apply (wrap_range w w_pos). }
  assert (Epop : mpmc_pop w blank q = Ok (None, q)) by by rewrite (mpmc_pop_run q Hwf).
  induction fuel as [|fuel IH]; cbn [mpmc_push_until_success]; rewrite Epush; cbn; [done|].
  by rewrite Epop.
Qed.
End Sequential.

(** ** Any number of threads *)

Lemma mpmc_refines_fifo_witness :
  (run_calls (H := mpmc_bounded_queue Z 8 0) [CallPush 3; CallPush 4; CallPush 5; CallPop; CallEmpty]
     (mpmc_new 8 0 3)).1 =
  [AnsBool true; AnsBool true; AnsBool false; AnsPop (Some 3); AnsBool false].
Proof.
  etransitivity;
  [exact (proj1 (mpmc_refines_fifo 8 ltac:(lia) ltac:(lia) 0
    [CallPush 3; CallPush 4; CallPush 5; CallPop; CallEmpty] 3 ltac:(lia)))|reflexivity].
Defined.

Module MpmcThreads.

(** The machine of the queue; [empty] is one step. *)
Definition mpmc_machine {T} (w : Z) (blank : T) :
    machine T (queue_call T * mpc T) (mpmc_queue T) :=
  {| mc_start c := (c, match c with CallPush x => PushStart x | _ => PopStart end);
     mc_step spurious cpc q :=
       match cpc.1 with
       | CallEmpty => Ok ((CallEmpty, Returned (mpmc_empty q) None), q)
       | c => let '(pc, q) := mpmc_step w blank spurious cpc.2 q in Ok ((c, pc), q)
       end;
     mc_answer c cpc :=
       match cpc.2 with
       | Returned b val => Some (match c with CallPop => AnsPop val | _ => AnsBool b end)
       | _ => None
       end |}.

End MpmcThreads.
