(* ===== verification/MpmcReplay.v ===== *)
(** * MpmcReplay: a value of the multi-producer ring delivered twice

    The machine of MpmcQueue.v under one family of schedules of a producer and
    a consumer, one for every width of the index type: [pop], helping a
    preempted [push], marks a cell with [size_limit], which is the index of the
    last cell, and the mark is still there one lap later. *)

From S2P Require Import Prelude ThreadSafeQueue SpscQueue Threads MpmcQueue.
Import MpmcThreads.

Section Replay.
Context {T : Type} (w : Z) (blank : T).
Hypothesis w_range : 1 < w < 32.
Variable max_size : Z.
Hypothesis max_size_range : 2 ≤ max_size < 2 ^ w.
Notation m := (mpmc_machine w blank).
Implicit Types (x v : T) (i : Z) (q : mpmc_queue T) (cells : list (rnode T)).

(** ** Steps of the two threads *)

Abbreviation pthread := (thread T (queue_call T * mpc T)).
Implicit Types (t : pthread) (todo : list (queue_call T)) (ans : list (queue_answer T)).

Definition two (q : mpmc_queue T) t0 t1 : system T (queue_call T * mpc T) (mpmc_queue T) :=
  MkSystem q [t0; t1].

(** A thread after a step of its call. *)
Definition after (c : queue_call T) (pc : mpc T) todo ans : pthread :=
  match mc_answer m c (c, pc) with
  | Some a => MkThread None todo (ans ++ [a])
  | None => MkThread (Some (c, (c, pc))) todo ans
  end.

Lemma go_start0 c sched q todo ans t1 :
  run_schedule m ((0%nat, false) :: sched) (two q (MkThread None (c :: todo) ans) t1) =
  run_schedule m sched (two q (MkThread (Some (c, mc_start m c)) todo ans) t1).
Proof. done. Qed.
Lemma go_start1 c sched q todo ans t0 :
  run_schedule m ((1%nat, false) :: sched) (two q t0 (MkThread None (c :: todo) ans)) =
  run_schedule m sched (two q t0 (MkThread (Some (c, mc_start m c)) todo ans)).
Proof. done. Qed.

Lemma thread_goes c pc q pc' q' todo ans :
  c ≠ CallEmpty → mpmc_step w blank false pc q = (pc', q') →
  thread_step m false (MkThread (Some (c, (c, pc))) todo ans) q = Ok (after c pc' todo ans, q').
Proof. intros Hc E. unfold thread_step, after. destruct c; cbn; try done; rewrite E; cbn; by case_match. Qed.

Lemma go_step0 c pc pc' q' sched q todo ans t1 :
  c ≠ CallEmpty → mpmc_step w blank false pc q = (pc', q') →
  run_schedule m ((0%nat, false) :: sched) (two q (MkThread (Some (c, (c, pc))) todo ans) t1) =
  run_schedule m sched (two q' (after c pc' todo ans) t1).
Proof.
  intros Hc E. unfold two. cbn [run_schedule sys_step sys_threads sys_queue fst snd lookup list_lookup].
  by rewrite (thread_goes _ _ _ _ _ _ _ Hc E).
Qed.
Lemma go_step1 c pc pc' q' sched q todo ans t0 :
  c ≠ CallEmpty → mpmc_step w blank false pc q = (pc', q') →
  run_schedule m ((1%nat, false) :: sched) (two q t0 (MkThread (Some (c, (c, pc))) todo ans)) =
  run_schedule m sched (two q' t0 (after c pc' todo ans)).
Proof.
  intros Hc E. unfold two. cbn [run_schedule sys_step sys_threads sys_queue fst snd lookup list_lookup].
  by rewrite (thread_goes _ _ _ _ _ _ _ Hc E).
Qed.

(** ** The ring *)

(** Both write indices and the read index. *)
Definition ring (flag head tail : Z) cells : mpmc_queue T := MkMpmc (MkSpsc max_size cells tail head) flag.

Lemma last_positive : 2 < 2 ^ w.
Proof.
  replace w with (1 + (w - 1)) by lia. rewrite Z.pow_add_r by lia.
  pose proof (Z.pow_gt_1 2 (w - 1)). lia.
Qed.

Lemma next_small i : 0 ≤ i < 2 ^ w - 1 → wrap_u w (i + 1) = i + 1.
Proof. intros Hi. apply wrap_u_id. lia. Qed.

Lemma next_last : wrap_u w (2 ^ w - 1 + 1) = 0.
Proof. unfold wrap_u. replace (2 ^ w - 1 + 1) with (2 ^ w) by lia. apply Z.mod_same. lia. Qed.

(** An empty ring has room. *)
Lemma empty_not_full i : 0 ≤ i < 2 ^ w → mpmc_full w max_size (wrap_u w (i + 1)) i = false.
Proof.
  intros Hi. pose proof last_positive. unfold mpmc_full.
  assert (E : wrap_u w (wrap_u w (i + 1) - i) = 1).
  { destruct (decide (i = 2 ^ w - 1)) as [->|].
    - rewrite next_last. unfold wrap_u. symmetry. apply (Zmod_unique _ _ (-1)); lia.
    - rewrite next_small by lia. replace (i + 1 - i) with 1 by lia. apply wrap_u_id. lia. }
  rewrite E. rewrite (proj2 (Z.leb_gt _ _)) by lia. rewrite orb_false_r. apply Z.eqb_neq.
  destruct (decide (i = 2 ^ w - 1)) as [->|]; [rewrite next_last|rewrite next_small]; lia.
Qed.

(** Take a step of a thread. *)
Ltac unfold_step := unfold ring; cbn [mpmc_step mq_ring mq_flag_ sp_max_size_ sp_block_ sp_tail_ sp_head_].
Ltac at_cell H := unfold cell; cbn [mq_ring sp_block_]; rewrite H; cbn [default fst snd].
Ltac go0 tac :=
  erewrite go_step0; [|done|unfold_step; tac; reflexivity]; unfold after; cbn [mc_answer mpmc_machine snd].
Ltac go1 tac :=
  erewrite go_step1; [|done|unfold_step; tac; reflexivity]; unfold after; cbn [mc_answer mpmc_machine snd].

(** A push into the empty ring, up to the point where its cell is ready. *)
Lemma push_ready x i sched cells todo ans t1 :
  0 ≤ i < 2 ^ w → length cells = Z.to_nat (2 ^ w) →
  run_schedule m (replicate 6 (0%nat, false) ++ sched)
    (two (ring i i i cells) (MkThread None (CallPush x :: todo) ans) t1) =
  run_schedule m sched
    (two (ring (wrap_u w (i + 1)) i i (<[Z.to_nat i := (x, i)]> cells))
       (MkThread (Some (CallPush x, (CallPush x, PushCheck i (wrap_u w (i + 1))))) todo ans) t1).
Proof.
  intros Hi Hl. cbn [replicate app]. rewrite go_start0. cbn [mc_start mpmc_machine].
  go0 idtac. go0 ltac:(rewrite empty_not_full by done). go0 ltac:(rewrite Z.eqb_refl).
  go0 idtac. go0 idtac. do 2 f_equal. unfold ring, set_cell, cell. cbn.
  rewrite list_lookup_insert_eq by lia. cbn. by rewrite list_insert_insert_eq.
Qed.

(** A push publishes a cell that is ready at the front of the write index. *)
Lemma push_publishes c x i n (f t : Z) sched cells todo ans t1 :
  0 ≤ i → c ≠ CallEmpty → cells !! Z.to_nat i = Some (x, i) →
  run_schedule m (replicate 4 (0%nat, false) ++ sched)
    (two (ring f i t cells) (MkThread (Some (c, (c, PushCheck i n))) todo ans) t1) =
  run_schedule m sched
    (two (ring f n t (<[Z.to_nat i := (x, invalid_index)]> cells))
       (MkThread (Some (c, (c, PushCheck n (wrap_u w (n + 1))))) todo ans) t1).
Proof.
  intros Hi Hc Hx. cbn [replicate app]. destruct c; try done.
  all: go0 ltac:(at_cell Hx).
  all: go0 ltac:(cbn [default snd]; rewrite !Z.eqb_refl; cbn [negb]).
  all: go0 ltac:(at_cell Hx; rewrite Z.eqb_refl).
  all: go0 idtac; done.
Qed.

(** A push returns when the cell at its index is not ready, or is not the
    front. *)
Lemma push_returns x i n (f h t : Z) sched cells todo ans t1 :
  h ≠ i ∨ (cell blank (ring f h t cells) i).2 ≠ i →
  run_schedule m (replicate 2 (0%nat, false) ++ sched)
    (two (ring f h t cells) (MkThread (Some (CallPush x, (CallPush x, PushCheck i n))) todo ans) t1) =
  run_schedule m sched (two (ring f h t cells) (MkThread None todo (ans ++ [AnsBool true])) t1).
Proof.
  intros Hor. cbn [replicate app]. go0 idtac. destruct (decide (h = i)) as [->|Hne].
  - go0 ltac:(rewrite Z.eqb_refl, (proj2 (Z.eqb_neq _ _)) by (by destruct Hor); cbn [negb]). done.
  - go0 ltac:(rewrite (proj2 (Z.eqb_neq i h)) by (by intros ->); cbn [negb]). done.
Qed.

(** A pop of a published value. *)
Lemma pop_takes v (fl f h t : Z) sched cells todo ans t0 :
  t ≠ h → cells !! Z.to_nat t = Some (v, fl) →
  run_schedule m (replicate 5 (1%nat, false) ++ sched)
    (two (ring f h t cells) t0 (MkThread None (CallPop :: todo) ans)) =
  run_schedule m sched
    (two (ring f h (wrap_u w (t + 1)) cells) t0 (MkThread None todo (ans ++ [AnsPop (Some v)]))).
Proof.
  intros Hne Hv. cbn [replicate app]. rewrite go_start1. cbn [mc_start mpmc_machine].
  go1 idtac. go1 ltac:(rewrite (proj2 (Z.eqb_neq t h)) by done).
  go1 ltac:(at_cell Hv). go1 ltac:(rewrite Z.eqb_refl; cbn [negb andb]). done.
Qed.

(** A pop that finds the front cell ready but not published: it publishes it,
    with the mark [size_limit], and takes its value. *)
Lemma pop_helps x i (f : Z) sched cells todo ans t0 :
  0 ≤ i < 2 ^ w → length cells = Z.to_nat (2 ^ w) → cells !! Z.to_nat i = Some (x, i) →
  run_schedule m (replicate 10 (1%nat, false) ++ sched)
    (two (ring f i i cells) t0 (MkThread None (CallPop :: todo) ans)) =
  run_schedule m sched
    (two (ring f (wrap_u w (i + 1)) (wrap_u w (i + 1)) (<[Z.to_nat i := (x, size_limit w)]> cells)) t0
       (MkThread None todo (ans ++ [AnsPop (Some x)]))).
Proof.
  intros Hi Hl Hx. cbn [replicate app]. rewrite go_start1. cbn [mc_start mpmc_machine].
  pose proof (empty_not_full i Hi) as Hne. apply orb_false_iff in Hne as [Hne _]. apply Z.eqb_neq in Hne.
  go1 idtac. go1 ltac:(rewrite Z.eqb_refl).
  go1 ltac:(at_cell Hx; rewrite Z.eqb_refl; cbn [negb]).
  go1 ltac:(at_cell Hx; rewrite Z.eqb_refl; cbn [negb andb]).
  go1 idtac. go1 idtac. go1 ltac:(rewrite (proj2 (Z.eqb_neq _ _)) by (by apply not_eq_sym)).
  go1 ltac:(unfold cell, set_cell, set_head; cbn [mq_ring sp_block_]; rewrite list_lookup_insert_eq by lia; cbn [default fst]).
  go1 ltac:(rewrite Z.eqb_refl; cbn [negb andb]). done.
Qed.

(** ** Turns *)

(** A push and a pop, one after the other. *)
Definition turn : list (nat * bool) := replicate 12 (0%nat, false) ++ replicate 5 (1%nat, false).
Definition turns (n : nat) : list (nat * bool) := concat (replicate n turn).

Definition last : Z := 2 ^ w - 1.

(** The cells in the course of a lap: the last one holds [z], no other one is
    ready. *)
Record lap (z : rnode T) cells : Prop := {
  lp_length : length cells = Z.to_nat (2 ^ w);
  lp_last : cells !! Z.to_nat last = Some z;
  lp_blank : ∀ j, 0 ≤ j < last → ∃ x, cells !! Z.to_nat j = Some (x, invalid_index)
}.

Lemma lap_insert z x i cells :
  lap z cells → 0 ≤ i < last → lap z (<[Z.to_nat i := (x, invalid_index)]> cells).
Proof.
  intros [Hl Hz Hb] Hi. split.
  - by rewrite length_insert.
  - rewrite list_lookup_insert_ne by lia. done.
  - intros j Hj. destruct (decide (j = i)) as [->|].
    + exists x. apply list_lookup_insert_eq. unfold last in *. lia.
    + rewrite list_lookup_insert_ne by lia. by apply Hb.
Qed.

Lemma lap_quiet z cells i (f h t : Z) :
  lap z cells → 0 ≤ i ≤ last → (i = last → z.2 ≠ last) → (cell blank (ring f h t cells) i).2 ≠ i.
Proof.
  intros [Hl Hz Hb] Hi Hlast. unfold cell. cbn [ring mq_ring sp_block_].
  destruct (decide (i = last)) as [->|].
  - rewrite Hz. by apply Hlast.
  - destruct (Hb i) as [x ->]; [lia|]. cbn. unfold invalid_index, last in *.
    pose proof (Z.pow_le_mono_r 2 w 32). lia.
Qed.

Notation P ps ans := (MkThread None ps ans).

Lemma turn_run x i z sched cells ps os a0 a1 :
  lap z cells → 0 ≤ i < last → (i + 1 = last → z.2 ≠ last) →
  ∃ cells', lap z cells' ∧
    run_schedule m (turn ++ sched)
      (two (ring i i i cells) (P (CallPush x :: ps) a0) (P (CallPop :: os) a1)) =
    run_schedule m sched
      (two (ring (i + 1) (i + 1) (i + 1) cells') (P ps (a0 ++ [AnsBool true]))
         (P os (a1 ++ [AnsPop (Some x)]))).
Proof.
  intros Hlap Hi Hz. pose proof (lp_length _ _ Hlap) as Hl. unfold last in Hi.
  set (cells1 := <[Z.to_nat i := (x, i)]> cells).
  set (cells' := <[Z.to_nat i := (x, invalid_index)]> cells).
  assert (Hlap' : lap z cells') by (by apply lap_insert; unfold last).
  exists cells'. split; [done|]. unfold turn.
  change (replicate 12 (0%nat, false)) with
    (replicate 6 (0%nat, false) ++ replicate 4 (0%nat, false) ++ replicate 2 (0%nat, false)).
  rewrite <- !app_assoc, push_ready by (done || lia). fold cells1. rewrite next_small by lia.
  rewrite (push_publishes _ x) by (done || lia || (unfold cells1; apply list_lookup_insert_eq; lia)).
  replace (<[Z.to_nat i := (x, invalid_index)]> cells1) with cells'
    by (unfold cells1; by rewrite list_insert_insert_eq).
  rewrite push_returns by (right; apply (lap_quiet z); [done|unfold last; lia|done]).
  rewrite (pop_takes x invalid_index) by (lia || (unfold cells'; apply list_lookup_insert_eq; lia)).
  by rewrite next_small by lia.
Qed.

Lemma turns_run z sched xs : ∀ i cells ps os a0 a1,
  lap z cells → 0 ≤ i → i + Z.of_nat (length xs) ≤ last →
  (i + Z.of_nat (length xs) = last → z.2 ≠ last) →
  ∃ cells', lap z cells' ∧ let i' := i + Z.of_nat (length xs) in
    run_schedule m (turns (length xs) ++ sched)
      (two (ring i i i cells) (P ((CallPush <$> xs) ++ ps) a0) (P (replicate (length xs) CallPop ++ os) a1)) =
    run_schedule m sched
      (two (ring i' i' i' cells') (P ps (a0 ++ replicate (length xs) (AnsBool true)))
         (P os (a1 ++ (AnsPop ∘ Some <$> xs)))).
Proof.
  induction xs as [|x xs IH]; intros i cells ps os a0 a1 Hlap Hi Hle Hz.
  { exists cells. split; [done|]. cbn. by rewrite Z.add_0_r, !app_nil_r. }
  cbn [length] in *. change (turns (S (length xs))) with (turn ++ turns (length xs)).
  cbn [fmap list_fmap replicate app]. rewrite <- app_assoc.
  destruct (turn_run x i z (turns (length xs) ++ sched) cells ((CallPush <$> xs) ++ ps)
    (replicate (length xs) CallPop ++ os) a0 a1) as (cells1 & Hlap1 & ->); [done|lia|intros; apply Hz; lia|].
  destruct (IH (i + 1) cells1 ps os (a0 ++ [AnsBool true]) (a1 ++ [AnsPop (Some x)]))
    as (cells' & Hlap' & E); [done|lia|lia|intros; apply Hz; lia|].
  exists cells'. split; [done|]. cbn zeta in *. rewrite E, <- !app_assoc.
  by replace (i + 1 + Z.of_nat (length xs)) with (i + Z.of_nat (S (length xs))) by lia.
Qed.

(** At the last cell the producer is preempted when its cell is ready, and the
    consumer publishes the cell in its place: it stays marked. *)
Definition preempted : list (nat * bool) :=
  replicate 6 (0%nat, false) ++ replicate 10 (1%nat, false) ++ replicate 2 (0%nat, false).

Lemma preempted_run v z sched cells ps os a0 a1 :
  lap z cells →
  ∃ cells', lap (v, last) cells' ∧
    run_schedule m (preempted ++ sched)
      (two (ring last last last cells) (P (CallPush v :: ps) a0) (P (CallPop :: os) a1)) =
    run_schedule m sched
      (two (ring 0 0 0 cells') (P ps (a0 ++ [AnsBool true])) (P os (a1 ++ [AnsPop (Some v)]))).
Proof.
  intros [Hl Hz Hb]. pose proof last_positive.
  set (cells1 := <[Z.to_nat last := (v, last)]> cells). exists cells1. split.
  { split.
    - unfold cells1. by rewrite length_insert.
    - apply list_lookup_insert_eq. unfold last in *. lia.
    - intros j Hj. unfold cells1. rewrite list_lookup_insert_ne by lia. by apply Hb. }
  unfold preempted. rewrite <- !app_assoc, push_ready by (unfold last; lia). fold cells1.
  rewrite (pop_helps v) by (unfold cells1, last in *; try apply list_lookup_insert_eq;
    rewrite ?length_insert; lia).
  rewrite (next_last : wrap_u w (last + 1) = 0), push_returns by (left; unfold last; lia).
  unfold cells1, size_limit, last. by rewrite list_insert_insert_eq.
Qed.

(** One lap later the push into the cell before goes on to publish it. *)
Definition published : list (nat * bool) := replicate 16 (0%nat, false) ++ replicate 10 (1%nat, false).

Lemma published_run x v cells ps os a0 a1 :
  lap (v, last) cells →
  ∃ q, run_schedule m published
      (two (ring (last - 1) (last - 1) (last - 1) cells) (P (CallPush x :: ps) a0)
         (P (CallPop :: CallPop :: os) a1)) =
    Ok (two q (P ps (a0 ++ [AnsBool true])) (P os (a1 ++ [AnsPop (Some x); AnsPop (Some v)]))).
Proof.
  intros [Hl Hz Hb]. pose proof last_positive. set (i := last - 1).
  assert (Hi : 0 ≤ i < 2 ^ w - 1) by (unfold i, last; lia).
  assert (Hnext : wrap_u w (i + 1) = last) by (rewrite next_small by lia; unfold i; lia).
  assert (Hwrap : wrap_u w (last + 1) = 0) by apply next_last.
  set (cells1 := <[Z.to_nat i := (x, i)]> cells).
  set (cells2 := <[Z.to_nat i := (x, invalid_index)]> cells1).
  set (cells3 := <[Z.to_nat last := (v, invalid_index)]> cells2).
  assert (Hl2 : cells2 !! Z.to_nat last = Some (v, last)).
  { unfold cells2, cells1, i. rewrite !list_lookup_insert_ne by lia. done. }
  assert (H0 : (cell blank (ring last 0 i cells3) 0).2 ≠ 0).
  { unfold cell. cbn [ring mq_ring sp_block_]. destruct (decide (i = 0)) as [E|E].
    - unfold cells3, cells2. rewrite E, list_lookup_insert_ne, list_lookup_insert_eq
        by (unfold last, cells1 in *; rewrite ?length_insert; lia). done.
    - unfold cells3, cells2, cells1. rewrite !list_lookup_insert_ne by (unfold last in *; lia).
      destruct (Hb 0) as [y ->]; [unfold last; lia|]. done. }
  eexists. unfold published.
  change (replicate 16 (0%nat, false)) with (replicate 6 (0%nat, false) ++ replicate 4 (0%nat, false) ++
    replicate 4 (0%nat, false) ++ replicate 2 (0%nat, false)).
  change (replicate 10 (1%nat, false)) with (replicate 5 (1%nat, false) ++ replicate 5 (1%nat, false) ++ []).
  rewrite <- !app_assoc, push_ready by (done || lia). fold cells1. rewrite Hnext.
  rewrite (push_publishes _ x) by (done || lia || (unfold cells1; apply list_lookup_insert_eq; lia)).
  fold cells2. rewrite Hwrap.
  rewrite (push_publishes _ v) by (done || (unfold last; lia)). fold cells3.
  rewrite push_returns by (by right).
  assert (Hx : cells3 !! Z.to_nat i = Some (x, invalid_index)).
  { unfold cells3. rewrite list_lookup_insert_ne by (unfold i; lia).
    apply list_lookup_insert_eq. unfold cells1. rewrite length_insert. lia. }
  rewrite (pop_takes x invalid_index) by (done || (unfold i, last; lia)). rewrite Hnext.
  rewrite (pop_takes v invalid_index);
    [|unfold last; lia|apply list_lookup_insert_eq; unfold cells2, cells1; rewrite !length_insert; unfold last; lia].
  cbn [run_schedule]. by rewrite <- app_assoc.
Qed.

(** ** The schedule *)

(** A lap up to the last cell, the preemption, the next lap up to the cell
    before the last one, and the push into that. *)
Definition replay : list (nat * bool) :=
  turns (Z.to_nat last) ++ preempted ++ turns (Z.to_nat (last - 1)) ++ published.

Lemma accepted_all (s : system T (queue_call T * mpc T) (mpmc_queue T)) (i n : nat) :
  answers s i = replicate n (AnsBool true) → accepted s i = n.
Proof.
  unfold accepted. intros ->. induction n as [|n IH]; [done|]. cbn [replicate omap list_omap].
  rewrite filter_cons_True by done. cbn [length]. by rewrite IH.
Qed.

Lemma delivered_all (s : system T (queue_call T * mpc T) (mpmc_queue T)) (i : nat) vs :
  answers s i = AnsPop ∘ Some <$> vs → delivered s i = vs.
Proof. unfold delivered. intros ->. induction vs as [|v vs IH]; cbn; [done|]. by f_equal. Qed.

Lemma turns_plain n : Forall (λ e, e.2 = false) (turns n).
Proof. induction n; [constructor|]. apply Forall_app. split; [repeat constructor|done]. Qed.

Lemma split_values (vs : list T) :
  Z.of_nat (length vs) = 2 ^ w * 2 - 1 →
  ∃ xs v ys y, vs = xs ++ v :: ys ++ [y] ∧ Z.of_nat (length xs) = last ∧ Z.of_nat (length ys) = last - 1.
Proof.
  intros Hvs. pose proof last_positive.
  destruct (lookup_lt_is_Some_2 vs (Z.to_nat last)) as [v Hv]; [unfold last; lia|].
  destruct (exists_last (l := drop (S (Z.to_nat last)) vs)) as (ys & y & Ey).
  { intros E. apply (f_equal length) in E. rewrite length_drop in E. cbn in E. unfold last in E. lia. }
  exists (take (Z.to_nat last) vs), v, ys, y.
  split; [by rewrite <- Ey, take_drop_middle|]. split; [rewrite length_take; unfold last; lia|].
  apply (f_equal length) in Ey. rewrite length_drop, length_app in Ey. cbn in Ey. unfold last in *. lia.
Qed.

(** C26. A value is delivered twice.  [pop], helping a preempted [push], resets
    the flag of the cell it publishes to [size_limit] instead of
    [invalid_index].  For the last cell of the ring the two differ: [size_limit]
    is that cell's own index, so it stays marked as ready, and one lap later a
    [push] publishes it before anything was written to it.  For every width of
    the index type from two bits on that is narrower than [int], every capacity of at least
    two and every sequence of values as long as two laps less one, under the
    schedule [replay] of one producer and one consumer, which has no spurious
    failure, every push succeeds and the pops deliver all the values in order
    and then, once more, the one that was in the last cell. *)
Theorem mpmc_delivers_twice (vs : list T) (Hvs : Z.of_nat (length vs) = 2 ^ (w + 1) - 1) :
  ∃ s v,
    run_schedule m replay
      (start (mpmc_new w blank max_size) [CallPush <$> vs; replicate (S (length vs)) CallPop]) = Ok s ∧
    Forall (λ e, e.2 = false) replay ∧ vs !! Z.to_nat (2 ^ w - 1) = Some v ∧
    accepted s 0 = length vs ∧ delivered s 1 = vs ++ [v].
Proof.
  pose proof last_positive as H2. rewrite Z.pow_add_r, Z.pow_1_r in Hvs by lia.
  destruct (split_values vs Hvs) as (xs & v & ys & y & -> & Hxs & Hys).
  set (cells0 := replicate (Z.to_nat (2 ^ w)) (blank, invalid_index)).
  assert (E0 : mpmc_new w blank max_size = ring 0 0 0 cells0).
  { unfold mpmc_new, spsc_new. by rewrite block_cells_narrow by lia. }
  assert (Hlap0 : lap (blank, invalid_index) cells0).
  { unfold cells0. split; [by rewrite length_replicate|apply lookup_replicate_2; unfold last; lia|].
    intros j Hj. exists blank. apply lookup_replicate_2. unfold last in *; lia. }
  destruct (turns_run (blank, invalid_index) (preempted ++ turns (length ys) ++ published) xs 0 cells0
    (CallPush <$> v :: ys ++ [y]) (replicate (S (length ys + 2)) CallPop) [] [])
    as (cells1 & Hlap1 & E1); [done|lia|lia|intros _; cbn; unfold invalid_index, last;
      pose proof (Z.pow_le_mono_r 2 w 32); lia|].
  destruct (preempted_run v (blank, invalid_index) (turns (length ys) ++ published) cells1
    (CallPush <$> ys ++ [y]) (replicate (length ys + 2) CallPop)
    (replicate (length xs) (AnsBool true)) (AnsPop ∘ Some <$> xs)) as (cells2 & Hlap2 & E2); [done|].
  destruct (turns_run (v, last) published ys 0 cells2 [CallPush y] [CallPop; CallPop]
    (replicate (length xs) (AnsBool true) ++ [AnsBool true]) ((AnsPop ∘ Some <$> xs) ++ [AnsPop (Some v)]))
    as (cells3 & Hlap3 & E3); [done|lia|lia|intros; lia|].
  rewrite Hxs in E1. rewrite Hys in E3. rewrite !Z.add_0_l in *.
  destruct (published_run y v cells3 [] []
    ((replicate (length xs) (AnsBool true) ++ [AnsBool true]) ++ replicate (length ys) (AnsBool true))
    (((AnsPop ∘ Some <$> xs) ++ [AnsPop (Some v)]) ++ (AnsPop ∘ Some <$> ys))) as (q & E4); [done|].
  assert (Er : replay = turns (length xs) ++ preempted ++ turns (length ys) ++ published).
  { unfold replay. by rewrite <- Hys, <- Hxs, !Nat2Z.id. }
  eexists _, v. rewrite Er.
  assert (En : S (length (xs ++ v :: ys ++ [y])) = (length xs + S (length ys + 2))%nat).
  { rewrite length_app. cbn. rewrite length_app. cbn. lia. }
  assert (Ep : (CallPush (T := T) <$> ys ++ [y]) = (CallPush <$> ys) ++ [CallPush y]).
  { rewrite fmap_app. reflexivity. }
  assert (Eo : replicate (length ys + 2) (CallPop (T := T)) = replicate (length ys) CallPop ++ [CallPop; CallPop])
    by by rewrite replicate_add.
  split; [|split; [|split; [|split]]].
  - unfold start. rewrite E0, En, fmap_app, replicate_add. etransitivity; [exact E1|].
    etransitivity; [exact E2|]. rewrite Ep, Eo. etransitivity; [exact E3|exact E4].
  - rewrite !Forall_app. split_and!; try apply turns_plain; repeat constructor.
  - rewrite list_lookup_middle; [done|]. unfold last in Hxs. lia.
  - apply accepted_all. unfold answers. cbn.
    change [AnsBool true] with (replicate 1 (AnsBool (T := T) true)). rewrite <- !replicate_add.
    by replace (length (xs ++ v :: ys ++ [y])) with (length xs + 1 + length ys + 1)%nat by lia.
  - apply delivered_all. unfold answers. cbn. rewrite !fmap_app, <- !app_assoc. cbn.
    by rewrite (fmap_app _ ys), <- app_assoc.
Qed.
End Replay.

(** Indices of eight bits, as in a program that pushes 511 different values. *)
Lemma mpmc_delivers_twice_witness :
  ∃ s,
    run_schedule (mpmc_machine 8 0) (replay 8)
      (start (mpmc_new 8 0 255) [CallPush <$> seqZ 0 511; replicate 512 CallPop]) = Ok s ∧
    delivered s 1 = seqZ 0 511 ++ [255].
Proof.
  destruct (mpmc_delivers_twice 8 0 ltac:(lia) 255 ltac:(lia) (seqZ 0 511)) as (s & v & E & _ & Hv & _ & Hd).
  { by rewrite length_seqZ. }
  exists s. split; [exact E|].
  assert (Ev : seqZ 0 511 !! Z.to_nat (2 ^ 8 - 1) = Some 255) by (vm_compute; reflexivity).
  rewrite Ev in Hv. injection Hv as <-. exact Hd.
Defined.
