(* ===== verification/MpmcConcurrent.v ===== *)
(** * MpmcConcurrent: the multi-producer ring under every schedule

    MpmcQueue.v exhibits a schedule that makes the ring deliver a value twice,
    through the last cell of its block.  Here is what holds before that cell is
    reached: any number of threads may push and pop in any interleaving, with
    any spurious failures, and the queue is a linearizable FIFO.

    The ghost state of the proof is the order in which pushes claimed their
    cells, the order in which pops took them, and the thread that is moving
    [head_]: between taking the flag of the cell at [head_] and storing the
    next index, a thread, be it in [push] or in [pop], is the only one that
    may do so. *)

From S2P Require Import Prelude ThreadSafeQueue SpscQueue Threads MpmcQueue.
Import MpmcThreads.

Section Ghost.
Context {T : Type}.
Variables (w : Z) (blank : T).
Hypothesis w_pos : 0 < w.
Hypothesis w_narrow : w < 32.
Implicit Types (q : mpmc_queue T) (k : nat) (i : Z).

(** Which thread claimed the n-th cell and with what value; which thread took
    the n-th value; who is moving [head_]; the cells claimed and not marked
    ready yet. *)
Record ghost := MkGhost {
  g_claims : list (nat * T);
  g_takes : list nat;
  g_lock : option nat;
  g_unready : gset Z
}.
Implicit Types g : ghost.

Notation q_head q := (sp_head_ (mq_ring q)).
Notation q_tail q := (sp_tail_ (mq_ring q)).
Notation at_cell q i := (cell blank q i).

Definition claim g i : option (nat * T) := g_claims g !! Z.to_nat i.

(** The value of the push that claimed the cell is in it. *)
Definition written g q i : Prop := ∃ k, claim g i = Some (k, (at_cell q i).1).

Record queue_ok g q : Prop := {
  qo_flag : mq_flag_ q = Z.of_nat (length (g_claims g));
  qo_tail : q_tail q = Z.of_nat (length (g_takes g));
  qo_order : q_tail q ≤ q_head q ≤ mq_flag_ q;
  qo_block : length (sp_block_ (mq_ring q)) = Z.to_nat (2 ^ w);
  qo_ready : ∀ i, 0 ≤ i < 2 ^ w → (at_cell q i).2 = i → q_head q ≤ i < mq_flag_ q ∧ written g q i;
  qo_written : ∀ i, 0 ≤ i < q_head q → written g q i;
  qo_lock : is_Some (g_lock g) →
    q_head q < mq_flag_ q ∧ (at_cell q (q_head q)).2 ≠ q_head q ∧ written g q (q_head q);
  qo_pending : ∀ i, q_head q ≤ i < mq_flag_ q →
    (at_cell q i).2 = i ∨ i ∈ g_unready g ∨ is_Some (g_lock g) ∧ i = q_head q
}.

(** Thread [k] owns a cell it has not marked ready yet. *)
Record writer g q k (v : T) i : Prop := {
  wr_claim : claim g i = Some (k, v);
  wr_range : 0 ≤ i ∧ q_head q ≤ i < mq_flag_ q;
  wr_unready : (at_cell q i).2 ≠ i;
  wr_lock : i = q_head q → g_lock g = None;
  wr_pending : i ∈ g_unready g
}.

(** The cell a push is about to fill or to mark ready. *)
Definition writes (pc : mpc T) i : Prop :=
  match pc with PushData _ cur _ | PushReady cur _ => cur = i | _ => False end.

(** Thread [k] has nothing unready but the cell it works on. *)
Definition own_unready g k (pc : mpc T) : Prop :=
  ∀ i v, 0 ≤ i → claim g i = Some (k, v) → i ∈ g_unready g → writes pc i.

Definition publishing (pc : mpc T) : bool :=
  match pc with PushPublish _ _ | PopPublish _ => true | _ => false end.

(** A push that has claimed its cell. *)
Definition holds (pc : mpc T) : bool :=
  match pc with
  | PushData _ _ _ | PushReady _ _ | PushCheck _ _ | PushHead _ _ _ | PushTake _ _ _
  | PushPublish _ _ => true
  | _ => false
  end.

Definition is_push (c : queue_call T) : Prop := ∃ v, c = CallPush v.

(** What is known where thread [k], in the call [c], stands. *)
Definition pc_ok g q k (c : queue_call T) (pc : mpc T) : Prop :=
  match pc with
  | PushStart v => c = CallPush v
  | PushLoop v cur => c = CallPush v ∧ 0 ≤ cur ≤ mq_flag_ q
  | PushClaim v cur next => c = CallPush v ∧ next = cur + 1 ∧ 0 ≤ cur ≤ mq_flag_ q
  | PushData v cur next => c = CallPush v ∧ next = cur + 1 ∧ writer g q k v cur
  | PushReady cur next =>
      next = cur + 1 ∧ ∃ v, c = CallPush v ∧ writer g q k v cur ∧ (at_cell q cur).1 = v
  | PushCheck cur next | PushHead cur next _ => is_push c ∧ next = cur + 1 ∧ 0 ≤ cur ≤ mq_flag_ q
  | PushTake cur next cac => is_push c ∧ next = cur + 1 ∧ cac = cur ∧ 0 ≤ cur ≤ q_head q
  | PushPublish cur next => is_push c ∧ next = cur + 1 ∧ cur = q_head q
  | PopStart => ¬ is_push c
  | PopHead cur => c = CallPop ∧ 0 ≤ cur ≤ q_tail q
  | PopFlag cur => c = CallPop ∧ 0 ≤ cur ≤ q_head q
  | PopTake cur cac => c = CallPop ∧ cac = cur ∧ 0 ≤ cur ≤ q_head q
  | PopPublish cur => c = CallPop ∧ cur = q_head q
  | PopRead cur => c = CallPop ∧ 0 ≤ cur < q_head q
  | PopAdvance cur v => c = CallPop ∧ 0 ≤ cur < q_head q ∧ ∃ j, claim g cur = Some (j, v)
  | Returned _ _ => False
  end.

Definition call_ok g q k c pc : Prop :=
  pc_ok g q k c pc ∧ (g_lock g = Some k ↔ publishing pc = true) ∧ own_unready g k pc.

(** A step of thread [k], as the other threads see it. *)
Record others_ok g q k g' q' : Prop := {
  ot_claims : g_claims g `prefix_of` g_claims g';
  ot_flag : mq_flag_ q ≤ mq_flag_ q';
  ot_head : q_head q ≤ q_head q';
  ot_tail : q_tail q ≤ q_tail q';
  ot_lock : ∀ j, j ≠ k → (g_lock g' = Some j ↔ g_lock g = Some j) ∧
                         (g_lock g = Some j → q_head q' = q_head q);
  ot_writer : ∀ j v i, j ≠ k → writer g q j v i →
    writer g' q' j v i ∧ (at_cell q' i).1 = (at_cell q i).1;
  ot_unready : ∀ j v i, j ≠ k → 0 ≤ i → claim g' i = Some (j, v) → i ∈ g_unready g' →
    claim g i = Some (j, v) ∧ i ∈ g_unready g
}.

Lemma claim_prefix g g' i x :
  g_claims g `prefix_of` g_claims g' → claim g i = Some x → claim g' i = Some x.
Proof. intros Hp Hc. by eapply prefix_lookup_Some. Qed.

Lemma call_ok_others g q k g' q' j c pc :
  others_ok g q k g' q' → j ≠ k → call_ok g q j c pc → call_ok g' q' j c pc.
Proof.
  intros [Hc Hf Hh Ht Hl Hw Hu] Hj (Hpc & Hlock & Hown). destruct (Hl j Hj) as [Hl1 Hl2].
  split; [|split; [by rewrite Hl1|]].
  2: { intros i v Hi Hci Hin. destruct (Hu j v i Hj Hi Hci Hin). by eapply Hown. }
  destruct pc; cbn in *; try solve [intuition lia].
  - destruct Hpc as (? & ? & Hwr). split; [done|]. split; [done|]. by apply (Hw _ _ _ Hj Hwr).
  - destruct Hpc as (? & v & ? & Hwr & <-). split; [done|]. eexists. split; [done|].
    by apply (Hw _ _ _ Hj Hwr).
  - destruct Hpc as (? & ? & i & ?). split; [done|]. split; [lia|]. exists i. by eapply claim_prefix.
Qed.

(** ** One step *)

(** The outcome of a step of thread [k] in the call [c]: how the ghost state
    grows, and what the answer is if the call returns. *)
Inductive step_effect k c pc pc' g g' : Prop :=
  | EffClaim v :
      c = CallPush v → holds pc = false → holds pc' = true →
      g_claims g' = g_claims g ++ [(k, v)] → g_takes g' = g_takes g →
      step_effect k c pc pc' g g'
  | EffTake v :
      c = CallPop → pc' = Returned true (Some v) → holds pc = false →
      g_claims g' = g_claims g → g_takes g' = g_takes g ++ [k] →
      snd <$> g_claims g !! length (g_takes g) = Some v →
      step_effect k c pc pc' g g'
  | EffQuiet :
      g_claims g' = g_claims g → g_takes g' = g_takes g →
      match pc' with
      | Returned b o => o = None ∧ (is_push c → b = holds pc)
      | _ => holds pc' = holds pc
      end →
      step_effect k c pc pc' g g'.

(** What one step of the queue establishes. *)
Record step_ok g q k c pc pc' q' g' : Prop := {
  st_queue : queue_ok g' q';
  st_others : others_ok g q k g' q';
  st_effect : step_effect k c pc pc' g g';
  st_call : match pc' with
            | Returned _ _ => g_lock g' ≠ Some k ∧ own_unready g' k pc'
            | _ => call_ok g' q' k c pc'
            end
}.

(** A step that does not write to the queue. *)
Lemma others_ok_refl g q k : others_ok g q k g q.
Proof. split; done || lia || naive_solver. Qed.

Lemma step_reads g q k c pc pc' :
  queue_ok g q → g_lock g ≠ Some k → publishing pc' = false →
  own_unready g k pc → (∀ i, ¬ writes pc i) →
  match pc' with
  | Returned b o => o = None ∧ (is_push c → b = holds pc)
  | _ => pc_ok g q k c pc' ∧ holds pc' = holds pc
  end →
  step_ok g q k c pc pc' q g.
Proof.
  intros Hq Hl Hp Hu Hw Hpc. split; [done|apply others_ok_refl| |].
  - apply EffQuiet; [done|done|]. destruct pc'; tauto.
  - assert (Hu' : own_unready g k pc') by (intros i v Hi Hc Hin; by destruct (Hw i); eapply Hu).
    destruct pc'; try done; (split; [tauto|split; [by rewrite Hp|done]]).
Qed.
(** *** The steps that write *)

Lemma written_prefix g g' q i :
  g_claims g `prefix_of` g_claims g' → written g q i → written g' q i.
Proof. intros Hp [k Hk]. exists k. by eapply claim_prefix. Qed.

Lemma written_set_cell g q i n j :
  queue_ok g q → 0 ≤ i < 2 ^ w → 0 ≤ j < 2 ^ w → (j = i → ∃ k, claim g i = Some (k, n.1)) →
  written g q j → written g (set_cell i n q) j.
Proof.
  intros Hq Hi Hj Hn [k Hk]. unfold written. rewrite (cell_set_cell w) by (done || apply Hq).
  case_decide as E; [subst j; auto|by exists k].
Qed.

(** A push claims the next cell. *)
Lemma step_claim g q k v cur :
  queue_ok g q → g_lock g ≠ Some k → own_unready g k (PushClaim v cur (cur + 1)) →
  mq_flag_ q = cur → cur < 2 ^ w →
  step_ok g q k (CallPush v) (PushClaim v cur (cur + 1)) (PushData v cur (cur + 1))
    (MkMpmc (mq_ring q) (cur + 1))
    (MkGhost (g_claims g ++ [(k, v)]) (g_takes g) (g_lock g) ({[cur]} ∪ g_unready g)).
Proof.
  intros Hq Hl Hu Hf Hcur. pose proof Hq as [H1 H2 H3 H4 H5 H6 H7 H8].
  set (g' := MkGhost _ _ _ _). set (q' := MkMpmc _ _).
  assert (Hpre : g_claims g `prefix_of` g_claims g') by by eexists.
  assert (Hown : claim g' cur = Some (k, v)).
  { unfold claim, g'. cbn. rewrite lookup_app_r by lia. by replace (_ - _)%nat with 0%nat by lia. }
  assert (Hold : ∀ i x, 0 ≤ i → claim g' i = Some x → i ≠ cur → claim g i = Some x).
  { intros i x Hi Hx Hne. pose proof (lookup_lt_Some _ _ _ Hx) as Hlt. unfold claim, g' in *. cbn in *.
    rewrite length_app in Hlt. cbn in Hlt. rewrite lookup_app_l in Hx by lia. done. }
  split.
  - split; cbn [g' q' mq_ring mq_flag_ g_claims g_takes g_lock]; try done; try lia.
    + rewrite length_app. cbn. lia.
    + intros i Hi E. destruct (H5 i Hi E) as [? ?]. split; [lia|]. by apply (written_prefix g).
    + intros i Hi. by apply (written_prefix g), H6.
    + intros Hs. destruct (H7 Hs) as (? & ? & ?). split; [lia|]. split; [done|]. by apply (written_prefix g).
    + intros i Hi. cbn. destruct (decide (i = cur)) as [->|]; [set_solver|].
      destruct (H8 i ltac:(lia)) as [|[|]]; [by left|set_solver|auto].
  - split; cbn [q' mq_ring mq_flag_]; try done; try lia.
    + intros j v' i Hj [Hw1 Hw2 Hw3 Hw4 Hw5]. split; [|done].
      split; try done; [by eapply claim_prefix| |cbn; set_solver]. cbn [mq_flag_ mq_ring q']. lia.
    + intros j v' i Hj Hi Hci Hin. destruct (decide (i = cur)) as [->|Hne]; [congruence|].
      split; [by apply Hold|]. cbn in Hin. set_solver.
  - by apply EffClaim with v.
  - split; [|split; [done|]].
    2: { intros i v' Hi Hci Hin. destruct (decide (i = cur)) as [->|Hne]; [done|]. cbn in Hin.
         exfalso. apply (Hu i v' Hi (Hold _ _ Hi Hci Hne)). set_solver. }
    cbn. split; [done|]. split; [done|]. split; try done.
    + cbn. lia.
    + intros E. change (at_cell q' cur) with (at_cell q cur) in E. destruct (H5 cur ltac:(lia) E). lia.
    + cbn. intros E. destruct (g_lock g) eqn:El; [|done]. destruct (H7 ltac:(eauto)). lia.
    + cbn. set_solver.
Qed.

(** A push writes its value. *)
Lemma step_data g q k v cur :
  queue_ok g q → g_lock g ≠ Some k → own_unready g k (PushData v cur (cur + 1)) →
  mq_flag_ q ≤ 2 ^ w → writer g q k v cur →
  step_ok g q k (CallPush v) (PushData v cur (cur + 1)) (PushReady cur (cur + 1))
    (set_cell cur (v, (at_cell q cur).2) q) g.
Proof.
  intros Hq Hl Hu Hf Hwr. pose proof Hwr as [W1 W2 W3 W4 W5]. pose proof Hq as [H1 H2 H3 H4 H5 H6 H7 H8].
  set (q' := set_cell _ _ q).
  assert (Hcell : ∀ j, 0 ≤ j < 2 ^ w → at_cell q' j =
            if decide (cur = j) then (v, (at_cell q cur).2) else at_cell q j).
  { intros j Hj. apply (cell_set_cell w); try done; lia. }
  assert (Hflag : ∀ j, 0 ≤ j < 2 ^ w → (at_cell q' j).2 = (at_cell q j).2).
  { intros j Hj. rewrite Hcell by done. case_decide; [by subst|done]. }
  assert (Hwritten : ∀ j, 0 ≤ j < 2 ^ w → written g q j → written g q' j).
  { intros j Hj. apply written_set_cell; [done|lia|done|]. intros ->. by exists k. }
  split.
  - split; try done.
    + cbn. by rewrite length_insert.
    + intros i Hi. rewrite Hflag by done. intros E. destruct (H5 i Hi E). split; [done|]. by apply Hwritten.
    + intros i Hi. cbn in Hi. apply Hwritten; [lia|]. by apply H6.
    + intros Hs. destruct (H7 Hs) as (? & ? & ?). cbn. rewrite Hflag by lia.
      split; [done|]. split; [done|]. apply Hwritten; [lia|done].
    + intros i Hi. cbn in Hi. rewrite Hflag by lia. by apply H8.
  - split; try done. intros j v' i Hj [V1 V2 V3 V4 V5].
    assert (cur ≠ i) by (intros ->; congruence). rewrite Hcell, decide_False by (done || lia).
    split; [|done]. split; try done. by rewrite Hflag by lia.
  - by apply EffQuiet.
  - split; [|by split]. cbn. split; [done|]. exists v. split; [done|].
    rewrite Hcell, decide_True by (done || lia). split; [|done]. split; try done. by rewrite Hflag by lia.
Qed.

(** A push marks its cell ready. *)
Lemma step_ready g q k v cur :
  queue_ok g q → g_lock g ≠ Some k → own_unready g k (PushReady cur (cur + 1)) →
  mq_flag_ q ≤ 2 ^ w → writer g q k v cur → (at_cell q cur).1 = v →
  step_ok g q k (CallPush v) (PushReady cur (cur + 1)) (PushCheck cur (cur + 1))
    (set_cell cur ((at_cell q cur).1, cur) q)
    (MkGhost (g_claims g) (g_takes g) (g_lock g) (g_unready g ∖ {[cur]})).
Proof.
  intros Hq Hl Hu Hf Hwr Hv. pose proof Hwr as [W1 W2 W3 W4 W5]. pose proof Hq as [H1 H2 H3 H4 H5 H6 H7 H8].
  set (g' := MkGhost _ _ _ _).
  set (q' := set_cell _ _ q).
  assert (Hcell : ∀ j, 0 ≤ j < 2 ^ w → at_cell q' j =
            if decide (cur = j) then ((at_cell q cur).1, cur) else at_cell q j).
  { intros j Hj. apply (cell_set_cell w); try done; lia. }
  assert (Hdata : ∀ j, 0 ≤ j < 2 ^ w → (at_cell q' j).1 = (at_cell q j).1).
  { intros j Hj. rewrite Hcell by done. case_decide; [by subst|done]. }
  assert (Hwritten : ∀ j, 0 ≤ j < 2 ^ w → written g q j → written g' q' j).
  { intros j Hj. unfold written. by rewrite Hdata. }
  split.
  - split; try done.
    + cbn. by rewrite length_insert.
    + intros i Hi. rewrite Hcell by done. case_decide as E.
      * intros _. subst i. split; [cbn; lia|]. apply Hwritten; [done|]. exists k. by rewrite Hv.
      * intros Ei. destruct (H5 i Hi Ei). split; [done|]. by apply Hwritten.
    + intros i Hi. cbn in Hi. apply Hwritten; [lia|]. by apply H6.
    + intros Hs. cbn in Hs. destruct (H7 Hs) as (? & ? & ?). cbn.
      assert (cur ≠ q_head q) by (intros E; rewrite (W4 E) in Hs; by destruct Hs).
      rewrite Hcell, decide_False by (done || lia). split; [done|]. split; [done|]. apply Hwritten; [lia|done].
    + intros i Hi. cbn in Hi. rewrite Hcell by lia. case_decide as E; [by left|].
      destruct (H8 i Hi) as [|[|]]; [by left|right; left; cbn; set_solver|auto].
  - split; try done; [|intros j v' i Hj Hi Hci Hin; cbn in Hin; set_solver].
    intros j v' i Hj [V1 V2 V3 V4 V5]. assert (cur ≠ i) by (intros ->; congruence).
    rewrite Hcell, decide_False by (done || lia). split; [|done]. split; try done.
    + by rewrite Hcell, decide_False by (done || lia).
    + cbn. set_solver.
  - by apply EffQuiet.
  - split; [|split; [done|]].
    2: { intros i v' Hi Hci Hin. cbn in Hin. assert (cur = i) by (apply (Hu i v'); set_solver). set_solver. }
    cbn. split; [by exists v|]. split; [done|lia].
Qed.

(** A thread takes the flag of the cell at [head_], to move it. *)
Lemma take_ok g q k i x :
  queue_ok g q → mq_flag_ q < 2 ^ w → 0 ≤ i ≤ q_head q → (at_cell q i).2 = i → x ≠ i →
  let q' := set_cell i ((at_cell q i).1, x) q in
  let g' := MkGhost (g_claims g) (g_takes g) (Some k) (g_unready g) in
  i = q_head q ∧ i < mq_flag_ q ∧ g_lock g = None ∧ queue_ok g' q' ∧ others_ok g q k g' q'.
Proof.
  intros Hq Hf Hi E Hx. pose proof Hq as [H1 H2 H3 H4 H5 H6 H7 H8]. cbn zeta.
  destruct (H5 i ltac:(lia) E) as [Hr Hwi]. assert (i = q_head q) as Eh by lia.
  assert (Hl : g_lock g = None).
  { destruct (g_lock g) eqn:El; [|done]. destruct (H7 ltac:(eauto)) as (_ & Hne & _).
    rewrite <- Eh in Hne. done. }
  set (q' := set_cell _ _ q).
  assert (Hcell : ∀ j, 0 ≤ j < 2 ^ w → at_cell q' j =
            if decide (i = j) then ((at_cell q i).1, x) else at_cell q j).
  { intros j Hj. apply (cell_set_cell w); try done; lia. }
  assert (Hdata : ∀ j, 0 ≤ j < 2 ^ w → (at_cell q' j).1 = (at_cell q j).1).
  { intros j Hj. rewrite Hcell by done. case_decide; [by subst|done]. }
  assert (Hwritten : ∀ j, 0 ≤ j < 2 ^ w → written g q j → written (MkGhost (g_claims g) (g_takes g) (Some k) (g_unready g)) q' j).
  { intros j Hj. unfold written. by rewrite Hdata. }
  split; [done|]. split; [lia|]. split; [done|]. split.
  - split; try done.
    + cbn. by rewrite length_insert.
    + intros j Hj. rewrite Hcell by done. case_decide as Ej; [cbn; congruence|].
      intros Eq. destruct (H5 j Hj Eq). split; [done|]. by apply Hwritten.
    + intros j Hj. cbn in Hj. apply Hwritten; [lia|]. by apply H6.
    + intros _. cbn. rewrite <- Eh, Hcell, decide_True by (done || lia). cbn. split; [lia|].
      split; [done|]. apply Hwritten; [lia|done].
    + intros j Hj. cbn in Hj. rewrite Hcell by lia. case_decide as Ej.
      * right; right. cbn. split; [done|lia].
      * destruct (H8 j Hj) as [|[|[_ ?]]]; [by left|by right; left|lia].
  - split; try done.
    + intros j Hj. rewrite Hl. cbn. split; [split; congruence|done].
    + intros j v' c Hj [V1 V2 V3 V4 V5]. assert (i ≠ c) by congruence.
      rewrite Hcell, decide_False by (done || lia). split; [|done]. split; try done.
      * by rewrite Hcell, decide_False by (done || lia).
      * cbn. intros ->. lia.
Qed.

(** The thread that took the flag stores the next index. *)
Lemma publish_ok g q k :
  queue_ok g q → mq_flag_ q ≤ 2 ^ w → g_lock g = Some k →
  let q' := set_head (q_head q + 1) q in
  let g' := MkGhost (g_claims g) (g_takes g) None (g_unready g) in
  q_head q < mq_flag_ q ∧ queue_ok g' q' ∧ others_ok g q k g' q'.
Proof.
  intros Hq Hf Hl. pose proof Hq as [H1 H2 H3 H4 H5 H6 H7 H8]. cbn zeta.
  destruct (H7 ltac:(eauto)) as (Hlt & Hne & Hwh). split; [done|]. split.
  - split; cbn [set_head mq_ring mq_flag_ sp_tail_ sp_head_ sp_block_ g_lock]; try done; try lia.
    + intros i Hi E. destruct (H5 i Hi E) as [Hr ?]. split; [|done].
      assert (i ≠ q_head q) by (intros ->; done). lia.
    + intros i Hi. destruct (decide (i = q_head q)) as [->|]; [done|]. apply H6. lia.
    + intros i Hi. destruct (H8 i ltac:(lia)) as [|[|[_ ?]]]; [by left|by right; left|lia].
  - split; cbn [set_head mq_ring mq_flag_ sp_tail_ sp_head_ g_lock]; try done; try lia.
    + intros j Hj. rewrite Hl. split; [split; congruence|congruence].
    + intros j v' i Hj [V1 V2 V3 V4 V5]. split; [|done]. split; try done.
      cbn. assert (i ≠ q_head q) by (intros E; rewrite (V4 E) in Hl; done). lia.
Qed.

(** A pop takes the value at the tail. *)
Lemma tail_ok g q k :
  queue_ok g q → q_tail q < q_head q →
  queue_ok (MkGhost (g_claims g) (g_takes g ++ [k]) (g_lock g) (g_unready g)) (set_tail (q_tail q + 1) q).
Proof.
  intros [H1 H2 H3 H4 H5 H6 H7 H8] Hlt.
  split; cbn [set_tail mq_ring mq_flag_ sp_tail_ sp_head_ sp_block_ g_takes]; try done; try lia.
  rewrite length_app. cbn. lia.
Qed.

Lemma step_take g q k cur v j :
  queue_ok g q → g_lock g ≠ Some k → own_unready g k (PopAdvance cur v) → q_tail q = cur → cur < q_head q →
  claim g cur = Some (j, v) →
  step_ok g q k CallPop (PopAdvance cur v) (Returned true (Some v)) (set_tail (cur + 1) q)
    (MkGhost (g_claims g) (g_takes g ++ [k]) (g_lock g) (g_unready g)).
Proof.
  intros Hq Hl Hu <- Hlt Hc. pose proof (qo_tail _ _ Hq) as H2. split; [by apply tail_ok| | |done].
  - split; cbn [set_tail mq_ring mq_flag_ sp_tail_ sp_head_ g_lock]; try done; try lia.
    intros j' v' i Hj [V1 V2 V3 V4 V5]. done.
  - apply EffTake with v; try done. unfold claim in Hc.
    replace (Z.to_nat (q_tail q)) with (length (g_takes g)) in Hc by lia. by rewrite Hc.
Qed.

(** *** Every step *)

Lemma small_index i : 0 ≤ i < 2 ^ w → invalid_index ≠ i.
Proof. assert (2 ^ w < 2 ^ 32) by (apply Z.pow_lt_mono_r; lia). unfold invalid_index. lia. Qed.

(** A step that only reads keeps the ghost state. *)
Ltac reads g :=
  exists g; apply step_reads; [done|by auto|done|done|intros ? ?; done|cbn; repeat split; solve [done | lia | naive_solver]].

Lemma mpmc_step_push g q k v pc spurious :
  queue_ok g q → mq_flag_ q ≤ 2 ^ w - 2 → (holds pc = false → mq_flag_ q < 2 ^ w - 2) →
  call_ok g q k (CallPush v) pc →
  ∃ g', let r := mpmc_step w blank spurious pc q in step_ok g q k (CallPush v) pc r.1 r.2 g'.
Proof.
  intros Hq Hf Hroom (Hpc & Hl & Hu). pose proof (qo_order g q Hq) as Ho. pose proof (qo_ready g q Hq) as Hr.
  assert (Hp : is_push (CallPush v : queue_call T)) by by exists v.
  assert (Hl' : publishing pc = false → g_lock g ≠ Some k) by (intros E E'; apply Hl in E'; congruence).
  assert (Ht := qo_tail g q Hq).
  destruct pc; cbn [pc_ok] in Hpc; cbn [publishing] in *; try (by destruct Hpc); cbn zeta; cbn [mpmc_step].
  - injection Hpc as <-. reads g.
  - destruct Hpc as [[= <-] Hc]. rewrite (wrap_u_id w (cur_flag + 1)) by (specialize (Hroom eq_refl); lia).
    destruct (mpmc_full _ _ _ _); reads g.
  - destruct Hpc as ([= <-] & -> & Hc). destruct (Z.eqb_spec (mq_flag_ q) cur_flag) as [E|]; destruct spurious;
      cbn [andb negb]; try reads g.
    eexists. apply step_claim; auto. specialize (Hroom eq_refl). lia.
  - destruct Hpc as ([= <-] & -> & Hwr). eexists. apply step_data; auto. lia.
  - destruct Hpc as (-> & v' & [= <-] & Hwr & Hv). eexists. apply step_ready; auto. lia.
  - destruct Hpc as (_ & -> & Hc). reads g.
  - destruct Hpc as (_ & -> & Hc). destruct (Z.eqb_spec cur_flag (q_head q)) as [E|]; cbn [negb]; [|reads g].
    destruct (Z.eqb_spec cac_flag cur_flag) as [E'|]; cbn [negb]; reads g.
  - destruct Hpc as (_ & -> & -> & Hc). destruct (Z.eqb_spec (at_cell q cur_flag).2 cur_flag) as [E|]; [|reads g].
    destruct (take_ok g q k cur_flag invalid_index) as (Eh & _ & _ & Hq' & Ho'); try done; [lia|apply small_index; lia|].
    eexists. split; [exact Hq'|exact Ho'|by apply EffQuiet|]. split; [|by split]. cbn. auto.
  - destruct Hpc as (_ & -> & ->). destruct (publish_ok g q k) as (Hlt & Hq' & Ho'); [done|lia|by apply Hl|].
    rewrite (wrap_u_id w (_ + 1 + 1)) by lia.
    eexists. split; [exact Hq'|exact Ho'|by apply EffQuiet|]. split; [|by split]. cbn. split; [done|].
    split; [done|lia].
Qed.

Lemma mpmc_step_pop g q k pc spurious :
  queue_ok g q → mq_flag_ q ≤ 2 ^ w - 2 → call_ok g q k CallPop pc →
  ∃ g', let r := mpmc_step w blank spurious pc q in step_ok g q k CallPop pc r.1 r.2 g'.
Proof.
  intros Hq Hf (Hpc & Hl & Hu). pose proof (qo_order g q Hq) as Ho. pose proof (qo_written g q Hq) as Hw.
  assert (Hp : ¬ is_push (CallPop : queue_call T)) by by intros [].
  assert (Hl' : publishing pc = false → g_lock g ≠ Some k) by (intros E E'; apply Hl in E'; congruence).
  assert (Ht := qo_tail g q Hq). assert (H2 : 0 < 2 ^ w) by (apply Z.pow_pos_nonneg; lia).
  destruct pc; cbn [pc_ok] in Hpc; cbn [publishing] in *; try (by destruct Hpc); cbn zeta; cbn [mpmc_step];
    try discriminate; try (by destruct Hpc as [? ?]); try (by destruct Hpc as (_ & ? & ? & _)).
  - reads g.
  - destruct Hpc as [_ Hc]. destruct (Z.eqb_spec cur_tail (q_head q)); reads g.
  - destruct Hpc as [_ Hc]. destruct (Z.eqb_spec (at_cell q cur_head).2 cur_head); cbn [negb]; reads g.
  - destruct Hpc as (_ & -> & Hc).
    destruct (Z.eqb_spec (at_cell q cur_head).2 cur_head) as [E|]; destruct spurious; cbn [andb negb]; try reads g.
    destruct (qo_ready g q Hq cur_head ltac:(lia) E) as [? _].
    destruct (take_ok g q k cur_head (size_limit w)) as (Eh & _ & _ & Hq' & Ho'); try done;
      [lia|unfold size_limit; lia|].
    eexists. split; [exact Hq'|exact Ho'|by apply EffQuiet|]. split; [|by split]. cbn. auto.
  - destruct Hpc as (_ & ->). destruct (publish_ok g q k) as (Hlt & Hq' & Ho'); [done|lia|by apply Hl|].
    rewrite wrap_u_id by lia.
    eexists. split; [exact Hq'|exact Ho'|by apply EffQuiet|]. by split.
  - destruct Hpc as [_ Hc]. destruct (Hw cur_tail Hc) as [j Hj]. reads g.
  - destruct Hpc as (_ & Hc & j & Hj). destruct (Z.eqb_spec (q_tail q) cur_tail) as [E|]; destruct spurious;
      cbn [andb negb]; try reads g.
    rewrite wrap_u_id by lia. eexists. eapply step_take; eauto; lia.
Qed.
End Ghost.

(** ** Threads *)

(** The values of a log of threads and values that belong to thread [k]. *)
Definition belongs {T} (k : nat) (e : nat * T) : option T := if decide (e.1 = k) then Some e.2 else None.
Definition restrict {T} (k : nat) (l : list (nat * T)) : list T := omap (belongs k) l.

Lemma restrict_app {T} k (l1 l2 : list (nat * T)) : restrict k (l1 ++ l2) = restrict k l1 ++ restrict k l2.
Proof. apply omap_app. Qed.

Lemma restrict_same {T} k (v : T) : restrict k [(k, v)] = [v].
Proof. unfold restrict, belongs. cbn. by rewrite decide_True. Qed.

Lemma restrict_other {T} j k (v : T) : j ≠ k → restrict j [(k, v)] = [].
Proof. intros Hj. unfold restrict, belongs. cbn. by rewrite decide_False. Qed.

(** The values of the pushes among [calls] that were answered [true]. *)
Definition pushed_value {T} (e : queue_call T * queue_answer T) : option T :=
  match e with (CallPush v, AnsBool true) => Some v | _ => None end.
Definition accepted_values {T} (calls : list (queue_call T)) (answers : list (queue_answer T)) : list T :=
  omap pushed_value (zip calls answers).

Definition popped_value {T} (a : queue_answer T) : option T :=
  match a with AnsPop o => o | _ => None end.

Lemma zip_app_short {A B} (l : list A) (k1 k2 : list B) :
  (length l ≤ length k1)%nat → zip l (k1 ++ k2) = zip l k1.
Proof. revert k1. induction l as [|x l IH]; intros [|y k1] Hl; cbn in *; try done; try lia. by rewrite IH by lia. Qed.

Lemma zip_app_long {A B} (l1 l2 : list A) (k : list B) :
  (length k ≤ length l1)%nat → zip (l1 ++ l2) k = zip l1 k.
Proof.
  revert k. induction l1 as [|x l1 IH]; intros [|y k] Hk; cbn in *; try done; try lia; [by destruct l2|].
  by rewrite IH by lia.
Qed.

Lemma zip_snoc {A B} (l : list A) (x : A) (k : list B) y :
  k !! length l = Some y → zip (l ++ [x]) k = zip l k ++ [(x, y)].
Proof.
  revert k. induction l as [|z l IH]; intros [|y' k] Hk; cbn in *; try done.
  - injection Hk as ->. by destruct k.
  - by rewrite IH.
Qed.

Lemma accepted_values_snoc {T} calls answers (c : queue_call T) a :
  length calls = length answers →
  accepted_values (calls ++ [c]) (answers ++ [a]) =
    accepted_values calls answers ++ option_list (pushed_value (c, a)).
Proof.
  intros Hl. unfold accepted_values. rewrite zip_with_app by done. rewrite omap_app. cbn.
  by destruct (pushed_value (c, a)).
Qed.

Section Threads.
Context {T : Type}.
Variables (w : Z) (blank : T).
Hypothesis w_pos : 0 < w.
Hypothesis w_narrow : w < 32.
Implicit Types (q : mpmc_queue T) (g : @ghost T) (k : nat).
Notation mthread := (thread T (queue_call T * mpc T)).
Implicit Types (th : mthread) (p : list (queue_call T)).

(** The log of what the pops took. *)
Definition taken g : list (nat * T) := zip (g_takes g) (g_claims g).*2.

Lemma effect_others k c pc pc' g g' j :
  (length (g_takes g) ≤ length (g_claims g))%nat → step_effect k c pc pc' g g' → j ≠ k →
  restrict j (g_claims g') = restrict j (g_claims g) ∧ restrict j (taken g') = restrict j (taken g).
Proof.
  intros Hlen He Hj. destruct He as [v _ _ _ Ec Et|v _ _ _ Ec Et Hv|Ec Et _]; unfold taken; rewrite Ec, Et.
  - rewrite restrict_app, restrict_other, app_nil_r by done. split; [done|].
    rewrite fmap_app, zip_app_short; [done|]. by rewrite length_fmap.
  - split; [done|]. rewrite (zip_snoc _ _ _ v) by (by rewrite list_lookup_fmap).
    by rewrite restrict_app, restrict_other, app_nil_r.
  - done.
Qed.

(** The logs grow at their end, by what thread [k] does. *)
Definition grows k g g' : Prop :=
  (g_claims g' = g_claims g ∨ ∃ v, g_claims g' = g_claims g ++ [(k, v)]) ∧
  (g_takes g' = g_takes g ∨ g_takes g' = g_takes g ++ [k]).

Lemma grows_refl k g : grows k g g.
Proof. by split; left. Qed.

Lemma effect_grows k c pc pc' g g' : step_effect k c pc pc' g g' → grows k g g'.
Proof. intros []; split; eauto. Qed.

(** The value a thread has claimed a cell for without having returned yet. *)
Definition in_flight th : list T :=
  match th_call th with
  | Some (CallPush v, (_, pc)) => if holds pc then [v] else []
  | _ => []
  end.

(** The pushes a thread may still claim a cell for. *)
Definition call_claims (c : queue_call T) : nat := match c with CallPush _ => 1 | _ => 0 end.
Definition unclaimed th : nat :=
  (match th_call th with
   | Some (c, (_, pc)) => if holds pc then 0 else call_claims c
   | None => 0
   end + sum_list (call_claims <$> th_todo th))%nat.

Definition current th : list (queue_call T) :=
  match th_call th with Some (c, _) => [c] | None => [] end.

Record thread_ok g q k p th : Prop := {
  to_program : ∃ past, p = past ++ current th ++ th_todo th ∧ length past = length (th_answers th) ∧
    restrict k (g_claims g) = accepted_values past (th_answers th) ++ in_flight th;
  to_taken : restrict k (taken g) = omap popped_value (th_answers th);
  to_call : match th_call th with
            | None => g_lock g ≠ Some k ∧ own_unready g k PopStart
            | Some (c, (c', pc)) => c' = c ∧ (c = CallEmpty → pc = PopStart) ∧ call_ok blank g q k c pc
            end
}.

Lemma thread_ok_others g q k g' q' j p th :
  others_ok blank g q k g' q' → j ≠ k →
  restrict j (g_claims g') = restrict j (g_claims g) → restrict j (taken g') = restrict j (taken g) →
  thread_ok g q j p th → thread_ok g' q' j p th.
Proof.
  intros Ho Hj Ec Et [Hp Ht Hc]. split; [by rewrite Ec|by rewrite Et|].
  destruct (th_call th) as [[c [c' pc]]|].
  - destruct Hc as (-> & He & Hc). split; [done|]. split; [done|]. by eapply call_ok_others.
  - destruct Hc as [Hl Hu]. split; [intros E; by apply (ot_lock _ _ _ _ _ _ Ho j Hj) in E|].
    intros i v Hi Hci Hin. destruct (ot_unready _ _ _ _ _ _ Ho j v i Hj Hi Hci Hin). by eapply Hu.
Qed.

(** The thread after a step of its call. *)
Definition stepped c pc' th : mthread :=
  match pc' with
  | Returned b o => MkThread None (th_todo th)
      (th_answers th ++ [match c with CallPop => AnsPop o | _ => AnsBool b end])
  | _ => MkThread (Some (c, (c, pc'))) (th_todo th) (th_answers th)
  end.

Lemma stepped_running c pc' th :
  (∀ b o, pc' ≠ Returned b o) → stepped c pc' th = MkThread (Some (c, (c, pc'))) (th_todo th) (th_answers th).
Proof. intros Hr. destruct pc'; try done. by destruct (Hr b val). Qed.

Lemma step_thread_ok g q k p th c pc pc' q' g' :
  th_call th = Some (c, (c, pc)) → c ≠ CallEmpty → queue_ok w blank g q → thread_ok g q k p th →
  step_ok w blank g q k c pc pc' q' g' →
  thread_ok g' q' k p (stepped c pc' th) ∧
  mq_flag_ q' + Z.of_nat (unclaimed (stepped c pc' th)) ≤ mq_flag_ q + Z.of_nat (unclaimed th).
Proof.
  intros Hc Hne Hq [(past & Hp & Hlen & Hcl) Ht _] [Hq' _ He Hcall].
  rewrite (qo_flag _ _ _ _ Hq), (qo_flag _ _ _ _ Hq').
  assert (Hlen' : (length (g_takes g) ≤ length (g_claims g))%nat).
  { destruct Hq as [H1 H2 H3 _ _ _ _ _]. lia. }
  unfold current, in_flight, unclaimed in *. rewrite Hc in *.
  destruct He as [v -> Hh Hh' Ec Et|v -> -> Hh Ec Et Hv|Ec Et Hh].
  - rewrite stepped_running by (by intros b o ->). rewrite Ec, length_app. cbn. rewrite Hh, Hh' in *.
    split; [split|cbn; lia].
    + exists past. split; [done|]. split; [done|]. unfold in_flight. cbn. rewrite Hh', Ec.
      by rewrite restrict_app, restrict_same, Hcl, app_nil_r.
    + cbn [th_answers]. rewrite <- Ht. unfold taken. rewrite Ec, Et, fmap_app, zip_app_short; [done|]. by rewrite length_fmap.
    + cbn. split; [done|]. split; [done|]. by destruct pc'.
  - cbn [stepped th_call th_todo th_answers]. rewrite Hh, Ec in *. split; [split|cbn; lia].
    + exists (past ++ [CallPop]). cbn [th_call th_todo th_answers current in_flight]. split; [by rewrite <- app_assoc|]. rewrite !length_app.
      split; [by rewrite Hlen|]. rewrite accepted_values_snoc by done. by rewrite Ec, Hcl, !app_nil_r.
    + cbn [th_answers]. unfold taken in *. rewrite Ec, Et. rewrite (zip_snoc _ _ _ v) by (by rewrite list_lookup_fmap).
      by rewrite restrict_app, restrict_same, Ht, omap_app.
    + done.
  - assert (Etk : restrict k (taken g') = restrict k (taken g)) by (unfold taken; by rewrite Ec, Et).
    assert (Hr : (∃ b o, pc' = Returned b o) ∨ (∀ b o, pc' ≠ Returned b o))
      by (destruct pc'; first [left; by repeat eexists | by right]).
    destruct Hr as [(b & o & ->)|Hr'].
    + destruct Hh as [-> Hb]. cbn [stepped th_call th_todo th_answers]. rewrite Ec.
      split; [split|destruct (holds pc); lia].
      * exists (past ++ [c]). cbn [th_call th_todo th_answers current in_flight]. split; [by rewrite <- app_assoc|]. rewrite !length_app.
        split; [by rewrite Hlen|]. rewrite accepted_values_snoc by done. rewrite Ec, Hcl, app_nil_r. f_equal.
        destruct c as [v| |]; [|done..]. cbn. rewrite Hb by by eexists. by destruct (holds pc).
      * cbn [th_answers]. rewrite Etk, Ht, omap_app. destruct c; cbn; by rewrite app_nil_r.
      * done.
    + rewrite stepped_running by done.
      assert (Hh' : holds pc' = holds pc) by (destruct pc'; try done; by destruct (Hr' b val)).
      cbn. rewrite Hh', Ec. split; [split|lia].
      * exists past. unfold current, in_flight. cbn. rewrite Hh', Ec. done.
      * by rewrite Etk.
      * cbn. split; [done|]. split; [done|]. destruct pc'; try done. by destruct (Hr' b val).
Qed.

(** A step of a thread, with what it does to the ghost state and to the
    others. *)
Lemma thread_step_ok g q k p th spurious :
  queue_ok w blank g q → thread_ok g q k p th →
  mq_flag_ q + Z.of_nat (unclaimed th) ≤ 2 ^ w - 2 →
  ∃ g' th' q', thread_step (mpmc_machine w blank) spurious th q = Ok (th', q') ∧
    queue_ok w blank g' q' ∧ others_ok blank g q k g' q' ∧ thread_ok g' q' k p th' ∧
    mq_flag_ q' + Z.of_nat (unclaimed th') ≤ mq_flag_ q + Z.of_nat (unclaimed th) ∧ grows k g g' ∧
    ∀ j, j ≠ k → restrict j (g_claims g') = restrict j (g_claims g) ∧
                 restrict j (taken g') = restrict j (taken g).
Proof.
  intros Hq Hth Hroom. pose proof Hth as [(past & Hp & Hlen & Hcl) Ht Hcall].
  unfold current, in_flight in Hp, Hcl. unfold thread_step. destruct (th_call th) as [[c [c' pc]]|] eqn:Hc.
  - destruct Hcall as (-> & He & Hpc). cbn [mc_step mpmc_machine fst snd].
    assert (Hce : c = CallEmpty ∨ c ≠ CallEmpty) by (destruct c; [by right..|by left]).
    destruct Hce as [->|Hne].
    + cbn. exists g. eexists _, q. split; [done|]. split; [done|]. split; [apply others_ok_refl|].
      split; [|split; [unfold unclaimed; rewrite Hc; cbn; rewrite (He eq_refl); cbn; lia|split; [apply grows_refl|done]]].
      split; cbn [th_call th_todo th_answers].
      * exists (past ++ [CallEmpty]). cbn [current in_flight th_call th_todo th_answers].
        split; [by rewrite <- app_assoc|]. rewrite !length_app. split; [by rewrite Hlen|].
        rewrite accepted_values_snoc by done. by rewrite Hcl, !app_nil_r.
      * by rewrite Ht, omap_app, app_nil_r.
      * rewrite (He eq_refl) in Hpc. destruct Hpc as (_ & Hl & Hu). cbn in Hl. split; [intros E; by apply Hl in E|done].
    + assert (Hst : ∃ g', let r := mpmc_step w blank spurious pc q in step_ok w blank g q k c pc r.1 r.2 g').
      { unfold unclaimed in Hroom. rewrite Hc in Hroom. destruct c as [v| |]; [| |done].
        - apply mpmc_step_push; try done; [lia|]. intros Hh. rewrite Hh in Hroom. cbn in Hroom. lia.
        - apply mpmc_step_pop; try done. lia. }
      destruct Hst as [g' Hst]. destruct (mpmc_step w blank spurious pc q) as [pc' q'] eqn:E. cbn [fst snd] in Hst.
      destruct (step_thread_ok g q k p th c pc pc' q' g' Hc Hne Hq Hth Hst) as [Hth' Hb].
      exists g', (stepped c pc' th), q'. split.
      { destruct c; [| |done]; cbn [obind]; rewrite ?E; cbn; by destruct pc'. }
      split; [apply Hst|]. split; [apply Hst|]. split; [done|]. split; [done|].
      split; [eapply effect_grows, Hst|]. intros j Hj. eapply effect_others; [|apply Hst|done]. destruct Hq as [H1 H2 H3 _ _ _ _ _]. lia.
  - destruct (th_todo th) as [|c todo] eqn:Htodo.
    + exists g, th, q. split; [done|]. split; [done|]. split; [apply others_ok_refl|]. split; [done|]. split; [lia|].
      split; [apply grows_refl|done].
    + exists g. eexists _, q. split; [done|]. split; [done|]. split; [apply others_ok_refl|].
      split; [|split; [|split; [apply grows_refl|done]]].
      * split; cbn [th_call th_todo th_answers mc_start mpmc_machine].
        -- exists past. cbn [current in_flight th_call th_todo th_answers]. split; [done|]. split; [done|].
           rewrite Hcl. destruct c; by cbn.
        -- done.
        -- destruct Hcall as [Hl Hu]. split; [done|]. split; [by destruct c|].
           split; [destruct c; cbn; [done|by intros []..]|]. split; [by destruct c|].
           intros i v Hi Hci Hin. by destruct (Hu i v Hi Hci Hin).
      * unfold unclaimed. rewrite Hc, Htodo. cbn. destruct c; cbn; lia.
Qed.

(** ** The system *)

Notation msystem := (system T (queue_call T * mpc T) (mpmc_queue T)).
Implicit Types (s : msystem) (ps : list (list (queue_call T))).

Record sys_ok ps g s : Prop := {
  so_queue : queue_ok w blank g (sys_queue s);
  so_threads : ∀ k th, sys_threads s !! k = Some th →
    ∃ p, ps !! k = Some p ∧ thread_ok g (sys_queue s) k p th;
  so_length : length (sys_threads s) = length ps;
  so_room : mq_flag_ (sys_queue s) + Z.of_nat (sum_list (unclaimed <$> sys_threads s)) ≤ 2 ^ w - 2;
  so_claims : Forall (λ e, (e.1 < length ps)%nat) (g_claims g);
  so_takes : Forall (λ k, (k < length ps)%nat) (g_takes g);
  so_lock : ∀ k, g_lock g = Some k → (k < length ps)%nat
}.

Lemma sum_list_insert (l : list nat) k x y :
  l !! k = Some x → (sum_list (<[k := y]> l) + x = sum_list l + y)%nat.
Proof.
  revert k. induction l as [|z l IH]; intros [|k] E; try done.
  - injection E as ->. cbn. lia.
  - specialize (IH k E). change (sum_list (<[S k := y]> (z :: l))) with (z + sum_list (<[k := y]> l))%nat.
    cbn [sum_list_with id] in *. lia.
Qed.

(** The logs of a later state continue those of an earlier one. *)
Definition extends g g' : Prop :=
  g_claims g `prefix_of` g_claims g' ∧ g_takes g `prefix_of` g_takes g'.

Lemma extends_refl g : extends g g.
Proof. by split. Qed.

Lemma extends_trans g1 g2 g3 : extends g1 g2 → extends g2 g3 → extends g1 g3.
Proof. intros [] []. by split; etransitivity. Qed.

Lemma grows_extends k g g' : grows k g g' → extends g g'.
Proof. intros [Hc Ht]. split; [destruct Hc as [-> | [? ->]]|destruct Ht as [-> | ->]]; eauto using prefix_app_r. Qed.

Lemma grows_owners k g g' n :
  grows k g g' → (k < n)%nat →
  Forall (λ e : nat * T, (e.1 < n)%nat) (g_claims g) → Forall (λ j, (j < n)%nat) (g_takes g) →
  Forall (λ e : nat * T, (e.1 < n)%nat) (g_claims g') ∧ Forall (λ j, (j < n)%nat) (g_takes g').
Proof.
  intros [Hg Hg2] Hk Hc Ht. split.
  - destruct Hg as [-> | [v ->]]; [done|]. by rewrite Forall_app, Forall_singleton.
  - destruct Hg2 as [-> | ->]; [done|]. by rewrite Forall_app, Forall_singleton.
Qed.

Lemma sys_step_ok ps g s e :
  sys_ok ps g s →
  ∃ g' s', sys_step (mpmc_machine w blank) e s = Ok s' ∧ sys_ok ps g' s' ∧ extends g g'.
Proof.
  intros Hs. pose proof Hs as [Hq Hths Hlen Hroom Hcl Htk Hlk]. unfold sys_step. destruct e as [k spurious]. cbn [fst snd].
  destruct (sys_threads s !! k) as [th|] eqn:Hk; [|by exists g, s; split; [|split; [|apply extends_refl]]].
  destruct (Hths k th Hk) as (p & Hp & Hth). pose proof (lookup_lt_Some _ _ _ Hk) as Hkl.
  assert (Hku : (unclaimed <$> sys_threads s) !! k = Some (unclaimed th)) by by rewrite list_lookup_fmap, Hk.
  pose proof (sum_list_insert _ k (unclaimed th) 0 Hku) as Hsum.
  destruct (thread_step_ok g (sys_queue s) k p th spurious Hq Hth ltac:(lia))
    as (g' & th' & q' & E & Hq' & Ho & Hth' & Hb & Hg & Hrest).
  rewrite E. cbn. exists g'. eexists. split; [done|]. split; [|by eapply grows_extends].
  destruct (grows_owners k g g' (length ps) Hg ltac:(lia) Hcl Htk) as [Hcl' Htk'].
  split; cbn [sys_queue sys_threads]; [done| |by rewrite length_insert| |done|done|].
  - intros j thj Hj. destruct (decide (j = k)) as [->|Hne].
    + rewrite list_lookup_insert_eq in Hj by done. injection Hj as <-. by exists p.
    + rewrite list_lookup_insert_ne in Hj by done. destruct (Hths j thj Hj) as (pj & Hpj & Hthj).
      exists pj. split; [done|]. destruct (Hrest j Hne). by eapply thread_ok_others.
  - rewrite list_fmap_insert. pose proof (sum_list_insert _ k (unclaimed th) (unclaimed th') Hku). lia.
  - intros j Hj. destruct (decide (j = k)) as [->|Hne]; [lia|]. apply Hlk. by apply (ot_lock _ _ _ _ _ _ Ho j Hne).
Qed.

Lemma run_schedule_ok ps g s sched :
  sys_ok ps g s →
  ∃ g' s', run_schedule (mpmc_machine w blank) sched s = Ok s' ∧ sys_ok ps g' s' ∧ extends g g'.
Proof.
  revert g s. induction sched as [|e sched IH]; intros g s Hs; cbn.
  { exists g, s. split; [done|]. split; [done|]. apply extends_refl. }
  destruct (sys_step_ok ps g s e Hs) as (g1 & s1 & -> & Hs1 & He1). cbn.
  destruct (IH g1 s1 Hs1) as (g2 & s2 & E & Hs2 & He2). exists g2, s2.
  split; [done|]. split; [done|]. by eapply extends_trans.
Qed.

(** Before the first call. *)
Definition no_claims : @ghost T := MkGhost [] [] None ∅.

Lemma new_queue_ok max_size : queue_ok w blank no_claims (mpmc_new w blank max_size).
Proof.
  assert (Hc : ∀ i, 0 ≤ i < 2 ^ w → cell blank (mpmc_new w blank max_size) i = (blank, invalid_index)).
  { intros i Hi. unfold cell, mpmc_new, spsc_new. cbn [mq_ring sp_block_].
    by rewrite lookup_replicate_2 by (rewrite (block_cells_narrow w w_narrow); lia). }
  split; cbn; try done.
  - by rewrite length_replicate, (block_cells_narrow w w_narrow).
  - intros i Hi. rewrite Hc by done. intros E. by destruct (small_index w w_pos w_narrow i Hi).
  - lia.
  - lia.
Qed.

Lemma start_ok max_size ps :
  Z.of_nat (sum_list (call_claims <$> concat ps)) ≤ 2 ^ w - 2 →
  sys_ok ps no_claims (start (mpmc_new w blank max_size) ps).
Proof.
  intros Hr. split; cbn [start sys_queue sys_threads].
  - apply new_queue_ok.
  - intros k th Hth. apply list_lookup_fmap_Some in Hth as (p & -> & Hp). exists p. split; [done|].
    split; [by exists []|done|]. split; [done|]. intros i v _ Hi. unfold claim, no_claims in Hi. cbn in Hi. by rewrite lookup_nil in Hi.
  - by rewrite length_fmap.
  - cbn. replace (sum_list _) with (sum_list (call_claims <$> concat ps)); [lia|].
    clear Hr. induction ps as [|p ps IH]; [done|]. cbn. rewrite fmap_app, sum_list_with_app. cbn in IH. by rewrite IH.
  - constructor.
  - constructor.
  - done.
Qed.

(** ** When every call has returned *)

(** Nobody moves [head_] and every claimed cell is ready. *)
Definition settled g q : Prop :=
  queue_ok w blank g q ∧ mq_flag_ q ≤ 2 ^ w - 2 ∧ g_lock g = None ∧
  ∀ i, sp_head_ (mq_ring q) ≤ i < mq_flag_ q → (cell blank q i).2 = i.

Definition idle s : Prop := Forall (λ th, th_call th = None) (sys_threads s).

Lemma idle_settled ps g s : sys_ok ps g s → idle s → settled g (sys_queue s).
Proof.
  intros [Hq Hths Hlen Hroom Hcl Htk Hlk] Hidle.
  assert (Hth : ∀ k, (k < length ps)%nat → g_lock g ≠ Some k ∧ own_unready g k PopStart).
  { intros k Hk. destruct (lookup_lt_is_Some_2 (sys_threads s) k) as [th Hth]; [lia|].
    destruct (Hths k th Hth) as (p & _ & [_ _ Hc]). by rewrite (Forall_lookup_1 _ _ _ _ Hidle Hth) in Hc. }
  assert (Hnl : g_lock g = None).
  { destruct (g_lock g) as [k|] eqn:E; [|done]. by destruct (Hth k (Hlk k eq_refl)). }
  split; [done|]. split; [lia|]. split; [done|]. intros i Hi.
  destruct (qo_pending _ _ _ _ Hq i Hi) as [|[Hu|[[? ?] _]]]; [done| |congruence].
  pose proof (qo_order _ _ _ _ Hq). pose proof (qo_tail _ _ _ _ Hq). pose proof (qo_flag _ _ _ _ Hq).
  destruct (lookup_lt_is_Some_2 (g_claims g) (Z.to_nat i)) as [[k v] Hkv]; [lia|].
  destruct (Hth k) as [_ Hown]; [apply (Forall_lookup_1 _ _ _ _ Hcl Hkv)|].
  by destruct (Hown i v ltac:(lia) Hkv Hu).
Qed.

(** The value the next pop is due. *)
Definition due g : option T := (g_claims g).*2 !! length (g_takes g).

Notation pop_alone fuel q :=
  (call_alone (mpmc_machine w blank) fuel CallPop (CallPop, PopStart) q).

(** What a pop running alone does to a settled queue. *)
Definition pops g q (r : outcome (queue_answer T * mpmc_queue T)) : Prop :=
  ∃ g' q', r = Ok (AnsPop (due g), q') ∧ settled g' q' ∧ g_claims g' = g_claims g ∧
    length (g_takes g') = (length (g_takes g) + if due g then 1 else 0)%nat.

(** Take one step of a pop running alone. *)
Local Ltac pop_go tac :=
  erewrite call_alone_step;
    [|reflexivity|cbn [mc_step mpmc_machine fst snd mpmc_step]; tac; reflexivity];
  cbn [negb andb fst snd].

Lemma settled_pop_ready fuel g q :
  settled g q → sp_tail_ (mq_ring q) < sp_head_ (mq_ring q) → pops g q (pop_alone (4 + fuel) q).
Proof.
  intros (Hq & Hf & Hl & Hr) Hlt. pose proof Hq as [H1 H2 H3 H4 H5 H6 H7 H8].
  destruct (H6 (sp_tail_ (mq_ring q)) ltac:(lia)) as [k Hk].
  assert (Hdue : due g = Some (cell blank q (sp_tail_ (mq_ring q))).1).
  { unfold due. rewrite list_lookup_fmap. unfold claim in Hk.
    replace (Z.to_nat _) with (length (g_takes g)) in Hk by lia. by rewrite Hk. }
  exists (MkGhost (g_claims g) (g_takes g ++ [k]) (g_lock g) (g_unready g)), (set_tail (sp_tail_ (mq_ring q) + 1) q).
  split; [|split; [|split; [done|cbn; rewrite length_app, Hdue; done]]].
  - cbn [Nat.add]. pop_go idtac. pop_go ltac:(rewrite (proj2 (Z.eqb_neq _ _)) by lia). pop_go idtac.
    pop_go ltac:(rewrite Z.eqb_refl). rewrite wrap_u_id by lia.
    erewrite call_alone_answer by reflexivity. by rewrite Hdue.
  - split; [by apply tail_ok|]. done.
Qed.

Lemma settled_pop fuel g q : settled g q → pops g q (pop_alone (9 + fuel) q).
Proof.
  intros Hs. pose proof Hs as (Hq & Hf & Hl & Hr). pose proof Hq as [H1 H2 H3 H4 H5 H6 H7 H8].
  destruct (decide (sp_tail_ (mq_ring q) < sp_head_ (mq_ring q))) as [Hlt|Hge].
  { exact (settled_pop_ready (5 + fuel) g q Hs Hlt). }
  assert (Et : sp_tail_ (mq_ring q) = sp_head_ (mq_ring q)) by lia.
  destruct (decide (sp_head_ (mq_ring q) < mq_flag_ q)) as [Hlt|Hge'].
  - assert (Hh : (cell blank q (sp_head_ (mq_ring q))).2 = sp_head_ (mq_ring q)) by (apply Hr; lia).
    destruct (take_ok w blank w_pos g q 0 (sp_head_ (mq_ring q)) (size_limit w)) as (_ & _ & _ & Hq1 & _);
      try done; [lia..|unfold size_limit; lia|].
    set (q1 := set_cell _ _ q) in Hq1. set (g1 := MkGhost _ _ _ _) in Hq1.
    destruct (publish_ok w blank g1 q1 0) as (_ & Hq2 & _); try done; [cbn; lia|].
    set (q2 := set_head _ q1) in Hq2. set (g2 := MkGhost _ _ _ _) in Hq2.
    assert (Hs2 : settled g2 q2).
    { split; [done|]. split; [done|]. split; [done|]. intros i Hi. cbn in Hi.
      change (cell blank q2 i) with (cell blank q1 i). unfold q1.
      rewrite (cell_set_cell w), decide_False by (done || lia). apply Hr. lia. }
    destruct (settled_pop_ready fuel g2 q2 Hs2) as (g' & q' & E & Hs' & Ec & Elen); [cbn; lia|].
    exists g', q'. split; [|by split]. cbn [Nat.add].
    pop_go idtac. pop_go ltac:(rewrite Et, Z.eqb_refl).
    pop_go ltac:(rewrite Hh, Z.eqb_refl). pop_go ltac:(rewrite Hh, Z.eqb_refl).
    pop_go idtac. rewrite wrap_u_id by lia. exact E.
  - assert (Hh : (cell blank q (sp_head_ (mq_ring q))).2 ≠ sp_head_ (mq_ring q)).
    { intros E. destruct (H5 (sp_head_ (mq_ring q)) ltac:(lia) E). lia. }
    assert (Hdue : due g = None).
    { unfold due. apply lookup_ge_None_2. rewrite length_fmap. lia. }
    exists g, q. split; [|split; [done|]; split; [done|]; rewrite Hdue; lia]. cbn [Nat.add].
    pop_go idtac. pop_go ltac:(rewrite Et, Z.eqb_refl).
    pop_go ltac:(rewrite (proj2 (Z.eqb_neq _ _) Hh)).
    erewrite call_alone_answer by reflexivity. by rewrite Hdue.
Qed.

(** Pops running one after the other empty a settled queue. *)
Lemma settled_drain g q :
  settled g q →
  let rest := drop (length (g_takes g)) (g_claims g).*2 in
  ∃ q', calls_alone (mpmc_machine w blank) mpmc_fuel (replicate (S (length rest)) CallPop) q =
    Ok (((AnsPop ∘ Some) <$> rest) ++ [AnsPop None], q').
Proof.
  intros Hs. cbn zeta. remember (drop _ _) as rest eqn:E. symmetry in E. revert g q Hs E.
  induction rest as [|v rest IH]; intros g q Hs E;
    destruct (settled_pop 7 g q Hs) as (g' & q' & Ep & Hs' & Ec & Elen);
    change (pop_alone (9 + 7) q) with
      (call_alone (mpmc_machine w blank) mpmc_fuel CallPop (mc_start (mpmc_machine w blank) CallPop) q) in Ep.
  - assert (Hdue : due g = None).
    { unfold due. rewrite <- (take_drop (length (g_takes g)) (g_claims g).*2), E, app_nil_r.
      apply lookup_ge_None_2. rewrite length_take. lia. }
    rewrite Hdue in Ep. exists q'. cbn [length replicate calls_alone fmap list_fmap app].
    by rewrite Ep.
  - assert (Hdue : due g = Some v).
    { unfold due. by rewrite <- (Nat.add_0_r (length _)), <- lookup_drop, E. }
    rewrite Hdue in Ep, Elen.
    destruct (IH g' q' Hs') as [q'' E''].
    { by rewrite Ec, Elen, <- drop_drop, E. }
    exists q''. cbn [length]. change (replicate (S (S ?n)) ?x) with (x :: replicate (S n) x).
    change (calls_alone ?m ?f (?c :: ?l) ?q) with
      (let! '(a, q0) := call_alone m f c (mc_start m c) q in
       let! '(answers, q0) := calls_alone m f l q0 in Ok (a :: answers, q0)).
    rewrite Ep. cbn [obind]. by rewrite E''.
Qed.

(** ** The queue as a log *)

(** [claims] says which thread pushed what, in the order of the queue;
    [takers] says which thread popped the first values of it.  A thread knows
    of its pushes once they have answered, so the log may hold one value more
    of a thread that is inside [push]. *)
Record fifo_log ps s (claims : list (nat * T)) (takers : list nat) : Prop := {
  fl_order : (length takers ≤ length claims)%nat;
  fl_claims : Forall (λ e, (e.1 < length ps)%nat) claims;
  fl_takers : Forall (λ k, (k < length ps)%nat) takers;
  fl_pushed : ∀ k p th, ps !! k = Some p → sys_threads s !! k = Some th →
    restrict k claims = accepted_values p (th_answers th) ++ in_flight th;
  fl_popped : ∀ k th, sys_threads s !! k = Some th →
    omap popped_value (th_answers th) = restrict k (zip takers claims.*2);
  fl_drained : idle s →
    let rest := drop (length takers) claims.*2 in
    ∃ q, calls_alone (mpmc_machine w blank) mpmc_fuel (replicate (S (length rest)) CallPop) (sys_queue s) =
      Ok (((AnsPop ∘ Some) <$> rest) ++ [AnsPop None], q)
}.

Lemma sys_ok_log ps g s : sys_ok ps g s → fifo_log ps s (g_claims g) (g_takes g).
Proof.
  intros Hs. pose proof Hs as [Hq Hths Hlen Hroom Hcl Htk Hlk]. split; try done.
  - pose proof (qo_order _ _ _ _ Hq). pose proof (qo_tail _ _ _ _ Hq). pose proof (qo_flag _ _ _ _ Hq). lia.
  - intros k p th Hp Hth. destruct (Hths k th Hth) as (p' & Hp' & [(past & E & El & Ec) _ _]).
    replace p' with p in * by congruence. rewrite Ec. f_equal. unfold accepted_values. f_equal.
    rewrite E, zip_app_long; [done|lia].
  - intros k th Hth. destruct (Hths k th Hth) as (p' & _ & [_ Et _]). by rewrite <- Et.
  - intros Hi. apply (settled_drain g). by eapply idle_settled.
Qed.

(** C13. For at most 2^w - 2 pushes the multi-producer ring is a
    first-in-first-out queue for any number of threads, under every schedule
    and whatever weak compare-exchanges fail: there is one log of the values
    claimed by pushes and of the threads that popped the first of them, and it
    accounts for every answer of [push] and [pop].  A push that returned [true] is in the log once,
    in the order its thread made them; one that returned [false] is not; the
    values a thread popped are those of the log, in its order, each delivered
    once.  The log of a later moment continues the log of an earlier one.  No
    value is lost either: whenever no call is under way, pops running alone
    deliver the rest of the log, and then say that the queue is empty. *)
Theorem mpmc_concurrent_fifo max_size ps sched sched' :
  Z.of_nat (sum_list (call_claims <$> concat ps)) ≤ 2 ^ w - 2 →
  ∃ s s' claims takers claims' takers',
    run_schedule (mpmc_machine w blank) sched (start (mpmc_new w blank max_size) ps) = Ok s ∧
    run_schedule (mpmc_machine w blank) sched' s = Ok s' ∧
    fifo_log ps s claims takers ∧ fifo_log ps s' claims' takers' ∧
    claims `prefix_of` claims' ∧ takers `prefix_of` takers'.
Proof.
  intros Hroom. pose proof (start_ok max_size ps Hroom) as H0.
  destruct (run_schedule_ok ps _ _ sched H0) as (g & s & E & Hs & _).
  destruct (run_schedule_ok ps _ _ sched' Hs) as (g' & s' & E' & Hs' & [Hc Ht]).
  exists s, s', (g_claims g), (g_takes g), (g_claims g'), (g_takes g').
  eauto 8 using sys_ok_log.
Qed.
End Threads.

(** Two producers and a consumer take turns. *)
Lemma mpmc_concurrent_fifo_witness :
  let ps := [[CallPush 1; CallPush 2]; [CallPush 3]; [CallPop; CallEmpty]] in
  let sched := (λ k, (k, false)) <$> concat (replicate 4 [0; 1; 2]%nat) in
  ∃ s s' claims takers claims' takers',
    run_schedule (mpmc_machine 8 0) sched (start (mpmc_new 8 0 9) ps) = Ok s ∧
    run_schedule (mpmc_machine 8 0) (concat (replicate 5 sched)) s = Ok s' ∧
    fifo_log 8 0 ps s claims takers ∧ fifo_log 8 0 ps s' claims' takers' ∧
    claims `prefix_of` claims' ∧ takers `prefix_of` takers'.
Proof.
  cbn zeta. apply (mpmc_concurrent_fifo 8 0 ltac:(lia) ltac:(lia)). vm_compute. discriminate.
Defined.

(** [empty] is no such answer.  A [pop] that publishes the cell of a preempted
    push does not look at the cells after it, as [push] does: with no call under
    way, a value pushed successfully and never popped can sit in a ready cell
    while [empty] says that there is none; the next pop finds it. *)
Definition helped_schedule : list (nat * bool) :=
  (λ k, (k, false)) <$> replicate 4 0%nat ++ replicate 8 1%nat ++ replicate 2 0%nat ++
                        replicate 10 2%nat ++ replicate 2 0%nat.

Theorem empty_misses_value :
  ∃ s q, run_schedule (mpmc_machine 8 0) helped_schedule
           (start (mpmc_new 8 0 9) [[CallPush 1]; [CallPush 2]; [CallPop]]) = Ok s ∧
  idle s ∧ accepted s 0 = 1%nat ∧ accepted s 1 = 1%nat ∧ delivered s 2 = [1] ∧
  calls_alone (mpmc_machine 8 0) mpmc_fuel [CallEmpty; CallPop] (sys_queue s) =
    Ok ([AnsBool true; AnsPop (Some 2)], q).
Proof. do 2 eexists. split; [vm_compute; reflexivity|]. split; [repeat constructor|]. by vm_compute. Qed.
