(* ===== verification/Platform.v ===== *)
(** * Platform: what the configuration headers decide

    Models [include/footstone/build_config.h] and [include/footstone/macros.h].
    A header is a function on the macros defined so far: a chain of [#if]s
    that defines more of them or stops the compilation with [#error].  What
    the system headers define, [<TargetConditionals.h>] and [<unistd.h>], is a
    parameter.  The two function-like macros that expand to statements,
    [assert_fn] and [WEAK_CALL], are combinators of the state monad; the
    macros that delete special member functions are sets of those. *)

From S2P Require Import Prelude.

(** ** Preprocessing *)

(** The tokens a macro stands for: none, a number, another macro, or one of
    the attributes of macros.h. *)
Inductive replacement :=
  | NoTokens
  | Number (n : Z)
  | MacroName (x : string)
  | Declspec (what : string)
  | Visibility (what : string).

Notation Macros := (gmap string replacement).

(** What a part of a header does: [inl] is an [#error]. *)
Definition pp : Type := Macros → string + Macros.

Definition defined (x : string) (m : Macros) : bool := bool_decide (is_Some (m !! x)).

Definition skip : pp := inr.
Definition define_as (x : string) (r : replacement) : pp := λ m, inr (<[x := r]> m).
(** [#define x 1] *)
Definition define (x : string) : pp := define_as x (Number 1).
Definition error (msg : string) : pp := λ _, inl msg.
Definition include (header : Macros → Macros) : pp := λ m, inr (header m).
Definition andThen (a b : pp) : pp := λ m, match a m with inl e => inl e | inr m => b m end.
(** Lines one after the other. *)
Fixpoint lines (l : list pp) : pp :=
  match l with [] => skip | [a] => a | a :: l => andThen a (lines l) end.
(** [#if] with a condition made of [defined]. *)
Definition if_ (c : Macros → bool) (a b : pp) : pp := λ m, if c m then a m else b m.
(** [#if test(x)]: a macro that is not defined counts as 0; one that stands for
    something else than a number is no expression. *)
Definition if_value (x : string) (test : Z → bool) (a b : pp) : pp := λ m,
  match m !! x with
  | None => if test 0 then a m else b m
  | Some (Number n) => if test n then a m else b m
  | Some _ => inl "not an expression"%string
  end.
Definition nonzero (n : Z) : bool := negb (n =? 0).

Notation "x ||' y" := (λ m, x m || y m) (at level 50, left associativity, only parsing).
Notation "x &&' y" := (λ m, x m && y m) (at level 40, left associativity, only parsing).

Section Headers.
Local Open Scope string_scope.
(** The system headers. *)
Variables (TargetConditionals unistd : Macros → Macros).

(** *** build_config.h *)

Definition build_config_os : pp :=
  if_ (defined "__Fuchsia__") (define "OS_FUCHSIA")
  (if_ (defined "ANDROID") (define "OS_ANDROID")
  (if_ (defined "__APPLE__")
    (lines [include TargetConditionals; define "OS_MACOSX";
            if_ (defined "TARGET_OS_IPHONE")
              (if_value "TARGET_OS_IPHONE" nonzero (define "OS_IOS") skip) skip])
  (if_ (defined "__linux__")
    (lines [define "OS_LINUX"; include unistd;
            if_ (defined "__GLIBC__" &&' λ m, negb (defined "__UCLIBC__" m))
              (define "LIBC_GLIBC") skip])
  (if_ (defined "_WIN32") (define "OS_WIN")
  (if_ (defined "__FreeBSD__") (define "OS_FREEBSD")
  (if_ (defined "__OpenBSD__") (define "OS_OPENBSD")
  (if_ (defined "__sun") (define "OS_SOLARIS")
  (if_ (defined "__QNXNTO__") (define "OS_QNX")
  (error "Please add support for your platform in flutter/fml/build_config.h"))))))))).

Definition build_config_bsd : pp :=
  if_ (defined "OS_FREEBSD" ||' defined "OS_OPENBSD") (define "OS_BSD") skip.

Definition build_config_posix : pp :=
  if_ (defined "OS_MACOSX" ||' defined "OS_LINUX" ||' defined "OS_FREEBSD" ||'
       defined "OS_OPENBSD" ||' defined "OS_SOLARIS" ||' defined "OS_ANDROID" ||'
       defined "OS_NACL" ||' defined "OS_QNX") (define "OS_POSIX") skip.

Definition build_config_arch : pp :=
  if_ (defined "_M_X64" ||' defined "__x86_64__")
    (lines [define "ARCH_CPU_X86_FAMILY"; define "ARCH_CPU_X86_64";
            define "ARCH_CPU_64_BITS"; define "ARCH_CPU_LITTLE_ENDIAN"])
  (if_ (defined "_M_IX86" ||' defined "__i386__")
    (lines [define "ARCH_CPU_X86_FAMILY"; define "ARCH_CPU_X86";
            define "ARCH_CPU_32_BITS"; define "ARCH_CPU_LITTLE_ENDIAN"])
  (if_ (defined "__ARMEL__")
    (lines [define "ARCH_CPU_ARM_FAMILY"; define "ARCH_CPU_ARMEL";
            define "ARCH_CPU_32_BITS"; define "ARCH_CPU_LITTLE_ENDIAN"])
  (if_ (defined "__aarch64__")
    (lines [define "ARCH_CPU_ARM_FAMILY"; define "ARCH_CPU_ARM64";
            define "ARCH_CPU_64_BITS"; define "ARCH_CPU_LITTLE_ENDIAN"])
  (if_ (defined "__pnacl__")
    (lines [define "ARCH_CPU_32_BITS"; define "ARCH_CPU_LITTLE_ENDIAN"])
  (if_ (defined "__MIPSEL__")
    (if_ (defined "__LP64__")
      (lines [define "ARCH_CPU_MIPS64_FAMILY"; define "ARCH_CPU_MIPS64EL";
              define "ARCH_CPU_64_BITS"; define "ARCH_CPU_LITTLE_ENDIAN"])
      (lines [define "ARCH_CPU_MIPS_FAMILY"; define "ARCH_CPU_MIPSEL";
              define "ARCH_CPU_32_BITS"; define "ARCH_CPU_LITTLE_ENDIAN"]))
  (error "Please add support for your architecture in flutter/fml/build_config.h")))))).

Definition build_config : pp :=
  lines [build_config_os; build_config_bsd; build_config_posix; build_config_arch].

(** *** macros.h *)

Definition macros_platform : pp :=
  if_value "__ANDROID__" nonzero
    (lines [define "TDF_PLATFORM_ANDROID"; define "TDF_PLATFORM_MOBILE"])
  (if_value "__APPLE__" nonzero
    (lines [include TargetConditionals;
      if_value "TARGET_OS_IPHONE" nonzero
        (lines [define "TDF_PLATFORM_IOS"; define "TDF_PLATFORM_MOBILE"])
      (if_value "TARGET_OS_MAC" nonzero
        (lines [define "TDF_PLATFORM_MAC"; define "TDF_PLATFORM_PC"])
        (error "Unknow Operator System"))])
  (if_ (defined "_WIN32")
    (lines [define "TDF_PLATFORM_WINDOWS"; define "TDF_PLATFORM_PC"])
  (if_value "__linux__" nonzero
    (lines [define "TDF_PLATFORM_LINUX"; define "TDF_PLATFORM_PC"])
    (error "Unknow Operator System")))).

Definition macros_dll : pp :=
  if_ (defined "_WIN32")
    (lines [define_as "TDF_DLL_IMPORT" (Declspec "dllimport");
            define_as "TDF_DLL_EXPORT" (Declspec "dllexport");
            define_as "TDF_DLL_LOCAL" NoTokens])
    (lines [define_as "TDF_DLL_IMPORT" (Visibility "default");
            define_as "TDF_DLL_EXPORT" (Visibility "default");
            define_as "TDF_DLL_LOCAL" (Visibility "hidden")]).

Definition macros_api : pp :=
  if_ (defined "TDF_API") skip (define_as "TDF_API" (MacroName "TDF_DLL_EXPORT")).

Definition macros_cpp_standard : pp :=
  if_ (defined "__clang__" ||' defined "__GNUC__")
    (define_as "TDF_CPP_STANDARD" (MacroName "__cplusplus"))
  (if_ (defined "_MSC_VER") (define_as "TDF_CPP_STANDARD" (MacroName "_MSVC_LANG")) skip).

Definition macros_has_cpp : pp :=
  lines [if_value "CPP_STANDARD" (Z.leb 199711) (define "TDF_HAS_CPP_03") skip;
         if_value "CPP_STANDARD" (Z.leb 201103) (define "TDF_HAS_CPP_11") skip;
         if_value "CPP_STANDARD" (Z.leb 201402) (define "TDF_HAS_CPP_14") skip;
         if_value "CPP_STANDARD" (Z.leb 201703) (define "TDF_HAS_CPP_17") skip].

Definition macros_compiler : pp :=
  if_ (defined "__clang__") (define_as "TDF_COMPILER_CLANG" NoTokens)
  (if_ (defined "__GNUC__") (define_as "TDF_COMPILER_GCC" NoTokens)
  (if_ (defined "_MSC_VER") (define_as "TDF_COMPILER_MSVC" NoTokens)
    (error "Unknow compiler"))).

Definition macros_h : pp :=
  lines [macros_platform; macros_dll; macros_api; macros_cpp_standard; macros_has_cpp;
         macros_compiler; define_as "TDF_BASE_EMBEDDER_ONLY" NoTokens].
End Headers.

(** *** Macros that expand to statements and declarations *)

(** [assert_fn]: with [NDEBUG] the call itself is gone. *)
Definition assert_fn {S} (NDEBUG : bool) (fn : ST S bool) : ST S unit :=
  if NDEBUG then st_ret tt
  else do! b := fn in st_lift (guard_f b CheckFailed).

(** [WEAK_CALL]: [lock] finds the object while it is alive. *)
Definition WEAK_CALL {S A} (lock : S → option A) (fn : A → ST S unit) : ST S unit :=
  do! shared_this := (λ s, Ok (lock s, s)) in
  match shared_this with Some this => fn this | None => st_ret tt end.

Inductive special_member :=
  DefaultConstructor | CopyConstructor | MoveConstructor | CopyAssignment | MoveAssignment.

#[global] Instance special_member_eq_dec : EqDecision special_member.
Proof. solve_decision. Defined.

(** The members each macro declares as deleted. *)
Definition TDF_BASE_DISALLOW_COPY := [CopyConstructor].
Definition TDF_BASE_DISALLOW_ASSIGN := [CopyAssignment].
Definition TDF_BASE_DISALLOW_MOVE := [MoveConstructor; MoveAssignment].
Definition TDF_BASE_DISALLOW_COPY_AND_ASSIGN := [CopyConstructor; CopyAssignment].
Definition TDF_BASE_DISALLOW_COPY_ASSIGN_AND_MOVE :=
  [CopyConstructor; MoveConstructor; CopyAssignment; MoveAssignment].
Definition TDF_BASE_DISALLOW_IMPLICIT_CONSTRUCTORS :=
  DefaultConstructor :: TDF_BASE_DISALLOW_COPY_ASSIGN_AND_MOVE.

(** ** What the headers decide *)

Section Facts.
Local Open Scope string_scope.
Local Open Scope list_scope.
Implicit Types m : Macros.

Lemma defined_insert x y r m : defined x (<[y := r]> m) = String.eqb y x || defined x m.
Proof.
  unfold defined. rewrite lookup_insert. destruct (String.eqb_spec y x) as [->|Hne].
  - rewrite decide_True by done. by rewrite bool_decide_true.
  - by rewrite decide_False.
Qed.

(** How many of the macros [xs] are defined. *)
Definition how_many (d : string → bool) (xs : list string) : nat :=
  sum_list ((λ x, if d x then 1 else 0)%nat <$> xs).

Definition os_macros : list string :=
  ["OS_FUCHSIA"; "OS_ANDROID"; "OS_MACOSX"; "OS_LINUX"; "OS_WIN"; "OS_FREEBSD"; "OS_OPENBSD";
   "OS_SOLARIS"; "OS_QNX"].
Definition family_macros : list string :=
  ["ARCH_CPU_X86_FAMILY"; "ARCH_CPU_ARM_FAMILY"; "ARCH_CPU_MIPS_FAMILY"; "ARCH_CPU_MIPS64_FAMILY"].
Definition config_macros : list string :=
  os_macros ++ ["OS_IOS"; "LIBC_GLIBC"; "OS_BSD"; "OS_POSIX"; "OS_NACL"] ++ family_macros ++
  ["ARCH_CPU_X86"; "ARCH_CPU_X86_64"; "ARCH_CPU_ARMEL"; "ARCH_CPU_ARM64"; "ARCH_CPU_MIPSEL";
   "ARCH_CPU_MIPS64EL"; "ARCH_CPU_32_BITS"; "ARCH_CPU_64_BITS"; "ARCH_CPU_LITTLE_ENDIAN"].

(** What compilers predefine for a platform and a processor. *)
Definition os_tests : list string :=
  ["__Fuchsia__"; "ANDROID"; "__APPLE__"; "__linux__"; "_WIN32"; "__FreeBSD__"; "__OpenBSD__";
   "__sun"; "__QNXNTO__"].
Definition arch_tests : list string :=
  ["_M_X64"; "__x86_64__"; "_M_IX86"; "__i386__"; "__ARMEL__"; "__aarch64__"; "__pnacl__";
   "__MIPSEL__"].

(** A system header that defines none of these. *)
Definition quiet (header : Macros → Macros) : Prop :=
  ∀ x m, x ∈ config_macros ++ "__LP64__" :: arch_tests → defined x (header m) = defined x m.

(** [m'] is [m] and the macros [xs], as far as [config_macros] and what is
    tested of the processor are concerned. *)
Definition extends_by (xs : list string) m m' : Prop :=
  ∀ x, x ∈ config_macros ++ "__LP64__" :: arch_tests →
    defined x m' = bool_decide (x ∈ xs) || defined x m.

Lemma extends_by_nil m : extends_by [] m m.
Proof. done. Qed.

Lemma extends_by_define x r xs m m' : extends_by xs m m' → extends_by (x :: xs) m (<[x := r]> m').
Proof.
  intros He y Hy. rewrite defined_insert, (He y Hy), orb_assoc. f_equal.
  apply eq_bool_prop_intro. rewrite orb_True, !bool_decide_spec, elem_of_cons.
  destruct (String.eqb_spec x y); cbn; naive_solver.
Qed.

Lemma extends_by_include header xs m m' :
  quiet header → extends_by xs m m' → extends_by xs m (header m').
Proof. intros Hq He x Hx. by rewrite (Hq x m' Hx), He. Qed.

Lemma extends_by_trans xs ys m m' m'' :
  extends_by xs m m' → extends_by ys m' m'' → extends_by (ys ++ xs) m m''.
Proof.
  intros H1 H2 x Hx. rewrite (H2 x Hx), (H1 x Hx), orb_assoc. f_equal.
  apply eq_bool_prop_intro. rewrite orb_True, !bool_decide_spec, elem_of_app. done.
Qed.

(** The macros of an outcome of the platform and of the processor part. *)
Definition os_table : list (list string) :=
  [["OS_FUCHSIA"]; ["OS_ANDROID"]; ["OS_MACOSX"]; ["OS_IOS"; "OS_MACOSX"]; ["OS_LINUX"];
   ["LIBC_GLIBC"; "OS_LINUX"]; ["OS_WIN"]; ["OS_FREEBSD"]; ["OS_OPENBSD"]; ["OS_SOLARIS"];
   ["OS_QNX"]].
Definition arch_table : list (list string) :=
  (λ l, "ARCH_CPU_LITTLE_ENDIAN" :: l) <$>
  [["ARCH_CPU_64_BITS"; "ARCH_CPU_X86_64"; "ARCH_CPU_X86_FAMILY"];
   ["ARCH_CPU_32_BITS"; "ARCH_CPU_X86"; "ARCH_CPU_X86_FAMILY"];
   ["ARCH_CPU_32_BITS"; "ARCH_CPU_ARMEL"; "ARCH_CPU_ARM_FAMILY"];
   ["ARCH_CPU_64_BITS"; "ARCH_CPU_ARM64"; "ARCH_CPU_ARM_FAMILY"];
   ["ARCH_CPU_32_BITS"];
   ["ARCH_CPU_64_BITS"; "ARCH_CPU_MIPS64EL"; "ARCH_CPU_MIPS64_FAMILY"];
   ["ARCH_CPU_32_BITS"; "ARCH_CPU_MIPSEL"; "ARCH_CPU_MIPS_FAMILY"]].

Ltac in_table := repeat (first [left; reflexivity | right]).
Ltac extends :=
  repeat first [apply extends_by_define | apply extends_by_include; [done|] | apply extends_by_nil].

Lemma build_config_os_table (TargetConditionals unistd : Macros → Macros) m m' :
  quiet TargetConditionals → quiet unistd → build_config_os TargetConditionals unistd m = inr m' →
  ∃ xs, xs ∈ os_table ∧ extends_by xs m m'.
Proof.
  intros Ht Hu. unfold build_config_os, if_, if_value, define, define_as, error, skip.
  unfold lines, andThen, include. repeat case_match; intros [= <-].
  all: eexists; split; [|extends]; unfold os_table; in_table.
Qed.

Lemma build_config_arch_table m m' :
  build_config_arch m = inr m' → ∃ xs, xs ∈ arch_table ∧ extends_by xs m m'.
Proof.
  unfold build_config_arch, if_, define, define_as, error, lines, andThen.
  repeat case_match; intros [= <-].
  all: eexists; split; [|extends]; unfold arch_table; cbn; in_table.
Qed.

(** No macro of the headers is defined yet. *)
Definition clean m : Prop := ∀ x, x ∈ config_macros → defined x m = false.

Lemma extends_by_clean xs m m' x :
  clean m → extends_by xs m m' → x ∈ config_macros → defined x m' = bool_decide (x ∈ xs).
Proof. intros Hc He Hx. rewrite (He x), (Hc x Hx) by (apply elem_of_app; by left). apply orb_false_r. Qed.

(** [#if c #define x 1 #endif], after macros [xs]. *)
Lemma if_define (c : Macros → bool) x xs m m1 b :
  extends_by xs m m1 → c m1 = b →
  ∃ m2, if_ c (define x) skip m1 = inr m2 ∧ extends_by (if b then x :: xs else xs) m m2.
Proof.
  intros He <-. unfold if_, define, define_as, skip.
  destruct (c m1); eexists; (split; [done|]); [by apply extends_by_define|done].
Qed.

Definition bsd_of (xs : list string) : list string :=
  if bool_decide ("OS_FREEBSD" ∈ xs) || bool_decide ("OS_OPENBSD" ∈ xs) then "OS_BSD" :: xs else xs.
Definition posix_of (xs : list string) : list string :=
  if existsb (λ x, bool_decide (x ∈ xs))
       ["OS_MACOSX"; "OS_LINUX"; "OS_FREEBSD"; "OS_OPENBSD"; "OS_SOLARIS"; "OS_ANDROID";
        "OS_NACL"; "OS_QNX"]
  then "OS_POSIX" :: xs else xs.

(** What a configuration promises to the code that tests it. *)
Record consistent (d : string → bool) : Prop := {
  co_os : how_many d os_macros = 1%nat;
  co_bits : how_many d ["ARCH_CPU_32_BITS"; "ARCH_CPU_64_BITS"] = 1%nat;
  co_family : (how_many d family_macros ≤ 1)%nat;
  co_endian : d "ARCH_CPU_LITTLE_ENDIAN" = true;
  co_wide : d "ARCH_CPU_64_BITS" =
    d "ARCH_CPU_X86_64" || d "ARCH_CPU_ARM64" || d "ARCH_CPU_MIPS64EL";
  co_ios : d "OS_IOS" = true → d "OS_MACOSX" = true;
  co_glibc : d "LIBC_GLIBC" = true → d "OS_LINUX" = true;
  co_bsd : d "OS_BSD" = d "OS_FREEBSD" || d "OS_OPENBSD";
  co_posix : d "OS_POSIX" = negb (d "OS_WIN" || d "OS_FUCHSIA")
}.

Lemma how_many_ext d d' xs : (∀ x, x ∈ xs → d x = d' x) → how_many d xs = how_many d' xs.
Proof.
  intros E. unfold how_many. induction xs as [|x xs IH]; [done|]. cbn.
  rewrite (E x) by left. f_equal. apply IH. intros y Hy. apply E. by right.
Qed.

Lemma consistent_ext d d' : (∀ x, x ∈ config_macros → d x = d' x) → consistent d → consistent d'.
Proof.
  intros E [H1 H2 H3 H4 H5 H6 H7 H8 H9].
  split; rewrite <- ?E by decide_now; try done.
  all: rewrite <- (how_many_ext d d'); [done|]; intros x Hx; apply E; revert x Hx;
    rewrite <- Forall_forall; decide_now.
Qed.

Lemma tables_consistent xs ys :
  xs ∈ os_table → ys ∈ arch_table →
  consistent (λ x, bool_decide (x ∈ ys ++ posix_of (bsd_of xs))).
Proof.
  intros Hx Hy. revert ys Hy. rewrite <- Forall_forall. revert xs Hx. rewrite <- Forall_forall.
  unfold os_table, arch_table. cbn [fmap list_fmap].
  repeat constructor; vm_compute; done || lia.
Qed.

Notation known tests m := (how_many (λ x, defined x m) tests ≠ 0%nat).

(** A part that never reaches an [#error]. *)
Definition succeeds (a : pp) : Prop := ∀ m, ∃ m', a m = inr m'.

Lemma succeeds_define x r : succeeds (define_as x r).
Proof. intros m. by eexists. Qed.

Lemma succeeds_skip : succeeds skip.
Proof. intros m. by eexists. Qed.

Lemma succeeds_include h : succeeds (include h).
Proof. intros m. by eexists. Qed.

Lemma succeeds_andThen a b : succeeds a → succeeds b → succeeds (andThen a b).
Proof. intros Ha Hb m. unfold andThen. destruct (Ha m) as [m' ->]. apply Hb. Qed.

Lemma succeeds_if c a b : succeeds a → succeeds b → succeeds (if_ c a b).
Proof. intros Ha Hb m. unfold if_. destruct (c m); [apply Ha|apply Hb]. Qed.

#[local] Hint Resolve succeeds_define succeeds_skip succeeds_include succeeds_andThen succeeds_if
  : footstone.

(** A chain of [#elif]s that ends in an [#error] goes through when one of its
    tests holds. *)
Definition goes_through (a : pp) (tests : list string) m : Prop :=
  match a m with inl _ => ¬ known tests m | inr _ => known tests m end.

Lemma goes_through_error e m : goes_through (error e) [] m.
Proof. unfold goes_through, how_many. cbn. lia. Qed.

Lemma goes_through_if x a b tests m :
  succeeds a → goes_through b tests m → goes_through (if_ (defined x) a b) (x :: tests) m.
Proof.
  intros Ha Hb. unfold goes_through, if_, how_many in *. cbn [fmap list_fmap sum_list_with].
  cbn. destruct (defined x m); [destruct (Ha m) as [m' ->]; lia|]. cbn. exact Hb.
Qed.

Lemma goes_through_if2 x y a b tests m :
  succeeds a → goes_through b tests m →
  goes_through (if_ (defined x ||' defined y) a b) (x :: y :: tests) m.
Proof.
  intros Ha Hb. unfold goes_through, if_, how_many in *. cbn [fmap list_fmap sum_list_with].
  cbn. destruct (defined x m), (defined y m); cbn; try (destruct (Ha m) as [m' ->]; lia). exact Hb.
Qed.

Lemma build_config_os_known (TargetConditionals unistd : Macros → Macros) m :
  (∀ m', ∃ n, TargetConditionals m' !! "TARGET_OS_IPHONE" = Some (Number n)) →
  goes_through (build_config_os TargetConditionals unistd) os_tests m.
Proof.
  intros Hphone.
  repeat (apply goes_through_if; [unfold define; cbn [lines]; auto 8 with footstone|]);
    [|apply goes_through_error].
  intros m'. destruct (Hphone m') as [n Hn]. unfold lines, andThen, include, define, define_as, if_, if_value.
  rewrite lookup_insert_ne, Hn by done. repeat case_match; by eexists.
Qed.

Lemma build_config_arch_known m : goes_through build_config_arch arch_tests m.
Proof.
  unfold build_config_arch, arch_tests, define. cbn [lines].
  repeat first [apply goes_through_if2; [by auto 8 with footstone|]
               |apply goes_through_if; [by auto 8 with footstone|]|apply goes_through_error].
Qed.

(** The macros defined before the processor part hide none of its tests. *)
Lemma arch_tests_kept xs m m' :
  xs ∈ os_table → extends_by (posix_of (bsd_of xs)) m m' →
  how_many (λ x, defined x m') arch_tests = how_many (λ x, defined x m) arch_tests.
Proof.
  intros Hxs He. apply how_many_ext. intros x Hx.
  rewrite He by (rewrite elem_of_app, elem_of_cons; auto).
  assert (Hno : Forall (λ xs, Forall (λ x, x ∉ posix_of (bsd_of xs)) arch_tests) os_table)
    by decide_now.
  rewrite !Forall_forall in Hno. rewrite bool_decide_false; [done|].
  specialize (Hno xs Hxs). rewrite Forall_forall in Hno. by apply Hno.
Qed.

(** [build_config.h] identifies the target or stops the compilation.  On a
    target whose platform and processor the header knows it goes through;
    otherwise it reaches an [#error].  When it goes through, exactly one
    platform is defined, exactly one word size, at most one processor family,
    always little-endian; [OS_IOS] implies [OS_MACOSX], and the word size,
    [OS_BSD] and [OS_POSIX] are those of the platform and processor chosen. *)
Theorem build_config_spec (TargetConditionals unistd : Macros → Macros) m
    (Ht : quiet TargetConditionals) (Hu : quiet unistd) (Hm : clean m)
    (Hphone : ∀ m', ∃ n, TargetConditionals m' !! "TARGET_OS_IPHONE" = Some (Number n)) :
  match build_config TargetConditionals unistd m with
  | inl _ => ¬ (known os_tests m ∧ known arch_tests m)
  | inr m' => known os_tests m ∧ known arch_tests m ∧ consistent (λ x, defined x m')
  end.
Proof.
  unfold build_config. cbn [lines]. unfold andThen at 1.
  pose proof (build_config_os_known TargetConditionals unistd m Hphone) as Hos. unfold goes_through in Hos.
  destruct (build_config_os _ _ m) as [e|m1] eqn:E1; [naive_solver|].
  destruct (build_config_os_table _ _ _ _ Ht Hu E1) as (xs & Hxs & He1).
  assert (Hin : ∀ x, bool_decide (x ∈ config_macros) = true → defined x m1 = bool_decide (x ∈ xs)).
  { intros x Hx. apply bool_decide_eq_true in Hx. by eapply extends_by_clean. }
  unfold andThen at 1, build_config_bsd.
  destruct (if_define (defined "OS_FREEBSD" ||' defined "OS_OPENBSD") "OS_BSD" xs m m1 _ He1 eq_refl)
    as (m2 & -> & He2).
  cbn beta in He2. rewrite !Hin in He2 by (vm_compute; reflexivity). fold (bsd_of xs) in He2.
  assert (Hin2 : ∀ x, bool_decide (x ∈ config_macros) = true → defined x m2 = bool_decide (x ∈ bsd_of xs)).
  { intros x Hx. apply bool_decide_eq_true in Hx. by eapply extends_by_clean. }
  unfold andThen, build_config_posix. 
  edestruct (if_define (defined "OS_MACOSX" ||' defined "OS_LINUX" ||' defined "OS_FREEBSD" ||'
       defined "OS_OPENBSD" ||' defined "OS_SOLARIS" ||' defined "OS_ANDROID" ||'
       defined "OS_NACL" ||' defined "OS_QNX") "OS_POSIX") as (m3 & -> & He3); [exact He2|reflexivity|].
  assert (E3 : extends_by (posix_of (bsd_of xs)) m m3).
  { unfold posix_of. cbn [existsb]. rewrite !Hin2 in He3 by (vm_compute; reflexivity).
    rewrite orb_false_r, !orb_assoc. exact He3. }
  pose proof (build_config_arch_known m3) as Harch. unfold goes_through in Harch.
  rewrite (arch_tests_kept xs m m3 Hxs E3) in Harch.
  destruct (build_config_arch m3) as [e|m4] eqn:E4; [naive_solver|].
  destruct (build_config_arch_table _ _ E4) as (ys & Hys & He4).
  split; [done|]. split; [done|].
  apply (consistent_ext (λ x, bool_decide (x ∈ ys ++ posix_of (bsd_of xs)))); [|by apply tables_consistent].
  intros x Hx. symmetry. eapply extends_by_clean; [done| |done]. by eapply extends_by_trans.
Qed.

(** *** macros.h *)

Definition platform_macros : list string :=
  ["TDF_PLATFORM_ANDROID"; "TDF_PLATFORM_IOS"; "TDF_PLATFORM_MAC"; "TDF_PLATFORM_WINDOWS";
   "TDF_PLATFORM_LINUX"].
Definition class_macros : list string := ["TDF_PLATFORM_MOBILE"; "TDF_PLATFORM_PC"].
Definition has_cpp_macros : list string :=
  ["TDF_HAS_CPP_03"; "TDF_HAS_CPP_11"; "TDF_HAS_CPP_14"; "TDF_HAS_CPP_17"].

(** [m'] has what [m] has of the macros [xs]. *)
Definition same (xs : list string) m m' : Prop := ∀ x, x ∈ xs → m' !! x = m !! x.

Lemma same_insert xs x r m m' : bool_decide (x ∈ xs) = false → same xs m m' → same xs m (<[x := r]> m').
Proof.
  intros Hx%bool_decide_eq_false Hs y Hy. rewrite lookup_insert_ne by (intros ->; done). by apply Hs.
Qed.

(** Parts of macros.h that define none of [xs]. *)
Definition leaves (xs : list string) (a : pp) : Prop := ∀ m m', a m = inr m' → same xs m m'.

Lemma leaves_define xs x r : bool_decide (x ∈ xs) = false → leaves xs (define_as x r).
Proof. intros Hx m m' [= <-]. by apply same_insert. Qed.

Lemma leaves_skip xs : leaves xs skip.
Proof. by intros m m' [= <-]. Qed.

Lemma leaves_error xs e : leaves xs (error e).
Proof. done. Qed.

Lemma leaves_andThen xs a b : leaves xs a → leaves xs b → leaves xs (andThen a b).
Proof.
  intros Ha Hb m m'. unfold andThen. destruct (a m) as [e|m1] eqn:E; [done|].
  intros E' x Hx. by rewrite (Hb _ _ E' x Hx), (Ha _ _ E x Hx).
Qed.

Lemma leaves_if xs c a b : leaves xs a → leaves xs b → leaves xs (if_ c a b).
Proof. intros Ha Hb m m'. unfold if_. destruct (c m); [apply Ha|apply Hb]. Qed.

Lemma leaves_if_value xs x t a b : leaves xs a → leaves xs b → leaves xs (if_value x t a b).
Proof.
  intros Ha Hb m m'. unfold if_value. repeat case_match; try done; first [apply Ha|apply Hb].
Qed.

Ltac leaves :=
  repeat first
    [ apply leaves_if | apply leaves_if_value | apply leaves_andThen | apply leaves_skip
    | apply leaves_error | apply leaves_define; vm_compute; reflexivity | done ].

(** The language level is never detected: macros.h computes it as
    [TDF_CPP_STANDARD] but tests [CPP_STANDARD], which nothing defines, so an
    unknown macro that counts as 0.  Unless somebody else defines
    [CPP_STANDARD], including the header defines no [TDF_HAS_CPP_*] macro,
    whatever the compiler. *)
Theorem has_cpp_never_defined (TargetConditionals : Macros → Macros) m m'
    (Ht : ∀ m, same ("CPP_STANDARD" :: has_cpp_macros) m (TargetConditionals m))
    (Hstd : m !! "CPP_STANDARD" = None) (Hm : macros_h TargetConditionals m = inr m') :
  same has_cpp_macros m m'.
Proof.
  assert (Hinc : leaves ("CPP_STANDARD" :: has_cpp_macros) (include TargetConditionals))
    by (by intros ? ? [= <-]).
  assert (Hpre : leaves ("CPP_STANDARD" :: has_cpp_macros)
            (lines [macros_platform TargetConditionals; macros_dll; macros_api; macros_cpp_standard]))
    by (unfold macros_platform, macros_dll, macros_api, macros_cpp_standard, define; cbn [lines]; leaves).
  unfold macros_h in Hm. cbn [lines] in Hm, Hpre. unfold andThen in Hm.
  unfold leaves, andThen in Hpre. specialize (Hpre m).
  destruct (macros_platform _ m) as [|m1]; [done|]. destruct (macros_dll m1) as [|m2]; [done|].
  destruct (macros_api m2) as [|m3]; [done|]. destruct (macros_cpp_standard m3) as [|m4]; [done|].
  specialize (Hpre m4 eq_refl).
  assert (E4 : m4 !! "CPP_STANDARD" = None) by (by rewrite (Hpre "CPP_STANDARD") by left).
  assert (Hcpp : macros_has_cpp m4 = inr m4).
  { assert (Hs : ∀ t x, t 0 = false → if_value "CPP_STANDARD" t (define x) skip m4 = inr m4)
      by (intros t x Hx; unfold if_value; by rewrite E4, Hx).
    unfold macros_has_cpp. cbn [lines]. unfold andThen. by rewrite !Hs. }
  rewrite Hcpp in Hm. assert (Hcomp : leaves has_cpp_macros
    (andThen macros_compiler (define_as "TDF_BASE_EMBEDDER_ONLY" NoTokens)))
    by (unfold macros_compiler; leaves).
  intros x Hx. rewrite (Hcomp _ _ Hm x Hx). apply Hpre. by right.
Qed.

Definition clang_android : Macros :=
  list_to_map ((λ x, (x, Number 1)) <$> ["__ANDROID__"; "__linux__"; "__aarch64__"; "__clang__"]).

(** *** On a concrete compiler *)

Definition gcc_linux : Macros :=
  <["__cplusplus" := Number 201703]>
    (list_to_map ((λ x, (x, Number 1)) <$> ["__linux__"; "__x86_64__"; "__GNUC__"])).
Definition sample_unistd (m : Macros) : Macros := <["__GLIBC__" := Number 2]> m.
Definition sample_conditionals (m : Macros) : Macros := <["TARGET_OS_IPHONE" := Number 0]> m.

Lemma quiet_insert y r :
  bool_decide (y ∈ config_macros ++ "__LP64__" :: arch_tests) = false → quiet (λ m, <[y := r]> m).
Proof.
  intros Hy%bool_decide_eq_false x m Hx. rewrite defined_insert.
  destruct (String.eqb_spec y x); [by subst|done].
Qed.

(** What a header makes of the macros [m]: the macros among [xs] that it
    leaves defined. *)
Definition outcome_of (a : pp) (xs : list string) m : option (list string) :=
  match a m with inr m' => Some (List.filter (λ x, defined x m') xs) | inl _ => None end.

Lemma outcome_of_inr a xs l m :
  outcome_of a xs m = Some l → ∃ m', a m = inr m' ∧ List.filter (λ x, defined x m') xs = l.
Proof. unfold outcome_of. destruct (a m) as [|m']; [done|]. intros [= <-]. by exists m'. Qed.

(** The two headers look for different macros: a toolchain that defines
    [__ANDROID__], as clang does, but not [ANDROID] builds for Linux
    according to one header and for Android according to the other. *)
Theorem headers_disagree_on_android :
  outcome_of (build_config id id) os_macros clang_android = Some ["OS_LINUX"] ∧
  outcome_of (macros_h id) platform_macros clang_android = Some ["TDF_PLATFORM_ANDROID"].
Proof. split; vm_compute; reflexivity. Qed.

Lemma build_config_spec_witness :
  ∃ m, build_config sample_conditionals sample_unistd gcc_linux = inr m ∧
    List.filter (λ x, defined x m) config_macros =
      ["OS_LINUX"; "LIBC_GLIBC"; "OS_POSIX"; "ARCH_CPU_X86_FAMILY"; "ARCH_CPU_X86_64";
       "ARCH_CPU_64_BITS"; "ARCH_CPU_LITTLE_ENDIAN"] ∧
    consistent (λ x, defined x m).
Proof.
  destruct (outcome_of_inr (build_config sample_conditionals sample_unistd) config_macros
    ["OS_LINUX"; "LIBC_GLIBC"; "OS_POSIX"; "ARCH_CPU_X86_FAMILY"; "ARCH_CPU_X86_64";
     "ARCH_CPU_64_BITS"; "ARCH_CPU_LITTLE_ENDIAN"] gcc_linux) as (m & E & El);
    [vm_compute; reflexivity|].
  exists m. split; [exact E|]. split; [exact El|].
  pose proof (build_config_spec sample_conditionals sample_unistd gcc_linux) as H.
  rewrite E in H. apply H.
  - apply quiet_insert. vm_compute. reflexivity.
  - apply quiet_insert. vm_compute. reflexivity.
  - unfold clean. rewrite <- Forall_forall. decide_now.
  - intros m'. exists 0. apply lookup_insert_eq.
Defined.

Lemma has_cpp_never_defined_witness :
  ∃ m, macros_h sample_conditionals gcc_linux = inr m ∧
    List.filter (λ x, defined x m) ["TDF_CPP_STANDARD"; "TDF_PLATFORM_LINUX"] =
      ["TDF_CPP_STANDARD"; "TDF_PLATFORM_LINUX"] ∧
    same has_cpp_macros gcc_linux m.
Proof.
  destruct (outcome_of_inr (macros_h sample_conditionals) ["TDF_CPP_STANDARD"; "TDF_PLATFORM_LINUX"]
    ["TDF_CPP_STANDARD"; "TDF_PLATFORM_LINUX"] gcc_linux) as (m & E & El);
    [vm_compute; reflexivity|].
  exists m. split; [exact E|]. split; [exact El|].
  apply (has_cpp_never_defined sample_conditionals gcc_linux m); [|vm_compute; reflexivity|exact E].
  intros m'. apply same_insert; [vm_compute; reflexivity|done].
Defined.
End Facts.

(** *** Statements and declarations *)

(** [assert_fn] in a release build does not call its argument, so it must not
    have effects the program needs; [WEAK_CALL] calls its method exactly when
    the object is alive. *)
Theorem assert_fn_spec {S} (NDEBUG : bool) (fn : ST S bool) b s s' :
  fn s = Ok (b, s') →
  assert_fn NDEBUG fn s =
    if NDEBUG then Ok (tt, s) else if b then Ok (tt, s') else Fault CheckFailed.
Proof. intros E. unfold assert_fn. destruct NDEBUG; [done|]. unfold st_bind. rewrite E. by destruct b. Qed.

Theorem WEAK_CALL_spec {S A} (lock : S → option A) (fn : A → ST S unit) s :
  WEAK_CALL lock fn s = match lock s with Some this => fn this s | None => Ok (tt, s) end.
Proof. unfold WEAK_CALL, st_bind. by destruct (lock s). Qed.

(** What can be done with an object of a class that declares the members [del]
    as deleted and no other special member.  A declared copy or move member
    suppresses the implicit moves, which then resolve to the copies; a
    declared move member deletes the implicit copies. *)
Definition available (del : list special_member) (x : special_member) : bool :=
  let declares y := bool_decide (y ∈ del) in
  let copies y := negb (declares y) && negb (declares MoveConstructor || declares MoveAssignment) in
  let moves y y_copy :=
    negb (declares y) &&
    (copies y_copy || negb (existsb declares [CopyConstructor; CopyAssignment; MoveConstructor;
                                              MoveAssignment])) in
  match x with
  | DefaultConstructor => negb (declares DefaultConstructor || declares CopyConstructor ||
                                declares MoveConstructor)
  | CopyConstructor => copies CopyConstructor
  | CopyAssignment => copies CopyAssignment
  | MoveConstructor => moves MoveConstructor CopyConstructor
  | MoveAssignment => moves MoveAssignment CopyAssignment
  end.

Definition operations : list special_member :=
  [CopyConstructor; MoveConstructor; CopyAssignment; MoveAssignment].

(** The macros that name copying and assigning, copying and moving, or moving
    alone have one effect: nothing can be copied, moved or assigned.  Those
    that name one of copying and assigning leave the other, for lvalues and
    rvalues alike. *)
Theorem disallow_available :
  map (λ del, List.filter (available del) operations)
    [TDF_BASE_DISALLOW_COPY; TDF_BASE_DISALLOW_ASSIGN; TDF_BASE_DISALLOW_MOVE;
     TDF_BASE_DISALLOW_COPY_AND_ASSIGN; TDF_BASE_DISALLOW_COPY_ASSIGN_AND_MOVE;
     TDF_BASE_DISALLOW_IMPLICIT_CONSTRUCTORS] =
  [[CopyAssignment; MoveAssignment]; [CopyConstructor; MoveConstructor]; []; []; []; []].
Proof. reflexivity. Qed.
