(* ===== verification/TaggedPointer.v ===== *)
(** * TaggedPointer: the pointers of the lock-free list

    Models the two [tagged] classes of [include/footstone/mpmc_list.h]: a
    64-bit word that holds a pointer in its low bits and, above them, a counter
    that every successful compare-exchange advances, so that a word read
    earlier is not mistaken for the current one when the pointer alone is the
    same again (the ABA problem). *)

From S2P Require Import Prelude.

Section Tagged.
(** The number of low bits kept for the pointer: 32 where pointers have 4
    bytes, 48 where they have 8 ([tagged_factor]). *)
Variable bits : Z.

Definition tagged_mask : Z := 2 ^ bits - 1.
Definition tagged_incr : Z := 2 ^ bits.

(** [detail::tagged(T ptr, std::uint64_t tag)] *)
Definition tagged_make (ptr tag : Z) : Z := Z.lor ptr (Z.land tag (wrap_u 64 (Z.lnot tagged_mask))).

(** [detail::tagged::add] and [del] *)
Definition tagged_add (tag : Z) : Z := wrap_u 64 (tag + tagged_incr).
Definition tagged_del (tag : Z) : Z := wrap_u 64 (tag - tagged_incr).

(** [operator T], [ptr()] *)
Definition tagged_ptr (data : Z) : Z := Z.land data tagged_mask.

(** [detail::tagged(std::uint64_t num)], [detail::tagged(T ptr)], [==], [!=] *)
Definition tagged_of_num (num : Z) : Z := num.
Definition tagged_of_ptr (ptr : Z) : Z := ptr.
Definition tagged_eq (a b : Z) : bool := a =? b.
Definition tagged_ne (a b : Z) : bool := negb (tagged_eq a b).

(** [tagged::load] gives the pointer, [tagged::tag_load] the whole word. *)
Definition tag_load (data : Z) : Z := tagged_of_num data.
Definition tagged_load (data : Z) : Z := tagged_ptr (tagged_of_num data).

(** The tag of a word. *)
Definition tagged_tag (data : Z) : Z := Z.shiftr data bits.

(** [tagged::compare_exchange]: the answer, the word afterwards and the new
    value of [exp]. *)
Definition tagged_compare_exchange (spurious : bool) (data exp val : Z) : bool * Z * Z :=
  let num := exp in
  if (data =? num) && negb spurious then (true, tagged_make val (tagged_add num), num)
  else (false, data, data).

(** The weak form may fail although the word is the expected one. *)
Definition compare_exchange_weak (spurious : bool) := tagged_compare_exchange spurious.
Definition compare_exchange_strong := tagged_compare_exchange false.

(** [tagged::exchange], run alone: the value replaced and the new word.  One
    attempt is enough when no attempt fails spuriously. *)
Fixpoint tagged_exchange (fuel : nat) (data old val : Z) : outcome (Z * Z) :=
  match compare_exchange_weak false data old val with
  | (true, data', old) => Ok (old, data')
  | (false, data', old) => match fuel with
                           | O => Fault OutOfFuel
                           | S fuel => tagged_exchange fuel data' old val
                           end
  end.

Definition tagged_store (data val : Z) : outcome Z := snd <$> tagged_exchange 0 data (tag_load data) val.

(** ** Properties *)

Hypothesis bits_range : 0 < bits < 64.

Lemma mask_ones : tagged_mask = Z.ones bits.
Proof. unfold tagged_mask. rewrite Z.ones_equiv. lia. Qed.

Lemma high_mask_bit i :
  0 ≤ i → Z.testbit (wrap_u 64 (Z.lnot tagged_mask)) i = (bits <=? i) && (i <? 64).
Proof.
  intros Hi. unfold wrap_u. rewrite <- Z.land_ones, Z.land_spec by lia.
  rewrite Z.lnot_spec, mask_ones, !Z.testbit_ones by lia.
  destruct (Z.leb_spec 0 i), (Z.ltb_spec i bits), (Z.leb_spec bits i), (Z.ltb_spec i 64); cbn;
    lia || done.
Qed.

Definition is_word (z : Z) : Prop := 0 ≤ z < 2 ^ 64.
Definition is_ptr (z : Z) : Prop := 0 ≤ z < 2 ^ bits.

Lemma bit_above n z i : 0 ≤ z < 2 ^ n → 0 ≤ n ≤ i → Z.testbit z i = false.
Proof.
  intros Hz Hi. destruct (decide (z = 0)) as [->|]; [by rewrite Z.testbit_0_l|].
  apply Z.bits_above_log2; [lia|]. apply Z.log2_lt_pow2; [lia|].
  eapply Z.lt_le_trans; [apply Hz|]. apply Z.pow_le_mono_r; lia.
Qed.

Lemma make_bit ptr tag i :
  is_ptr ptr → 0 ≤ i →
  Z.testbit (tagged_make ptr tag) i =
    if i <? bits then Z.testbit ptr i else Z.testbit tag i && (i <? 64).
Proof.
  intros Hp Hi. unfold tagged_make. rewrite Z.lor_spec, Z.land_spec, high_mask_bit by done.
  destruct (Z.ltb_spec i bits), (Z.leb_spec bits i); try lia; cbn.
  - by rewrite andb_false_r, orb_false_r.
  - by rewrite (bit_above bits ptr) by (done || lia).
Qed.

Lemma make_word ptr tag : is_ptr ptr → is_word (tagged_make ptr tag).
Proof.
  intros Hp. assert (E : tagged_make ptr tag = wrap_u 64 (tagged_make ptr tag)).
  { unfold wrap_u. rewrite <- Z.land_ones by lia. apply Z.bits_inj'. intros i Hi.
    rewrite Z.land_spec, Z.testbit_ones, !make_bit by (done || lia).
    destruct (Z.ltb_spec i bits), (Z.leb_spec 0 i), (Z.ltb_spec i 64); cbn;
      rewrite ?andb_true_r, ?andb_false_r; lia || done. }
  unfold is_word. rewrite E. apply wrap_u_range. lia.
Qed.

Lemma ptr_make ptr tag : is_ptr ptr → tagged_ptr (tagged_make ptr tag) = ptr.
Proof.
  intros Hp. apply Z.bits_inj'. intros i Hi. unfold tagged_ptr.
  rewrite Z.land_spec, make_bit, mask_ones, Z.testbit_ones by (done || lia).
  destruct (Z.ltb_spec i bits), (Z.leb_spec 0 i); try lia; cbn; rewrite ?andb_true_r, ?andb_false_r.
  - done.
  - symmetry. apply (bit_above bits); [done|lia].
Qed.

Lemma tag_make ptr tag : is_ptr ptr → is_word tag → tagged_tag (tagged_make ptr tag) = tagged_tag tag.
Proof.
  intros Hp Ht. apply Z.bits_inj'. intros i Hi. unfold tagged_tag.
  rewrite !Z.shiftr_spec, make_bit by (done || lia).
  destruct (Z.ltb_spec (i + bits) bits); [lia|].
  destruct (Z.ltb_spec (i + bits) 64); [by rewrite andb_true_r|].
  rewrite andb_false_r. symmetry. apply (bit_above 64); [done|lia].
Qed.

Lemma tag_add tag : is_word tag → tagged_tag (tagged_add tag) = wrap_u (64 - bits) (tagged_tag tag + 1).
Proof.
  intros [H0 H1]. unfold tagged_tag, tagged_add, tagged_incr, wrap_u.
  rewrite !Z.shiftr_div_pow2 by lia.
  replace (2 ^ 64) with (2 ^ bits * 2 ^ (64 - bits)) by (rewrite <- Z.pow_add_r by lia; f_equal; lia).
  assert (0 < 2 ^ bits) by lia. assert (0 < 2 ^ (64 - bits)) by lia.
  rewrite Z.rem_mul_r by lia. rewrite (Z.mul_comm (2 ^ bits)), Z.div_add by lia.
  rewrite (Z.div_small (_ mod _)) by (apply Z.mod_pos_bound; lia). rewrite Z.add_0_l. f_equal.
  replace (tag + 2 ^ bits) with (tag + 1 * 2 ^ bits) by lia. rewrite Z.div_add by lia. done.
Qed.

(** Two words are equal exactly when both the pointers and the tags are: the
    same pointer stored again is told apart. *)
Lemma tagged_eq_spec a b :
  is_word a → is_word b →
  tagged_eq a b = true ↔ tagged_load a = tagged_load b ∧ tagged_tag a = tagged_tag b.
Proof.
  intros Ha Hb. unfold tagged_eq, tagged_load, tagged_of_num, tagged_ptr, tagged_tag.
  rewrite Z.eqb_eq, mask_ones, !Z.land_ones, !Z.shiftr_div_pow2 by lia. split; [by intros ->|].
  intros [Hm Hd]. pose proof (Z.div_mod a (2 ^ bits)). pose proof (Z.div_mod b (2 ^ bits)). nia.
Qed.

(** A compare-exchange succeeds exactly when the word is the expected one.  The
    word then holds the new pointer and the next tag; on failure it is
    unchanged and [exp] becomes the current word, ready for another attempt. *)
Theorem tagged_compare_exchange_spec data exp val
    (Hd : is_word data) (Hv : is_ptr val) :
  let '(b, data', exp') := tagged_compare_exchange false data exp val in
  b = bool_decide (data = exp) ∧ is_word data' ∧
  (b = true → tagged_ptr data' = val ∧
     tagged_tag data' = wrap_u (64 - bits) (tagged_tag data + 1)) ∧
  (b = false → data' = data ∧ exp' = data).
Proof.
  unfold tagged_compare_exchange. destruct (Z.eqb_spec data exp) as [->|Hne]; cbn.
  - assert (Ha : is_word (tagged_add exp)) by (apply wrap_u_range; lia).
    rewrite bool_decide_true by done. split; [done|]. split; [by apply make_word|].
    split; [|done]. intros _. by rewrite ptr_make, tag_make, tag_add.
  - rewrite bool_decide_false by done. by split.
Qed.

(** The words an atomic pointer goes through as [vals] are stored one after the
    other. *)
Fixpoint stores (vals : list Z) (data : Z) : outcome Z :=
  match vals with
  | [] => Ok data
  | v :: vals => let! data := tagged_store data v in stores vals data
  end.

Lemma store_run data val : tagged_store data val = Ok (tagged_make val (tagged_add data)).
Proof.
  unfold tagged_store. cbn. unfold compare_exchange_weak, tagged_compare_exchange, tag_load, tagged_of_num.
  by rewrite Z.eqb_refl.
Qed.

Lemma stores_spec vals data :
  is_word data → Forall is_ptr vals →
  ∃ data', stores vals data = Ok data' ∧ is_word data' ∧
    tagged_ptr data' = default (tagged_ptr data) (last vals) ∧
    tagged_tag data' = wrap_u (64 - bits) (tagged_tag data + Z.of_nat (length vals)).
Proof.
  intros Hd Hvals. revert data Hd. induction Hvals as [|v vals Hv Hvals IH]; intros data Hd; cbn [stores].
  - exists data. split; [done|]. split; [done|]. split; [done|]. rewrite Z.add_0_r.
    symmetry. apply wrap_u_id. unfold tagged_tag. rewrite Z.shiftr_div_pow2 by lia.
    destruct Hd as [H0 H1]. split; [apply Z.div_pos; lia|].
    apply Z.div_lt_upper_bound; [lia|]. rewrite <- Z.pow_add_r by lia.
    by replace (bits + (64 - bits)) with 64 by lia.
  - rewrite store_run. cbn [obind length].
    assert (Ha : is_word (tagged_add data)) by (apply wrap_u_range; lia).
    destruct (IH (tagged_make v (tagged_add data)) ltac:(by apply make_word))
      as (data' & E & Hw & Hp & Ht).
    exists data'. split; [done|]. split; [done|]. split.
    + rewrite Hp, ptr_make, last_cons by done. by destruct (last vals).
    + rewrite Ht, tag_make, tag_add by done. unfold wrap_u. rewrite Zplus_mod_idemp_l. f_equal. lia.
Qed.

(** C39. ABA protection, and its bound: after any number of stores the pointer read
    back is the last one stored, and the word can equal an earlier one only
    when the number of stores in between is a multiple of [2^(64 - bits)] —
    65536 for 8-byte pointers.  Pointers that need more than [bits] bits do not
    survive: the bits above are lost. *)
Theorem tagged_aba_window vals data data'
    (Hd : is_word data) (Hvals : Forall is_ptr vals) (Hrun : stores vals data = Ok data') :
  (∀ v, last vals = Some v → tagged_ptr data' = v) ∧
  (data' = data → Z.of_nat (length vals) mod 2 ^ (64 - bits) = 0) ∧
  (∀ p tag, tagged_ptr (tagged_make p tag) = p → is_ptr p).
Proof.
  destruct (stores_spec vals data Hd Hvals) as (d & E & _ & Hp & Ht).
  rewrite E in Hrun. injection Hrun as <-.
  split; [|split].
  - intros v Hl. by rewrite Hp, Hl.
  - intros ->. unfold wrap_u in Ht. set (n := Z.of_nat (length vals)) in *.
    assert (0 < 2 ^ (64 - bits)) by lia.
    set (N := 2 ^ (64 - bits)) in *.
    assert (En : n = ((tagged_tag data + n) / N) * N)
      by (pose proof (Z.div_mod (tagged_tag data + n) N); lia).
    rewrite En. apply Z.mod_mul. lia.
  - intros p tag <-. unfold tagged_ptr, is_ptr. rewrite mask_ones, Z.land_ones by lia.
    apply Z.mod_pos_bound. lia.
Qed.
End Tagged.

(** ** Witnesses *)

Lemma tagged_compare_exchange_spec_witness :
  tagged_ptr 48 (tagged_compare_exchange 48 false 4096 4096 8192).1.2 = 8192.
Proof.
  pose proof (tagged_compare_exchange_spec 48 ltac:(lia) 4096 4096 8192
    ltac:(unfold is_word; lia) ltac:(unfold is_ptr; lia)) as Hspec.
  assert (Hb : (tagged_compare_exchange 48 false 4096 4096 8192).1.1 = true) by reflexivity.
  destruct (tagged_compare_exchange 48 false 4096 4096 8192) as [[b d] e].
  exact (proj1 (proj1 (proj2 (proj2 Hspec)) Hb)).
Defined.

(** Storing two pointers in turn changes the word although the first comes
    back. *)
Lemma tagged_aba_window_witness :
  ∃ data', stores 48 [8192; 4096] 4096 = Ok data' ∧ tagged_ptr 48 data' = 4096 ∧
    data' ≠ 4096.
Proof.
  destruct (stores 48 [8192; 4096] 4096) as [d|] eqn:E; [|discriminate].
  destruct (tagged_aba_window 48 ltac:(lia) [8192; 4096] 4096 d ltac:(unfold is_word; lia)
    ltac:(repeat constructor; unfold is_ptr; lia) E) as (Hp & Hw & _).
  exists d. split; [reflexivity|]. split; [by apply Hp|].
  intros Heq. specialize (Hw Heq). vm_compute in Hw. discriminate.
Defined.
