(* ===== verification/MpmcList.v ===== *)
(** * MpmcList: the multi-producer multi-consumer linked list

    Models [pool] and [mpmc_list] of [include/footstone/mpmc_list.h], the
    unbounded queue on tagged pointers (TaggedPointer.v), as if the
    constructors of [tagged] were not [explicit]: as written the two templates
    cannot be instantiated.  A call is a sequence of atomic steps ([lpc]) on
    the shared words and on the memory of the nodes, which the pool recycles;
    Threads.v runs calls alone or interleaves them.

    A node is a union of the list's node, a value and a tagged [next_], and of
    the pool's link.  Both overlay the first word, [n_first]; [next_] lies
    behind it and survives while the node is in the pool.  Loading that word
    as a link gives its bytes whatever it holds; copying a value out of it
    when it holds a link is a fault. *)

From S2P Require Import Prelude ThreadSafeQueue Threads TaggedPointer.

Record lnode (T : Type) := MkNode { n_first : T + Z; n_next : Z }.
Arguments MkNode {T} _ _.
Arguments n_first {T} _.
Arguments n_next {T} _.

(** The list, its pool, the memory of the nodes and the address the next
    [new] returns; 0 is the null pointer. *)
Record mpmc_list (T : Type) := MkMpmcList {
  ml_head_ : Z;
  ml_tail_ : Z;
  ml_cursor_ : Z;
  ml_el_ : Z;
  ml_mem : gmap Z (lnode T);
  ml_fresh : Z
}.
Arguments MkMpmcList {T} _ _ _ _ _ _.
Arguments ml_head_ {T} _.
Arguments ml_tail_ {T} _.
Arguments ml_cursor_ {T} _.
Arguments ml_el_ {T} _.
Arguments ml_mem {T} _.
Arguments ml_fresh {T} _.

(** Where a call stands: in [pool::alloc], [push], [pop], [pool::free] or
    [empty]. *)
Inductive lpc (T : Type) :=
  | AllocEl (val : T)
  | AllocCursor (val : T)
  | AllocNext (val : T) (curr : Z)
  | AllocTake (val : T) (curr next : Z)
  | AllocConstruct (val : T) (p : Z)
  | AllocNew (val : T)
  | LPushTail (p : Z)
  | LPushNext (p tail : Z)
  | LPushCheck (p tail next : Z)
  | LPushLink (p tail next : Z)
  | LPushSwing (p tail : Z)
  | LPushHelp (p tail next : Z)
  | LPopHead
  | LPopTail (head : Z)
  | LPopNext (head tail : Z)
  | LPopCheck (head tail next : Z)
  | LPopHelp (tail next : Z)
  | LPopRead (head next : Z)
  | LPopTake (head next : Z) (val : T)
  | FreeEl (p : Z) (val : T)
  | FreeCursor (temp : Z) (val : T)
  | FreeStore (temp curr : Z) (val : T)
  | FreeTake (temp curr : Z) (val : T)
  | EmptyHead
  | EmptyNext (head : Z)
  | LReturned (b : bool) (val : option T).
Arguments AllocEl {T} _.
Arguments AllocCursor {T} _.
Arguments AllocNext {T} _ _.
Arguments AllocTake {T} _ _ _.
Arguments AllocConstruct {T} _ _.
Arguments AllocNew {T} _.
Arguments LPushTail {T} _.
Arguments LPushNext {T} _ _.
Arguments LPushCheck {T} _ _ _.
Arguments LPushLink {T} _ _ _.
Arguments LPushSwing {T} _ _.
Arguments LPushHelp {T} _ _ _.
Arguments LPopHead {T}.
Arguments LPopTail {T} _.
Arguments LPopNext {T} _ _.
Arguments LPopCheck {T} _ _ _.
Arguments LPopHelp {T} _ _.
Arguments LPopRead {T} _ _.
Arguments LPopTake {T} _ _ _.
Arguments FreeEl {T} _ _.
Arguments FreeCursor {T} _ _.
Arguments FreeStore {T} _ _ _.
Arguments FreeTake {T} _ _ _.
Arguments EmptyHead {T}.
Arguments EmptyNext {T} _.
Arguments LReturned {T} _ _.

Section Operations.
Context {T : Type}.
(** [T{}], and the word that the bytes of a value read as. *)
Variables (blank : T) (rep : T → Z).
Implicit Types q : mpmc_list T.

(** Words of 8-byte pointers. *)
Notation ptr := (tagged_ptr 48).
Notation cas spurious word exp val := (tagged_compare_exchange 48 spurious word exp val).

Definition set_ml_head_ (v : Z) q := MkMpmcList v (ml_tail_ q) (ml_cursor_ q) (ml_el_ q) (ml_mem q) (ml_fresh q).
Definition set_ml_tail_ (v : Z) q := MkMpmcList (ml_head_ q) v (ml_cursor_ q) (ml_el_ q) (ml_mem q) (ml_fresh q).
Definition set_ml_cursor_ (v : Z) q := MkMpmcList (ml_head_ q) (ml_tail_ q) v (ml_el_ q) (ml_mem q) (ml_fresh q).
Definition set_ml_el_ (v : Z) q := MkMpmcList (ml_head_ q) (ml_tail_ q) (ml_cursor_ q) v (ml_mem q) (ml_fresh q).
Definition set_node (p : Z) (n : lnode T) q :=
  MkMpmcList (ml_head_ q) (ml_tail_ q) (ml_cursor_ q) (ml_el_ q) (<[p := n]> (ml_mem q)) (ml_fresh q).
Definition set_ml_fresh (v : Z) q := MkMpmcList (ml_head_ q) (ml_tail_ q) (ml_cursor_ q) (ml_el_ q) (ml_mem q) v.

(** [p->...] *)
Definition node_at (p : Z) q : outcome (lnode T) := of_option NullDeref (ml_mem q !! p).

(** The first word of a node loaded as the pool's link. *)
Definition link_word (n : lnode T) : Z :=
  match n_first n with inl v => rep v | inr l => l end.

(** Construction: [allocator_.alloc()] makes the dummy node. *)
Definition mpmc_list_new : mpmc_list T :=
  MkMpmcList 1 1 0 0 {[ 1 := MkNode (inl blank) 0 ]} 2.

(** What [alloc] does with the pointer it read from [cursor_]. *)
Definition alloc_cursor (val : T) (curr : Z) : lpc T :=
  if ptr curr =? 0 then AllocNew val else AllocNext val curr.

(** One step of a call. *)
Definition list_step (spurious : bool) (pc : lpc T) q : outcome (lpc T * mpmc_list T) :=
  match pc with
  | AllocEl val =>
      let curr := ml_el_ q in
      Ok (if ptr curr =? 0 then AllocCursor val else AllocConstruct val (ptr curr),
          set_ml_el_ 0 q)
  | AllocCursor val => Ok (alloc_cursor val (ml_cursor_ q), q)
  | AllocNext val curr =>
      let! n := node_at (ptr curr) q in Ok (AllocTake val curr (ptr (link_word n)), q)
  | AllocTake val curr next =>
      let '(b, word, curr') := cas spurious (ml_cursor_ q) curr next in
      Ok (if (b : bool) then AllocConstruct val (ptr curr') else alloc_cursor val curr',
          set_ml_cursor_ word q)
  | AllocConstruct val p =>
      let! _ := node_at p q in Ok (LPushTail p, set_node p (MkNode (inl val) 0) q)
  | AllocNew val =>
      let p := ml_fresh q in
      Ok (LPushTail p, set_ml_fresh (p + 1) (set_node p (MkNode (inl val) 0) q))
  | LPushTail p => Ok (LPushNext p (ml_tail_ q), q)
  | LPushNext p tail =>
      let! n := node_at (ptr tail) q in Ok (LPushCheck p tail (n_next n), q)
  | LPushCheck p tail next =>
      Ok (if tail =? ml_tail_ q
          then if ptr next =? 0 then LPushLink p tail next else LPushHelp p tail next
          else LPushTail p, q)
  | LPushLink p tail next =>
      let! n := node_at (ptr tail) q in
      let '(b, word, _) := cas spurious (n_next n) next p in
      Ok (if (b : bool) then LPushSwing p tail else LPushTail p,
          set_node (ptr tail) (MkNode (n_first n) word) q)
  | LPushSwing p tail =>
      let '(_, word, _) := cas false (ml_tail_ q) tail p in
      Ok (LReturned true None, set_ml_tail_ word q)
  | LPushHelp p tail next =>
      let '(b, word, tail') := cas spurious (ml_tail_ q) tail (ptr next) in
      Ok (if (b : bool) then LPushTail p else LPushNext p tail', set_ml_tail_ word q)
  | LPopHead => Ok (LPopTail (ml_head_ q), q)
  | LPopTail head => Ok (LPopNext head (ml_tail_ q), q)
  | LPopNext head tail =>
      let! n := node_at (ptr head) q in Ok (LPopCheck head tail (ptr (n_next n)), q)
  | LPopCheck head tail next =>
      Ok (if head =? ml_head_ q
          then if ptr head =? ptr tail
               then if next =? 0 then LReturned false None else LPopHelp tail next
               else LPopRead head next
          else LPopHead, q)
  | LPopHelp tail next =>
      let '(_, word, _) := cas spurious (ml_tail_ q) tail next in
      Ok (LPopHead, set_ml_tail_ word q)
  | LPopRead head next =>
      let! n := node_at next q in
      match n_first n with
      | inl val => Ok (LPopTake head next val, q)
      | inr _ => Fault InactiveMember
      end
  | LPopTake head next val =>
      let '(b, word, head') := cas spurious (ml_head_ q) head next in
      Ok (if (b : bool) then FreeEl (ptr head) val else LPopTail head', set_ml_head_ word q)
  | FreeEl p val =>
      let temp := ml_el_ q in
      Ok (if temp =? 0 then LReturned true (Some val) else FreeCursor temp val, set_ml_el_ p q)
  | FreeCursor temp val => Ok (FreeStore temp (ml_cursor_ q) val, q)
  | FreeStore temp curr val =>
      let! n := node_at temp q in
      let! word := tagged_store 48 (link_word n) (ptr curr) in
      Ok (FreeTake temp curr val, set_node temp (MkNode (inr word) (n_next n)) q)
  | FreeTake temp curr val =>
      let '(b, word, curr') := cas spurious (ml_cursor_ q) curr temp in
      Ok (if (b : bool) then LReturned true (Some val) else FreeStore temp curr' val,
          set_ml_cursor_ word q)
  | EmptyHead => Ok (EmptyNext (ml_head_ q), q)
  | EmptyNext head =>
      let! n := node_at (ptr head) q in Ok (LReturned (ptr (n_next n) =? 0) None, q)
  | LReturned b val => Ok (pc, q)
  end.

Definition list_machine : machine T (lpc T) (mpmc_list T) :=
  {| mc_start c := match c with
                   | CallPush x => AllocEl x
                   | CallPop => LPopHead
                   | CallEmpty => EmptyHead
                   end;
     mc_step := list_step;
     mc_answer c pc := match pc with
                       | LReturned b val =>
                           Some (match c with CallPop => AnsPop val | _ => AnsBool b end)
                       | _ => None
                       end |}.

(** [pool::empty]: no node is on the free list. *)
Definition pool_empty q : bool := tagged_load 48 (ml_cursor_ q) =? 0.

(** [~pool]: delete the nodes on the free list, each after reading its
    link. *)
Fixpoint pool_destroy (fuel : nat) (curr : Z) (mem : gmap Z (lnode T)) :
    outcome (gmap Z (lnode T)) :=
  if curr =? 0 then Ok mem
  else match fuel with
       | O => Fault OutOfFuel
       | S fuel => let! n := of_option NullDeref (mem !! curr) in
                   pool_destroy fuel (ptr (link_word n)) (delete curr mem)
       end.

(** Destruction of a list: it has no destructor of its own, so only the pool's
    runs. *)
Definition mpmc_list_destroy q : outcome (gmap Z (lnode T)) :=
  pool_destroy (size (ml_mem q)) (ptr (ml_cursor_ q)) (ml_mem q).
End Operations.

(** ** The shape of a list between calls *)

Section Shape.
Context {T : Type}.
Implicit Types (q : mpmc_list T) (mem : gmap Z (lnode T)) (ns : list (Z * T)) (fs own l : list Z).
Notation ptr := (tagged_ptr 48).

(** The nodes after [p], each with the value it holds; the last one's [next_]
    is null. *)
Fixpoint chain mem (p : Z) ns : Prop :=
  ∃ n, mem !! p = Some n ∧
  match ns with
  | [] => ptr (n_next n) = 0
  | (p', x) :: ns => ptr (n_next n) = p' ∧
      (∃ n', mem !! p' = Some n' ∧ n_first n' = inl x) ∧ chain mem p' ns
  end.

(** The nodes of the pool from [c] on. *)
Fixpoint free_chain mem (c : Z) fs : Prop :=
  match fs with
  | [] => c = 0
  | f :: fs => c = f ∧ ∃ n w, mem !! f = Some n ∧ n_first n = inr w ∧ free_chain mem (ptr w) fs
  end.

(** The nodes allocated so far are [l]: distinct, not null, below [fresh]. *)
Record owns mem (fresh : Z) l : Prop := {
  ow_nodup : NoDup l;
  ow_range : Forall (λ p, 0 < p < fresh) l;
  ow_dom : ∀ p, is_Some (mem !! p) ↔ p ∈ l
}.

#[global] Instance owns_perm mem fresh : Proper ((≡ₚ) ==> iff) (owns mem fresh).
Proof.
  intros l l' Hp. split; intros [H1 H2 H3]; split.
  1,2: by rewrite <- Hp. 1: intros p; rewrite H3; by rewrite Hp.
  1,2: by rewrite Hp. intros p. rewrite H3. by rewrite Hp.
Qed.

Definition el_list q : list Z := if ml_el_ q =? 0 then [] else [ml_el_ q].
Definition all_nodes q ns fs own : list Z :=
  ptr (ml_head_ q) :: ns.*1 ++ fs ++ el_list q ++ own.

(** The list [ns], the free list [fs], the spare node and the nodes [own] that
    a call holds are all there is. *)
Record list_ok q ns fs own : Prop := {
  lk_chain : chain (ml_mem q) (ptr (ml_head_ q)) ns;
  lk_tail : ptr (ml_tail_ q) = default (ptr (ml_head_ q)) (last ns.*1);
  lk_free : free_chain (ml_mem q) (ptr (ml_cursor_ q)) fs;
  lk_owns : owns (ml_mem q) (ml_fresh q) (all_nodes q ns fs own);
  lk_fresh : 0 < ml_fresh q ≤ 2 ^ 48
}.

(** [pool::empty] is right about the free list; the spare node is not on it. *)
Lemma pool_empty_spec q ns fs own :
  list_ok q ns fs own → pool_empty q = bool_decide (fs = []).
Proof.
  intros [_ _ Hf Ho _]. unfold pool_empty. change (tagged_load 48) with ptr.
  destruct fs as [|f fs]; [by rewrite Hf|]. destruct Hf as [-> _].
  rewrite bool_decide_false by done. apply Z.eqb_neq.
  pose proof (ow_range _ _ _ Ho) as Hr. rewrite Forall_forall in Hr.
  specialize (Hr f). unfold all_nodes in Hr. assert (0 < f < ml_fresh q); [|lia]. apply Hr.
  right. apply elem_of_app. right. left.
Qed.

Lemma small_ptr p : 0 ≤ p < 2 ^ 48 → ptr p = p.
Proof.
  intros Hp. unfold tagged_ptr, tagged_mask.
  replace (2 ^ 48 - 1) with (Z.ones 48) by reflexivity.
  rewrite Z.land_ones by lia. by apply Z.mod_small.
Qed.

Lemma make_ptr p tag : 0 ≤ p < 2 ^ 48 → ptr (tagged_make 48 p tag) = p.
Proof. intros Hp. by apply ptr_make. Qed.

Lemma cas_same w v :
  tagged_compare_exchange 48 false w w v = (true, tagged_make 48 v (tagged_add 48 w), w).
Proof. unfold tagged_compare_exchange. by rewrite Z.eqb_refl. Qed.

Lemma chain_insert mem a n p ns :
  a ∉ p :: ns.*1 → chain mem p ns → chain (<[a:=n]> mem) p ns.
Proof.
  revert p. induction ns as [|[p' x] ns IH]; intros p Ha; cbn [chain];
    apply not_elem_of_cons in Ha as [Hap Ha].
  - intros (m & Hm & Hn). exists m. by rewrite lookup_insert_ne.
  - intros (m & Hm & Hn & (m' & Hm' & Hx) & Hc). exists m. rewrite lookup_insert_ne by done.
    split; [done|]. split; [done|]. split; [|by apply IH].
    exists m'. rewrite lookup_insert_ne; [done|]. cbn in Ha. intros ->. apply Ha. left.
Qed.

Lemma free_chain_insert mem a n c fs :
  a ∉ fs → free_chain mem c fs → free_chain (<[a:=n]> mem) c fs.
Proof.
  revert c. induction fs as [|f fs IH]; intros c Ha; cbn; [done|].
  apply not_elem_of_cons in Ha as [Haf Ha]. intros (-> & m & w & Hm & Hw & Hc).
  split; [done|]. exists m, w. rewrite lookup_insert_ne by done. auto.
Qed.

(** Linking a node behind the last one. *)
Lemma chain_snoc mem p ns a x n m word :
  chain mem p ns → NoDup (p :: ns.*1) → a ∉ p :: ns.*1 →
  mem !! a = Some n → n_first n = inl x → ptr (n_next n) = 0 →
  mem !! default p (last ns.*1) = Some m → ptr word = a →
  chain (<[default p (last ns.*1) := MkNode (n_first m) word]> mem) p (ns ++ [(a, x)]).
Proof.
  intros Hc Hnd Ha Hn Hx Hnext. revert p Hc Hnd Ha.
  induction ns as [|[p' y] ns IH]; intros p Hc Hnd Ha Hm Hword; cbn [app].
  - cbn in *. exists (MkNode (n_first m) word). rewrite lookup_insert_eq. split; [done|].
    split; [done|]. assert (p ≠ a) by (intros ->; apply Ha; left).
    assert (E : (<[p := MkNode (n_first m) word]> mem) !! a = Some n)
      by (by rewrite lookup_insert_ne).
    split; [by exists n|]. by exists n.
  - cbn [fmap list_fmap] in *. apply not_elem_of_cons in Ha as [Hap Ha].
    apply NoDup_cons in Hnd as [Hpn Hnd]. cbn [chain] in Hc.
    destruct Hc as (m0 & Hm0 & Hp' & (m1 & Hm1 & Hy) & Hc). cbn [chain].
    assert (El : default p (last (p' :: ns.*1)) = default p' (last ns.*1)).
    { rewrite last_cons. by destruct (last ns.*1). }
    cbn [fst] in *. rewrite El in *.
    assert (Hlast : default p' (last ns.*1) ∈ p' :: ns.*1).
    { destruct (last ns.*1) eqn:E; cbn; [right; by apply last_Some_elem_of|left]. }
    exists m0. rewrite lookup_insert_ne by (intros E; by rewrite E in Hlast).
    split; [done|]. split; [done|]. split; [|by apply IH].
    rewrite lookup_insert. case_decide as E; [|by exists m1].
    exists (MkNode (n_first m) word). split; [done|]. rewrite E in Hm.
    rewrite Hm in Hm1. by injection Hm1 as ->.
Qed.

Lemma owns_set mem fresh l a n : a ∈ l → owns mem fresh l → owns (<[a:=n]> mem) fresh l.
Proof.
  intros Ha [H1 H2 H3]. split; auto. intros p. rewrite lookup_insert. case_decide; [|by apply H3].
  subst. split; [done|]. by eexists.
Qed.

Lemma owns_new mem fresh l n :
  0 < fresh → owns mem fresh l → owns (<[fresh:=n]> mem) (fresh + 1) (fresh :: l).
Proof.
  intros Hf [H1 H2 H3]. split.
  - constructor; [|done]. intros Hin. rewrite Forall_forall in H2. specialize (H2 _ Hin). lia.
  - constructor; [lia|]. eapply Forall_impl; [exact H2|]. cbn. intros. lia.
  - intros p. rewrite elem_of_cons, <- H3, lookup_insert. case_decide; subst; naive_solver.
Qed.

Lemma owns_lookup mem fresh l p : owns mem fresh l → p ∈ l → ∃ n, mem !! p = Some n.
Proof. intros [_ _ Hd] Hp. by apply Hd. Qed.

(** Writing a node that only the running call holds. *)
Lemma list_ok_set_own q ns fs a n own :
  list_ok q ns fs (a :: own) → list_ok (set_node a n q) ns fs (a :: own).
Proof.
  intros [Hc Ht Hf Ho Hfr]. pose proof (ow_nodup _ _ _ Ho) as Hnd.
  assert (Ha : a ∉ ptr (ml_head_ q) :: ns.*1 ∧ a ∉ fs).
  { unfold all_nodes in Hnd.
    rewrite app_comm_cons, !app_assoc in Hnd.
    apply NoDup_app in Hnd as (_ & Hdis & _).
    split; intros Hin; apply (Hdis a); [|left| |left]; rewrite !elem_of_app; tauto. }
  destruct Ha as [Ha1 Ha2]. split; cbn.
  - by apply chain_insert.
  - done.
  - by apply free_chain_insert.
  - apply owns_set; [|done]. unfold all_nodes. rewrite elem_of_cons, !elem_of_app. right. right.
    right. right. left.
  - done.
Qed.
End Shape.

(** ** One call at a time *)

Section Alone.
Context {T : Type} (rep : T → Z).
Implicit Types (q : mpmc_list T) (ns : list (Z * T)) (fs own : list Z) (pc : lpc T).
Notation ptr := (tagged_ptr 48).

(** [pc] reaches [pc'] in at most [k] steps when nothing interferes. *)
Definition reaches (k : nat) (c : queue_call T) pc q pc' q' : Prop :=
  ∃ n, (n ≤ k)%nat ∧ ∀ fuel,
    call_alone (list_machine rep) (n + fuel) c pc q = call_alone (list_machine rep) fuel c pc' q'.

Lemma reaches_step k c pc q pc1 q1 pc' q' :
  mc_answer (list_machine rep) c pc = None → list_step rep false pc q = Ok (pc1, q1) →
  reaches k c pc1 q1 pc' q' → reaches (S k) c pc q pc' q'.
Proof.
  intros Ha Hs (n & Hn & E). exists (S n). split; [lia|]. intros fuel.
  cbn [Nat.add]. by rewrite (call_alone_step _ _ _ _ _ _ _ Ha Hs).
Qed.

Lemma reaches_refl k c pc q : reaches k c pc q pc q.
Proof. exists 0%nat. split; [lia|done]. Qed.

Lemma reaches_trans k1 k2 c pc1 q1 pc2 q2 pc3 q3 :
  reaches k1 c pc1 q1 pc2 q2 → reaches k2 c pc2 q2 pc3 q3 → reaches (k1 + k2) c pc1 q1 pc3 q3.
Proof.
  intros (n1 & H1 & E1) (n2 & H2 & E2). exists (n1 + n2)%nat. split; [lia|].
  intros fuel. by rewrite <- Nat.add_assoc, E1, E2.
Qed.

Lemma reaches_call k c pc q pc' q' a fuel :
  reaches k c pc q pc' q' → (k ≤ fuel)%nat → mc_answer (list_machine rep) c pc' = Some a →
  call_alone (list_machine rep) fuel c pc q = Ok (a, q').
Proof.
  intros (n & Hn & E) Hf Ha. replace fuel with (n + (fuel - n))%nat by lia.
  rewrite E. by apply call_alone_answer.
Qed.

(** One step of the call at the head of the goal. *)
Ltac ml_go := eapply reaches_step; [reflexivity|cbn [list_step]; try reflexivity|].

Lemma node_at_run a q n : ml_mem q !! a = Some n → node_at a q = Ok n.
Proof. unfold node_at. by intros ->. Qed.

Lemma list_ok_node q ns fs own a :
  list_ok q ns fs own → a ∈ all_nodes q ns fs own →
  ∃ n, ml_mem q !! a = Some n ∧ 0 < a < 2 ^ 48.
Proof.
  intros [_ _ _ Ho Hfr] Ha. destruct (owns_lookup _ _ _ _ Ho Ha) as [n Hn]. exists n.
  split; [done|]. pose proof (ow_range _ _ _ Ho) as Hr. rewrite Forall_forall in Hr.
  specialize (Hr a Ha). lia.
Qed.

(** [pool::alloc]: from the spare node, from the free list or with [new]. *)
Lemma alloc_run c x q ns fs :
  list_ok q ns fs [] → ml_fresh q < 2 ^ 48 →
  ∃ p q' fs', reaches 5 c (AllocEl x) q (LPushTail p) q' ∧ list_ok q' ns fs' [p] ∧
    ml_mem q' !! p = Some (MkNode (inl x) 0) ∧ ml_fresh q' ≤ ml_fresh q + 1 ∧
    ml_tail_ q' = ml_tail_ q ∧ ml_head_ q' = ml_head_ q.
Proof.
  intros Hok Hroom. pose proof Hok as [Hc Ht Hf Ho Hfr].
  destruct (Z.eqb_spec (ml_el_ q) 0) as [Hel|Hel].
  2: { destruct (list_ok_node q ns fs [] (ml_el_ q) Hok) as (n & Hn & Hr).
    { unfold all_nodes, el_list. rewrite (proj2 (Z.eqb_neq _ _) Hel).
      rewrite elem_of_cons, !elem_of_app, elem_of_cons. tauto. }
    set (q1 := set_ml_el_ 0 q). assert (Hp : ptr (ml_el_ q) = ml_el_ q) by (apply small_ptr; lia).
    assert (Hok1 : list_ok q1 ns fs [ml_el_ q]).
    { split; try done. cbn. unfold all_nodes, el_list in *. cbn.
      by rewrite (proj2 (Z.eqb_neq _ _) Hel), app_nil_r in Ho. }
    exists (ml_el_ q), (set_node (ml_el_ q) (MkNode (inl x) 0) q1), fs. split.
    { ml_go. rewrite Hp, (proj2 (Z.eqb_neq _ _) Hel). ml_go.
      - erewrite node_at_run by exact Hn. reflexivity.
      - apply reaches_refl. }
    split; [by apply list_ok_set_own|]. split; [apply lookup_insert_eq|]. cbn. auto with lia. }
  assert (Hq1 : set_ml_el_ 0 q = q) by (destruct q; cbn in *; by subst).
  assert (Help : ptr (ml_el_ q) = 0) by by rewrite Hel.
  destruct fs as [|f fs].
  - cbn in Hf. exists (ml_fresh q).
    set (q1 := set_ml_fresh (ml_fresh q + 1) (set_node (ml_fresh q) (MkNode (inl x) 0) q)).
    exists q1, []. split.
    { ml_go. rewrite Help, Hq1. cbn [Z.eqb]. ml_go. unfold alloc_cursor. rewrite Hf. cbn [Z.eqb].
      ml_go. apply reaches_refl. }
    assert (Hfresh : ml_fresh q ∉ all_nodes q ns [] []).
    { pose proof (ow_range _ _ _ Ho) as Hr. rewrite Forall_forall in Hr.
      intros Hin. specialize (Hr _ Hin). lia. }
    split; [|split; [apply lookup_insert_eq|cbn; auto with lia]].
    split; cbn; [|done|done| |lia].
    + apply chain_insert; [|done]. intros Hin. apply Hfresh. unfold all_nodes.
      apply elem_of_cons in Hin as [->|Hin]; [left|]. rewrite elem_of_cons, elem_of_app. auto.
    + pose proof (owns_new _ _ _ (MkNode (inl x) 0) (proj1 Hfr) Ho) as Ho'.
      assert (E : all_nodes q1 ns [] [ml_fresh q] ≡ₚ ml_fresh q :: all_nodes q ns [] []);
        [|by rewrite E]. unfold all_nodes, el_list. cbn. rewrite Hel. cbn. rewrite app_nil_r.
      rewrite <- Permutation_cons_append. apply Permutation_swap.
  - cbn in Hf. destruct Hf as (Hcur & n & w & Hn & Hw & Hf).
    destruct (list_ok_node q ns (f :: fs) [] f Hok) as (_ & _ & Hr).
    { unfold all_nodes. rewrite elem_of_cons, !elem_of_app, elem_of_cons. tauto. }
    set (q1 := set_ml_cursor_ (tagged_make 48 (ptr w) (tagged_add 48 (ml_cursor_ q))) q).
    assert (Hlast : 0 ≤ ptr w < 2 ^ 48).
    { unfold tagged_ptr, tagged_mask. replace (2 ^ 48 - 1) with (Z.ones 48) by reflexivity.
      rewrite Z.land_ones by lia. apply Z.mod_pos_bound. lia. }
    assert (Hok1 : list_ok q1 ns fs [f]).
    { split; try done; cbn; [by rewrite make_ptr|].
      assert (E : all_nodes q1 ns fs [f] ≡ₚ all_nodes q ns (f :: fs) []); [|by rewrite E].
      unfold all_nodes. change (el_list q1) with (el_list q). rewrite app_nil_r.
      cbn [app]. f_equiv. f_equiv. rewrite app_assoc. symmetry. apply Permutation_cons_append. }
    exists f, (set_node f (MkNode (inl x) 0) q1), fs. split.
    { ml_go. rewrite Help, Hq1. cbn [Z.eqb]. ml_go. unfold alloc_cursor.
      rewrite Hcur, (proj2 (Z.eqb_neq f 0)) by lia. ml_go.
      { rewrite Hcur. erewrite node_at_run by exact Hn. reflexivity. }
      unfold link_word. rewrite Hw. ml_go.
      { rewrite cas_same. reflexivity. }
      rewrite Hcur. ml_go.
      - erewrite node_at_run by exact Hn. reflexivity.
      - apply reaches_refl. }
    split; [by apply list_ok_set_own|]. split; [apply lookup_insert_eq|]. cbn. auto with lia.
Qed.

Lemma chain_last mem p ns :
  chain mem p ns → ∃ m, mem !! default p (last ns.*1) = Some m ∧ ptr (n_next m) = 0.
Proof.
  revert p. induction ns as [|[p' y] ns IH]; intros p Hc; cbn in *.
  - destruct Hc as (n & Hn & Hz). by exists n.
  - destruct Hc as (_ & _ & _ & _ & Hc). destruct (IH p' Hc) as (m & Hm & Hz). exists m.
    rewrite <- Hm. split; [|done]. f_equal. fold (ns.*1). rewrite last_cons.
    by destruct (last ns.*1).
Qed.

Lemma last_in_nodes q ns fs own :
  default (ptr (ml_head_ q)) (last ns.*1) ∈ ptr (ml_head_ q) :: ns.*1.
Proof. destruct (last ns.*1) eqn:E; cbn; [right; by apply last_Some_elem_of|left]. Qed.

Lemma push_run c x q ns fs :
  list_ok q ns fs [] → ml_fresh q < 2 ^ 48 →
  ∃ p q' fs', reaches 10 c (AllocEl x) q (LReturned true None) q' ∧
    list_ok q' (ns ++ [(p, x)]) fs' [] ∧ ml_fresh q' ≤ ml_fresh q + 1.
Proof.
  intros Hok Hroom.
  destruct (alloc_run c x q ns fs Hok Hroom) as (p & q1 & fs' & Halloc & Hok1 & Hp & Hfr1 & _ & _).
  pose proof Hok1 as [Hc Ht Hf Ho Hfr]. destruct (chain_last _ _ _ Hc) as (m & Hm & Hz).
  assert (Hpr : 0 < p < 2 ^ 48).
  { destruct (list_ok_node q1 ns fs' [p] p Hok1) as (_ & _ & Hr); [|done].
    unfold all_nodes. rewrite elem_of_cons, !elem_of_app, elem_of_cons. tauto. }
  set (a := default (ptr (ml_head_ q1)) (last ns.*1)) in *.
  set (q2 := set_node a (MkNode (n_first m) (tagged_make 48 p (tagged_add 48 (n_next m)))) q1).
  set (q3 := set_ml_tail_ (tagged_make 48 p (tagged_add 48 (ml_tail_ q1))) q2).
  exists p, q3, fs'. split; [|split; [|done]].
  { change 10%nat with (5 + 5)%nat. eapply reaches_trans; [exact Halloc|].
    ml_go. ml_go; [rewrite Ht; erewrite node_at_run by exact Hm; reflexivity|].
    ml_go. rewrite Z.eqb_refl, Hz. cbn [Z.eqb]. ml_go.
    { rewrite Ht. erewrite node_at_run by exact Hm. cbn [obind]. rewrite cas_same. reflexivity. }
    fold q2. ml_go; [|apply reaches_refl].
    change (ml_tail_ q2) with (ml_tail_ q1). rewrite cas_same. reflexivity. }
  pose proof (ow_nodup _ _ _ Ho) as Hnd. unfold all_nodes in Hnd.
  assert (Hnd1 : NoDup (ptr (ml_head_ q1) :: ns.*1)).
  { rewrite app_comm_cons in Hnd. by apply NoDup_app in Hnd as [? _]. }
  assert (Hdis : ∀ z, z ∈ ptr (ml_head_ q1) :: ns.*1 → z ∉ fs' ++ el_list q1 ++ [p]).
  { rewrite app_comm_cons in Hnd. by apply NoDup_app in Hnd as (_ & ? & _). }
  pose proof (last_in_nodes q1 ns fs' []) as Hlast. fold a in Hlast.
  split.
  - apply chain_snoc with (MkNode (inl x) 0); try done.
    + intros Hin. apply (Hdis p Hin). rewrite !elem_of_app, elem_of_cons. tauto.
    + apply make_ptr. lia.
  - rewrite fmap_app. change ([(p, x)].*1) with [p]. rewrite last_snoc.
    exact (make_ptr p (tagged_add 48 (ml_tail_ q1)) ltac:(lia)).
  - apply free_chain_insert; [|done]. intros Hin. apply (Hdis _ Hlast). apply elem_of_app. by left.
  - assert (E : all_nodes q3 (ns ++ [(p, x)]) fs' [] ≡ₚ all_nodes q1 ns fs' [p]).
    { unfold all_nodes. change (el_list q3) with (el_list q1).
      change (ml_head_ q3) with (ml_head_ q1). f_equiv.
      rewrite fmap_app, <- app_assoc, app_nil_r. f_equiv. cbn. rewrite app_assoc.
      apply Permutation_cons_append. }
    rewrite E. apply owns_set; [|done]. unfold all_nodes. rewrite app_comm_cons, elem_of_app. by left.
  - done.
Qed.

Lemma pop_empty_run c q fs :
  list_ok q [] fs [] → reaches 10 c LPopHead q (LReturned false None) q.
Proof.
  intros [(n & Hn & Hz) Ht _ _ _]. cbn in Ht. ml_go. ml_go.
  ml_go; [erewrite node_at_run by exact Hn; reflexivity|].
  ml_go. rewrite Hz, Ht, !Z.eqb_refl. apply reaches_refl.
Qed.

(** [pool::free]. *)
Lemma free_run c p x q ns fs :
  list_ok q ns fs [p] →
  ∃ q' fs', reaches 4 c (FreeEl p x) q (LReturned true (Some x)) q' ∧ list_ok q' ns fs' [] ∧
    ml_fresh q' = ml_fresh q.
Proof.
  intros Hok. pose proof Hok as [Hc Ht Hf Ho Hfr].
  destruct (list_ok_node q ns fs [p] p Hok) as (n & Hn & Hr).
  { unfold all_nodes. rewrite elem_of_cons, !elem_of_app, elem_of_cons. tauto. }
  set (q1 := set_ml_el_ p q).
  assert (Hel1 : el_list q1 = [p]).
  { unfold el_list. cbn. by rewrite (proj2 (Z.eqb_neq p 0)) by lia. }
  destruct (Z.eqb_spec (ml_el_ q) 0) as [Hel|Hel].
  - exists q1, fs. split; [ml_go; rewrite Hel; apply reaches_refl|]. split; [|done].
    split; try done. unfold all_nodes in *. rewrite Hel1, app_nil_r. unfold el_list in Ho.
    by rewrite Hel in Ho.
  - set (t := ml_el_ q) in *.
    assert (Hok1 : list_ok q1 ns fs [t]).
    { split; try done. assert (E : all_nodes q1 ns fs [t] ≡ₚ all_nodes q ns fs [p]); [|by rewrite E].
      unfold all_nodes. rewrite Hel1. unfold el_list. fold t. rewrite (proj2 (Z.eqb_neq _ _) Hel).
      cbn. f_equiv. f_equiv. f_equiv. apply Permutation_swap. }
    destruct (list_ok_node q1 ns fs [t] t Hok1) as (m & Hm & Hrt).
    { unfold all_nodes. rewrite elem_of_cons, !elem_of_app, elem_of_cons. tauto. }
    set (word := tagged_make 48 (ptr (ml_cursor_ q)) (tagged_add 48 (link_word rep m))).
    set (q2 := set_node t (MkNode (inr word) (n_next m)) q1).
    set (q3 := set_ml_cursor_ (tagged_make 48 t (tagged_add 48 (ml_cursor_ q))) q2).
    exists q3, (t :: fs). split; [|split; [|done]].
    { ml_go. fold t. rewrite (proj2 (Z.eqb_neq _ _) Hel). ml_go. ml_go.
      { erewrite node_at_run by exact Hm. cbn [obind]. rewrite store_run. reflexivity. }
      ml_go; [|apply reaches_refl]. cbn [ml_cursor_ set_node q1 set_ml_el_]. rewrite cas_same.
      reflexivity. }
    pose proof (list_ok_set_own q1 ns fs t (MkNode (inr word) (n_next m)) [] Hok1) as [Hc2 Ht2 Hf2 Ho2 Hfr2].
    split; try done.
    + cbn. rewrite make_ptr by lia. split; [done|].
      exists (MkNode (inr word) (n_next m)), word. rewrite lookup_insert_eq.
      split; [done|]. split; [done|]. cbn in Hf2.
      unfold word at 2. rewrite make_ptr; [done|].
      unfold tagged_ptr, tagged_mask. replace (2 ^ 48 - 1) with (Z.ones 48) by reflexivity.
      rewrite Z.land_ones by lia. apply Z.mod_pos_bound. lia.
    + assert (E : all_nodes q3 ns (t :: fs) [] ≡ₚ all_nodes q2 ns fs [t]); [|by rewrite E].
      unfold all_nodes. change (el_list q3) with (el_list q1). change (el_list q2) with (el_list q1).
      cbn. rewrite app_nil_r. f_equiv. f_equiv. rewrite app_assoc. apply Permutation_cons_append.
Qed.

Lemma pop_run c p x q ns fs :
  list_ok q ((p, x) :: ns) fs [] →
  ∃ q' fs', reaches 10 c LPopHead q (LReturned true (Some x)) q' ∧ list_ok q' ns fs' [] ∧
    ml_fresh q' = ml_fresh q.
Proof.
  intros Hok. pose proof Hok as [Hc Ht Hf Ho Hfr].
  cbn in Hc. destruct Hc as (n & Hn & Hnext & (n' & Hn' & Hx) & Hc).
  destruct (list_ok_node q ((p, x) :: ns) fs [] p Hok) as (_ & _ & Hr).
  { unfold all_nodes. cbn. right. left. }
  set (h := ptr (ml_head_ q)) in *.
  set (q1 := set_ml_head_ (tagged_make 48 p (tagged_add 48 (ml_head_ q))) q).
  assert (Hlast : default h (last ((p, x) :: ns).*1) = default p (last ns.*1)).
  { cbn [fmap list_fmap fst]. rewrite last_cons. by destruct (last ns.*1). }
  rewrite Hlast in Ht.
  assert (Hne : h ≠ ptr (ml_tail_ q)).
  { pose proof (ow_nodup _ _ _ Ho) as Hnd. unfold all_nodes in Hnd. cbn in Hnd.
    apply NoDup_cons in Hnd as [Hh _]. intros E. apply Hh. fold h. rewrite E, Ht.
    destruct (last ns.*1) eqn:El; cbn; [|left]. right. apply elem_of_app. left.
    by apply last_Some_elem_of. }
  assert (Hok1 : list_ok q1 ns fs [h]).
  { split; cbn; rewrite ?make_ptr by lia; try done.
    assert (E : all_nodes q1 ns fs [h] ≡ₚ all_nodes q ((p, x) :: ns) fs []); [|by rewrite E].
    unfold all_nodes. change (el_list q1) with (el_list q). rewrite (app_nil_r (el_list q)).
    cbn [ml_head_ q1 set_ml_head_ fmap list_fmap fst app]. rewrite make_ptr by lia. fold h.
    rewrite !app_assoc, <- (Permutation_cons_append _ h). apply Permutation_swap. }
  destruct (free_run c h x q1 ns fs Hok1) as (q2 & fs' & Hfree & Hok2 & Hfr2).
  exists q2, fs'. split; [|by rewrite Hfr2].
  change 10%nat with (6 + 4)%nat. eapply reaches_trans; [|exact Hfree].
  ml_go. ml_go. ml_go; [erewrite node_at_run by exact Hn; reflexivity|].
  ml_go. fold h. rewrite Z.eqb_refl, (proj2 (Z.eqb_neq _ _) Hne), Hnext.
  ml_go; [erewrite node_at_run by exact Hn'; cbn [obind]; rewrite Hx; reflexivity|].
  ml_go; [rewrite cas_same; reflexivity|]. apply reaches_refl.
Qed.
Lemma empty_run c q ns fs :
  list_ok q ns fs [] →
  reaches 10 c EmptyHead q (LReturned (bool_decide (ns = [])) None) q.
Proof.
  intros Hok. pose proof Hok as [Hc _ _ _ _]. ml_go.
  assert (Hb : ∃ n, ml_mem q !! ptr (ml_head_ q) = Some n ∧
                    (ptr (n_next n) =? 0) = bool_decide (ns = [])).
  { destruct ns as [|[p x] ns]; cbn in Hc.
    - destruct Hc as (n & Hn & Hz). exists n. by rewrite Hz.
    - destruct Hc as (n & Hn & Hp & _). exists n. split; [done|]. rewrite Hp.
      destruct (list_ok_node q ((p, x) :: ns) fs [] p Hok) as (_ & _ & Hr).
      { unfold all_nodes. cbn. right. left. }
      rewrite bool_decide_false by done. apply Z.eqb_neq. lia. }
  destruct Hb as (n & Hn & <-).
  ml_go; [erewrite node_at_run by exact Hn; reflexivity|]. apply reaches_refl.
Qed.

Lemma new_ok (blank : T) : list_ok (mpmc_list_new blank) [] [] [].
Proof.
  split; try done.
  - exists (MkNode (inl blank) 0). split; reflexivity.
  - change (all_nodes (mpmc_list_new blank) [] [] []) with [1].
    split; [apply NoDup_singleton|by apply Forall_singleton|]. intros p.
    rewrite list_elem_of_singleton. cbn. rewrite lookup_singleton_is_Some. done.
Qed.
End Alone.

(** ** A single thread *)

(** The reference: a list without a bound. *)
Definition list_queue (T : Type) : BoundedQueue T (list T) :=
  {| bq_push x l := (true, l ++ [x]);
     bq_pop l := (head l, tail l);
     bq_empty l := bool_decide (length l = 0)%nat |}.

(** No call takes more steps than this when nothing interferes. *)
Definition list_fuel : nat := 10.

Section Sequential.
Context {T : Type} (blank : T) (rep : T → Z).
Implicit Types (q : mpmc_list T) (cs : list (queue_call T)).
#[local] Instance list_reference : BoundedQueue T (list T) := list_queue T.

Lemma call_alone_ok c q ns fs :
  list_ok q ns fs [] → ml_fresh q < 2 ^ 48 →
  ∃ q' ns' fs',
    call_alone (list_machine rep) list_fuel c (mc_start (list_machine rep) c) q =
      Ok ((run_call c ns.*2).1, q') ∧
    list_ok q' ns' fs' [] ∧ ns'.*2 = (run_call c ns.*2).2 ∧ ml_fresh q' ≤ ml_fresh q + 1.
Proof.
  intros Hok Hroom. destruct c as [x| |]; cbn [run_call mc_start list_machine].
  - destruct (push_run rep (CallPush x) x q ns fs Hok Hroom) as (p & q' & fs' & Hr & Hok' & Hfr).
    exists q', (ns ++ [(p, x)]), fs'. split; [by eapply reaches_call|]. split; [done|].
    by rewrite fmap_app.
  - destruct ns as [|[p x] ns].
    + exists q, [], fs. split; [|split; [done|split; [done|lia]]].
      eapply reaches_call; [by eapply pop_empty_run|done|done].
    + destruct (pop_run rep CallPop p x q ns fs Hok) as (q' & fs' & Hr & Hok' & Hfr).
      exists q', ns, fs'. split; [by eapply reaches_call|]. split; [done|]. split; [done|lia].
  - exists q, ns, fs. split; [|split; [done|split; [done|lia]]].
    assert (E : bool_decide (ns = []) = bq_empty (ns.*2)).
    { cbn. apply bool_decide_ext. rewrite length_fmap. by destruct ns. }
    eapply reaches_call; [by eapply empty_run|done|]. cbn. by rewrite E.
Qed.

Lemma calls_alone_ok cs q ns fs :
  list_ok q ns fs [] → ml_fresh q + Z.of_nat (length cs) ≤ 2 ^ 48 →
  ∃ q' ns' fs',
    calls_alone (list_machine rep) list_fuel cs q = Ok ((run_calls cs ns.*2).1, q') ∧
    list_ok q' ns' fs' [] ∧ ns'.*2 = (run_calls cs ns.*2).2.
Proof.
  revert q ns fs. induction cs as [|c cs IH]; intros q ns fs Hok Hroom; cbn [length] in Hroom.
  - exists q, ns, fs. done.
  - destruct (call_alone_ok c q ns fs Hok ltac:(lia)) as (q1 & ns1 & fs1 & E1 & Hok1 & Hc1 & Hf1).
    destruct (IH q1 ns1 fs1 Hok1 ltac:(lia)) as (q2 & ns2 & fs2 & E2 & Hok2 & Hc2).
    exists q2, ns2, fs2. cbn [calls_alone run_calls]. rewrite E1. cbn [obind]. rewrite E2.
    cbn [obind]. rewrite Hc1 in Hc2 |- *. destruct (run_call c ns.*2) as [ans l]. cbn in *.
    by destruct (run_calls cs l).
Qed.

(** C25. Used by one thread at a time, the list is an unbounded FIFO: any sequence
    of [push], [pop] and [empty] on a new list — as long as addresses fit 48
    bits — runs without a fault, each call within ten steps, and gets the
    answers of a list, however the pool recycles its nodes. *)
Theorem mpmc_list_refines_fifo cs (Hroom : Z.of_nat (length cs) ≤ 2 ^ 48 - 2) :
  ∃ q, calls_alone (list_machine rep) list_fuel cs (mpmc_list_new blank) =
         Ok ((run_calls cs ([] : list T)).1, q).
Proof.
  destruct (calls_alone_ok cs (mpmc_list_new blank) [] [] (new_ok blank)) as (q & ns & fs & E & _);
    [cbn; lia|]. by exists q.
Qed.

(** *** Destruction *)

Lemma pool_destroy_run fuel c (mem : gmap Z (lnode T)) fs :
  free_chain mem c fs → NoDup fs → Forall (λ p, 0 < p) fs → (length fs ≤ fuel)%nat →
  ∃ mem', pool_destroy rep fuel c mem = Ok mem' ∧
    ∀ p, mem' !! p = if bool_decide (p ∈ fs) then None else mem !! p.
Proof.
  revert fuel c mem. induction fs as [|f fs IH]; intros fuel c mem Hc Hnd Hpos Hfuel.
  - cbn in Hc. subst c. exists mem. by destruct fuel.
  - cbn in Hc. destruct Hc as (-> & n & w & Hn & Hw & Hc). apply NoDup_cons in Hnd as [Hf Hnd].
    apply Forall_cons in Hpos as [H0 Hpos]. destruct fuel as [|fuel]; [cbn in Hfuel; lia|].
    cbn [pool_destroy]. rewrite (proj2 (Z.eqb_neq f 0)) by lia. rewrite Hn. cbn [of_option obind].
    unfold link_word. rewrite Hw.
    destruct (IH fuel (tagged_ptr 48 w) (delete f mem)) as (mem' & E & Hl); try done.
    { clear -Hc Hf. revert Hc. generalize (tagged_ptr 48 w). induction fs as [|g fs IH]; intros c; cbn; [done|].
      intros (-> & n' & w' & Hn' & Hw' & Hc). apply not_elem_of_cons in Hf as [Hg Hf].
      split; [done|]. exists n', w'. rewrite lookup_delete_ne by done. auto. }
    { cbn in Hfuel. lia. }
    exists mem'. split; [done|]. intros p. rewrite Hl.
    rewrite (bool_decide_ext (p ∈ f :: fs) (p = f ∨ p ∈ fs)) by apply elem_of_cons.
    destruct (decide (p = f)) as [->|Hne].
    + rewrite lookup_delete_eq, (bool_decide_true (_ ∨ _)) by auto. by case_bool_decide.
    + rewrite lookup_delete_ne by done. by repeat case_bool_decide; naive_solver.
Qed.

Lemma owns_size (mem : gmap Z (lnode T)) fresh l : owns mem fresh l → size mem = length l.
Proof.
  intros [Hnd _ Hd]. rewrite <- size_dom, <- (size_list_to_set (C := gset Z) l) by done.
  f_equal. apply set_eq. intros p. by rewrite elem_of_dom, elem_of_list_to_set.
Qed.

(** Destroying a list leaks: only the nodes on the pool's free list are
    deleted; the dummy node, one node per element still queued, and the spare
    node if there is one stay allocated for ever. *)
Theorem mpmc_list_leaks cs (Hroom : Z.of_nat (length cs) ≤ 2 ^ 48 - 2) :
  ∃ q mem, calls_alone (list_machine rep) list_fuel cs (mpmc_list_new blank) =
             Ok ((run_calls cs ([] : list T)).1, q) ∧
    mpmc_list_destroy rep q = Ok mem ∧
    size mem = (1 + length (run_calls cs ([] : list T)).2 +
                (if (ml_el_ q =? 0)%Z then 0 else 1))%nat.
Proof.
  destruct (calls_alone_ok cs (mpmc_list_new blank) [] [] (new_ok blank))
    as (q & ns & fs & E & [_ _ Hf Ho _] & Hc); [cbn; lia|].
  pose proof Ho as [Hnd Hr _]. unfold all_nodes in Hnd, Hr. rewrite app_nil_r in Hnd, Hr.
  rewrite app_comm_cons in Hnd, Hr. apply NoDup_app in Hnd as (_ & Hdis & Hnd).
  apply NoDup_app in Hnd as (Hnd & Hdis2 & _). apply Forall_app in Hr as [_ Hr].
  apply Forall_app in Hr as [Hr _].
  destruct (pool_destroy_run (size (ml_mem q)) _ _ _ Hf Hnd) as (mem & Ed & Hmem).
  { eapply Forall_impl; [exact Hr|]. cbn. lia. }
  { rewrite (owns_size _ _ _ Ho). unfold all_nodes. rewrite length_cons, !length_app. lia. }
  exists q, mem. split; [exact E|]. split; [exact Ed|].
  change (([] : list (Z * T)).*2) with ([] : list T) in Hc. rewrite <- Hc, length_fmap.
  rewrite (owns_size mem (ml_fresh q) (tagged_ptr 48 (ml_head_ q) :: ns.*1 ++ el_list q)).
  - cbn. rewrite length_app, length_fmap. unfold el_list. by destruct (ml_el_ q =? 0).
  - pose proof Ho as [Hnd' Hr' Hd]. unfold all_nodes in *. rewrite app_nil_r in *.
    assert (Hp : tagged_ptr 48 (ml_head_ q) :: ns.*1 ++ fs ++ el_list q ≡ₚ
                 fs ++ tagged_ptr 48 (ml_head_ q) :: ns.*1 ++ el_list q).
    { rewrite <- Permutation_middle. f_equiv. rewrite !app_assoc. f_equiv. apply Permutation_app_comm. }
    rewrite Hp in Hnd', Hr'. apply NoDup_app in Hnd' as (_ & Hd' & Hnd').
    apply Forall_app in Hr' as [_ Hr']. split; [done|done|]. intros p. rewrite Hmem.
    specialize (Hd p). rewrite Hp, elem_of_app in Hd. case_bool_decide as Hin.
    + split; [by intros []|]. intros Hin'. by destruct (Hd' p Hin).
    + rewrite Hd. naive_solver.
Qed.
End Sequential.

(** ** Interleavings *)

(** A list of numbers; a number's bytes are the number. *)
Definition int_machine := list_machine (λ v : Z, v).
Definition steps (thread n : nat) : list (nat * bool) := replicate n (thread, false).

(** Thread 0 is preempted in [push(1)] before its compare-exchange on
    [tail->next_].  Thread 1 pushes 2, pops it and begins [push(3)], for which
    the pool gives it the node it has just freed; before it links the node,
    thread 0 goes on and returns. *)
Definition late_push : list (nat * bool) :=
  steps 0 7 ++ steps 1 9 ++ steps 1 8 ++ steps 1 3 ++ steps 0 2.
Definition late_pop : list (nat * bool) := steps 2 5.

(** [pop] may answer that the queue is empty after a [push] has returned: the
    pool reuses a node with a fresh [next_] word, tag included, so a [push]
    that was preempted before its compare-exchange links its node behind a
    node that another thread has allocated and not linked yet. *)
Theorem list_pop_misses_pushed :
  ∃ s1 s2, run_schedule int_machine late_push
      (start (mpmc_list_new 0) [[CallPush 1]; [CallPush 2; CallPop; CallPush 3]; [CallPop]]) = Ok s1 ∧
    answers s1 0 = [AnsBool true] ∧ answers s1 1 = [AnsBool true; AnsPop (Some 2)] ∧
    answers s1 2 = [] ∧
    run_schedule int_machine late_pop s1 = Ok s2 ∧ answers s2 2 = [AnsPop None].
Proof.
  assert (E : (λ s, (answers s 0, answers s 1, answers s 2,
                     (λ s', answers s' 2) <$> run_schedule int_machine late_pop s)) <$>
    run_schedule int_machine late_push
      (start (mpmc_list_new 0) [[CallPush 1]; [CallPush 2; CallPop; CallPush 3]; [CallPop]]) =
    Ok ([AnsBool true], [AnsBool true; AnsPop (Some 2)], [], Ok [AnsPop None]))
    by (vm_compute; reflexivity).
  destruct (run_schedule _ late_push _) as [s1|f]; [|discriminate E].
  cbv beta iota delta [fmap outcome_fmap] in E.
  destruct (run_schedule int_machine late_pop s1) as [s2|f] eqn:Es; [|discriminate E].
  injection E as E0 E1 E2 E3. by exists s1, s2.
Qed.

(** Thread 1 pushes three elements; thread 0 is preempted in [pop] before it
    copies the value out of the first node; thread 1 pops all three, so that
    node goes back to the pool. *)
Definition recycled_pop : list (nat * bool) :=
  steps 1 27 ++ steps 0 5 ++ steps 1 8 ++ steps 1 11 ++ steps 1 10 ++ steps 0 1.

(** [pop] copies a value out of a node that may have been recycled in the
    meantime: by then the pool's link overlays the value.  The
    compare-exchange that follows would discard the copy, but making it is
    undefined for any [T] that is not plain bytes. *)
Theorem list_pop_reads_recycled :
  run_schedule int_machine recycled_pop
    (start (mpmc_list_new 0)
       [[CallPop]; [CallPush 1; CallPush 2; CallPush 3; CallPop; CallPop; CallPop]]) =
  Fault InactiveMember.
Proof. vm_compute. reflexivity. Qed.

(** ** Witnesses *)

Lemma mpmc_list_refines_fifo_witness :
  fst <$> calls_alone int_machine list_fuel
    [CallPush 3; CallPush 4; CallPop; CallPush 5; CallPop; CallPop; CallPop; CallEmpty] (mpmc_list_new 0) =
  Ok [AnsBool true; AnsBool true; AnsPop (Some 3); AnsBool true; AnsPop (Some 4); AnsPop (Some 5);
      AnsPop None; AnsBool true].
Proof.
  destruct (mpmc_list_refines_fifo 0 (λ v : Z, v)
    [CallPush 3; CallPush 4; CallPop; CallPush 5; CallPop; CallPop; CallPop; CallEmpty]
    ltac:(cbn; lia)) as (q & E).
  unfold int_machine. rewrite E. reflexivity.
Defined.

(** Two elements pushed, one popped: three of the three nodes are leaked. *)
Lemma mpmc_list_leaks_witness :
  ∃ q mem, mpmc_list_destroy (λ v : Z, v) q = Ok mem ∧ size mem = 3%nat ∧
    calls_alone int_machine list_fuel [CallPush 3; CallPush 4; CallPop] (mpmc_list_new 0) =
      Ok ([AnsBool true; AnsBool true; AnsPop (Some 3)], q).
Proof.
  destruct (mpmc_list_leaks 0 (λ v : Z, v) [CallPush 3; CallPush 4; CallPop] ltac:(cbn; lia))
    as (q & mem & E & Ed & Hs).
  exists q, mem. split; [exact Ed|]. split; [|exact E].
  assert (Eel : (λ r, ml_el_ r.2) <$> calls_alone (list_machine (λ v : Z, v)) list_fuel
    [CallPush 3; CallPush 4; CallPop] (mpmc_list_new 0) = Ok 1) by (vm_compute; reflexivity).
  rewrite E in Eel. cbn in Eel. injection Eel as Eel. rewrite Eel in Hs. exact Hs.
Defined.
