(* ===== verification/MpmcListSpsc.v ===== *)
(** * MpmcListSpsc: the linked queue with one producer and one consumer

    MpmcList.v shows what the linked queue does for a single thread, and a
    schedule of three threads under which it misses a value.  With one thread
    that pushes and one that pops it is a queue under every schedule: the
    producer alone links nodes, takes them from the pool and moves [tail_]
    past its own, the consumer alone moves [head_] and gives nodes back, and
    no step depends on the tags being large enough. *)

From S2P Require Import Prelude ThreadSafeQueue Threads TaggedPointer MpmcList.

Section Invariant.
Context {T : Type} (rep : T → Z).
Implicit Types (q : mpmc_list T) (ns : list (Z * T)) (fs own : list Z) (pc pcP pcC : lpc T).
Notation ptr := (tagged_ptr 48).

(** As [list_ok], whatever [tail_] is. *)
Record shape q ns fs own : Prop := {
  sh_chain : chain (ml_mem q) (ptr (ml_head_ q)) ns;
  sh_free : free_chain (ml_mem q) (ptr (ml_cursor_ q)) fs;
  sh_owns : owns (ml_mem q) (ml_fresh q) (all_nodes q ns fs own);
  sh_fresh : 0 < ml_fresh q ≤ 2 ^ 48
}.

(** The last node. *)
Definition end_of q ns : Z := default (ptr (ml_head_ q)) (last ns.*1).

(** The node a call of [push] holds before it is linked, and the node a call of
    [pop] holds until it is in the pool. *)
Definition own_push pc : list Z :=
  match pc with
  | AllocConstruct _ p | LPushTail p | LPushNext p _ | LPushCheck p _ _ | LPushLink p _ _
  | LPushHelp p _ _ => [p]
  | _ => []
  end.
Definition own_pop pc : list Z :=
  match pc with
  | FreeEl p _ | FreeCursor p _ | FreeStore p _ _ | FreeTake p _ _ => [p]
  | _ => []
  end.

(** A node that holds [v] and has no successor. *)
Definition built q v (p : Z) : Prop :=
  ∃ n, ml_mem q !! p = Some n ∧ n_first n = inl v ∧ ptr (n_next n) = 0.

(** What the producer knows in a call of [push(v)]; the returned call stands
    for a producer between two calls. *)
Definition push_ok q fs (v : T) pc : Prop :=
  match pc with
  | AllocEl x | AllocCursor x | AllocConstruct x _ | AllocNew x => x = v
  | AllocNext x curr => x = v ∧ ptr curr ∈ fs
  | AllocTake x curr next => x = v ∧ ptr curr ∈ fs ∧
      ∃ n w, ml_mem q !! ptr curr = Some n ∧ n_first n = inr w ∧ ptr w = next
  | LPushTail p => built q v p
  | LPushNext p tail => built q v p ∧ tail = ml_tail_ q
  | LPushCheck p tail next | LPushLink p tail next =>
      built q v p ∧ tail = ml_tail_ q ∧ ∃ m, ml_mem q !! ptr tail = Some m ∧ n_next m = next
  | LPushSwing _ _ | LReturned _ _ => True
  | _ => False
  end.

(** [tail_] is the last node, except between linking a node and moving
    [tail_] to it, when it may be one behind. *)
Definition tail_ok q ns pc : Prop :=
  match pc with
  | LPushSwing p tail => p = end_of q ns ∧ ptr tail ≠ p ∧
      (ptr (ml_tail_ q) = p ∨
       ml_tail_ q = tail ∧ ∃ ns' x, ns = ns' ++ [(p, x)] ∧ ptr tail = end_of q ns')
  | _ => ptr (ml_tail_ q) = end_of q ns
  end.

(** The first node has a successor and [tail_] is not at the first node. *)
Definition poppable q ns (next : Z) (val : option T) : Prop :=
  ptr (ml_tail_ q) ≠ ptr (ml_head_ q) ∧
  ∃ x ns', ns = (next, x) :: ns' ∧ match val with Some v => x = v | None => True end.

(** What the consumer knows in a call of [pop] or [empty]. *)
Definition pop_ok q ns pc : Prop :=
  match pc with
  | LPopHead | EmptyHead | LReturned _ _ => True
  | FreeEl p _ | FreeCursor p _ | FreeStore p _ _ => True
  | FreeTake p curr _ => ∃ n w, ml_mem q !! p = Some n ∧ n_first n = inr w ∧ ptr w = ptr curr
  | LPopTail head | EmptyNext head => head = ml_head_ q
  | LPopNext head tail => head = ml_head_ q ∧
      (ptr head = ptr tail ∨ ∃ next, poppable q ns next None)
  | LPopCheck head tail next => head = ml_head_ q ∧
      if ptr head =? ptr tail then next = 0 ∨ ∃ x ns', ns = (next, x) :: ns'
      else poppable q ns next None
  | LPopHelp tail next => ptr tail = ptr (ml_head_ q) ∧ ∃ x ns', ns = (next, x) :: ns'
  | LPopRead head next => head = ml_head_ q ∧ poppable q ns next None
  | LPopTake head next val => head = ml_head_ q ∧ poppable q ns next (Some val)
  | _ => False
  end.

Record core q ns fs (v : T) pcP pcC : Prop := {
  co_shape : shape q ns fs (own_push pcP ++ own_pop pcC);
  co_tail : tail_ok q ns pcP;
  co_push : push_ok q fs v pcP;
  co_pop : pop_ok q ns pcC
}.

(** The value a push has not linked yet, and the value a pop has taken. *)
Definition pending (v : T) pc : list T :=
  match pc with LPushSwing _ _ | LReturned _ _ => [] | _ => [v] end.
Definition in_hand pc : list T :=
  match pc with
  | FreeEl _ x | FreeCursor _ x | FreeStore _ _ x | FreeTake _ _ x | LReturned _ (Some x) => [x]
  | _ => []
  end.
(** Whether a push may still have to ask for a new node. *)
Definition need_new pc : Z :=
  match pc with
  | AllocEl _ | AllocCursor _ | AllocNext _ _ | AllocTake _ _ _ | AllocNew _ => 1
  | _ => 0
  end.

(** *** Shapes *)

#[global] Instance shape_perm q ns fs : Proper ((≡ₚ) ==> iff) (shape q ns fs).
Proof.
  intros l l' Hp. assert (E : all_nodes q ns fs l ≡ₚ all_nodes q ns fs l')
    by (unfold all_nodes; by rewrite Hp).
  split; intros [H1 H2 H3 H4]; split; try done; [by rewrite <- E|by rewrite E].
Qed.

Lemma ptr_range z : 0 ≤ ptr z < 2 ^ 48.
Proof.
  unfold tagged_ptr, tagged_mask. replace (2 ^ 48 - 1) with (Z.ones 48) by reflexivity.
  rewrite Z.land_ones by lia. apply Z.mod_pos_bound. lia.
Qed.

Lemma shape_node q ns fs own p :
  shape q ns fs own → p ∈ all_nodes q ns fs own →
  ∃ n, ml_mem q !! p = Some n ∧ 0 < p < 2 ^ 48.
Proof.
  intros [_ _ Ho Hfr] Hp. destruct (owns_lookup _ _ _ _ Ho Hp) as [n Hn]. exists n. split; [done|].
  pose proof (ow_range _ _ _ Ho) as Hr. rewrite Forall_forall in Hr. specialize (Hr p Hp). lia.
Qed.

Lemma in_chain q ns fs own p : p ∈ ptr (ml_head_ q) :: ns.*1 → p ∈ all_nodes q ns fs own.
Proof. unfold all_nodes. rewrite !elem_of_cons, !elem_of_app. tauto. Qed.
Lemma in_pool q ns fs own p : p ∈ fs → p ∈ all_nodes q ns fs own.
Proof. unfold all_nodes. rewrite !elem_of_cons, !elem_of_app. tauto. Qed.
Lemma in_own q ns fs own p : p ∈ own → p ∈ all_nodes q ns fs own.
Proof. unfold all_nodes. rewrite !elem_of_cons, !elem_of_app. tauto. Qed.
Lemma in_el q ns fs own : ml_el_ q ≠ 0 → ml_el_ q ∈ all_nodes q ns fs own.
Proof.
  intros He. unfold all_nodes, el_list. rewrite (proj2 (Z.eqb_neq _ _) He).
  rewrite !elem_of_cons, !elem_of_app, elem_of_cons. tauto.
Qed.

Lemma end_in_chain q ns : end_of q ns ∈ ptr (ml_head_ q) :: ns.*1.
Proof. unfold end_of. destruct (last ns.*1) eqn:E; cbn; [right; by apply last_Some_elem_of|left]. Qed.

(** Nodes of different roles are different. *)
Lemma shape_disjoint q ns fs own :
  shape q ns fs own →
  NoDup (ptr (ml_head_ q) :: ns.*1) ∧
  (∀ p, p ∈ ptr (ml_head_ q) :: ns.*1 → p ∉ fs ∧ p ∉ own) ∧
  (∀ p, p ∈ fs → p ∉ own) ∧ NoDup fs ∧ NoDup own.
Proof.
  intros [_ _ Ho _]. pose proof (ow_nodup _ _ _ Ho) as Hnd. unfold all_nodes in Hnd.
  rewrite app_comm_cons, NoDup_app in Hnd. destruct Hnd as (H1 & H2 & H3).
  rewrite NoDup_app in H3. destruct H3 as (H4 & H5 & H6).
  rewrite NoDup_app in H6. destruct H6 as (_ & _ & H8).
  split; [done|]. split; [|split; [|done]].
  - intros p Hp. specialize (H2 p Hp). rewrite !elem_of_app in H2. tauto.
  - intros p Hp. specialize (H5 p Hp). rewrite elem_of_app in H5. tauto.
Qed.

(** Steps on the words only. *)
Lemma shape_words q q' ns ns' fs fs' own own' :
  shape q ns fs own → ml_mem q' = ml_mem q → ml_fresh q' = ml_fresh q →
  chain (ml_mem q) (ptr (ml_head_ q')) ns' → free_chain (ml_mem q) (ptr (ml_cursor_ q')) fs' →
  all_nodes q' ns' fs' own' ≡ₚ all_nodes q ns fs own → shape q' ns' fs' own'.
Proof. intros [H1 H2 H3 H4] Em Ef Hc Hf Hp. by split; rewrite ?Em, ?Ef, ?Hp. Qed.

Lemma shape_set_tail q ns fs own w : shape q ns fs own → shape (set_ml_tail_ w q) ns fs own.
Proof. intros [H1 H2 H3 H4]. by split. Qed.

(** Writing a node that a call holds. *)
Lemma shape_set_own q ns fs a n own :
  shape q ns fs own → a ∈ own → shape (set_node a n q) ns fs own.
Proof.
  intros Hs Ha. pose proof Hs as [H1 H2 H3 H4].
  destruct (shape_disjoint _ _ _ _ Hs) as (_ & Hc & Hf & _ & _). split; cbn.
  - apply chain_insert; [|done]. intros Hin. by destruct (Hc a Hin).
  - apply free_chain_insert; [|done]. intros Hin. by apply (Hf a Hin).
  - apply owns_set; [|done]. by apply in_own.
  - done.
Qed.

Lemma shape_new q ns fs n own :
  shape q ns fs own → ml_fresh q < 2 ^ 48 →
  shape (set_ml_fresh (ml_fresh q + 1) (set_node (ml_fresh q) n q)) ns fs (ml_fresh q :: own).
Proof.
  intros Hs Hroom. pose proof Hs as [H1 H2 H3 H4].
  assert (Hfresh : ml_fresh q ∉ all_nodes q ns fs own).
  { intros Hin. pose proof (ow_range _ _ _ H3) as Hr. rewrite Forall_forall in Hr.
    specialize (Hr _ Hin). lia. }
  split; cbn; [| | |lia].
  - apply chain_insert; [|done]. intros Hin. by apply Hfresh, in_chain.
  - apply free_chain_insert; [|done]. intros Hin. by apply Hfresh, in_pool.
  - pose proof (owns_new _ _ _ n (proj1 H4) H3) as Ho.
    match goal with |- owns _ _ ?l => assert (E : l ≡ₚ ml_fresh q :: all_nodes q ns fs own) end;
      [|by rewrite E].
    unfold all_nodes, el_list. cbn [ml_head_ ml_el_ set_ml_fresh set_node]. solve_Permutation.
Qed.

(** *** What one thread's steps are to the other *)

Lemma pop_frame q ns q' l pc :
  pop_ok q ns pc → ml_head_ q' = ml_head_ q →
  (∀ p, p ∈ own_pop pc → ml_mem q' !! p = ml_mem q !! p) →
  (ptr (ml_tail_ q) ≠ ptr (ml_head_ q) → ptr (ml_tail_ q') ≠ ptr (ml_head_ q)) →
  pop_ok q' (ns ++ l) pc.
Proof.
  intros Hok Hh Hm Ht.
  assert (Hpop : ∀ next val, poppable q ns next val → poppable q' (ns ++ l) next val).
  { intros next val (H1 & x & ns' & -> & Hx). split; [rewrite Hh; auto|]. by exists x, (ns' ++ l). }
  destruct pc; cbn [pop_ok own_pop] in *; rewrite ?Hh; try done.
  - destruct Hok as [-> [?|[next Hn]]]; split; eauto.
  - destruct Hok as [-> Hok]. split; [done|]. destruct (_ =? _); [|by apply Hpop].
    destruct Hok as [->|(x & ns' & ->)]; [by left|right; by eexists x, _].
  - destruct Hok as [? (x & ns' & ->)]. split; [done|]. by exists x, (ns' ++ l).
  - destruct Hok. eauto.
  - destruct Hok. eauto.
  - destruct Hok as (n & w & Hn & Hw). exists n, w. by rewrite Hm by left.
Qed.

Lemma push_frame q fs v q' fs' pc :
  push_ok q fs v pc → (∀ p x, pc ≠ LPushSwing p x → ml_tail_ q' = ml_tail_ q) → fs ⊆ fs' →
  (∀ p, p ∈ ptr (ml_tail_ q) :: fs ++ own_push pc → ml_mem q' !! p = ml_mem q !! p) →
  push_ok q' fs' v pc.
Proof.
  intros Hok Ht Hfs Hm.
  assert (Hb : ∀ p, p ∈ own_push pc → built q v p → built q' v p).
  { intros p Hp (n & Hn & ?). exists n. rewrite Hm; [done|]. set_solver. }
  destruct pc; cbn [push_ok own_push] in *; try done.
  - destruct Hok as [-> ?]. auto.
  - destruct Hok as (-> & Hin & n & w & Hn & Hw). split; [done|]. split; [auto|].
    exists n, w. rewrite Hm; [done|]. set_solver.
  - apply Hb; [left|done].
  - rewrite (Ht 0 0) by done. destruct Hok. split; [apply Hb; [left|done]|done].
  - rewrite (Ht 0 0) by done. destruct Hok as (? & -> & m & Hn & Hw).
    split; [apply Hb; [left|done]|]. split; [done|]. exists m. rewrite Hm; [done|left].
  - rewrite (Ht 0 0) by done. destruct Hok as (? & -> & m & Hn & Hw).
    split; [apply Hb; [left|done]|]. split; [done|]. exists m. rewrite Hm; [done|left].
Qed.

(** *** The producer *)

Lemma free_chain_in (mem : gmap Z (lnode T)) c fs f :
  free_chain mem c fs → f ∈ fs → ∃ n w, mem !! f = Some n ∧ n_first n = inr w.
Proof.
  revert c. induction fs as [|g fs IH]; intros c; cbn; [set_solver|].
  intros (-> & n & w & Hn & Hw & Hc) [->|Hf]%elem_of_cons; [by exists n, w|by eapply IH].
Qed.

Lemma alloc_cursor_ok q ns fs own v :
  shape q ns fs own →
  push_ok q fs v (alloc_cursor v (ml_cursor_ q)) ∧ own_push (alloc_cursor v (ml_cursor_ q)) = [] ∧
  (∀ q', tail_ok q' ns (alloc_cursor v (ml_cursor_ q)) = (ptr (ml_tail_ q') = end_of q' ns)) ∧
  pending v (alloc_cursor v (ml_cursor_ q)) = [v] ∧ need_new (alloc_cursor v (ml_cursor_ q)) = 1.
Proof.
  intros [_ Hf _ _]. unfold alloc_cursor. destruct (Z.eqb_spec (ptr (ml_cursor_ q)) 0) as [E|E]; [done|].
  split; [|done]. cbn. split; [done|]. destruct fs; cbn in Hf; [done|]. destruct Hf as [-> _]. left.
Qed.

(** What a step of a push must establish. *)
Definition push_result (v : T) pcP q ns pcC (r : outcome (lpc T * mpmc_list T)) : Prop :=
  ∃ pc' q' ns' fs', r = Ok (pc', q') ∧ core q' ns' fs' v pc' pcC ∧
    ns'.*2 ++ pending v pc' = ns.*2 ++ pending v pcP ∧
    ml_fresh q' + need_new pc' ≤ ml_fresh q + need_new pcP ∧
    (∀ b o, pc' = LReturned b o → b = true ∧ o = None).

(** Steps that write nothing the consumer looks at. *)
Lemma push_quiet v pcP q ns fs pcC pc' q' fs' :
  core q ns fs v pcP pcC → ml_head_ q' = ml_head_ q → ml_tail_ q' = ml_tail_ q →
  (∀ p, p ∈ own_pop pcC → ml_mem q' !! p = ml_mem q !! p) →
  shape q' ns fs' (own_push pc' ++ own_pop pcC) → tail_ok q' ns pc' → push_ok q' fs' v pc' →
  pending v pc' = pending v pcP → ml_fresh q' + need_new pc' ≤ ml_fresh q + need_new pcP →
  (∀ b o, pc' ≠ LReturned b o) → push_result v pcP q ns pcC (Ok (pc', q')).
Proof.
  intros [Hs Ht Hp Hc] Eh Et Em Hs' Ht' Hp' Epend Hneed Hret. exists pc', q', ns, fs'.
  split; [done|]. split; [|rewrite Epend; split; [done|split; [done|]]].
  - split; try done. rewrite <- (app_nil_r ns). apply (pop_frame q); [done..|]. by rewrite Et.
  - intros b o E. by destruct (Hret b o).
Qed.

Lemma AllocEl_ok v x q ns fs pcC sp :
  core q ns fs v (AllocEl x) pcC → push_result v (AllocEl x) q ns pcC (list_step rep sp (AllocEl x) q).
Proof.
  intros Hco. pose proof Hco as [Hs Ht Hp Hc]. cbn [push_ok list_step] in *. subst x.
  destruct (decide (ml_el_ q = 0)) as [He|He].
  - rewrite He. cbn [tagged_ptr Z.land Z.eqb].
    apply (push_quiet _ _ _ _ fs _ _ _ fs); try done.
    replace (set_ml_el_ 0 q) with q; [done|]. destruct q; cbn in *; by subst.
  - destruct (shape_node _ _ _ _ _ Hs (in_el q ns fs (own_push (AllocEl v) ++ own_pop pcC) He)) as (n & Hn & Hr).
    rewrite (small_ptr (ml_el_ q)) by lia. rewrite (proj2 (Z.eqb_neq _ _) He).
    apply (push_quiet _ _ _ _ fs _ _ _ fs); try done; [|cbn; lia].
    pose proof Hs as [H1 H2 H3 H4].
    eapply shape_words; [exact Hs|done..|]. unfold all_nodes, el_list. cbn.
    rewrite (proj2 (Z.eqb_neq _ _) He). solve_Permutation.
Qed.

Lemma AllocCursor_ok v x q ns fs pcC sp :
  core q ns fs v (AllocCursor x) pcC →
  push_result v (AllocCursor x) q ns pcC (list_step rep sp (AllocCursor x) q).
Proof.
  intros Hco. pose proof Hco as [Hs Ht Hp Hc]. cbn [push_ok list_step] in *. subst x.
  destruct (alloc_cursor_ok q ns fs _ v Hs) as (H1 & H2 & H3 & H4 & H5).
  apply (push_quiet _ _ _ _ fs _ _ _ fs); try done.
  - by rewrite H2.
  - by rewrite H3.
  - by rewrite H5.
  - unfold alloc_cursor. intros b o. by case_match.
Qed.

Lemma AllocNext_ok v x curr q ns fs pcC sp :
  core q ns fs v (AllocNext x curr) pcC →
  push_result v (AllocNext x curr) q ns pcC (list_step rep sp (AllocNext x curr) q).
Proof.
  intros Hco. pose proof Hco as [Hs Ht [-> Hin] Hc].
  destruct (free_chain_in _ _ _ _ (sh_free _ _ _ _ Hs) Hin) as (n & w & Hn & Hw).
  cbn [list_step]. rewrite (node_at_run _ _ _ Hn). cbn [obind]. unfold link_word. rewrite Hw.
  apply (push_quiet _ _ _ _ fs _ _ _ fs); try done.
  cbn. split; [done|]. split; [done|]. by exists n, w.
Qed.

Lemma AllocTake_ok v x curr next q ns fs pcC sp :
  core q ns fs v (AllocTake x curr next) pcC →
  push_result v (AllocTake x curr next) q ns pcC (list_step rep sp (AllocTake x curr next) q).
Proof.
  intros Hco. pose proof Hco as [Hs Ht (-> & Hin & n & w & Hn & Hw & Hnext) Hc].
  cbn [list_step]. unfold tagged_compare_exchange.
  destruct (Z.eqb_spec (ml_cursor_ q) curr) as [E|E]; destruct sp; cbn [andb negb].
  2: { (* taken *)
    pose proof Hs as [H1 H2 H3 H4]. rewrite E in H2.
    destruct fs as [|f fs']; [set_solver|]. cbn in H2. destruct H2 as (Ef & n' & w' & Hn' & Hw' & Hc').
    assert (n' = n) as -> by congruence. assert (w' = w) as -> by congruence.
    apply (push_quiet _ _ _ _ (f :: fs') _ _ _ fs'); try done.
    - eapply shape_words; [exact Hs|done|done|done| |].
      + cbn [ml_cursor_ set_ml_cursor_]. rewrite make_ptr, <- Hnext; [done|]. rewrite <- Hnext. apply ptr_range.
      + unfold all_nodes, el_list. cbn [own_push ml_head_ ml_el_ set_ml_cursor_]. rewrite Ef. cbn [app]. solve_Permutation.
    - cbn. lia. }
  all: destruct (alloc_cursor_ok q ns fs _ v Hs) as (H1 & H2 & H3 & H4 & H5).
  all: replace (set_ml_cursor_ (ml_cursor_ q) q) with q by (by destruct q).
  all: apply (push_quiet _ _ _ _ fs _ _ _ fs); rewrite ?H2, ?H3, ?H5; try done.
  all: unfold alloc_cursor; intros b o; by case_match.
Qed.

(** A node the producer writes is none of the consumer's. *)
Lemma own_apart q ns fs l1 l2 p :
  shape q ns fs (l1 ++ l2) → p ∈ l1 → p ∉ l2.
Proof.
  intros Hs Hp. destruct (shape_disjoint _ _ _ _ Hs) as (_ & _ & _ & _ & Hnd).
  apply NoDup_app in Hnd as (_ & H & _). by apply H.
Qed.

Lemma AllocConstruct_ok v x p q ns fs pcC sp :
  core q ns fs v (AllocConstruct x p) pcC →
  push_result v (AllocConstruct x p) q ns pcC (list_step rep sp (AllocConstruct x p) q).
Proof.
  intros Hco. pose proof Hco as [Hs Ht Hp Hc]. cbn [push_ok own_push] in *. subst x.
  assert (Hin : p ∈ [p] ++ own_pop pcC) by (apply elem_of_app; left; left).
  destruct (shape_node _ _ _ _ p Hs (in_own _ _ _ _ _ Hin)) as (n & Hn & Hr).
  cbn [list_step]. rewrite (node_at_run _ _ _ Hn). cbn [obind].
  apply (push_quiet _ _ _ _ fs _ _ _ fs); try done.
  - intros p' Hp'. cbn. rewrite lookup_insert_ne; [done|]. intros <-.
    eapply (own_apart _ _ _ [p]); [exact Hs|left|done].
  - by apply shape_set_own.
  - exists (MkNode (inl v) 0). cbn. by rewrite lookup_insert_eq.
Qed.

Lemma AllocNew_ok v x q ns fs pcC sp :
  core q ns fs v (AllocNew x) pcC → ml_fresh q + 1 ≤ 2 ^ 48 →
  push_result v (AllocNew x) q ns pcC (list_step rep sp (AllocNew x) q).
Proof.
  intros Hco Hroom. pose proof Hco as [Hs Ht Hp Hc]. cbn [push_ok own_push list_step] in *. subst x.
  apply (push_quiet _ _ _ _ fs _ _ _ fs); try done.
  - intros p' Hp'. cbn. rewrite lookup_insert_ne; [done|]. intros <-.
    destruct (shape_node _ _ _ _ _ Hs (in_own q ns fs _ _ Hp')) as (n & Hn & Hr).
    pose proof (ow_range _ _ _ (sh_owns _ _ _ _ Hs)) as Ha. rewrite Forall_forall in Ha.
    specialize (Ha _ (in_own q ns fs _ _ Hp')). lia.
  - apply (shape_new q ns fs (MkNode (inl v) 0)); [done|lia].
  - exists (MkNode (inl v) 0). cbn. by rewrite lookup_insert_eq.
  - cbn. lia.
Qed.

Lemma LPushTail_ok v p q ns fs pcC sp :
  core q ns fs v (LPushTail p) pcC →
  push_result v (LPushTail p) q ns pcC (list_step rep sp (LPushTail p) q).
Proof.
  intros Hco. pose proof Hco as [Hs Ht Hp Hc]. by apply (push_quiet _ _ _ _ fs _ _ _ fs).
Qed.

(** The node at [tail_] while the producer has not linked its own. *)
Lemma tail_node q ns fs own :
  shape q ns fs own → ptr (ml_tail_ q) = end_of q ns →
  ∃ m, ml_mem q !! ptr (ml_tail_ q) = Some m ∧ ptr (n_next m) = 0.
Proof. intros Hs ->. exact (chain_last _ _ _ (sh_chain _ _ _ _ Hs)). Qed.

Lemma LPushNext_ok v p tail q ns fs pcC sp :
  core q ns fs v (LPushNext p tail) pcC →
  push_result v (LPushNext p tail) q ns pcC (list_step rep sp (LPushNext p tail) q).
Proof.
  intros Hco. pose proof Hco as [Hs Ht [Hb ->] Hc].
  destruct (tail_node _ _ _ _ Hs Ht) as (m & Hm & Hz).
  cbn [list_step]. rewrite (node_at_run _ _ _ Hm). cbn [obind].
  apply (push_quiet _ _ _ _ fs _ _ _ fs); try done.
  cbn. split; [done|]. split; [done|]. by exists m.
Qed.

Lemma LPushCheck_ok v p tail next q ns fs pcC sp :
  core q ns fs v (LPushCheck p tail next) pcC →
  push_result v (LPushCheck p tail next) q ns pcC (list_step rep sp (LPushCheck p tail next) q).
Proof.
  intros Hco. pose proof Hco as [Hs Ht (Hb & -> & m & Hm & <-) Hc].
  destruct (tail_node _ _ _ _ Hs Ht) as (m' & Hm' & Hz).
  assert (m' = m) as -> by congruence.
  cbn [list_step]. rewrite Z.eqb_refl, Hz. cbn [Z.eqb].
  apply (push_quiet _ _ _ _ fs _ _ _ fs); try done.
  cbn. split; [done|]. split; [done|]. by exists m.
Qed.

(** The linearization point of [push]. *)
Lemma LPushLink_ok v p tail next q ns fs pcC sp :
  core q ns fs v (LPushLink p tail next) pcC →
  push_result v (LPushLink p tail next) q ns pcC (list_step rep sp (LPushLink p tail next) q).
Proof.
  intros Hco. pose proof Hco as [Hs Ht (Hb & -> & m & Hm & <-) Hc]. cbn [tail_ok] in Ht.
  destruct (tail_node _ _ _ _ Hs Ht) as (m' & Hm' & Hz). assert (m' = m) as -> by congruence.
  cbn [list_step]. rewrite (node_at_run _ _ _ Hm). cbn [obind].
  unfold tagged_compare_exchange. rewrite Z.eqb_refl. destruct sp; cbn [andb negb].
  { (* spurious failure *)
    replace (set_node _ _ q) with q.
    - by apply (push_quiet _ _ _ _ fs _ _ _ fs).
    - unfold set_node. destruct m as [f w]. cbn [n_first n_next].
      rewrite (insert_id (ml_mem q)) by exact Hm. by destruct q. }
  pose proof Hs as [H1 H2 H3 H4]. destruct (shape_disjoint _ _ _ _ Hs) as (Hnd & Hdis & Hdf & _ & Hndo).
  assert (Hpin : p ∈ [p] ++ own_pop pcC) by (apply elem_of_app; left; left).
  destruct (shape_node _ _ _ _ p Hs (in_own _ _ _ _ _ Hpin)) as (n & Hn & Hr).
  destruct Hb as (n' & Hn' & Hv & Hnz). assert (n' = n) as -> by congruence.
  assert (Hpc : p ∉ ptr (ml_head_ q) :: ns.*1) by (intros Hin; by destruct (Hdis p Hin)).
  pose proof (end_in_chain q ns) as Hend.
  rewrite Ht in Hm, Hm' |- *. set (q' := set_node _ _ q).
  assert (Hlast : end_of q' (ns ++ [(p, v)]) = p).
  { unfold end_of. rewrite fmap_app. change ([(p, v)].*1) with [p]. by rewrite last_snoc. }
  exists (LPushSwing p (ml_tail_ q)), q', (ns ++ [(p, v)]), fs.
  split; [done|]. split; [|split; [by rewrite fmap_app, <- app_assoc|split; [cbn; lia|done]]].
  split; [split| | |].
  - apply (chain_snoc _ _ _ _ _ n m); try done. apply make_ptr. lia.
  - apply free_chain_insert; [|done]. intros Hin. by destruct (Hdis _ Hend).
  - apply owns_set.
    { apply in_chain. rewrite fmap_app. set_solver. }
    assert (E : all_nodes q' (ns ++ [(p, v)]) fs (own_push (LPushSwing p (ml_tail_ q)) ++ own_pop pcC)
                ≡ₚ all_nodes q ns fs (own_push (LPushLink p (ml_tail_ q) (n_next m)) ++ own_pop pcC));
      [|by rewrite E].
    unfold all_nodes. change (el_list q') with (el_list q). change (ml_head_ q') with (ml_head_ q).
    rewrite fmap_app. cbn [own_push fmap list_fmap fst app]. solve_Permutation.
  - done.
  - cbn [tail_ok]. rewrite Hlast. split; [done|]. split.
    + rewrite Ht. intros E. rewrite E in Hend. done.
    + right. split; [done|]. exists ns, v. done.
  - done.
  - apply (pop_frame q); [done|done| |done].
    intros p' Hp'. cbn. rewrite lookup_insert_ne; [done|]. intros <-.
    destruct (Hdis _ Hend) as [_ Hno]. apply Hno, elem_of_app. by right.
Qed.

Lemma LPushSwing_ok v p tail q ns fs pcC sp :
  core q ns fs v (LPushSwing p tail) pcC →
  push_result v (LPushSwing p tail) q ns pcC (list_step rep sp (LPushSwing p tail) q).
Proof.
  intros Hco. pose proof Hco as [Hs (Hp & Hne & Ht) _ Hc]. cbn [list_step].
  unfold tagged_compare_exchange.
  pose proof (end_in_chain q ns) as Hend. rewrite <- Hp in Hend.
  destruct (shape_node _ _ _ _ p Hs (in_chain _ _ _ _ _ Hend)) as (n & Hn & Hr).
  exists (LReturned true None). destruct (Z.eqb_spec (ml_tail_ q) tail) as [E|E]; cbn [andb negb].
  - exists (set_ml_tail_ (tagged_make 48 p (tagged_add 48 tail)) q), ns, fs.
    split; [done|]. split; [|split; [done|split; [done|by intros b o [= <- <-]]]].
    split; [by apply shape_set_tail| |done|].
    + cbn. rewrite make_ptr by lia. done.
    + rewrite <- (app_nil_r ns). apply (pop_frame q); try done. cbn. rewrite make_ptr by lia.
      intros Hth Hph. (* the last node is not the first one while [tail_] is behind *)
      destruct Ht as [Ht|(_ & ns' & x & -> & Ht)]; [congruence|].
      destruct (shape_disjoint _ _ _ _ Hs) as (Hnd & _). rewrite fmap_app in Hnd.
      apply NoDup_cons in Hnd as [Hni _]. apply Hni. rewrite <- Hph. set_solver.
  - destruct Ht as [Ht|[Ht _]]; [|done].
    exists (set_ml_tail_ (ml_tail_ q) q), ns, fs. replace (set_ml_tail_ (ml_tail_ q) q) with q by (by destruct q).
    split; [done|]. split; [|split; [done|split; [done|by intros b o [= <- <-]]]].
    split; [done|cbn; congruence|done|done].
Qed.

Lemma push_step v pcP q ns fs pcC sp :
  core q ns fs v pcP pcC → (∀ b o, pcP ≠ LReturned b o) → ml_fresh q + need_new pcP ≤ 2 ^ 48 →
  push_result v pcP q ns pcC (list_step rep sp pcP q).
Proof.
  intros Hco Hret Hroom. destruct pcP; try (by destruct (co_push _ _ _ _ _ _ Hco)).
  - by eapply AllocEl_ok.
  - by eapply AllocCursor_ok.
  - by eapply AllocNext_ok.
  - by eapply AllocTake_ok.
  - by eapply AllocConstruct_ok.
  - by eapply AllocNew_ok.
  - by eapply LPushTail_ok.
  - by eapply LPushNext_ok.
  - by eapply LPushCheck_ok.
  - by eapply LPushLink_ok.
  - by eapply LPushSwing_ok.
  - by destruct (Hret b val).
Qed.

(** *** The consumer *)

(** The calls of [empty]. *)
Definition asks pc : bool := match pc with EmptyHead | EmptyNext _ => true | _ => false end.

(** What a step of a pop must establish. *)
Definition pop_result (v : T) pcP q ns pcC (r : outcome (lpc T * mpmc_list T)) : Prop :=
  ∃ pc' q' ns' fs', r = Ok (pc', q') ∧ core q' ns' fs' v pcP pc' ∧
    in_hand pc' ++ ns'.*2 = in_hand pcC ++ ns.*2 ∧ ml_fresh q' = ml_fresh q ∧
    (asks pcC = true → asks pc' = true ∨ ∃ b, pc' = LReturned b None).

Lemma tail_in_chain q ns pc : tail_ok q ns pc → ptr (ml_tail_ q) ∈ ptr (ml_head_ q) :: ns.*1.
Proof.
  assert (Hq : ptr (ml_tail_ q) = end_of q ns → ptr (ml_tail_ q) ∈ ptr (ml_head_ q) :: ns.*1)
    by (intros ->; apply end_in_chain).
  destruct pc; cbn; auto. intros (Hp & _ & [Ht|(E & ns' & x & -> & Ht)]); [rewrite Ht, Hp; apply end_in_chain|].
  rewrite E, Ht. pose proof (end_in_chain q ns'). rewrite fmap_app. set_solver.
Qed.

(** Steps that leave the list alone and write only nodes the consumer holds. *)
Lemma pop_quiet v pcP q ns fs pcC pc' q' fs' :
  core q ns fs v pcP pcC → ml_head_ q' = ml_head_ q → ml_tail_ q' = ml_tail_ q →
  (∀ p, p ∉ own_pop pcC → ml_mem q' !! p = ml_mem q !! p) → fs ⊆ fs' →
  shape q' ns fs' (own_push pcP ++ own_pop pc') → pop_ok q' ns pc' → in_hand pc' = in_hand pcC →
  ml_fresh q' = ml_fresh q → (asks pcC = true → asks pc' = true ∨ ∃ b, pc' = LReturned b None) →
  pop_result v pcP q ns pcC (Ok (pc', q')).
Proof.
  intros [Hs Ht Hp Hc] Eh Et Em Hfs Hs' Hc' Ehand Efr Hask. exists pc', q', ns, fs'.
  split; [done|]. split; [|split; [by rewrite Ehand|done]]. pose proof (tail_in_chain _ _ _ Ht) as Htc.
  destruct (shape_disjoint _ _ _ _ Hs) as (_ & Hdis & Hdf & _ & _).
  split; [done| | |done].
  - unfold tail_ok, end_of in *. by rewrite Eh, Et.
  - apply (push_frame q fs); try done. intros p Hin. apply Em.
    apply elem_of_cons in Hin as [->|Hin].
    + destruct (Hdis _ Htc) as [_ Hno]. intros Hin. apply Hno, elem_of_app. by right.
    + apply elem_of_app in Hin as [Hin|Hin].
      * intros Hin'. apply (Hdf p Hin), elem_of_app. by right.
      * by eapply own_apart.
Qed.

Lemma LPopHead_ok v pcP q ns fs sp :
  core q ns fs v pcP LPopHead → pop_result v pcP q ns LPopHead (list_step rep sp LPopHead q).
Proof. intros Hco. pose proof Hco as [Hs Ht Hp Hc]. by apply (pop_quiet _ _ _ _ fs _ _ _ fs). Qed.

Lemma LPopTail_ok v pcP head q ns fs sp :
  core q ns fs v pcP (LPopTail head) →
  pop_result v pcP q ns (LPopTail head) (list_step rep sp (LPopTail head) q).
Proof.
  intros Hco. pose proof Hco as [Hs Ht Hp Hc]. cbn [pop_ok] in Hc. subst head.
  apply (pop_quiet _ _ _ _ fs _ _ _ fs); try done. cbn [pop_ok]. split; [done|].
  destruct (decide (ptr (ml_head_ q) = ptr (ml_tail_ q))) as [E|E]; [by left|right].
  pose proof (tail_in_chain _ _ _ Ht) as [?|Hin]%elem_of_cons; [done|].
  destruct ns as [|[next x] ns']; [by apply elem_of_nil in Hin|].
  exists next. split; [done|]. by exists x, ns'.
Qed.

Lemma first_node (mem : gmap Z (lnode T)) p ns :
  chain mem p ns → ∃ n, mem !! p = Some n ∧ ptr (n_next n) = default 0 (head ns.*1).
Proof. destruct ns as [|[p' x] ns]; cbn; intros (n & Hn & H); exists n; naive_solver. Qed.

Lemma LPopNext_ok v pcP head tail q ns fs sp :
  core q ns fs v pcP (LPopNext head tail) →
  pop_result v pcP q ns (LPopNext head tail) (list_step rep sp (LPopNext head tail) q).
Proof.
  intros Hco. pose proof Hco as [Hs Ht Hp [-> Hc]].
  destruct (first_node _ _ _ (sh_chain _ _ _ _ Hs)) as (n & Hn & Hnext).
  cbn [list_step]. rewrite (node_at_run _ _ _ Hn). cbn [obind]. rewrite Hnext.
  apply (pop_quiet _ _ _ _ fs _ _ _ fs); try done. cbn [pop_ok]. split; [done|].
  destruct (Z.eqb_spec (ptr (ml_head_ q)) (ptr tail)) as [E|E].
  - destruct ns as [|[next x] ns']; [by left|right]. by exists x, ns'.
  - destruct Hc as [?|(next & Hth & x & ns' & -> & _)]; [done|]. split; [done|]. by exists x, ns'.
Qed.

Lemma LPopCheck_ok v pcP head tail next q ns fs sp :
  core q ns fs v pcP (LPopCheck head tail next) →
  pop_result v pcP q ns (LPopCheck head tail next) (list_step rep sp (LPopCheck head tail next) q).
Proof.
  intros Hco. pose proof Hco as [Hs Ht Hp [-> Hc]]. cbn [list_step]. rewrite Z.eqb_refl.
  destruct (Z.eqb_spec (ptr (ml_head_ q)) (ptr tail)) as [E|E].
  - destruct (Z.eqb_spec next 0) as [E0|E0]; apply (pop_quiet _ _ _ _ fs _ _ _ fs); try done.
    destruct Hc as [?|Hc]; [done|]. by cbn.
  - by apply (pop_quiet _ _ _ _ fs _ _ _ fs).
Qed.

Lemma end_of_cons q q' next x ns' :
  ptr (ml_head_ q') = next → end_of q' ns' = end_of q ((next, x) :: ns').
Proof. intros E. unfold end_of. cbn. rewrite last_cons, E. by destruct (last ns'.*1). Qed.

Lemma end_behind q next x ns' : end_of q ((next, x) :: ns') ∈ next :: ns'.*1.
Proof.
  unfold end_of. cbn [fmap list_fmap fst]. rewrite last_cons.
  destruct (last ns'.*1) eqn:E; cbn; [right; by apply last_Some_elem_of|left].
Qed.

(** The consumer moves [tail_] only for a producer that has not done so. *)
Lemma LPopHelp_ok v pcP tail next q ns fs sp :
  core q ns fs v pcP (LPopHelp tail next) →
  pop_result v pcP q ns (LPopHelp tail next) (list_step rep sp (LPopHelp tail next) q).
Proof.
  intros Hco. pose proof Hco as [Hs Ht Hp [Htl (x & ns' & ->)]]. cbn [list_step].
  unfold tagged_compare_exchange.
  destruct (shape_disjoint _ _ _ _ Hs) as (Hnd & _). apply NoDup_cons in Hnd as [Hni Hnd].
  destruct (Z.eqb_spec (ml_tail_ q) tail) as [E|E]; destruct sp; cbn [andb negb].
  2: { rewrite <- E in Htl.
    assert (Hlast : end_of q ((next, x) :: ns') ≠ ptr (ml_head_ q)).
    { intros El. apply Hni. rewrite <- El. apply end_behind. }
    destruct pcP as [| | | | | | | | | |p tail'| | | | | | | | | | | | | | |];
      cbn [tail_ok] in Ht; try congruence.
    destruct Ht as (Hpl & Hne & [Ht|(E' & ns0 & y & Ens & Ht)]); [congruence|].
    destruct ns0 as [|[n0 x0] ns0].
    2: { exfalso. cbn in Ens. injection Ens as -> -> ->. rewrite <- E', Htl in Ht. apply Hni.
         rewrite Ht, fmap_cons, fmap_app. pose proof (end_behind q n0 x0 ns0) as Hb.
         apply elem_of_cons in Hb as [->|Hb]; [left|right]. apply elem_of_app. by left. }
    injection Ens as -> -> ->.
    assert (Hpin : p ∈ ptr (ml_head_ q) :: [(p, y)].*1) by (right; left).
    destruct (shape_node _ _ _ _ p Hs (in_chain _ _ _ _ _ Hpin)) as (n & Hn & Hr).
    eexists LPopHead, _, [(p, y)], fs. split; [reflexivity|].
    split; [|done]. split; [by apply shape_set_tail| |done|done].
    cbn. split; [done|]. split; [done|]. left. apply make_ptr. lia. }
  all: replace (set_ml_tail_ (ml_tail_ q) q) with q by (by destruct q).
  all: by apply (pop_quiet _ _ _ _ fs _ _ _ fs).
Qed.

Lemma LPopRead_ok v pcP head next q ns fs sp :
  core q ns fs v pcP (LPopRead head next) →
  pop_result v pcP q ns (LPopRead head next) (list_step rep sp (LPopRead head next) q).
Proof.
  intros Hco. pose proof Hco as [Hs Ht Hp [-> (Hth & x & ns' & -> & _)]].
  pose proof (sh_chain _ _ _ _ Hs) as Hc. cbn in Hc. destruct Hc as (n & Hn & _ & (n' & Hn' & Hx) & _).
  cbn [list_step]. rewrite (node_at_run _ _ _ Hn'). cbn [obind]. rewrite Hx.
  apply (pop_quiet _ _ _ _ fs _ _ _ fs); try done.
  cbn. split; [done|]. split; [done|]. by exists x, ns'.
Qed.

(** The linearization point of [pop]. *)
Lemma LPopTake_ok v pcP head next val q ns fs sp :
  core q ns fs v pcP (LPopTake head next val) →
  pop_result v pcP q ns (LPopTake head next val) (list_step rep sp (LPopTake head next val) q).
Proof.
  intros Hco. pose proof Hco as [Hs Ht Hp [-> (Hth & x & ns' & -> & ->)]]. cbn [list_step].
  unfold tagged_compare_exchange. rewrite Z.eqb_refl. destruct sp; cbn [andb negb].
  { replace (set_ml_head_ (ml_head_ q) q) with q by (by destruct q).
    by apply (pop_quiet _ _ _ _ fs _ _ _ fs). }
  assert (Hnin : next ∈ ptr (ml_head_ q) :: ((next, val) :: ns').*1) by (right; left).
  destruct (shape_node _ _ _ _ next Hs (in_chain _ _ _ _ _ Hnin)) as (n & Hn & Hr).
  set (q' := set_ml_head_ (tagged_make 48 next (tagged_add 48 (ml_head_ q))) q).
  assert (Eh : ptr (ml_head_ q') = next) by (apply make_ptr; lia).
  pose proof (end_of_cons q q' next val ns' Eh) as Eend.
  exists (FreeEl (ptr (ml_head_ q)) val), q', ns', fs. split; [done|]. split; [|done].
  pose proof Hs as [H1 H2 H3 H4]. cbn in H1. destruct H1 as (n0 & _ & _ & _ & H1). split.
  - eapply shape_words; [exact Hs|done|done| |exact H2|].
    + by rewrite Eh.
    + unfold all_nodes. change (el_list q') with (el_list q). rewrite Eh. cbn. solve_Permutation.
  - destruct pcP; cbn [tail_ok] in Ht |- *; try (rewrite Eend; exact Ht).
    destruct Ht as (Hpl & Hne & Ht). rewrite Eend. split; [done|]. split; [done|].
    destruct Ht as [Ht|(E & ns0 & y & Ens & Ht)]; [by left|right]. split; [done|].
    destruct ns0 as [|[n1 x1] ns0].
    { cbn in Ht. change (end_of q []) with (ptr (ml_head_ q)) in Ht. congruence. }
    injection Ens as <- <- ->. exists ns0, y. split; [done|]. by rewrite (end_of_cons q q' next val).
  - apply (push_frame q fs); try done.
  - done.
Qed.

Lemma FreeEl_ok v pcP p val q ns fs sp :
  core q ns fs v pcP (FreeEl p val) →
  pop_result v pcP q ns (FreeEl p val) (list_step rep sp (FreeEl p val) q).
Proof.
  intros Hco. pose proof Hco as [Hs Ht Hp Hc]. cbn [list_step].
  assert (Hpin : p ∈ own_push pcP ++ own_pop (FreeEl p val)) by (apply elem_of_app; right; left).
  destruct (shape_node _ _ _ _ p Hs (in_own _ _ _ _ _ Hpin)) as (n & Hn & Hr).
  assert (Hel : el_list (set_ml_el_ p q) = [p])
    by (unfold el_list; cbn; by rewrite (proj2 (Z.eqb_neq p 0)) by lia).
  pose proof Hs as [H1 H2 H3 H4].
  destruct (Z.eqb_spec (ml_el_ q) 0) as [E|E].
  - apply (pop_quiet _ _ _ _ fs _ _ _ fs); try done.
    eapply shape_words; [exact Hs|done|done|done|done|]. unfold all_nodes. rewrite Hel.
    unfold el_list. rewrite E. cbn. solve_Permutation.
  - apply (pop_quiet _ _ _ _ fs _ _ _ fs); try done.
    eapply shape_words; [exact Hs|done|done|done|done|]. unfold all_nodes. rewrite Hel.
    unfold el_list. rewrite (proj2 (Z.eqb_neq _ _) E). cbn. solve_Permutation.
Qed.

Lemma FreeCursor_ok v pcP temp val q ns fs sp :
  core q ns fs v pcP (FreeCursor temp val) →
  pop_result v pcP q ns (FreeCursor temp val) (list_step rep sp (FreeCursor temp val) q).
Proof. intros Hco. pose proof Hco as [Hs Ht Hp Hc]. by apply (pop_quiet _ _ _ _ fs _ _ _ fs). Qed.

Lemma FreeStore_ok v pcP temp curr val q ns fs sp :
  core q ns fs v pcP (FreeStore temp curr val) →
  pop_result v pcP q ns (FreeStore temp curr val) (list_step rep sp (FreeStore temp curr val) q).
Proof.
  intros Hco. pose proof Hco as [Hs Ht Hp Hc]. cbn [list_step].
  assert (Hpin : temp ∈ own_push pcP ++ own_pop (FreeStore temp curr val)) by (apply elem_of_app; right; left).
  destruct (shape_node _ _ _ _ temp Hs (in_own _ _ _ _ _ Hpin)) as (n & Hn & Hr).
  rewrite (node_at_run _ _ _ Hn). cbn [obind]. rewrite store_run. cbn [obind].
  apply (pop_quiet _ _ _ _ fs _ _ _ fs); try done.
  - intros p Hpn. cbn. rewrite lookup_insert_ne; [done|]. intros <-. apply Hpn. left.
  - by apply shape_set_own.
  - eexists _, _. cbn. rewrite lookup_insert_eq. split; [done|]. split; [done|].
    apply make_ptr, ptr_range.
Qed.

Lemma FreeTake_ok v pcP temp curr val q ns fs sp :
  core q ns fs v pcP (FreeTake temp curr val) →
  pop_result v pcP q ns (FreeTake temp curr val) (list_step rep sp (FreeTake temp curr val) q).
Proof.
  intros Hco. pose proof Hco as [Hs Ht Hp (n & w & Hn & Hw & Hwp)]. cbn [list_step].
  unfold tagged_compare_exchange.
  destruct (Z.eqb_spec (ml_cursor_ q) curr) as [E|E]; destruct sp; cbn [andb negb].
  2: { assert (Hpin : temp ∈ own_push pcP ++ own_pop (FreeTake temp curr val)) by (apply elem_of_app; right; left).
    destruct (shape_node _ _ _ _ temp Hs (in_own _ _ _ _ _ Hpin)) as (n' & _ & Hr).
    apply (pop_quiet _ _ _ _ fs _ _ _ (temp :: fs)); try done; [by intros ?; right|].
    eapply shape_words; [exact Hs|done|done|exact (sh_chain _ _ _ _ Hs)| |].
    - cbn. rewrite make_ptr by lia. split; [done|]. exists n, w. split; [done|]. split; [done|].
      rewrite Hwp, <- E. exact (sh_free _ _ _ _ Hs).
    - unfold all_nodes. change (el_list (set_ml_cursor_ _ q)) with (el_list q). cbn. solve_Permutation. }
  all: replace (set_ml_cursor_ (ml_cursor_ q) q) with q by (by destruct q).
  all: by apply (pop_quiet _ _ _ _ fs _ _ _ fs).
Qed.

Lemma EmptyHead_ok v pcP q ns fs sp :
  core q ns fs v pcP EmptyHead → pop_result v pcP q ns EmptyHead (list_step rep sp EmptyHead q).
Proof.
  intros Hco. pose proof Hco as [Hs Ht Hp Hc]. apply (pop_quiet _ _ _ _ fs _ _ _ fs); try done. by left.
Qed.

Lemma EmptyNext_ok v pcP head q ns fs sp :
  core q ns fs v pcP (EmptyNext head) →
  pop_result v pcP q ns (EmptyNext head) (list_step rep sp (EmptyNext head) q).
Proof.
  intros Hco. pose proof Hco as [Hs Ht Hp Hc]. cbn [pop_ok] in Hc. subst head.
  destruct (first_node _ _ _ (sh_chain _ _ _ _ Hs)) as (n & Hn & _).
  cbn [list_step]. rewrite (node_at_run _ _ _ Hn). cbn [obind].
  apply (pop_quiet _ _ _ _ fs _ _ _ fs); try done. right. by eexists.
Qed.

Lemma pop_step v pcP q ns fs pcC sp :
  core q ns fs v pcP pcC → (∀ b o, pcC ≠ LReturned b o) →
  pop_result v pcP q ns pcC (list_step rep sp pcC q).
Proof.
  intros Hco Hret. destruct pcC; try (by destruct (co_pop _ _ _ _ _ _ Hco)).
  - by eapply LPopHead_ok.
  - by eapply LPopTail_ok.
  - by eapply LPopNext_ok.
  - by eapply LPopCheck_ok.
  - by eapply LPopHelp_ok.
  - by eapply LPopRead_ok.
  - by eapply LPopTake_ok.
  - by eapply FreeEl_ok.
  - by eapply FreeCursor_ok.
  - by eapply FreeStore_ok.
  - by eapply FreeTake_ok.
  - by eapply EmptyHead_ok.
  - by eapply EmptyNext_ok.
  - by destruct (Hret b val).
Qed.
End Invariant.

(** ** Every schedule *)

Section System.
Context {T : Type} (blank : T) (rep : T → Z).
Notation lthread := (thread T (lpc T)).
Notation lsystem := (system T (lpc T) (mpmc_list T)).
Implicit Types (q : mpmc_list T) (s : lsystem) (th thP thC : lthread) (vs rest : list T).

(** Where a thread stands; between two calls, at the end of one. *)
Definition pc_of th : lpc T :=
  match th_call th with Some (_, pc) => pc | None => LReturned true None end.

Definition popped (a : queue_answer T) : option T := match a with AnsPop o => o | _ => None end.

(** The two threads and the values on their way from one to the other. *)
Record spsc_ok vs s thP thC rest : Prop := {
  sl_threads : sys_threads s = [thP; thC];
  sl_core : ∃ ns fs v, core (sys_queue s) ns fs v (pc_of thP) (pc_of thC) ∧
    vs = omap popped (th_answers thC) ++ in_hand (pc_of thC) ++ ns.*2 ++
         pending v (pc_of thP) ++ rest ∧
    (∀ c pc, th_call thP = Some (c, pc) → c = CallPush v ∧ ∀ b o, pc ≠ LReturned b o);
  sl_todo : th_todo thP = CallPush <$> rest;
  sl_answers : th_answers thP = replicate (length (th_answers thP)) (AnsBool true);
  sl_count : length vs = (length (th_answers thP) + length rest +
    if th_call thP is Some _ then 1 else 0)%nat;
  sl_room : ml_fresh (sys_queue s) + need_new (pc_of thP) + Z.of_nat (length rest) ≤ 2 ^ 48;
  sl_pops : Forall (λ c, ∀ x, c ≠ CallPush x) (th_todo thC);
  sl_pop : ∀ c pc, th_call thC = Some (c, pc) →
    (∀ x, c ≠ CallPush x) ∧ (c = CallEmpty → asks pc = true) ∧ ∀ b o, pc ≠ LReturned b o
}.

Lemma producer_step vs s thP thC rest sp :
  spsc_ok vs s thP thC rest →
  ∃ thP' q' rest', thread_step (list_machine rep) sp thP (sys_queue s) = Ok (thP', q') ∧
    spsc_ok vs (MkSystem q' [thP'; thC]) thP' thC rest'.
Proof.
  intros [Eth (ns & fs & v & Hco & Hvs & Hcall) Htodo Hans Hcnt Hroom Hpops Hpop].
  unfold thread_step. destruct (th_call thP) as [[c pc]|] eqn:Ec.
  - destruct (Hcall c pc eq_refl) as [-> Hret]. unfold pc_of in Hco, Hvs, Hroom. rewrite Ec in Hco, Hvs, Hroom.
    fold (pc_of thC) in Hco, Hvs.
    destruct (push_step rep v pc (sys_queue s) ns fs _ sp Hco Hret ltac:(lia))
      as (pc' & q' & ns' & fs' & E & Hco' & Hval & Hfr & Hb).
    cbn [mc_step list_machine]. rewrite E. cbn [obind mc_answer list_machine].
    assert (Hvs' : vs = omap popped (th_answers thC) ++ in_hand (pc_of thC) ++ ns'.*2 ++ pending v pc' ++ rest).
    { rewrite Hvs. do 2 f_equal. by rewrite !app_assoc, Hval. }
    assert (Hrun : (∀ b o, pc' ≠ LReturned b o) ∨ ∃ b o, pc' = LReturned b o)
      by (destruct pc'; first [right; by repeat eexists|by left]).
    destruct Hrun as [Hrun|(b & o & ->)].
    + exists (MkThread (Some (CallPush v, pc')) (th_todo thP) (th_answers thP)), q', rest.
      split; [destruct pc'; try done; by destruct (Hrun b val)|]. split; cbn; try done; [|lia].
      exists ns', fs', v. split; [done|]. split; [done|]. by intros c pc0 [= <- <-].
    + destruct (Hb b o eq_refl) as [-> ->].
      exists (MkThread None (th_todo thP) (th_answers thP ++ [AnsBool true])), q', rest.
      split; [done|]. split; cbn; try done.
      * exists ns', fs', v. done.
      * rewrite length_app, replicate_add. by rewrite Hans at 1.
      * rewrite length_app. cbn. lia.
      * cbn in Hfr. lia.
  - rewrite Htodo. destruct rest as [|x rest]; cbn [fmap list_fmap].
    + exists thP, (sys_queue s), []. split; [done|]. split; try done; cbn; [|by rewrite Ec].
      exists ns, fs, v. split; [done|]. split; [done|]. by rewrite Ec.
    + exists (MkThread (Some (CallPush x, AllocEl x)) (CallPush <$> rest) (th_answers thP)), (sys_queue s), rest.
      split; [done|]. unfold pc_of in Hco, Hvs, Hroom. rewrite Ec in Hco, Hvs, Hroom. fold (pc_of thC) in Hco, Hvs.
      split; cbn [sys_threads sys_queue th_call th_todo th_answers pc_of]; try done.
      * exists ns, fs, x. destruct Hco as [Hs Ht Hp Hc]. split; [by split|]. split; [done|].
        by intros c pc [= <- <-].
      * cbn in Hcnt. lia.
      * cbn in *. lia.
Qed.

Lemma consumer_step vs s thP thC rest sp :
  spsc_ok vs s thP thC rest →
  ∃ thC' q', thread_step (list_machine rep) sp thC (sys_queue s) = Ok (thC', q') ∧
    spsc_ok vs (MkSystem q' [thP; thC']) thP thC' rest.
Proof.
  intros [Eth (ns & fs & v & Hco & Hvs & Hcall) Htodo Hans Hcnt Hroom Hpops Hpop].
  unfold thread_step. destruct (th_call thC) as [[c pc]|] eqn:Ec.
  - destruct (Hpop c pc eq_refl) as (Hnp & Hask & Hret).
    assert (Epc : pc_of thC = pc) by (unfold pc_of; by rewrite Ec). rewrite Epc in Hco, Hvs.
    destruct (pop_step rep v _ (sys_queue s) ns fs pc sp Hco Hret)
      as (pc' & q' & ns' & fs' & E & Hco' & Hval & Hfr & Hb).
    cbn [mc_step list_machine]. rewrite E. cbn [obind mc_answer list_machine].
    assert (Hvs' : vs = omap popped (th_answers thC) ++ in_hand pc' ++ ns'.*2 ++ pending v (pc_of thP) ++ rest).
    { rewrite Hvs. f_equal. by rewrite !(app_assoc (in_hand _)), Hval. }
    assert (Hrun : (∀ b o, pc' ≠ LReturned b o) ∨ ∃ b o, pc' = LReturned b o)
      by (destruct pc'; first [right; by repeat eexists|by left]).
    destruct Hrun as [Hrun|(b & o & ->)].
    + exists (MkThread (Some (c, pc')) (th_todo thC) (th_answers thC)), q'.
      split; [destruct pc'; try done; by destruct (Hrun b val)|]. split; cbn; try done; [by exists ns', fs', v|by rewrite Hfr|].
      intros c0 pc0 [= <- <-]. split; [done|]. split; [|done]. intros Ee.
      destruct (Hb (Hask Ee)) as [?|[b Eb]]; [done|]. by destruct (Hrun b None).
    + exists (MkThread None (th_todo thC)
        (th_answers thC ++ [match c with CallPop => AnsPop o | _ => AnsBool b end])), q'.
      split; [done|]. split; cbn; try done; [|by rewrite Hfr].
      exists ns', fs', v. split; [by destruct Hco'|]. split; [|done].
      rewrite Hvs', omap_app, <- app_assoc. f_equal. destruct c as [x| |]; [by destruct (Hnp x)| |].
      * by destruct o.
      * destruct (Hb (Hask eq_refl)) as [?|[b' [= -> ->]]]; done.
  - assert (Epc : pc_of thC = LReturned true None) by (unfold pc_of; by rewrite Ec).
    destruct (th_todo thC) as [|c todo] eqn:Etodo.
    + exists thC, (sys_queue s). split; [done|].
      split; try done; [by exists ns, fs, v|by rewrite Etodo|by rewrite Ec].
    + apply Forall_cons in Hpops as [Hnp Hpops].
      exists (MkThread (Some (c, mc_start (list_machine rep) c)) todo (th_answers thC)), (sys_queue s).
      split; [done|]. rewrite Epc in Hco, Hvs. destruct Hco as [Hs Ht Hp Hc].
      split; cbn [sys_threads sys_queue th_call th_todo th_answers pc_of]; try done.
      * exists ns, fs, v. split; [|split; [|done]].
        -- destruct c as [x| |]; [by destruct (Hnp x)|by split|by split].
        -- rewrite Hvs. destruct c as [x| |]; [by destruct (Hnp x)|done|done].
      * intros c0 pc0 [= <- <-]. split; [done|]. destruct c as [x| |]; [by destruct (Hnp x)|done|done].
Qed.

Lemma spsc_step vs s thP thC rest e :
  spsc_ok vs s thP thC rest →
  ∃ s' thP' thC' rest', sys_step (list_machine rep) e s = Ok s' ∧ spsc_ok vs s' thP' thC' rest'.
Proof.
  intros Hs. destruct e as [[|[|k]] sp]; unfold sys_step; cbn [fst snd]; rewrite (sl_threads _ _ _ _ _ Hs); cbn [lookup list_lookup].
  - destruct (producer_step _ _ _ _ _ sp Hs) as (th' & q' & rest' & E & Hs').
    cbn. rewrite E. cbn. by exists (MkSystem q' [th'; thC]), th', thC, rest'.
  - destruct (consumer_step _ _ _ _ _ sp Hs) as (th' & q' & E & Hs').
    cbn. rewrite E. cbn. by exists (MkSystem q' [thP; th']), thP, th', rest.
  - by exists s, thP, thC, rest.
Qed.

Lemma spsc_run vs sched s thP thC rest :
  spsc_ok vs s thP thC rest →
  ∃ s' thP' thC' rest', run_schedule (list_machine rep) sched s = Ok s' ∧ spsc_ok vs s' thP' thC' rest'.
Proof.
  revert s thP thC rest. induction sched as [|e sched IH]; intros s thP thC rest Hs; cbn.
  - by exists s, thP, thC, rest.
  - destruct (spsc_step _ _ _ _ _ e Hs) as (s1 & thP1 & thC1 & rest1 & -> & Hs1). cbn. by eapply IH.
Qed.

Lemma spsc_start vs cs :
  Forall (λ c, ∀ x, c ≠ CallPush x) cs → Z.of_nat (length vs) ≤ 2 ^ 48 - 2 →
  spsc_ok vs (start (mpmc_list_new blank) [CallPush <$> vs; cs])
    (MkThread None (CallPush <$> vs) []) (MkThread None cs []) vs.
Proof.
  intros Hcs Hroom. split; try done; [|cbn; lia].
  exists [], [], blank. split; [|done]. destruct (new_ok blank) as [H1 H2 H3 H4 H5].
  by split.
Qed.

(** Pops running alone empty the list. *)
Lemma drain_alone q ns fs :
  list_ok q ns fs [] →
  ∃ q', calls_alone (list_machine rep) list_fuel (replicate (S (length ns)) CallPop) q =
    Ok (((AnsPop ∘ Some) <$> ns.*2) ++ [AnsPop None], q').
Proof.
  revert q fs. induction ns as [|[p x] ns IH]; intros q fs Hok; cbn [length replicate].
  - pose proof (pop_empty_run rep CallPop q fs Hok) as Hr. exists q. cbn [calls_alone].
    by erewrite (reaches_call rep 10 CallPop _ _ _ _ (AnsPop None)) by done.
  - destruct (pop_run rep CallPop p x q ns fs Hok) as (q1 & fs1 & Hr & Hok1 & _).
    destruct (IH q1 fs1 Hok1) as [q2 E2]. exists q2.
    change (CallPop :: CallPop :: replicate (length ns) CallPop)
      with (CallPop :: replicate (S (length ns)) (CallPop (T := T))).
    cbn [calls_alone]. erewrite (reaches_call rep 10 CallPop _ _ _ _ (AnsPop (Some x))) by done.
    cbn [obind]. by rewrite E2.
Qed.

Lemma spsc_settled vs s thP thC rest :
  spsc_ok vs s thP thC rest → th_call thP = None → th_call thC = None →
  ∃ ns fs, list_ok (sys_queue s) ns fs [] ∧
    ns.*2 = drop (length (omap popped (th_answers thC))) (take (length (th_answers thP)) vs).
Proof.
  intros [Eth (ns & fs & v & Hco & Hvs & _) _ _ Hcnt _ _ _] HP HC.
  unfold pc_of in Hco, Hvs. rewrite HP, HC in *. destruct Hco as [[H1 H2 H3 H4] Ht _ _].
  exists ns, fs. split; [by split|]. cbn [in_hand pending app] in Hvs.
  assert (Ek : take (length (th_answers thP)) vs = omap popped (th_answers thC) ++ ns.*2).
  { rewrite Hvs, app_assoc. apply take_app_length'. rewrite Hvs, !length_app in Hcnt.
    rewrite length_app. lia. }
  by rewrite Ek, drop_app_length.
Qed.

(** A new queue, a producer that pushes [vs], and a consumer that calls [cs]. *)
Definition spsc_system vs (cs : list (queue_call T)) : lsystem :=
  start (mpmc_list_new blank) [CallPush <$> vs; cs].

(** C14. With one producer and one consumer the linked queue is a
    first-in-first-out queue under every schedule and whatever weak
    compare-exchanges fail, for as many pushes as addresses fit 48 bits.  No
    step faults, although the pool recycles the nodes under the two threads;
    every push that returned succeeded; what the consumer popped is a prefix of
    what the producer pushes; and no value is lost: whenever no call is under
    way, pops deliver the values pushed and not yet popped, in order, and then
    say that the queue is empty. *)
Theorem list_spsc_fifo vs cs sched
    (Hcs : Forall (λ c, ∀ x, c ≠ CallPush x) cs) (Hroom : Z.of_nat (length vs) ≤ 2 ^ 48 - 2) :
  ∃ s, run_schedule (list_machine rep) sched (spsc_system vs cs) = Ok s ∧
  answers s 0 = replicate (length (answers s 0)) (AnsBool true) ∧
  delivered s 1 `prefix_of` vs ∧
  (Forall (λ th, th_call th = None) (sys_threads s) →
   let left := drop (length (delivered s 1)) (take (length (answers s 0)) vs) in
   ∃ q, calls_alone (list_machine rep) list_fuel (replicate (S (length left)) CallPop) (sys_queue s) =
     Ok (((AnsPop ∘ Some) <$> left) ++ [AnsPop None], q)).
Proof.
  destruct (spsc_run vs sched _ _ _ _ (spsc_start vs cs Hcs Hroom)) as (s & thP & thC & rest & E & Hs).
  assert (EP : answers s 0 = th_answers thP) by (unfold answers; by rewrite (sl_threads _ _ _ _ _ Hs)).
  assert (EC : delivered s 1 = omap popped (th_answers thC))
    by (unfold delivered, answers; by rewrite (sl_threads _ _ _ _ _ Hs)).
  exists s. rewrite EP, EC. split; [done|]. split; [apply Hs|]. split.
  - destruct (sl_core _ _ _ _ _ Hs) as (ns & fs & v & _ & Hvs & _). by eexists.
  - rewrite (sl_threads _ _ _ _ _ Hs), !Forall_cons. intros (HP & HC & _). cbn zeta.
    destruct (spsc_settled _ _ _ _ _ Hs HP HC) as (ns & fs & Hok & <-).
    rewrite length_fmap. by eapply drain_alone.
Qed.
End System.

(** The producer is preempted between linking its second node and moving
    [tail_]; the consumer pops the first value, helps, and pops the second. *)
Lemma list_spsc_fifo_witness :
  let sched := (λ k, (k, false)) <$> replicate 17 0%nat ++ replicate 30 1%nat ++ replicate 20 0%nat in
  ∃ s, run_schedule (list_machine id) sched
         (start (mpmc_list_new 0) [CallPush <$> [5; 6; 7]; [CallPop; CallPop; CallEmpty]]) = Ok s ∧
  answers s 0 = replicate (length (answers s 0)) (AnsBool true) ∧ delivered s 1 `prefix_of` [5; 6; 7] ∧
  (answers s 0, delivered s 1) = ([AnsBool true; AnsBool true; AnsBool true], [5; 6]).
Proof.
  cbn zeta. match goal with |- context [run_schedule _ ?sc _] =>
    destruct (list_spsc_fifo 0 id [5; 6; 7] [CallPop; CallPop; CallEmpty] sc) as (s & E & Ha & Hd & _) end.
  - repeat constructor; discriminate.
  - cbn. lia.
  - exists s. split; [exact E|]. split; [exact Ha|]. split; [exact Hd|].
    match type of E with ?r = _ =>
      assert (Er : ((λ s, (answers s 0, delivered s 1)) <$> r) =
        Ok ([AnsBool true; AnsBool true; AnsBool true], [5; 6])) by (vm_compute; reflexivity) end.
    rewrite E in Er. by injection Er as -> ->.
Defined.
