(* ===== verification/ThreadPool.v ===== *)
(** * ThreadPool: a queue of tasks shared by worker threads

    Models [include/footstone/thread_pool.h] as a step relation on the lock,
    condition-variable and task actions of its threads.  Everything done under
    [queue_mutex_] is one step; releasing the lock to wait, being notified and
    taking the lock back are steps of their own, and so is the moment between a
    change of the queue and the notification that follows it. *)

From S2P Require Import Prelude.

Section ThreadPool.
Context {T : Type}.

(** A worker thread: about to evaluate the predicate of [condition_.wait] with
    the lock held; blocked in it; running a task; returned. *)
Inductive pool_worker := Checking | Blocked | Running (task : T) | Exited.

(** [tp_tasks_] and [tp_stop_] are the fields of the class;
    [tp_notify_one] counts the callers of [Enqueue] that have pushed their task
    and not yet notified, [tp_notify_all] is raised while the destructor is
    between setting [stop_] and notifying.  [tp_enqueued] and [tp_started] are
    the tasks in the order in which they were pushed and taken. *)
Record ThreadPool := MkPool {
  tp_workers_ : list pool_worker;
  tp_tasks_ : list T;
  tp_stop_ : bool;
  tp_notify_one : nat;
  tp_notify_all : bool;
  tp_enqueued : list T;
  tp_started : list T
}.
Implicit Types (s : ThreadPool) (ws : list pool_worker).

(** The constructor. *)
Definition ThreadPool_new (threads : nat) : ThreadPool :=
  MkPool (replicate threads Checking) [] false 0 false [] [].

(** [Enqueue] up to the notification: throws ([None]) on a stopped pool. *)
Definition Enqueue (task : T) s : option ThreadPool :=
  if tp_stop_ s then None
  else Some (MkPool (tp_workers_ s) (tp_tasks_ s ++ [task]) (tp_stop_ s)
               (S (tp_notify_one s)) (tp_notify_all s) (tp_enqueued s ++ [task]) (tp_started s)).

Definition set_worker (i : nat) (v : pool_worker) s : ThreadPool :=
  MkPool (<[i := v]> (tp_workers_ s)) (tp_tasks_ s) (tp_stop_ s) (tp_notify_one s)
    (tp_notify_all s) (tp_enqueued s) (tp_started s).

(** The body of the loop from the predicate to the end of the critical
    section. *)
Definition worker_check (i : nat) s : ThreadPool :=
  if tp_stop_ s || negb (bool_decide (tp_tasks_ s = [])) then
    match tp_tasks_ s with
    | [] => set_worker i Exited s
    | task :: tasks =>
        MkPool (<[i := Running task]> (tp_workers_ s)) tasks (tp_stop_ s) (tp_notify_one s)
          (tp_notify_all s) (tp_enqueued s) (tp_started s ++ [task])
    end
  else set_worker i Blocked s.

Definition wake (v : pool_worker) : pool_worker :=
  match v with Blocked => Checking | _ => v end.

Inductive pool_step : ThreadPool → ThreadPool → Prop :=
  | StepEnqueue task s s' : Enqueue task s = Some s' → pool_step s s'
  | StepNotifyOne i ws ts b n a e st :
      (* [condition_.notify_one()], with a thread waiting *)
      ws !! i = Some Blocked →
      pool_step (MkPool ws ts b (S n) a e st) (MkPool (<[i := Checking]> ws) ts b n a e st)
  | StepNotifyNone ws ts b n a e st :
      (* with nobody waiting *)
      Blocked ∉ ws →
      pool_step (MkPool ws ts b (S n) a e st) (MkPool ws ts b n a e st)
  | StepCheck i s : tp_workers_ s !! i = Some Checking → pool_step s (worker_check i s)
  | StepFinish i task s :
      tp_workers_ s !! i = Some (Running task) → pool_step s (set_worker i Checking s)
  | StepSpurious i s : tp_workers_ s !! i = Some Blocked → pool_step s (set_worker i Checking s)
  | StepStop ws ts n a e st :
      (* the destructor sets [stop_] *)
      pool_step (MkPool ws ts false n a e st) (MkPool ws ts true n true e st)
  | StepNotifyAll ws ts b n e st :
      pool_step (MkPool ws ts b n true e st) (MkPool (wake <$> ws) ts b n false e st).

(** The destructor's joins have returned. *)
Definition joined s : Prop :=
  tp_stop_ s = true ∧ tp_notify_all s = false ∧ Forall (λ v, v = Exited) (tp_workers_ s).

(** A thread that will look at the queue again without being notified. *)
Definition awake (v : pool_worker) : Prop :=
  match v with Checking | Running _ => True | _ => False end.

(** ** Invariants *)

Record pool_inv (threads : nat) s : Prop := {
  (* tasks are taken in the order in which they were pushed, each once *)
  pi_fifo : tp_started s ++ tp_tasks_ s = tp_enqueued s;
  pi_count : length (tp_workers_ s) = threads;
  (* a worker returns only when the pool is stopped and drained *)
  pi_exit : Exited ∈ tp_workers_ s → tp_stop_ s = true ∧ tp_tasks_ s = [];
  (* a task in the queue has somebody to take it, or a notification on its way *)
  pi_live : tp_tasks_ s ≠ [] → Exists awake (tp_workers_ s) ∨ (0 < tp_notify_one s)%nat ∨ threads = 0%nat;
  (* once stopped, waiting threads have a notification on its way *)
  pi_stop : tp_stop_ s = true → Blocked ∈ tp_workers_ s → tp_notify_all s = true
}.

Lemma insert_In (i : nat) (v x : pool_worker) ws :
  x ∈ <[i := v]> ws → x = v ∨ x ∈ ws.
Proof.
  intros (j & Hj)%list_elem_of_lookup. destruct (decide (i = j)) as [->|Hne].
  - destruct (decide (j < length ws)%nat).
    + rewrite list_lookup_insert_eq in Hj by done. left. congruence.
    + rewrite list_insert_ge in Hj by lia. right. by eapply list_elem_of_lookup_2.
  - rewrite list_lookup_insert_ne in Hj by done. right. by eapply list_elem_of_lookup_2.
Qed.

Lemma Exists_insert (P : pool_worker → Prop) i v ws :
  (i < length ws)%nat → P v → Exists P (<[i := v]> ws).
Proof.
  intros Hi Hv. apply Exists_exists. exists v. split; [|done].
  eapply list_elem_of_lookup_2. by apply list_lookup_insert_eq.
Qed.
Lemma Exists_awake_insert i v v' ws :
  ws !! i = Some v → (awake v → awake v') → Exists awake ws → Exists awake (<[i := v']> ws).
Proof.
  intros Hi Hv (x & (j & Hj)%list_elem_of_lookup & Hx)%Exists_exists.
  destruct (decide (i = j)) as [->|Hne].
  - apply Exists_insert; [by eapply lookup_lt_Some|]. apply Hv. by simplify_eq.
  - apply Exists_exists. exists x. split; [|done]. eapply list_elem_of_lookup_2.
    rewrite list_lookup_insert_ne; done.
Qed.

Lemma elem_of_wake v ws : v ∈ wake <$> ws → v ≠ Blocked ∧ (v = Exited → v ∈ ws).
Proof.
  intros ([] & -> & Hin)%list_elem_of_fmap; cbn; split; (done || congruence).
Qed.

Lemma Exists_awake_wake ws : Exists awake ws → Exists awake (wake <$> ws).
Proof. induction 1 as [[]|]; cbn; [by constructor..|by apply Exists_cons_tl]. Qed.

(** Changing worker [i] to a value that is neither blocked nor returned. *)
Lemma pool_inv_awake threads i v s :
  pool_inv threads s → is_Some (tp_workers_ s !! i) → awake v →
  pool_inv threads (set_worker i v s).
Proof.
  intros [F C E L S] [u Hi] Hv. pose proof (lookup_lt_Some _ _ _ Hi) as Hlt. split; cbn.
  - done.
  - by rewrite length_insert.
  - intros [Ev|Hin]%insert_In; [by subst v|auto].
  - intros _. left. by apply Exists_insert.
  - intros Hs [Ev|Hin]%insert_In; [by subst v|auto].
Qed.

Lemma pool_inv_check threads i s :
  pool_inv threads s → tp_workers_ s !! i = Some Checking → pool_inv threads (worker_check i s).
Proof.
  intros Hinv Hi. pose proof Hinv as [F C E L S]. pose proof (lookup_lt_Some _ _ _ Hi) as Hlt.
  unfold worker_check. destruct (tp_tasks_ s) as [|task tasks] eqn:Et.
  - destruct (tp_stop_ s) eqn:Es; cbn [orb negb bool_decide].
    + split; cbn; rewrite ?Et, ?Es, ?length_insert; try done.
      intros _ [?|Hin]%insert_In; [done|auto].
    + rewrite bool_decide_true by done. cbn. split; cbn; rewrite ?Et, ?Es, ?length_insert; try done.
      intros [?|Hin]%insert_In; [done|auto].
  - rewrite bool_decide_false, orb_true_r by done. split; cbn.
    + by rewrite <- F, <- app_assoc.
    + by rewrite length_insert.
    + intros [?|Hin]%insert_In; [done|]. by apply E in Hin as [_ ?].
    + intros _. left. by apply Exists_insert.
    + intros Hs [?|Hin]%insert_In; [done|auto].
Qed.

Lemma pool_inv_step threads s s' : pool_inv threads s → pool_step s s' → pool_inv threads s'.
Proof.
  intros Hinv Hstep. destruct Hstep as
    [task s s' HE|i ws ts b n a e st Hi|ws ts b n a e st Hn|i s Hi|i task s Hi|i s Hi
    |ws ts n a e st|ws ts b n e st].
  - unfold Enqueue in HE. destruct (tp_stop_ s) eqn:Es; [done|]. injection HE as <-.
    destruct Hinv as [F C E L S]. split; cbn; rewrite ?Es; try done.
    + by rewrite app_assoc, F.
    + intros Hin. apply E in Hin as [? _]. congruence.
    + intros _. right. left. lia.
  - pose proof (pool_inv_awake threads i Checking _ Hinv (mk_is_Some _ _ Hi) I) as [F C E L S].
    split; cbn in *; try done.
    intros _. left. apply Exists_insert; [by eapply lookup_lt_Some|done].
  - destruct Hinv as [F C E L S]. split; cbn in *; try done. intros Ht. destruct threads as [|k]; [auto|].
    left. destruct ws as [|v ws]; [done|]. left. destruct v; cbn; try done.
    + destruct Hn. by left.
    + destruct Ht. apply E. by left.
  - by apply pool_inv_check.
  - apply pool_inv_awake; [done|eauto|done].
  - apply pool_inv_awake; [done|eauto|done].
  - destruct Hinv as [F C E L S]. split; cbn in *; try done. intros Hin. by apply E in Hin as [? _].
  - destruct Hinv as [F C E L S]. split; cbn in *.
    + done.
    + by rewrite length_fmap.
    + intros [_ Hin]%elem_of_wake. auto.
    + intros [?|?]%L; [left; by apply Exists_awake_wake|by right].
    + by intros _ [? _]%elem_of_wake.
Qed.

Lemma pool_inv_reachable threads s :
  rtc pool_step (ThreadPool_new threads) s → pool_inv threads s.
Proof.
  assert (∀ s1 s2, rtc pool_step s1 s2 → pool_inv threads s1 → pool_inv threads s2) as Hgen.
  { induction 1; eauto using pool_inv_step. }
  intros Hr. eapply Hgen; [exact Hr|]. split; cbn; try done.
  - by rewrite length_replicate.
  - by intros [? _]%elem_of_replicate.
Qed.

(** C15. However the threads interleave, tasks start in the order in which they were
    enqueued, each at most once; and when the destructor has joined the
    threads of a pool that has any, every task enqueued was started. *)
Theorem ThreadPool_runs_all threads s (Hreach : rtc pool_step (ThreadPool_new threads) s) :
  tp_started s `prefix_of` tp_enqueued s ∧
  (joined s → threads ≠ 0%nat → tp_started s = tp_enqueued s) ∧
  (tp_stop_ s = true → ∀ task, Enqueue task s = None).
Proof.
  destruct (pool_inv_reachable threads s Hreach) as [F C E L S]. split; [|split].
  - exists (tp_tasks_ s). by rewrite F.
  - intros (Hstop & _ & Hall) Hne. destruct (tp_workers_ s) as [|v ws] eqn:Ew; [by cbn in C|].
    apply Forall_cons_1 in Hall as [-> _].
    rewrite <- F, (proj2 (E ltac:(by left))). by rewrite app_nil_r.
  - intros Hs task. unfold Enqueue. by rewrite Hs.
Qed.

(** C16. No task is forgotten in the queue: while it holds one, and the pool has a
    thread, somebody can still step towards it — a thread that is not waiting,
    or the notification of the [Enqueue] that pushed it — also when the pool
    is being destroyed; and once it is stopped no thread waits for ever. *)
Theorem ThreadPool_never_stuck threads s
    (Hreach : rtc pool_step (ThreadPool_new threads) s) (Hthreads : threads ≠ 0%nat) :
  (tp_tasks_ s ≠ [] →
     (∃ i v, tp_workers_ s !! i = Some v ∧ awake v) ∨
     ((0 < tp_notify_one s)%nat ∧ ∃ i, tp_workers_ s !! i = Some Blocked)) ∧
  (tp_stop_ s = true → Blocked ∈ tp_workers_ s → tp_notify_all s = true).
Proof.
  destruct (pool_inv_reachable threads s Hreach) as [F C E L S]. split; [|exact S].
  intros Ht. destruct (tp_workers_ s) as [|v ws] eqn:Ew; [by cbn in C|].
  destruct v.
  - left. by exists 0%nat, Checking.
  - destruct (L Ht) as [(v & (i & Hi)%list_elem_of_lookup & Hv)%Exists_exists|[Hn|?]]; [| |done].
    + left. eauto.
    + right. split; [done|]. by exists 0%nat.
  - left. by exists 0%nat, (Running task).
  - destruct Ht. apply E. by left.
Qed.
End ThreadPool.

(** ** Witnesses *)

Arguments ThreadPool _ : clear implicits.

(** One thread; a task is enqueued while it waits, and the pool is destroyed
    before the task has started. *)
Definition drained_pool : ThreadPool Z := MkPool [Exited] [] true 0 false [7] [7].
Definition waiting_pool : ThreadPool Z := MkPool [Blocked] [7] true 1 true [7] [].

Lemma waiting_pool_reachable : rtc pool_step (ThreadPool_new 1) waiting_pool.
Proof.
  eapply rtc_l; [by apply (StepCheck 0)|]. eapply rtc_l; [by apply (StepEnqueue 7)|].
  eapply rtc_l; [apply StepStop|]. apply rtc_refl.
Qed.

Lemma drained_pool_reachable : rtc pool_step (ThreadPool_new 1) drained_pool.
Proof.
  transitivity waiting_pool; [apply waiting_pool_reachable|].
  eapply rtc_l; [by apply (StepNotifyOne 0)|]. eapply rtc_l; [apply StepNotifyAll|].
  eapply rtc_l; [by apply (StepCheck 0)|]. eapply rtc_l; [by apply (StepFinish 0 7)|].
  eapply rtc_l; [by apply (StepCheck 0)|]. apply rtc_refl.
Qed.

Lemma ThreadPool_runs_all_witness : tp_started drained_pool = [7] ∧ joined drained_pool.
Proof.
  assert (Hj : joined drained_pool) by by repeat constructor.
  split; [|exact Hj].
  destruct (ThreadPool_runs_all 1 drained_pool drained_pool_reachable) as (_ & Hall & _).
  exact (Hall Hj ltac:(discriminate)).
Defined.

Lemma ThreadPool_never_stuck_witness :
  tp_notify_all waiting_pool = true ∧ (0 < tp_notify_one waiting_pool)%nat.
Proof.
  destruct (ThreadPool_never_stuck 1 waiting_pool waiting_pool_reachable ltac:(discriminate))
    as [_ Hstop].
  split; [|cbn; lia]. apply Hstop; [reflexivity|]. by left.
Defined.
