(* ===== verification/Base64.v ===== *)
(** * Base64

    Models [src/footstone/base64.cc]: [Encode] and [Decode] with their table
    lookups, index arithmetic on [size_t] and writes into strings of a size
    computed beforehand, checked against RFC 4648 written as a function on
    lists.  A byte is a [Z] in [0, 256); the characters of [Decode]'s input
    are [char] values, negative above 127 where [char] is signed. *)

From S2P Require Import Prelude.
From Stdlib Require Import Ascii.

(** The code of a character. *)
Definition char_code (c : ascii) : Z := Z.of_N (N_of_ascii c).

Definition kEncodingTable : list Z :=
  map char_code (String.list_ascii_of_string
    "ABCDEFGHIJKLMNOPQRSTUVWXYZabcdefghijklmnopqrstuvwxyz0123456789+/"%string).

Definition pad : Z := char_code "="%char.

Arguments kEncodingTable : simpl never.
Arguments pad : simpl never.

Definition kDecodingTable : list Z :=
  replicate 43 64 ++ [62] ++ replicate 3 64 ++ [63] ++ seqZ 52 10 ++ replicate 7 64 ++
  seqZ 0 26 ++ replicate 6 64 ++ seqZ 26 26 ++ replicate 133 64.

Arguments kDecodingTable : simpl never.

(** ** Encode *)

(** [ret[out_idx++] = c] *)
Definition put (c : Z) (st : list Z * Z) : outcome (list Z * Z) :=
  let '(ret, out_idx) := st in
  if out_idx <? Z.of_nat (length ret) then Ok (<[Z.to_nat out_idx := c]> ret, out_idx + 1)
  else Fault OutOfRange.

(** [ret[out_idx++] = kEncodingTable[v]] *)
Definition put_code (v : Z) (st : list Z * Z) : outcome (list Z * Z) :=
  let! c := vec_at kEncodingTable v in put c st.

Definition high6 (b0 : Z) : Z := Z.land (Z.shiftr b0 2) 63.
Definition mid6a (b0 b1 : Z) : Z :=
  Z.lor (Z.shiftl (Z.land b0 3) 4) (Z.shiftr (Z.land b1 240) 4).
Definition mid6b (b1 b2 : Z) : Z :=
  Z.lor (Z.shiftl (Z.land b1 15) 2) (Z.shiftr (Z.land b2 192) 6).
Definition low6 (b2 : Z) : Z := Z.land b2 63.

(** [for (i = 0; i < len - 2; i += 3)]: [len - 2] is a [size_t]. *)
Fixpoint Encode_loop (fuel : nat) (bin : list Z) (len i : Z) (st : list Z * Z) :
    outcome (Z * (list Z * Z)) :=
  if i <? wrap_u 64 (len - 2) then
    match fuel with
    | O => Fault OutOfFuel
    | S fuel =>
        let! b0 := vec_at bin i in
        let! st := put_code (high6 b0) st in
        let! b1 := vec_at bin (i + 1) in
        let! st := put_code (mid6a b0 b1) st in
        let! b2 := vec_at bin (i + 2) in
        let! st := put_code (mid6b b1 b2) st in
        let! st := put_code (low6 b2) st in
        Encode_loop fuel bin len (i + 3) st
    end
  else Ok (i, st).

(** The code after the loop. *)
Definition Encode_tail (bin : list Z) (len i : Z) (st : list Z * Z) : outcome (list Z) :=
  if i <? len then
    let! b0 := vec_at bin i in
    let! st := put_code (high6 b0) st in
    let! st :=
      if i =? len - 1 then
        let! st := put_code (Z.shiftl (Z.land b0 3) 4) st in put pad st
      else
        let! b1 := vec_at bin (i + 1) in
        let! st := put_code (mid6a b0 b1) st in
        put_code (Z.shiftl (Z.land b1 15) 2) st in
    let! st := put pad st in Ok st.1
  else Ok st.1.

Definition Encode (bin : list Z) : outcome (list Z) :=
  let len := Z.of_nat (length bin) in
  let out_len := wrap_u 64 (4 * (wrap_u 64 (len + 2) / 3)) in
  let! '(i, st) := Encode_loop (S (length bin)) bin len 0 (replicate (Z.to_nat out_len) 0, 0) in
  Encode_tail bin len i st.

(** ** Decode *)

(** [input[i] == '=' ? 0 & i++ : kDecodingTable[static_cast<int>(input[i++])]] *)
Definition sextet (input : list Z) (i : Z) : outcome Z :=
  let! c := vec_at input i in
  if c =? pad then Ok 0 else vec_at kDecodingTable c.

(** [if (j < out_len) out[j++] = byte] *)
Definition emit (out_len : Z) (byte : Z) (st : list Z * Z) : outcome (list Z * Z) :=
  if st.2 <? out_len then put byte st else Ok st.

Fixpoint Decode_loop (fuel : nat) (input : list Z) (in_len out_len i : Z) (st : list Z * Z) :
    outcome (list Z) :=
  if i <? in_len then
    match fuel with
    | O => Fault OutOfFuel
    | S fuel =>
        let! a := sextet input i in
        let! b := sextet input (i + 1) in
        let! c := sextet input (i + 2) in
        let! d := sextet input (i + 3) in
        let triple := wrap_u 32 (Z.shiftl a 18 + Z.shiftl b 12 + Z.shiftl c 6 + Z.shiftl d 0) in
        let! st := emit out_len (Z.land (Z.shiftr triple 16) 255) st in
        let! st := emit out_len (Z.land (Z.shiftr triple 8) 255) st in
        let! st := emit out_len (Z.land (Z.shiftr triple 0) 255) st in
        Decode_loop fuel input in_len out_len (i + 4) st
    end
  else Ok st.1.

Definition Decode (input : list Z) : outcome (list Z) :=
  let in_len := Z.of_nat (length input) in
  if negb (in_len mod 4 =? 0) then Ok []
  else
    let out_len := in_len / 4 * 3 in
    let! c1 := vec_at input (wrap_u 64 (in_len - 1)) in
    let out_len := if c1 =? pad then wrap_u 64 (out_len - 1) else out_len in
    let! c2 := vec_at input (wrap_u 64 (in_len - 2)) in
    let out_len := if c2 =? pad then wrap_u 64 (out_len - 1) else out_len in
    Decode_loop (S (length input)) input in_len out_len 0
      (replicate (Z.to_nat out_len) 0, 0).

(** ** RFC 4648 *)

(** The character of a 6-bit group. *)
Definition code (v : Z) : Z := default 0 (kEncodingTable !! Z.to_nat v).

(** Three bytes make one 24-bit number, cut into four 6-bit groups; one or two
    trailing bytes are padded. *)
Fixpoint base64 (bs : list Z) : list Z :=
  match bs with
  | [] => []
  | [a] => let n := a * 65536 in
           [code (n / 2 ^ 18); code (n / 2 ^ 12 mod 64); pad; pad]
  | [a; b] => let n := a * 65536 + b * 256 in
              [code (n / 2 ^ 18); code (n / 2 ^ 12 mod 64); code (n / 2 ^ 6 mod 64); pad]
  | a :: b :: c :: bs =>
      let n := a * 65536 + b * 256 + c in
      code (n / 2 ^ 18) :: code (n / 2 ^ 12 mod 64) :: code (n / 2 ^ 6 mod 64) ::
      code (n mod 64) :: base64 bs
  end.

Definition is_byte (b : Z) : Prop := 0 ≤ b < 256.

(** ** The bit operations *)

Section Bits.
Lemma byte_forall (f : Z → bool) :
  forallb f (seqZ 0 256) = true → ∀ b, is_byte b → f b = true.
Proof.
  intros H b Hb. rewrite forallb_forall in H. apply H. apply list_elem_of_In, elem_of_seqZ.
  unfold is_byte in Hb. lia.
Qed.

Lemma byte_forall2 (f : Z → Z → bool) :
  forallb (λ a, forallb (f a) (seqZ 0 256)) (seqZ 0 256) = true →
  ∀ a b, is_byte a → is_byte b → f a b = true.
Proof. intros H a b Ha Hb. apply byte_forall; [|done]. by apply (byte_forall _ H a). Qed.

Lemma high6_spec a : is_byte a → high6 a = a / 4.
Proof.
  intros Ha. apply Z.eqb_eq.
  apply (byte_forall (λ a, high6 a =? a / 4)); [vm_compute; reflexivity|done].
Qed.

Lemma low6_spec a : is_byte a → low6 a = a mod 64.
Proof.
  intros Ha. apply Z.eqb_eq.
  apply (byte_forall (λ a, low6 a =? a mod 64)); [vm_compute; reflexivity|done].
Qed.

Lemma mid6a_spec a b : is_byte a → is_byte b → mid6a a b = a mod 4 * 16 + b / 16.
Proof.
  intros Ha Hb. apply Z.eqb_eq.
  apply (byte_forall2 (λ a b, mid6a a b =? a mod 4 * 16 + b / 16)); [vm_compute; reflexivity|done..].
Qed.

Lemma mid6b_spec a b : is_byte a → is_byte b → mid6b a b = a mod 16 * 4 + b / 64.
Proof.
  intros Ha Hb. apply Z.eqb_eq.
  apply (byte_forall2 (λ a b, mid6b a b =? a mod 16 * 4 + b / 64)); [vm_compute; reflexivity|done..].
Qed.

Lemma last6a_spec a : is_byte a → Z.shiftl (Z.land a 3) 4 = a mod 4 * 16.
Proof.
  intros Ha. apply Z.eqb_eq.
  apply (byte_forall (λ a, Z.shiftl (Z.land a 3) 4 =? a mod 4 * 16)); [vm_compute; reflexivity|done].
Qed.

Lemma last6b_spec a : is_byte a → Z.shiftl (Z.land a 15) 2 = a mod 16 * 4.
Proof.
  intros Ha. apply Z.eqb_eq.
  apply (byte_forall (λ a, Z.shiftl (Z.land a 15) 2 =? a mod 16 * 4)); [vm_compute; reflexivity|done].
Qed.

(** Every 6-bit group has a character, which is not the padding and which the
    decoding table maps back. *)
Lemma code_spec v : 0 ≤ v < 64 →
  vec_at kEncodingTable v = Ok (code v) ∧ code v ≠ pad ∧
  vec_at kDecodingTable (code v) = Ok v.
Proof.
  intros Hv.
  assert (H : forallb (λ v, bool_decide (vec_at kEncodingTable v = Ok (code v)) &&
    negb (code v =? pad) && bool_decide (vec_at kDecodingTable (code v) = Ok v))
    (seqZ 0 64) = true) by (vm_compute; reflexivity).
  rewrite forallb_forall in H. specialize (H v). rewrite <- list_elem_of_In, elem_of_seqZ in H.
  specialize (H ltac:(lia)). rewrite !andb_true_iff, !bool_decide_eq_true, negb_true_iff in H.
  destruct H as [[H1 H2%Z.eqb_neq] H3]. done.
Qed.
End Bits.

(** ** [Encode] *)

Section EncodeSpec.
Implicit Types bs : list Z.

(** Induction three bytes at a time. *)
Lemma list_ind3 (R : list Z → Prop) :
  R [] → (∀ a, R [a]) → (∀ a b, R [a; b]) → (∀ a b c bs, R bs → R (a :: b :: c :: bs)) →
  ∀ bs, R bs.
Proof.
  intros H0 H1 H2 H3. fix IH 1. intros [|a [|b [|c bs]]]; [done|apply H1|apply H2|].
  apply H3, IH.
Qed.

Lemma vec_at_middle (l r : list Z) x i :
  i = Z.of_nat (length l) → vec_at (l ++ x :: r) i = Ok x.
Proof. intros ->. apply vec_at_Ok. split; [lia|]. apply list_lookup_middle. lia. Qed.

(** A write at the first of the cells not written yet. *)
Lemma put_next c (out : list Z) n :
  put c (out ++ replicate (S n) 0, Z.of_nat (length out)) =
    Ok ((out ++ [c]) ++ replicate n 0, Z.of_nat (length (out ++ [c]))).
Proof.
  unfold put. rewrite length_app, length_replicate.
  destruct (Z.ltb_spec (Z.of_nat (length out)) (Z.of_nat (length out + S n))); [|lia].
  rewrite Nat2Z.id, insert_app_r_alt, Nat.sub_diag by lia. cbn [replicate insert list_insert].
  rewrite <- app_assoc, length_app. cbn. do 2 f_equal. lia.
Qed.

Lemma put_code_next v (out : list Z) n :
  0 ≤ v < 64 →
  put_code v (out ++ replicate (S n) 0, Z.of_nat (length out)) =
    Ok ((out ++ [code v]) ++ replicate n 0, Z.of_nat (length (out ++ [code v]))).
Proof.
  intros Hv. unfold put_code. destruct (code_spec v Hv) as [-> _]. cbn. apply put_next.
Qed.

(** The groups of a 24-bit number, from its bytes. *)
Lemma groups3 a b c : is_byte a → is_byte b → is_byte c →
  let n := a * 65536 + b * 256 + c in
  n / 2 ^ 18 = a / 4 ∧ n / 2 ^ 12 mod 64 = a mod 4 * 16 + b / 16 ∧
  n / 2 ^ 6 mod 64 = b mod 16 * 4 + c / 64 ∧ n mod 64 = c mod 64.
Proof.
  unfold is_byte. intros Ha Hb Hc. cbn zeta.
  change (2 ^ 18) with 262144. change (2 ^ 12) with 4096. change (2 ^ 6) with 64.
  Z.to_euclidean_division_equations. lia.
Qed.

Lemma six_ranges a b : is_byte a → is_byte b →
  0 ≤ a / 4 < 64 ∧ 0 ≤ a mod 4 * 16 + b / 16 < 64 ∧ 0 ≤ a mod 16 * 4 + b / 64 < 64 ∧
  0 ≤ a mod 64 < 64 ∧ 0 ≤ a mod 4 * 16 < 64 ∧ 0 ≤ a mod 16 * 4 < 64.
Proof. unfold is_byte. intros Ha Hb. Z.to_euclidean_division_equations. lia. Qed.

(** One pass of the loop. *)
Lemma Encode_block a b c out n :
  is_byte a → is_byte b → is_byte c →
  (let! st := put_code (high6 a) (out ++ replicate (4 + n) 0, Z.of_nat (length out)) in
   let! st := put_code (mid6a a b) st in
   let! st := put_code (mid6b b c) st in put_code (low6 c) st) =
  let l := out ++ take 4 (base64 [a; b; c]) in
  Ok (l ++ replicate n 0, Z.of_nat (length l)).
Proof.
  intros Ha Hb Hc. rewrite high6_spec, mid6a_spec, mid6b_spec, low6_spec by done.
  destruct (groups3 a b c Ha Hb Hc) as (E1 & E2 & E3 & E4).
  pose proof (six_ranges a b Ha Hb). pose proof (six_ranges b c Hb Hc).
  pose proof (six_ranges c c Hc Hc). cbn [Nat.add].
  rewrite put_code_next by lia. cbn [obind]. rewrite put_code_next by lia. cbn [obind].
  rewrite put_code_next by lia. cbn [obind]. rewrite put_code_next by lia.
  cbn [base64 take]. rewrite E1, E2, E3, E4. rewrite <- !app_assoc. done.
Qed.

Lemma Encode_loop_stop fuel bin len i st :
  ¬ i < wrap_u 64 (len - 2) → Encode_loop fuel bin len i st = Ok (i, st).
Proof. intros Hi. destruct fuel; cbn; by rewrite (proj2 (Z.ltb_ge _ _)) by lia. Qed.

Lemma base64_length bs : Z.of_nat (length (base64 bs)) = 4 * ((Z.of_nat (length bs) + 2) / 3).
Proof.
  induction bs as [| | |a b c bs IH] using list_ind3; try done.
  cbn [base64 length]. rewrite !Nat2Z.inj_succ, IH.
  replace (Z.succ (Z.succ (Z.succ (Z.of_nat (length bs)))) + 2)
    with (Z.of_nat (length bs) + 2 + 1 * 3) by lia.
  rewrite Z.div_add by lia. lia.
Qed.

(** The loop and the code after it, started with [pre] consumed and [out]
    written. *)
(** Encoding the rest [bs] of the input after [pre], with [out] already
    written, completes the output with the encoding of [bs]. *)
Definition encodes_rest (bs : list Z) (fuel : nat) (pre out : list Z) : Prop :=
  2 ≤ Z.of_nat (length pre + length bs) < 2 ^ 63 → (length bs < fuel)%nat →
  Forall is_byte bs →
  (let! '(i, st) := Encode_loop fuel (pre ++ bs) (Z.of_nat (length (pre ++ bs)))
      (Z.of_nat (length pre)) (out ++ replicate (length (base64 bs)) 0, Z.of_nat (length out)) in
   Encode_tail (pre ++ bs) (Z.of_nat (length (pre ++ bs))) i st) = Ok (out ++ base64 bs).

Lemma Encode_rest_nil fuel pre out : encodes_rest [] fuel pre out.
Proof.
  intros Hlen Hf Hb. rewrite length_app in *; cbn [length] in *.
  rewrite Encode_loop_stop by (rewrite wrap_u_id; lia). cbn [obind]. unfold Encode_tail.
  rewrite (proj2 (Z.ltb_ge _ _)) by lia. done.
Qed.

Lemma Encode_rest_one a fuel pre out : encodes_rest [a] fuel pre out.
Proof.
  intros Hlen Hf Hb. rewrite length_app in *; cbn [length] in *.
  rewrite Encode_loop_stop by (rewrite wrap_u_id; lia). cbn [obind]. unfold Encode_tail.
  rewrite (proj2 (Z.ltb_lt _ _)) by lia. rewrite vec_at_middle by done. cbn [obind].
  apply Forall_cons in Hb as [Ha _]. pose proof (six_ranges a a Ha Ha).
  change (length (base64 [a])) with 4%nat. rewrite high6_spec, last6a_spec by done. rewrite put_code_next by lia. cbn [obind].
  rewrite (proj2 (Z.eqb_eq _ _)) by lia. rewrite put_code_next by lia. cbn [obind].
  rewrite put_next. cbn [obind]. rewrite put_next. cbn [obind fst replicate].
  destruct (groups3 a 0 0) as (E1 & E2 & _); [done|split; lia..|].
  rewrite Z.mul_0_l, !Z.add_0_r in E1, E2.
  rewrite Z.div_0_l, Z.add_0_r in E2 by lia. cbn [base64]. rewrite E1, E2.
  rewrite <- !app_assoc. cbn [app]. done.
Qed.

Lemma Encode_rest_two a b fuel pre out : encodes_rest [a; b] fuel pre out.
Proof.
  intros Hlen Hf Hb. rewrite length_app in *; cbn [length] in *.
  rewrite Encode_loop_stop by (rewrite wrap_u_id; lia). cbn [obind]. unfold Encode_tail.
  rewrite (proj2 (Z.ltb_lt _ _)) by lia. rewrite vec_at_middle by done. cbn [obind].
  apply Forall_cons in Hb as [Ha Hb]. apply Forall_cons in Hb as [Hb _].
  pose proof (six_ranges a b Ha Hb). pose proof (six_ranges b b Hb Hb).
  change (length (base64 [a; b])) with 4%nat.
  rewrite high6_spec by done. rewrite put_code_next by lia. cbn [obind].
  rewrite (proj2 (Z.eqb_neq _ _)) by lia.
  rewrite (cons_middle a pre [b]), app_assoc.
  rewrite vec_at_middle by (rewrite length_app; cbn; lia). cbn [obind].
  rewrite mid6a_spec, last6b_spec by done. rewrite put_code_next by lia. cbn [obind].
  rewrite put_code_next by lia. cbn [obind]. rewrite put_next. cbn [obind fst replicate].
  destruct (groups3 a b 0) as (E1 & E2 & E3 & _); [done|done|split; lia|].
  rewrite Z.add_0_r in E1, E2, E3. rewrite Z.div_0_l, Z.add_0_r in E3 by lia.
  cbn [base64]. rewrite E1, E2, E3. rewrite <- !app_assoc. cbn [app]. done.
Qed.

Lemma Encode_rest_three a b c bs fuel pre out :
  (∀ fuel pre out, encodes_rest bs fuel pre out) → encodes_rest (a :: b :: c :: bs) fuel pre out.
Proof.
  intros IH Hlen Hf Hb. rewrite length_app in *; cbn [length] in *.
  apply Forall_cons in Hb as [Ha Hb]. apply Forall_cons in Hb as [Hb Hc'].
  apply Forall_cons in Hc' as [Hc Hbs]. destruct fuel as [|fuel]; [lia|]. cbn [Encode_loop].
  rewrite (proj2 (Z.ltb_lt _ _)) by (rewrite wrap_u_id; lia).
  rewrite vec_at_middle by done. cbn [obind].
  assert (V1 : vec_at (pre ++ a :: b :: c :: bs) (Z.of_nat (length pre) + 1) = Ok b).
  { rewrite (cons_middle a pre), app_assoc. apply vec_at_middle. rewrite length_app. cbn. lia. }
  assert (V2 : vec_at (pre ++ a :: b :: c :: bs) (Z.of_nat (length pre) + 2) = Ok c).
  { change (pre ++ a :: b :: c :: bs) with (pre ++ [a; b] ++ c :: bs). rewrite app_assoc.
    apply vec_at_middle. rewrite length_app. cbn. lia. }
  rewrite V1, V2. cbn [base64 length].
  pose proof (Encode_block a b c out (length (base64 bs)) Ha Hb Hc) as Eblk.
  cbn [Nat.add] in Eblk.
  destruct (put_code (high6 a) _) as [st1|]; [|done]. cbn [obind] in Eblk |- *.
  destruct (put_code (mid6a a b) st1) as [st2|]; [|done]. cbn [obind] in Eblk |- *.
  destruct (put_code (mid6b b c) st2) as [st3|]; [|done]. cbn [obind] in Eblk |- *.
  rewrite Eblk. cbn [obind base64 take].
  specialize (IH fuel (pre ++ [a; b; c]) (out ++ take 4 (base64 [a; b; c]))).
  unfold encodes_rest in IH.
  rewrite <- app_assoc in IH. cbn [app] in IH.
  replace (Z.of_nat (length (pre ++ [a; b; c]))) with (Z.of_nat (length pre) + 3) in IH
    by (rewrite length_app; cbn; lia).
  cbn [base64 take] in IH.
  assert (Elen : (length pre + S (S (S (length bs))))%nat = length (pre ++ a :: b :: c :: bs))
    by by rewrite length_app.
  rewrite Elen, IH; [|rewrite length_app in *; cbn; lia|lia|done].
  rewrite <- app_assoc. done.
Qed.

Lemma Encode_from bs fuel pre out : encodes_rest bs fuel pre out.
Proof.
  revert fuel pre out. induction bs as [|a|a b|a b c bs IH] using list_ind3; intros fuel pre out.
  - apply Encode_rest_nil.
  - apply Encode_rest_one.
  - apply Encode_rest_two.
  - by apply Encode_rest_three.
Qed.

Lemma Encode_base64 bs :
  Forall is_byte bs → 2 ≤ Z.of_nat (length bs) < 2 ^ 62 → Encode bs = Ok (base64 bs).
Proof.
  intros Hbs Hlen.
  unfold Encode. pose proof (Encode_from bs (S (length bs)) [] []) as E.
  unfold encodes_rest in E. cbn [app length] in E.
  rewrite (wrap_u_id 64 (_ + 2)) by lia.
  rewrite <- base64_length. rewrite wrap_u_id.
  - rewrite Nat2Z.id. apply E; [lia|lia|done].
  - rewrite base64_length. Z.to_euclidean_division_equations. lia.
Qed.

Lemma Encode_short bs :
  Forall is_byte bs → (length bs < 2)%nat → Encode bs = Fault OutOfRange.
Proof.
  intros Hbs Hlen.
  destruct bs as [|a [|]]; [reflexivity| |cbn in Hlen; lia].
  apply Forall_cons in Hbs as [Ha _]. unfold Encode. cbn [length Encode_loop].
  change (0 <? wrap_u 64 (Z.of_nat 1 - 2)) with true. cbn match.
  change (vec_at [a] 0) with (Ok a). cbn [obind]. rewrite high6_spec by done.
  pose proof (six_ranges a a Ha Ha). change (replicate _ 0, 0) with
    ([] ++ replicate 4 0, Z.of_nat (length (@nil Z))).
  rewrite put_code_next by lia. reflexivity.
Qed.

(** C29. [Encode] of two or more bytes is RFC 4648 base64, padding included: it
    stays inside its tables and its output string and meets no undefined
    behaviour.  [Encode] of zero or one byte is undefined: [len - 2] wraps to a
    huge [size_t], the loop runs and reads past the input. *)
Theorem Encode_spec bs (Hbs : Forall is_byte bs) (Hlen : Z.of_nat (length bs) < 2 ^ 62) :
  Encode bs = if (length bs <? 2)%nat then Fault OutOfRange else Ok (base64 bs).
Proof.
  destruct (Nat.ltb_spec (length bs) 2); [by apply Encode_short|].
  apply Encode_base64; [done|lia].
Qed.
End EncodeSpec.

(** ** [Decode] *)

Section DecodeSpec.
Implicit Types bs : list Z.

Lemma sextet_code pre r v i :
  0 ≤ v < 64 → i = Z.of_nat (length pre) → sextet (pre ++ code v :: r) i = Ok v.
Proof.
  intros Hv ->. unfold sextet. rewrite vec_at_middle by done. cbn [obind].
  destruct (code_spec v Hv) as (_ & Hp & Hd). by rewrite (proj2 (Z.eqb_neq _ _) Hp).
Qed.

Lemma sextet_pad pre r i : i = Z.of_nat (length pre) → sextet (pre ++ pad :: r) i = Ok 0.
Proof. intros ->. unfold sextet. rewrite vec_at_middle by done. reflexivity. Qed.

Lemma emit_next out_len byte (out : list Z) n :
  Z.of_nat (length out) < out_len →
  emit out_len byte (out ++ replicate (S n) 0, Z.of_nat (length out)) =
    Ok ((out ++ [byte]) ++ replicate n 0, Z.of_nat (length (out ++ [byte]))).
Proof. intros Hl. unfold emit. cbn [snd]. rewrite (proj2 (Z.ltb_lt _ _) Hl). apply put_next. Qed.

Lemma emit_full out_len byte (st : list Z * Z) : out_len ≤ st.2 → emit out_len byte st = Ok st.
Proof. intros Hl. unfold emit. by rewrite (proj2 (Z.ltb_ge _ _) Hl). Qed.

(** The four groups of a 24-bit number put together again, and its bytes. *)
Lemma triple_spec n : 0 ≤ n < 2 ^ 24 →
  wrap_u 32 (Z.shiftl (n / 2 ^ 18) 18 + Z.shiftl (n / 2 ^ 12 mod 64) 12 +
             Z.shiftl (n / 2 ^ 6 mod 64) 6 + Z.shiftl (n mod 64) 0) = n.
Proof.
  intros Hn. rewrite !Z.shiftl_mul_pow2 by lia.
  change (2 ^ 18) with 262144. change (2 ^ 12) with 4096. change (2 ^ 6) with 64.
  change (2 ^ 0) with 1. rewrite wrap_u_id; Z.to_euclidean_division_equations; lia.
Qed.

Lemma byte_of n k : 0 ≤ k → Z.land (Z.shiftr n k) 255 = n / 2 ^ k mod 256.
Proof.
  intros Hk. rewrite Z.shiftr_div_pow2 by done. change 255 with (Z.ones 8).
  by rewrite Z.land_ones by lia.
Qed.

Lemma bytes3 a b c : is_byte a → is_byte b → is_byte c →
  let n := a * 65536 + b * 256 + c in
  0 ≤ n < 2 ^ 24 ∧ n / 2 ^ 16 mod 256 = a ∧ n / 2 ^ 8 mod 256 = b ∧ n / 2 ^ 0 mod 256 = c.
Proof.
  unfold is_byte. intros Ha Hb Hc. cbn zeta.
  change (2 ^ 16) with 65536. change (2 ^ 8) with 256. change (2 ^ 0) with 1.
  Z.to_euclidean_division_equations. lia.
Qed.

Lemma group_ranges n : 0 ≤ n < 2 ^ 24 →
  0 ≤ n / 2 ^ 18 < 64 ∧ 0 ≤ n / 2 ^ 12 mod 64 < 64 ∧ 0 ≤ n / 2 ^ 6 mod 64 < 64 ∧
  0 ≤ n mod 64 < 64.
Proof.
  intros Hn. change (2 ^ 18) with 262144. change (2 ^ 12) with 4096. change (2 ^ 6) with 64.
  Z.to_euclidean_division_equations. lia.
Qed.

Lemma Decode_loop_stop fuel input in_len out_len i st :
  in_len ≤ i → Decode_loop fuel input in_len out_len i st = Ok st.1.
Proof. intros Hi. destruct fuel; cbn; by rewrite (proj2 (Z.ltb_ge _ _) Hi). Qed.

(** One pass, given what the four characters decode to. *)
Lemma Decode_loop_step fuel input in_len out_len i st n :
  i < in_len → 0 ≤ n < 2 ^ 24 →
  sextet input i = Ok (n / 2 ^ 18) → sextet input (i + 1) = Ok (n / 2 ^ 12 mod 64) →
  sextet input (i + 2) = Ok (n / 2 ^ 6 mod 64) → sextet input (i + 3) = Ok (n mod 64) →
  Decode_loop (S fuel) input in_len out_len i st =
    (let! st := emit out_len (n / 2 ^ 16 mod 256) st in
     let! st := emit out_len (n / 2 ^ 8 mod 256) st in
     let! st := emit out_len (n / 2 ^ 0 mod 256) st in
     Decode_loop fuel input in_len out_len (i + 4) st).
Proof.
  intros Hi Hn E1 E2 E3 E4. cbn [Decode_loop]. rewrite (proj2 (Z.ltb_lt _ _) Hi).
  rewrite E1, E2, E3, E4. cbn [obind]. rewrite triple_spec by done. by rewrite !byte_of by lia.
Qed.

(** The four characters of a block, whichever of them are padding. *)
Lemma block_sextets pre r x1 x2 x3 x4 i v1 v2 v3 v4 :
  i = Z.of_nat (length pre) →
  (∀ x v, (x, v) ∈ [(x1, v1); (x2, v2); (x3, v3); (x4, v4)] →
     x = code v ∧ 0 ≤ v < 64 ∨ x = pad ∧ v = 0) →
  let input := pre ++ x1 :: x2 :: x3 :: x4 :: r in
  sextet input i = Ok v1 ∧ sextet input (i + 1) = Ok v2 ∧
  sextet input (i + 2) = Ok v3 ∧ sextet input (i + 3) = Ok v4.
Proof.
  intros -> Hx input.
  assert (Hone : ∀ l x r v, input = l ++ x :: r → (x, v) ∈ [(x1, v1); (x2, v2); (x3, v3); (x4, v4)] →
    sextet input (Z.of_nat (length l)) = Ok v).
  { intros l x r' v -> Hin. destruct (Hx x v Hin) as [[-> Hv]|[-> ->]];
      [by apply sextet_code|by apply sextet_pad]. }
  split; [|split; [|split]].
  - apply (Hone pre x1 (x2 :: x3 :: x4 :: r)); [done|]. set_solver.
  - replace (Z.of_nat (length pre) + 1) with (Z.of_nat (length (pre ++ [x1])))
      by (rewrite length_app; cbn; lia).
    apply (Hone _ x2 (x3 :: x4 :: r)); [by rewrite <- app_assoc|]. set_solver.
  - replace (Z.of_nat (length pre) + 2) with (Z.of_nat (length (pre ++ [x1; x2])))
      by (rewrite length_app; cbn; lia).
    apply (Hone _ x3 (x4 :: r)); [by rewrite <- app_assoc|]. set_solver.
  - replace (Z.of_nat (length pre) + 3) with (Z.of_nat (length (pre ++ [x1; x2; x3])))
      by (rewrite length_app; cbn; lia).
    apply (Hone _ x4 r); [by rewrite <- app_assoc|]. set_solver.
Qed.

(** The loop on [base64 bs] behind [pre], with [out] already written. *)
(** Decoding the encoding of [bs] after [pre], with [out] already written. *)
Definition decodes_rest (bs : list Z) (fuel : nat) (pre out : list Z) : Prop :=
  (length (base64 bs) < fuel)%nat → Forall is_byte bs →
  Decode_loop fuel (pre ++ base64 bs) (Z.of_nat (length (pre ++ base64 bs)))
    (Z.of_nat (length (out ++ bs))) (Z.of_nat (length pre))
    (out ++ replicate (length bs) 0, Z.of_nat (length out)) = Ok (out ++ bs).

Lemma Decode_rest_one a fuel pre out : decodes_rest [a] fuel pre out.
Proof.
  intros Hf Hb. destruct fuel as [|fuel]; [lia|].
  apply Forall_cons in Hb as [Ha _].
  destruct (bytes3 a 0 0) as (Hn & B1 & _); [done|split; lia..|].
  rewrite Z.mul_0_l, !Z.add_0_r in Hn, B1. pose proof (group_ranges _ Hn) as (R1 & R2 & _).
  destruct (block_sextets pre [] (code (a * 65536 / 2 ^ 18)) (code (a * 65536 / 2 ^ 12 mod 64))
    pad pad (Z.of_nat (length pre)) (a * 65536 / 2 ^ 18) (a * 65536 / 2 ^ 12 mod 64) 0 0)
    as (S1 & S2 & S3 & S4); [done| |].
  { intros x v Hin. rewrite !elem_of_cons in Hin.
    destruct Hin as [[= -> ->]|[[= -> ->]|[[= -> ->]|[[= -> ->]|[]%not_elem_of_nil]]]]; auto. }
  rewrite (Decode_loop_step _ _ _ _ _ _ (a * 65536)).
  + rewrite B1. cbn [length]. rewrite emit_next by (rewrite length_app; cbn; lia). cbn [obind].
    rewrite emit_full by done. cbn [obind]. rewrite emit_full by done. cbn [obind].
    rewrite Decode_loop_stop by (rewrite length_app; cbn; lia). cbn. by rewrite app_nil_r.
  + rewrite length_app. cbn. lia.
  + done.
  + exact S1.
  + exact S2.
  + replace (a * 65536 / 2 ^ 6 mod 64) with 0; [exact S3|]. clear.
    change (2 ^ 6) with 64. Z.to_euclidean_division_equations. lia.
  + replace (a * 65536 mod 64) with 0; [exact S4|]. clear.
    Z.to_euclidean_division_equations. lia.
Qed.

Lemma Decode_rest_two a b fuel pre out : decodes_rest [a; b] fuel pre out.
Proof.
  intros Hf Hb. destruct fuel as [|fuel]; [lia|].
  apply Forall_cons in Hb as [Ha Hb]. apply Forall_cons in Hb as [Hb _].
  destruct (bytes3 a b 0) as (Hn & B1 & B2 & _); [done|done|split; lia|].
  rewrite Z.add_0_r in Hn, B1, B2. set (n := a * 65536 + b * 256) in *.
  pose proof (group_ranges _ Hn) as (R1 & R2 & R3 & _).
  destruct (block_sextets pre [] (code (n / 2 ^ 18)) (code (n / 2 ^ 12 mod 64))
    (code (n / 2 ^ 6 mod 64)) pad (Z.of_nat (length pre)) (n / 2 ^ 18) (n / 2 ^ 12 mod 64)
    (n / 2 ^ 6 mod 64) 0) as (S1 & S2 & S3 & S4); [done| |].
  { intros x v Hin. rewrite !elem_of_cons in Hin.
    destruct Hin as [[= -> ->]|[[= -> ->]|[[= -> ->]|[[= -> ->]|[]%not_elem_of_nil]]]]; auto. }
  rewrite (Decode_loop_step _ _ _ _ _ _ n).
  + rewrite B1, B2. cbn [length]. rewrite emit_next by (rewrite length_app; cbn; lia). cbn [obind].
    rewrite emit_next by (rewrite !length_app; cbn; lia). cbn [obind].
    rewrite emit_full by (cbn; rewrite !length_app; cbn; lia). cbn [obind].
    rewrite Decode_loop_stop by (rewrite length_app; cbn; lia). cbn.
    by rewrite app_nil_r, <- app_assoc.
  + rewrite length_app. cbn. lia.
  + done.
  + exact S1.
  + exact S2.
  + exact S3.
  + replace (n mod 64) with 0; [exact S4|]. unfold n. clear.
    Z.to_euclidean_division_equations. lia.
Qed.

Lemma Decode_rest_three a b c bs fuel pre out :
  (∀ fuel pre out, decodes_rest bs fuel pre out) → decodes_rest (a :: b :: c :: bs) fuel pre out.
Proof.
  intros IH Hf Hb. destruct fuel as [|fuel]; [lia|].
  apply Forall_cons in Hb as [Ha Hb]. apply Forall_cons in Hb as [Hb Hc'].
  apply Forall_cons in Hc' as [Hc Hbs]. cbn [base64].
  destruct (bytes3 a b c Ha Hb Hc) as (Hn & B1 & B2 & B3).
  set (n := a * 65536 + b * 256 + c) in *.
  pose proof (group_ranges _ Hn) as (R1 & R2 & R3 & R4).
  destruct (block_sextets pre (base64 bs) (code (n / 2 ^ 18)) (code (n / 2 ^ 12 mod 64))
    (code (n / 2 ^ 6 mod 64)) (code (n mod 64)) (Z.of_nat (length pre)) (n / 2 ^ 18)
    (n / 2 ^ 12 mod 64) (n / 2 ^ 6 mod 64) (n mod 64)) as (S1 & S2 & S3 & S4); [done| |].
  { intros x v Hin. rewrite !elem_of_cons in Hin.
    destruct Hin as [[= -> ->]|[[= -> ->]|[[= -> ->]|[[= -> ->]|[]%not_elem_of_nil]]]]; auto. }
  rewrite (Decode_loop_step _ _ _ _ _ _ n); [|rewrite length_app; cbn; lia|done..].
  rewrite B1, B2, B3. cbn [length].
  rewrite emit_next by (rewrite length_app; cbn; lia). cbn [obind].
  rewrite emit_next by (rewrite !length_app; cbn; lia). cbn [obind].
  rewrite emit_next by (rewrite !length_app; cbn; lia). cbn [obind].
  set (blk := [code (n / 2 ^ 18); code (n / 2 ^ 12 mod 64); code (n / 2 ^ 6 mod 64); code (n mod 64)]).
  specialize (IH fuel (pre ++ blk) (((out ++ [a]) ++ [b]) ++ [c])).
  unfold decodes_rest in IH.
  replace (Z.of_nat (length (pre ++ blk))) with (Z.of_nat (length pre) + 4) in IH
    by (rewrite length_app; cbn; lia).
  rewrite <- !app_assoc in IH. cbn [app blk] in IH. rewrite <- !app_assoc. cbn [app].
  apply IH; [cbn in Hf; lia|done].
Qed.

Lemma Decode_from bs fuel pre out : decodes_rest bs fuel pre out.
Proof.
  revert fuel pre out. induction bs as [|a|a b|a b c bs IH] using list_ind3; intros fuel pre out.
  - intros Hf _. destruct fuel as [|fuel]; [lia|].
    rewrite Decode_loop_stop by (rewrite length_app; cbn; lia). done.
  - apply Decode_rest_one.
  - apply Decode_rest_two.
  - by apply Decode_rest_three.
Qed.

(** The last two characters tell how many bytes the padding stands for. *)
Lemma base64_tail bs : bs ≠ [] → ∃ pre c2 c1,
  base64 bs = pre ++ [c2; c1] ∧
  Z.of_nat (length bs) = Z.of_nat (length (base64 bs)) / 4 * 3
    - (if c1 =? pad then 1 else 0) - (if c2 =? pad then 1 else 0).
Proof.
  induction bs as [|a|a b|a b c bs IH] using list_ind3; intros Hne; [done|..].
  - eexists [_; _], pad, pad. split; [reflexivity|]. reflexivity.
  - eexists [_; _], _, pad. split; [reflexivity|]. cbn [length base64].
    set (v := (a * 65536 + b * 256) / 2 ^ 6 mod 64).
    destruct (code_spec v) as (_ & Hp & _); [subst v; apply Z.mod_pos_bound; lia|].
    rewrite (proj2 (Z.eqb_neq _ _) Hp). reflexivity.
  - destruct (decide (bs = [])) as [->|Hbs].
    + cbn [base64]. set (n := a * 65536 + b * 256 + c).
      eexists [_; _], _, _. split; [reflexivity|].
      destruct (code_spec (n / 2 ^ 6 mod 64)) as (_ & Hp & _); [apply Z.mod_pos_bound; lia|].
      destruct (code_spec (n mod 64)) as (_ & Hp' & _); [apply Z.mod_pos_bound; lia|].
      rewrite (proj2 (Z.eqb_neq _ _) Hp), (proj2 (Z.eqb_neq _ _) Hp'). reflexivity.
    + destruct (IH Hbs) as (pre & c2 & c1 & E & Hlen). cbn [base64].
      set (n := a * 65536 + b * 256 + c).
      exists (code (n / 2 ^ 18) :: code (n / 2 ^ 12 mod 64) :: code (n / 2 ^ 6 mod 64) ::
        code (n mod 64) :: pre), c2, c1. split; [by rewrite E|].
      cbn [length]. rewrite !Nat2Z.inj_succ. rewrite Hlen.
      replace (Z.succ (Z.succ (Z.succ (Z.succ (Z.of_nat (length (base64 bs)))))))
        with (Z.of_nat (length (base64 bs)) + 1 * 4) by lia.
      rewrite Z.div_add by lia. lia.
Qed.

Lemma Decode_base64 bs :
  bs ≠ [] → Forall is_byte bs → Z.of_nat (length bs) < 2 ^ 62 → Decode (base64 bs) = Ok bs.
Proof.
  intros Hne Hbs Hlen. destruct (base64_tail bs Hne) as (pre & c2 & c1 & E & Ht).
  pose proof (base64_length bs) as Hl.
  assert (Hl2 : Z.of_nat (length (base64 bs)) = Z.of_nat (length pre) + 2)
    by (rewrite E, length_app; cbn; lia).
  unfold Decode. replace (Z.of_nat (length (base64 bs)) mod 4) with 0.
  2: { rewrite Hl. rewrite Z.mul_comm. symmetry. apply Z.mod_mul. lia. }
  cbn [Z.eqb negb].
  assert (Hsmall : 0 ≤ Z.of_nat (length (base64 bs)) < 2 ^ 64).
  { rewrite Hl. Z.to_euclidean_division_equations. lia. }
  rewrite !(wrap_u_id 64 (Z.of_nat (length (base64 bs)) - _)) by lia.
  assert (V1 : vec_at (base64 bs) (Z.of_nat (length (base64 bs)) - 1) = Ok c1).
  { rewrite E at 1. change [c2; c1] with ([c2] ++ [c1]). rewrite app_assoc. apply vec_at_middle.
    rewrite length_app. cbn. lia. }
  assert (V2 : vec_at (base64 bs) (Z.of_nat (length (base64 bs)) - 2) = Ok c2).
  { rewrite E at 1. apply vec_at_middle. lia. }
  rewrite V1, V2. cbn [obind].
  assert (Hout : (let out_len := Z.of_nat (length (base64 bs)) / 4 * 3 in
    let out_len := if c1 =? pad then wrap_u 64 (out_len - 1) else out_len in
    if c2 =? pad then wrap_u 64 (out_len - 1) else out_len) = Z.of_nat (length bs)).
  { cbn zeta. assert (0 < Z.of_nat (length bs)) by (destruct bs; cbn; [done|lia]).
    assert (0 ≤ Z.of_nat (length (base64 bs)) / 4 * 3 < 2 ^ 64)
      by (Z.to_euclidean_division_equations; lia).
    destruct (c1 =? pad), (c2 =? pad); rewrite ?(wrap_u_id 64 (_ / 4 * 3 - 1)) by lia;
      rewrite ?wrap_u_id by lia; lia. }
  cbn zeta in Hout. rewrite Hout, Nat2Z.id.
  pose proof (Decode_from bs (S (length (base64 bs))) [] []) as D. cbn [app] in D.
  apply D; [lia|done].
Qed.

(** C28. Round trip: [Decode] undoes [Encode] on every byte string of length two
    or more. *)
Theorem Decode_Encode bs (Hbs : Forall is_byte bs) (Hlen : 2 ≤ Z.of_nat (length bs) < 2 ^ 62) :
  (let! e := Encode bs in Decode e) = Ok bs.
Proof.
  rewrite Encode_base64 by done. cbn [obind]. apply Decode_base64; [|done|lia].
  intros ->. cbn in Hlen. lia.
Qed.

(** What [Decode] does with input that is not base64: a length that is not
    a multiple of four gives the empty string; the empty string is undefined
    ([input[in_len - 1]] with [in_len] 0); and a character above 127, negative
    where [char] is signed, indexes the decoding table out of range. *)
Theorem Decode_bad_input (input : list Z) c r :
  (Z.of_nat (length input) mod 4 ≠ 0 → Decode input = Ok []) ∧
  Decode [] = Fault OutOfRange ∧
  (c < 0 → Z.of_nat (length (c :: r)) mod 4 = 0 → Z.of_nat (length (c :: r)) < 2 ^ 62 →
   Decode (c :: r) = Fault OutOfRange).
Proof.
  split; [|split; [reflexivity|]].
  - intros Hm. unfold Decode. by rewrite (proj2 (Z.eqb_neq _ _) Hm).
  - intros Hc Hm Hsmall. unfold Decode. rewrite Hm. cbn [Z.eqb negb].
    set (n := Z.of_nat (length (c :: r))) in *.
    assert (4 ≤ n). { unfold n in *. cbn [length] in *. Z.to_euclidean_division_equations. lia. }
    assert (Hv : ∀ i, 0 ≤ i < n → ∃ x, vec_at (c :: r) i = Ok x).
    { intros i Hi. destruct (lookup_lt_is_Some_2 (c :: r) (Z.to_nat i)) as [x Hx]; [unfold n in *; lia|].
      exists x. apply vec_at_Ok. split; [lia|done]. }
    rewrite !wrap_u_id by lia. destruct (Hv (n - 1)) as [x1 ->]; [lia|].
    destruct (Hv (n - 2)) as [x2 ->]; [lia|]. cbn [obind].
    assert (S0 : sextet (c :: r) 0 = Fault OutOfRange).
    { unfold sextet. rewrite vec_at_0. cbn [obind]. rewrite (proj2 (Z.eqb_neq c pad)).
      - apply vec_at_oob. lia.
      - intros ->. vm_compute in Hc. discriminate. }
    generalize (if x2 =? pad then wrap_u 64 ((if x1 =? pad then wrap_u 64 (n / 4 * 3 - 1)
      else n / 4 * 3) - 1) else if x1 =? pad then wrap_u 64 (n / 4 * 3 - 1) else n / 4 * 3).
    intros out_len. cbn [Decode_loop]. rewrite (proj2 (Z.ltb_lt 0 n)) by lia. by rewrite S0.
Qed.
End DecodeSpec.

(** ** Evaluation on concrete strings *)

Definition bytes_of (s : string) : list Z := map char_code (String.list_ascii_of_string s).

Ltac bytes_now :=
  lazymatch goal with |- Forall is_byte ?l => change (Forall (λ b, 0 ≤ b < 256) l); decide_now end.

Lemma Encode_spec_witness :
  Encode (bytes_of "light work.") = Ok (bytes_of "bGlnaHQgd29yay4=") ∧
  Encode [65] = Fault OutOfRange ∧ Encode [] = Fault OutOfRange.
Proof.
  split; [|split]; (rewrite Encode_spec; [reflexivity|bytes_now|cbn; lia]).
Defined.

Lemma Decode_Encode_witness : (let! e := Encode [0; 255; 16; 7] in Decode e) = Ok [0; 255; 16; 7].
Proof. apply Decode_Encode; [bytes_now|cbn; lia]. Defined.

Lemma Decode_bad_input_witness :
  Decode (bytes_of "abc") = Ok [] ∧ Decode [-61; 65; 65; 65] = Fault OutOfRange.
Proof.
  split.
  - apply (Decode_bad_input (bytes_of "abc") 0 []). vm_compute. discriminate.
  - apply (Decode_bad_input [] (-61) [65; 65; 65]); [lia|reflexivity|cbn; lia].
Defined.
