(* ===== verification/UnicodeStringView.v ===== *)
(** * UnicodeStringView: a string in one of four encodings

    Models [include/footstone/unicode_string_view.h] and
    [src/footstone/unicode_string_view.cc]: a tag and a union of four
    [basic_string]s, whose lifetimes the class manages by hand.  A string is
    the list of its code units; the union remembers which member is alive, so
    that using or destroying another one is a fault, and the strings that were
    alive when another was constructed in their place: nothing can destroy
    those any more, they are leaked. *)

From S2P Require Import Prelude.

(** [enum class Encoding] *)
Inductive Encoding := Unkown | Latin1 | Utf8 | Utf16 | Utf32.

#[global] Instance Encoding_eq_dec : EqDecision Encoding.
Proof. solve_decision. Defined.

(** [encoding_] and the union: its live member, if any, and that member's
    code units.  [overwritten] is not a field of the class: the strings whose
    storage was reused while they were alive. *)
Record unicode_string_view := MkUsv {
  encoding_ : Encoding;
  live_member : option (Encoding * list Z);
  overwritten : list (Encoding * list Z)
}.
Implicit Types (v rhs source : unicode_string_view) (e : Encoding) (s : list Z).

(** The default constructor. *)
Definition usv_default : unicode_string_view := MkUsv Unkown None [].

(** The constructors from a string of encoding [e]. *)
Definition usv_new e s : unicode_string_view := MkUsv e (Some (e, s)) [].

(** The constructors from a pointer, with and without a length; [memory] is
    what lies at the pointer, to the end of its object. *)
Fixpoint until_nul (memory : list Z) : outcome (list Z) :=
  match memory with
  | [] => Fault OutOfRange
  | u :: memory => if u =? 0 then Ok [] else let! s := until_nul memory in Ok (u :: s)
  end.
Definition usv_new_terminated e (memory : list Z) : outcome unicode_string_view :=
  let! s := until_nul memory in Ok (usv_new e s).
Definition usv_new_sized e (memory : list Z) (length : nat) : outcome unicode_string_view :=
  let! _ := guard_f (length <=? List.length memory)%nat OutOfRange in
  Ok (usv_new e (take length memory)).

Definition new_from_utf8 := usv_new_terminated Utf8.
Definition new_from_utf8_sized := usv_new_sized Utf8.

(** The literals: the array of a literal ends with a null unit, and the
    operators get its length without it. *)
Definition literal_u8_ptr (u8 : list Z) : list Z := u8 ++ [0].
Definition literal_u8s (u8 : list Z) : outcome unicode_string_view :=
  new_from_utf8_sized (u8 ++ [0]) (length u8).

(** Reading the member of encoding [e]. *)
Definition member e v : outcome (list Z) :=
  match live_member v with
  | Some (e', s) => if decide (e' = e) then Ok s else Fault InactiveMember
  | None => Fault InactiveMember
  end.

(** [new (&member) basic_string(s)]: a string that is still alive in the union
    is not destroyed first. *)
Definition construct e s v : unicode_string_view :=
  MkUsv (encoding_ v) (Some (e, s)) (overwritten v ++ option_list (live_member v)).

(** [member = s]: the assignment of the string class, which frees what the
    member held. *)
Definition assign e s v : outcome unicode_string_view :=
  let! _ := member e v in Ok (MkUsv (encoding_ v) (Some (e, s)) (overwritten v)).

Definition set_encoding e v : unicode_string_view := MkUsv e (live_member v) (overwritten v).

(** The copy constructor. *)
Definition usv_copy source : outcome unicode_string_view :=
  match encoding_ source with
  | Unkown => Ok usv_default
  | e => let! s := member e source in Ok (usv_new e s)
  end.

Definition deallocate v : outcome unicode_string_view :=
  match encoding_ v with
  | Unkown => Ok (set_encoding Unkown v)
  | e => let! _ := member e v in Ok (MkUsv Unkown None (overwritten v))
  end.

(** [operator=(const unicode_string_view&)]; [same] says whether both sides are
    one object. *)
Definition assign_usv (same : bool) rhs v : outcome unicode_string_view :=
  if same then Ok v
  else
    let! v :=
      match encoding_ rhs with
      | Unkown => Ok v
      | e =>
          let! s := member e rhs in
          if decide (encoding_ v = e) then assign e s v
          else let! v := deallocate v in Ok (construct e s v)
      end in
    Ok (set_encoding (encoding_ rhs) v).

(** [operator=] from a narrow string ([const char*] and [const string&]). *)
Definition assign_latin1 s v : outcome unicode_string_view :=
  let! v :=
    if decide (encoding_ v = Latin1) then Ok v
    else let! v := deallocate v in Ok (set_encoding Latin1 (construct Latin1 [] v)) in
  assign Latin1 s v.

(** [operator=] from a string of another encoding: a value that already has
    this encoding is left alone. *)
Definition assign_wide e s v : outcome unicode_string_view :=
  if decide (encoding_ v = e) then Ok v
  else let! v := deallocate v in Ok (set_encoding e (construct e s v)).

Definition assign_utf8 := assign_wide Utf8.
Definition assign_utf16 := assign_wide Utf16.
Definition assign_utf32 := assign_wide Utf32.

(** The destructor.  The strings that are never destroyed: those that were
    overwritten, and what it leaves alive. *)
Definition usv_destroy v : outcome (list (Encoding * list Z)) :=
  let! v := deallocate v in Ok (overwritten v ++ option_list (live_member v)).

(** Comparison of two strings by their code units, as unsigned numbers. *)
Fixpoint units_lt s (s' : list Z) : bool :=
  match s, s' with
  | _, [] => false
  | [], _ :: _ => true
  | a :: s, b :: s' => if a <? b then true else if b <? a then false else units_lt s s'
  end.

(** The shape the six comparison operators share. *)
Definition compare_members (f : list Z → list Z → bool) v rhs : outcome bool :=
  match encoding_ v with
  | Unkown => Ok false
  | e => let! a := member e v in let! b := member e rhs in Ok (f a b)
  end.

Definition usv_eq v rhs : outcome bool :=
  if decide (encoding_ v = encoding_ rhs)
  then compare_members (λ a b, bool_decide (a = b)) v rhs else Ok false.
Definition usv_ne v rhs : outcome bool := negb <$> usv_eq v rhs.
Definition usv_lt v rhs : outcome bool :=
  if decide (encoding_ v = encoding_ rhs) then compare_members units_lt v rhs else Ok false.
Definition usv_gt v rhs : outcome bool :=
  if decide (encoding_ v = encoding_ rhs)
  then compare_members (λ a b, units_lt b a) v rhs else Ok false.
Definition usv_le v rhs : outcome bool :=
  if decide (encoding_ v = encoding_ rhs) then negb <$> usv_gt v rhs else Ok false.
Definition usv_ge v rhs : outcome bool :=
  if decide (encoding_ v = encoding_ rhs) then negb <$> usv_lt v rhs else Ok false.

Definition is_encoding e v : bool := bool_decide (encoding_ v = e).
Definition is_latin1 := is_encoding Latin1.
Definition is_utf8 := is_encoding Utf8.
Definition is_utf16 := is_encoding Utf16.
Definition is_utf32 := is_encoding Utf32.

(** The accessors: an [assert], then the member. *)
Definition checked_value (debug : bool) e v : outcome (list Z) :=
  let! _ := guard_f (negb debug || is_encoding e v) CheckFailed in member e v.
Definition latin1_value (debug : bool) := checked_value debug Latin1.
Definition utf8_value (debug : bool) := checked_value debug Utf8.
Definition utf16_value (debug : bool) := checked_value debug Utf16.
Definition utf32_value (debug : bool) := checked_value debug Utf32.

(** [std::hash<unicode_string_view>], given the hashes of the four string
    types. *)
Definition usv_hash (string_hash : Encoding → list Z → Z) v : outcome Z :=
  match encoding_ v with
  | Unkown => Ok 0
  | e => string_hash e <$> member e v
  end.

(** ** Properties *)

(** The tag names the live member, an empty value has none, and no string was
    overwritten while it was alive. *)
Definition usv_wf v : Prop :=
  match encoding_ v with
  | Unkown => live_member v = None
  | e => ∃ s, live_member v = Some (e, s)
  end ∧ overwritten v = [].

(** A well-formed value is the default one or a string with its encoding. *)
Lemma usv_wf_cases v :
  usv_wf v ↔ v = usv_default ∨ ∃ e s, e ≠ Unkown ∧ v = usv_new e s.
Proof.
  destruct v as [e m o]. unfold usv_wf, usv_default, usv_new. cbn. split.
  - intros [Hm ->]. destruct (decide (e = Unkown)) as [->|He]; [by left; f_equal|].
    right. assert (∃ s, m = Some (e, s)) as [s ->] by by destruct e. eauto.
  - intros [[= -> -> ->]|(e' & s & He & [= -> -> ->])]; [done|]. destruct e'; eauto; done.
Qed.

Lemma usv_wf_new e s : e ≠ Unkown → usv_wf (usv_new e s).
Proof. intros He. apply usv_wf_cases. eauto. Qed.

Lemma member_new e s : member e (usv_new e s) = Ok s.
Proof. unfold member. cbn. by rewrite decide_True. Qed.

(** The two literals differ: [_u8s] is the whole literal, while a value made
    from [_u8_ptr] ends before the first null unit of it. *)
Lemma literal_values u8 :
  literal_u8s u8 = Ok (usv_new Utf8 u8) ∧
  ∀ s rest, u8 = s ++ rest → Forall (λ u, u ≠ 0) s → head (rest ++ [0]) = Some 0 →
    new_from_utf8 (literal_u8_ptr u8) = Ok (usv_new Utf8 s).
Proof.
  split.
  - unfold literal_u8s, new_from_utf8_sized, usv_new_sized. rewrite length_app.
    rewrite (proj2 (Nat.leb_le (length u8) _)) by lia. cbn. by rewrite take_app_length.
  - intros s rest -> Hs Hh. unfold new_from_utf8, usv_new_terminated, literal_u8_ptr.
    rewrite <- app_assoc.
    enough (until_nul (s ++ rest ++ [0]) = Ok s) as -> by done.
    induction Hs as [|u s Hu Hs IH]; cbn.
    + by destruct rest as [|r rest]; cbn in *; simplify_eq.
    + rewrite (proj2 (Z.eqb_neq u 0)) by done. by rewrite IH.
Qed.

Lemma deallocate_wf v : usv_wf v → deallocate v = Ok usv_default.
Proof.
  intros [->|(e & s & He & ->)]%usv_wf_cases; [done|].
  by destruct e.
Qed.

Lemma usv_copy_wf v : usv_wf v → usv_copy v = Ok v.
Proof. intros [->|(e & s & He & ->)]%usv_wf_cases; [done|]. by destruct e. Qed.

Lemma assign_usv_wf v rhs :
  usv_wf v → usv_wf rhs → encoding_ rhs ≠ Unkown ∨ encoding_ v = Unkown →
  assign_usv false rhs v = Ok rhs.
Proof.
  intros [->|(e' & s' & He' & ->)]%usv_wf_cases [->|(e & s & He & ->)]%usv_wf_cases [Hne|Hne];
    cbn in Hne; try done; by destruct e; try destruct e'.
Qed.

Lemma assign_latin1_wf v s : usv_wf v → assign_latin1 s v = Ok (usv_new Latin1 s).
Proof.
  intros Hv. unfold assign_latin1. rewrite (deallocate_wf v Hv).
  apply usv_wf_cases in Hv as [->|(e & s' & He & ->)]; [done|]. by destruct e.
Qed.

Lemma assign_wide_wf v e s :
  usv_wf v → assign_wide e s v = Ok (if decide (encoding_ v = e) then v else usv_new e s).
Proof.
  intros Hv. unfold assign_wide. rewrite (deallocate_wf v Hv). by destruct (decide (encoding_ v = e)).
Qed.

Lemma usv_destroy_wf v : usv_wf v → usv_destroy v = Ok [].
Proof. intros Hv. unfold usv_destroy. by rewrite deallocate_wf. Qed.

(** Copying, and assigning from another value that holds a string, give a copy
    of it, whatever the target held before; what the target held is destroyed
    and no member is used that is not alive.  Destroying a well-formed value leaves nothing. *)
Theorem assign_usv_spec v rhs (Hv : usv_wf v) (Hrhs : usv_wf rhs) :
  usv_copy rhs = Ok rhs ∧
  assign_usv true rhs v = Ok v ∧
  (encoding_ rhs ≠ Unkown → assign_usv false rhs v = Ok rhs) ∧
  usv_destroy v = Ok [].
Proof.
  split; [by apply usv_copy_wf|]. split; [done|].
  split; [intros; apply assign_usv_wf; auto|by apply usv_destroy_wf].
Qed.

(** Assigning an empty value to one that holds a string leaks the string: only
    the tag changes, and since the tag then says that there is nothing to
    destroy, neither a later assignment nor the destructor frees it. *)
Theorem assign_empty_leaks e s rhs (He : e ≠ Unkown) (Hrhs : encoding_ rhs = Unkown) :
  ∃ v', assign_usv false rhs (usv_new e s) = Ok v' ∧ encoding_ v' = Unkown ∧
    ¬ usv_wf v' ∧ usv_destroy v' = Ok [(e, s)] ∧
    ∀ s', assign_latin1 s' v' = Ok (MkUsv Latin1 (Some (Latin1, s')) [(e, s)]).
Proof.
  exists (MkUsv Unkown (Some (e, s)) []). unfold assign_usv. rewrite Hrhs.
  split; [done|]. split; [done|]. by split; [intros []|].
Qed.

(** Assigning a string of a known encoding gives a value that holds it —
    unless the target already held a UTF-8, UTF-16 or UTF-32 string of the
    same encoding, in which case the assignment does nothing.  Only Latin-1
    assignments always take effect. *)
Theorem assign_string_spec v s (Hv : usv_wf v) :
  assign_latin1 s v = Ok (usv_new Latin1 s) ∧
  ∀ e, e = Utf8 ∨ e = Utf16 ∨ e = Utf32 →
    assign_wide e s v = Ok (if decide (encoding_ v = e) then v else usv_new e s).
Proof. split; [by apply assign_latin1_wf|intros e _; by apply assign_wide_wf]. Qed.

Lemma units_lt_irrefl s : units_lt s s = false.
Proof. induction s as [|a s IH]; cbn; [done|]. by rewrite Z.ltb_irrefl. Qed.

Lemma units_lt_trans s1 s2 s3 :
  units_lt s1 s2 = true → units_lt s2 s3 = true → units_lt s1 s3 = true.
Proof.
  revert s2 s3. induction s1 as [|a s1 IH]; intros [|b s2] [|c s3]; cbn; try done.
  destruct (Z.ltb_spec a b), (Z.ltb_spec b a), (Z.ltb_spec b c), (Z.ltb_spec c b),
    (Z.ltb_spec a c), (Z.ltb_spec c a); try done; try lia. apply IH.
Qed.

Lemma units_lt_total s1 s2 : s1 = s2 ∨ units_lt s1 s2 = true ∨ units_lt s2 s1 = true.
Proof.
  revert s2. induction s1 as [|a s1 IH]; intros [|b s2]; cbn; auto.
  destruct (Z.ltb_spec a b), (Z.ltb_spec b a); auto.
  assert (a = b) as -> by lia. destruct (IH s2) as [->|[?|?]]; auto.
Qed.

Lemma compare_new f e s s' :
  e ≠ Unkown → compare_members f (usv_new e s) (usv_new e s') = Ok (f s s').
Proof.
  intros He. unfold compare_members. by destruct e.
Qed.

(** On the strings of one encoding the comparisons are those of a total order:
    equality is equality of the code units, [<] is irreflexive and transitive,
    exactly one of [<], [==], [>] holds, [<=] and [>=] are the negations of [>]
    and [<], and equal values hash alike. *)
Theorem usv_order e (He : e ≠ Unkown) s1 s2 s3 (string_hash : Encoding → list Z → Z) :
  let v1 := usv_new e s1 in let v2 := usv_new e s2 in let v3 := usv_new e s3 in
  usv_eq v1 v2 = Ok (bool_decide (s1 = s2)) ∧
  usv_lt v1 v1 = Ok false ∧
  (usv_lt v1 v2 = Ok true → usv_lt v2 v3 = Ok true → usv_lt v1 v3 = Ok true) ∧
  (usv_eq v1 v2 = Ok true ∨ usv_lt v1 v2 = Ok true ∨ usv_gt v1 v2 = Ok true) ∧
  (usv_lt v1 v2 = Ok true → usv_eq v1 v2 = Ok false ∧ usv_gt v1 v2 = Ok false) ∧
  usv_le v1 v2 = negb <$> usv_gt v1 v2 ∧ usv_ge v1 v2 = negb <$> usv_lt v1 v2 ∧
  (usv_eq v1 v2 = Ok true → usv_hash string_hash v1 = usv_hash string_hash v2).
Proof.
  cbn zeta. unfold usv_eq, usv_le, usv_ge, usv_lt, usv_gt. cbn [encoding_ usv_new].
  rewrite !decide_True, !compare_new by done.
  split; [done|]. split; [by rewrite units_lt_irrefl|]. split; [|split; [|split]].
  - intros [= H1] [= H2]. f_equal. by eapply units_lt_trans.
  - destruct (units_lt_total s1 s2) as [-> | [-> | ->]]; auto. left. by rewrite bool_decide_true.
  - intros [= Hlt]. split.
    + f_equal. apply bool_decide_false. intros ->. by rewrite units_lt_irrefl in Hlt.
    + f_equal. destruct (units_lt s2 s1) eqn:E; [|done].
      pose proof (units_lt_trans _ _ _ Hlt E) as Hn. by rewrite units_lt_irrefl in Hn.
  - split; [done|]. split; [done|]. intros [= Heq]. by apply bool_decide_eq_true_1 in Heq as ->.
Qed.

(** Across encodings they are not an order: an empty value is neither equal to
    itself nor less than itself, and yet [<=] itself; and values of different
    encodings are equivalent to everything, so equivalence is not transitive —
    [<] is not the strict weak ordering [std::map] and [std::sort] need. *)
Theorem usv_order_mixed :
  (usv_eq usv_default usv_default = Ok false ∧ usv_le usv_default usv_default = Ok true) ∧
  ∃ v1 v2 v3, usv_wf v1 ∧ usv_wf v2 ∧ usv_wf v3 ∧
    usv_lt v1 v2 = Ok false ∧ usv_lt v2 v1 = Ok false ∧
    usv_lt v2 v3 = Ok false ∧ usv_lt v3 v2 = Ok false ∧ usv_lt v1 v3 = Ok true.
Proof.
  split; [done|]. exists (usv_new Latin1 [97]), (usv_new Utf16 [98]), (usv_new Latin1 [99]).
  do 3 (split; [by apply usv_wf_new|]). by repeat split.
Qed.

(** An accessor gives the string of a value of its encoding; asked for another
    encoding it aborts in debug builds and reads a union member that is not
    alive in release builds. *)
Theorem checked_value_spec debug e v (Hv : usv_wf v) (He : e ≠ Unkown) :
  (∀ s, v = usv_new e s → checked_value debug e v = Ok s) ∧
  (encoding_ v ≠ e →
     checked_value debug e v = Fault (if debug then CheckFailed else InactiveMember)).
Proof.
  split.
  - intros s ->. unfold checked_value, is_encoding. cbn [encoding_ usv_new].
    rewrite bool_decide_true, orb_true_r by done. apply member_new.
  - intros Hne. unfold checked_value, is_encoding. rewrite bool_decide_false by done.
    destruct debug; [done|]. cbn. unfold member.
    apply usv_wf_cases in Hv as [->|(e' & s & He' & ->)]; [done|].
    cbn in *. by rewrite decide_False.
Qed.

(** ** Witnesses *)

Lemma assign_usv_spec_witness :
  assign_usv false (usv_new Utf16 [1; 2]) (usv_new Utf8 [3]) = Ok (usv_new Utf16 [1; 2]).
Proof.
  refine (proj1 (proj2 (proj2 (assign_usv_spec (usv_new Utf8 [3]) (usv_new Utf16 [1; 2]) _ _))) _);
    [by apply usv_wf_new|by apply usv_wf_new|discriminate].
Defined.

Lemma assign_empty_leaks_witness :
  ∃ v', assign_usv false usv_default (usv_new Utf8 [3]) = Ok v' ∧
    usv_destroy v' = Ok [(Utf8, [3])].
Proof.
  destruct (assign_empty_leaks Utf8 [3] usv_default ltac:(discriminate) eq_refl)
    as (v' & E & _ & _ & Hd & _).
  exists v'. split; [exact E|exact Hd].
Defined.

Lemma assign_string_spec_witness :
  assign_utf16 [5] (usv_new Utf16 [1; 2]) = Ok (usv_new Utf16 [1; 2]) ∧
  assign_latin1 [5] (usv_new Latin1 [1; 2]) = Ok (usv_new Latin1 [5]).
Proof.
  split.
  - exact (proj2 (assign_string_spec (usv_new Utf16 [1; 2]) [5] ltac:(by apply usv_wf_new)) Utf16
      ltac:(auto)).
  - exact (proj1 (assign_string_spec (usv_new Latin1 [1; 2]) [5] ltac:(by apply usv_wf_new))).
Defined.

Lemma usv_order_witness : usv_eq (usv_new Utf8 [1]) (usv_new Utf8 [2]) = Ok false.
Proof. exact (proj1 (usv_order Utf8 ltac:(discriminate) [1] [2] [3] (λ _ _, 0))). Defined.

Lemma checked_value_spec_witness : checked_value false Utf8 (usv_new Utf16 [1]) = Fault InactiveMember.
Proof.
  refine (proj2 (checked_value_spec false Utf8 (usv_new Utf16 [1]) _ _) _);
    [by apply usv_wf_new|discriminate|discriminate].
Defined.
