(* ===== verification/StringTyping.v ===== *)
(** * StringTyping: programs that use [unicode_string_view] objects

    The union inside a [unicode_string_view] is managed by hand: the tag must
    name the live member for every accessor, assignment and destructor to be
    defined.  Here a program is a sequence of declarations, assignments, reads,
    comparisons and destructions of such objects, run with the operations of
    UnicodeStringView.v, and a static discipline assigns every object the
    encoding it has at each point.  The soundness theorem says that the
    discipline is enough: a program that follows it uses no dead member and
    leaks no string. *)

From S2P Require Import Prelude UnicodeStringView.

(** Objects are named by numbers. *)
Inductive usv_op :=
  | OpDeclare (x : nat)
  | OpDeclareString (x : nat) (e : Encoding) (str : list Z)
  | OpDeclareCopy (x y : nat)
  | OpAssign (x y : nat)
  | OpAssignNarrow (x : nat) (str : list Z)
  | OpAssignWide (x : nat) (e : Encoding) (str : list Z)
  | OpValue (x : nat) (e : Encoding)
  | OpLess (x y : nat)
  | OpEnd (x : nat).

(** The objects alive, and the strings that were never destroyed. *)
Record usv_store := MkStore {
  objects : gmap nat unicode_string_view;
  leaked : list (Encoding * list Z)
}.
Implicit Types (st : usv_store) (x y : nat) (e : Encoding).

Definition object x st : outcome unicode_string_view := of_option NullDeref (objects st !! x).
Definition set_object x v st : usv_store := MkStore (<[x := v]> (objects st)) (leaked st).

(** Running one operation; [debug] builds check the accessors' assertions. *)
Definition run_op (debug : bool) (op : usv_op) st : outcome usv_store :=
  match op with
  | OpDeclare x => Ok (set_object x usv_default st)
  | OpDeclareString x e str => Ok (set_object x (usv_new e str) st)
  | OpDeclareCopy x y =>
      let! source := object y st in
      let! v := usv_copy source in Ok (set_object x v st)
  | OpAssign x y =>
      let! v := object x st in
      let! rhs := object y st in
      let! v := assign_usv (x =? y)%nat rhs v in Ok (set_object x v st)
  | OpAssignNarrow x str =>
      let! v := object x st in
      let! v := assign_latin1 str v in Ok (set_object x v st)
  | OpAssignWide x e str =>
      let! v := object x st in
      let! v := assign_wide e str v in Ok (set_object x v st)
  | OpValue x e =>
      let! v := object x st in
      let! _ := checked_value debug e v in Ok st
  | OpLess x y =>
      let! v := object x st in
      let! rhs := object y st in
      let! _ := usv_lt v rhs in Ok st
  | OpEnd x =>
      let! v := object x st in
      let! rest := usv_destroy v in
      Ok (MkStore (delete x (objects st)) (leaked st ++ rest))
  end.

Fixpoint run_ops (debug : bool) (ops : list usv_op) st : outcome usv_store :=
  match ops with
  | [] => Ok st
  | op :: ops => let! st := run_op debug op st in run_ops debug ops st
  end.

(** ** The discipline *)

(** The encodings of the objects after an operation, if the operation is
    allowed: objects are declared once and not used afterwards, a string has an
    encoding, an accessor is the one of the encoding, and an empty value is
    only assigned to an empty one or to itself. *)
Definition check_op (op : usv_op) (types : gmap nat Encoding) : option (gmap nat Encoding) :=
  match op with
  | OpDeclare x => guard (types !! x = None);; Some (<[x := Unkown]> types)
  | OpDeclareString x e _ =>
      guard (types !! x = None ∧ e ≠ Unkown);; Some (<[x := e]> types)
  | OpDeclareCopy x y =>
      guard (types !! x = None);; e ← types !! y; Some (<[x := e]> types)
  | OpAssign x y =>
      t ← types !! x; e ← types !! y;
      guard (x = y ∨ e ≠ Unkown ∨ t = Unkown);; Some (<[x := e]> types)
  | OpAssignNarrow x _ => _ ← types !! x; Some (<[x := Latin1]> types)
  | OpAssignWide x e _ =>
      _ ← types !! x; guard (e ≠ Unkown ∧ e ≠ Latin1);; Some (<[x := e]> types)
  | OpValue x e => guard (types !! x = Some e ∧ e ≠ Unkown);; Some types
  | OpLess x y => _ ← types !! x; _ ← types !! y; Some types
  | OpEnd x => _ ← types !! x; Some (delete x types)
  end.

Fixpoint check_ops (ops : list usv_op) (types : gmap nat Encoding) : option (gmap nat Encoding) :=
  match ops with
  | [] => Some types
  | op :: ops => types ← check_op op types; check_ops ops types
  end.

(** A store whose objects are well formed and have the encodings given. *)
Record store_ok (types : gmap nat Encoding) st : Prop := {
  so_types : encoding_ <$> objects st = types;
  so_wf : map_Forall (λ _, usv_wf) (objects st);
  so_leaked : leaked st = []
}.

Lemma store_ok_object types st x e :
  store_ok types st → types !! x = Some e →
  ∃ v, object x st = Ok v ∧ encoding_ v = e ∧ usv_wf v.
Proof.
  intros [Ht Hw _]. rewrite <- Ht, lookup_fmap. unfold object.
  destruct (objects st !! x) as [v|] eqn:E; [|done]. intros [= <-].
  exists v. split; [done|]. split; [done|]. by apply (Hw x).
Qed.

Lemma store_ok_set types st x v :
  store_ok types st → usv_wf v → store_ok (<[x := encoding_ v]> types) (set_object x v st).
Proof.
  intros [Ht Hw Hl] Hv. split; cbn; [|by apply map_Forall_insert_2|done].
  by rewrite fmap_insert, Ht.
Qed.

(** Progress and preservation, one operation at a time. *)
Lemma check_op_sound debug op types types' st :
  check_op op types = Some types' → store_ok types st →
  ∃ st', run_op debug op st = Ok st' ∧ store_ok types' st'.
Proof.
  intros Hc Hst. destruct op as [x|x e str|x y|x y|x str|x e str|x e|x y|x]; cbn in *.
  - case_guard; [|done]. injection Hc as <-. eexists. split; [done|].
    by apply (store_ok_set types st x usv_default).
  - case_guard as Hg; [|done]. injection Hc as <-. eexists. split; [done|].
    apply (store_ok_set types st x (usv_new e str)); [done|]. apply usv_wf_new; tauto.
  - case_guard; [|done]. destruct (types !! y) as [e|] eqn:Hy; [|done]. injection Hc as <-.
    destruct (store_ok_object _ _ _ _ Hst Hy) as (v & -> & <- & Hv). cbn.
    rewrite usv_copy_wf by done. eexists. split; [done|]. by apply store_ok_set.
  - destruct (types !! x) as [t|] eqn:Hx; [|done]. destruct (types !! y) as [e|] eqn:Hy; [|done].
    cbn in Hc. case_guard as Hg; [|done]. injection Hc as <-.
    destruct (store_ok_object _ _ _ _ Hst Hx) as (v & -> & <- & Hv).
    destruct (store_ok_object _ _ _ _ Hst Hy) as (rhs & -> & <- & Hr). cbn [obind].
    destruct (Nat.eqb_spec x y) as [->|Hne].
    + rewrite Hx in Hy. injection Hy as <-. eexists. split; [done|]. by apply store_ok_set.
    + rewrite assign_usv_wf by naive_solver. eexists. split; [done|]. by apply store_ok_set.
  - destruct (types !! x) as [t|] eqn:Hx; [|done]. injection Hc as <-.
    destruct (store_ok_object _ _ _ _ Hst Hx) as (v & -> & _ & Hv). cbn.
    rewrite assign_latin1_wf by done. eexists. split; [done|].
    apply (store_ok_set types st x (usv_new Latin1 str)); [done|]. by apply usv_wf_new.
  - destruct (types !! x) as [t|] eqn:Hx; [|done]. cbn in Hc. case_guard as Hg; [|done].
    injection Hc as <-. destruct (store_ok_object _ _ _ _ Hst Hx) as (v & -> & _ & Hv). cbn.
    rewrite assign_wide_wf by done. eexists. split; [done|]. destruct (decide (encoding_ v = e)) as [<-|].
    + by apply store_ok_set.
    + apply (store_ok_set types st x (usv_new e str)); [done|]. apply usv_wf_new. tauto.
  - case_guard as Hg; [|done]. injection Hc as <-. destruct Hg as [Hx He].
    destruct (store_ok_object _ _ _ _ Hst Hx) as (v & -> & <- & Hv). cbn.
    apply usv_wf_cases in Hv as [->|(e & s & _ & ->)]; [done|].
    unfold checked_value, is_encoding. cbn [encoding_ usv_new]. rewrite bool_decide_true, orb_true_r by done.
    cbn [guard_f obind]. rewrite member_new. by exists st.
  - destruct (types !! x) as [t|] eqn:Hx; [|done]. destruct (types !! y) as [e|] eqn:Hy; [|done].
    injection Hc as <-. destruct (store_ok_object _ _ _ _ Hst Hx) as (v & -> & _ & Hv).
    destruct (store_ok_object _ _ _ _ Hst Hy) as (rhs & -> & _ & Hr). cbn. unfold usv_lt.
    destruct (decide _) as [E|]; [|by exists st].
    apply usv_wf_cases in Hv as [->|(e1 & s1 & He1 & ->)]; [by exists st|].
    apply usv_wf_cases in Hr as [->|(e2 & s2 & He2 & ->)]; [done|]. cbn in E. subst e2.
    rewrite compare_new by done. by exists st.
  - destruct (types !! x) as [t|] eqn:Hx; [|done]. injection Hc as <-.
    destruct (store_ok_object _ _ _ _ Hst Hx) as (v & -> & _ & Hv). cbn.
    rewrite usv_destroy_wf by done. eexists. split; [done|]. destruct Hst as [Ht Hw Hl]. split; cbn.
    + by rewrite fmap_delete, Ht.
    + by apply map_Forall_delete.
    + by rewrite Hl.
Qed.

(** C27. Soundness of the discipline: a program accepted by [check_ops] runs to its
    end without a fault, in debug and in release builds, whatever its strings
    are — no accessor, assignment, comparison or destructor ever touches a
    union member that is not alive, each object ends with the encoding the
    discipline says, its tag naming its live member — and no string is leaked:
    none was alive when another was constructed in its place ([usv_wf]), and
    none was left alive by a destructor. *)
Theorem usv_programs_sound debug ops types (Hc : check_ops ops ∅ = Some types) :
  ∃ st, run_ops debug ops (MkStore ∅ []) = Ok st ∧ store_ok types st.
Proof.
  assert (Hst : store_ok ∅ (MkStore ∅ [])) by (split; [apply fmap_empty|apply map_Forall_empty|done]).
  revert Hc Hst. generalize (∅ : gmap nat Encoding) (MkStore ∅ []).
  induction ops as [|op ops IH]; intros types0 st Hc Hst; cbn in *; [by injection Hc as <-; eauto|].
  apply bind_Some in Hc as (types1 & Hop & Hc).
  destruct (check_op_sound debug op types0 types1 st Hop Hst) as (st1 & -> & Hst1). by eapply IH.
Qed.

(** The discipline rejects the leak of [assign_empty_leaks] and a read through
    the wrong accessor, and both do go wrong. *)
Theorem usv_programs_rejected :
  (check_ops [OpDeclareString 0 Utf8 [104]; OpDeclare 1; OpAssign 0 1; OpEnd 0] ∅ = None ∧
   leaked <$> run_ops true [OpDeclareString 0 Utf8 [104]; OpDeclare 1; OpAssign 0 1; OpEnd 0] (MkStore ∅ []) =
     Ok [(Utf8, [104])]) ∧
  (check_ops [OpDeclareString 0 Utf8 [104]; OpValue 0 Utf16] ∅ = None ∧
   run_ops false [OpDeclareString 0 Utf8 [104]; OpValue 0 Utf16] (MkStore ∅ []) = Fault InactiveMember).
Proof. repeat split; vm_compute; reflexivity. Qed.

Definition usv_sample : list usv_op :=
  [OpDeclareString 0 Utf16 [104; 105]; OpDeclareCopy 1 0; OpDeclare 2; OpAssign 2 1;
   OpAssignNarrow 1 [120]; OpValue 1 Latin1; OpLess 0 2; OpAssignWide 2 Utf8 [200; 180]; OpAssign 0 0;
   OpValue 2 Utf8; OpEnd 0; OpEnd 1].

Lemma usv_programs_sound_witness :
  ∃ st, run_ops true usv_sample (MkStore ∅ []) = Ok st ∧ leaked st = [].
Proof.
  assert (Hc : check_ops usv_sample ∅ = Some {[ 2%nat := Utf8 ]}) by (vm_compute; reflexivity).
  destruct (usv_programs_sound true usv_sample _ Hc) as (st & E & [_ _ Hl]).
  exists st. split; [exact E|exact Hl].
Defined.
