(* ===== verification/Printing.v ===== *)
(** * Printing: a [unicode_string_view] written to a log stream

    Models [operator<<] of [include/footstone/logging.h]: what each encoding
    puts on the stream.  UTF-16 and UTF-32 go through
    [std::wstring_convert] with [std::codecvt_utf8_utf16], which is modelled as
    the standard describes it: pairs of surrogates combine, a surrogate that is
    not part of a pair is a conversion error ([std::range_error]).  What the
    standard leaves to the implementation are arguments: a pair cut short by
    the end of the string, and elements of a UTF-32 string above 16 bits, which
    are no UTF-16 code units.  The result is checked against UTF-8 as RFC 3629
    defines it.  A byte is a [Z] in [0, 256). *)

From S2P Require Import Prelude UnicodeStringView.

(** ** UTF-8 *)

(** The bytes of a code point (of at most 21 bits). *)
Definition utf8_encode (c : Z) : list Z :=
  if c <? 2 ^ 7 then [c]
  else if c <? 2 ^ 11 then [192 + c / 2 ^ 6; 128 + c mod 2 ^ 6]
  else if c <? 2 ^ 16 then [224 + c / 2 ^ 12; 128 + c / 2 ^ 6 mod 2 ^ 6; 128 + c mod 2 ^ 6]
  else [240 + c / 2 ^ 18; 128 + c / 2 ^ 12 mod 2 ^ 6; 128 + c / 2 ^ 6 mod 2 ^ 6; 128 + c mod 2 ^ 6].

Definition high_surrogate (u : Z) : bool := (55296 <=? u) && (u <? 56320).
Definition low_surrogate (u : Z) : bool := (56320 <=? u) && (u <? 57344).

(** ** [std::wstring_convert<std::codecvt_utf8_utf16<Elem>, Elem>::to_bytes] *)

Section ToBytes.
(** Implementation-defined: a high surrogate at the very end, and an element
    that does not fit 16 bits. *)
Variables (unfinished : outcome (list Z)) (wide : Z → outcome (list Z)).

Fixpoint to_bytes (s : list Z) : outcome (list Z) :=
  match s with
  | [] => Ok []
  | u :: s =>
      if high_surrogate u then
        match s with
        | [] => unfinished
        | v :: s =>
            if low_surrogate v then
              let! rest := to_bytes s in
              Ok (utf8_encode (2 ^ 16 + (u - 55296) * 2 ^ 10 + (v - 56320)) ++ rest)
            else Fault Thrown
        end
      else if low_surrogate u then Fault Thrown
      else
        let! bytes := if u <? 2 ^ 16 then Ok (utf8_encode u) else wide u in
        let! rest := to_bytes s in Ok (bytes ++ rest)
  end.

(** [operator<<(std::ostream&, const unicode_string_view&)]: what is appended
    to the stream. *)
Definition print_usv (debug : bool) (v : unicode_string_view) : outcome (list Z) :=
  match encoding_ v with
  | Latin1 => latin1_value debug v
  | Utf16 => let! str := utf16_value debug v in to_bytes str
  | Utf32 => let! str := utf32_value debug v in to_bytes str
  | Utf8 => utf8_value debug v
  | Unkown => let! _ := guard_f (negb debug) CheckFailed in Ok []
  end.
End ToBytes.

(** ** References *)

(** A Unicode scalar value. *)
Definition scalar (c : Z) : Prop := 0 ≤ c < 55296 ∨ 57344 ≤ c < 1114112.

(** UTF-16 (RFC 2781). *)
Definition utf16_encode (c : Z) : list Z :=
  if c <? 2 ^ 16 then [c]
  else [55296 + (c - 2 ^ 16) / 2 ^ 10; 56320 + (c - 2 ^ 16) mod 2 ^ 10].

(** UTF-8 decoding (RFC 3629), which refuses overlong forms, surrogates and
    what lies beyond the last code point. *)
Definition continues (b : Z) : bool := (128 <=? b) && (b <? 192).
Definition decoded (c : Z) (lowest : Z) (rest : option (list Z)) : option (list Z) :=
  if (c <? lowest) || high_surrogate c || low_surrogate c || (1114112 <=? c) then None
  else cons c <$> rest.

Fixpoint utf8_decode (bs : list Z) : option (list Z) :=
  match bs with
  | [] => Some []
  | a :: bs =>
      if a <? 128 then cons a <$> utf8_decode bs
      else match bs with
      | [] => None
      | b :: bs =>
          if negb (continues b) then None
          else if (192 <=? a) && (a <? 224)
          then decoded ((a - 192) * 2 ^ 6 + (b - 128)) (2 ^ 7) (utf8_decode bs)
          else match bs with
          | [] => None
          | c :: bs =>
              if negb (continues c) then None
              else if (224 <=? a) && (a <? 240)
              then decoded ((a - 224) * 2 ^ 12 + (b - 128) * 2 ^ 6 + (c - 128)) (2 ^ 11) (utf8_decode bs)
              else match bs with
              | [] => None
              | d :: bs =>
                  if negb (continues d) then None
                  else if (240 <=? a) && (a <? 248)
                  then decoded ((a - 240) * 2 ^ 18 + (b - 128) * 2 ^ 12 + (c - 128) * 2 ^ 6 + (d - 128))
                         (2 ^ 16) (utf8_decode bs)
                  else None
              end
          end
      end
  end.

(** ** Properties *)

(** Decide the comparisons of a goal by arithmetic. *)
Ltac tests :=
  repeat match goal with
  | |- context [?a <? ?b] => first [rewrite (proj2 (Z.ltb_lt a b)) by lia | rewrite (proj2 (Z.ltb_ge a b)) by lia]
  | |- context [?a <=? ?b] => first [rewrite (proj2 (Z.leb_le a b)) by lia | rewrite (proj2 (Z.leb_gt a b)) by lia]
  end; cbn [andb orb negb].

Lemma decoded_scalar c lowest rest :
  scalar c → lowest ≤ c → decoded c lowest rest = cons c <$> rest.
Proof.
  intros Hc Hl. unfold decoded, high_surrogate, low_surrogate.
  destruct Hc as [Hc|Hc]; tests; reflexivity.
Qed.

Lemma utf8_decode_encode c rest :
  scalar c → utf8_decode (utf8_encode c ++ rest) = cons c <$> utf8_decode rest.
Proof.
  intros Hc. assert (H0 : 0 ≤ c < 1114112) by (destruct Hc; lia). unfold utf8_encode.
  pose proof (Z.div_mod c (2 ^ 6) ltac:(lia)). pose proof (Z.mod_pos_bound c (2 ^ 6) ltac:(lia)).
  pose proof (Z.div_mod (c / 2 ^ 6) (2 ^ 6) ltac:(lia)).
  pose proof (Z.mod_pos_bound (c / 2 ^ 6) (2 ^ 6) ltac:(lia)).
  pose proof (Z.div_mod (c / 2 ^ 12) (2 ^ 6) ltac:(lia)).
  pose proof (Z.mod_pos_bound (c / 2 ^ 12) (2 ^ 6) ltac:(lia)).
  assert (E12 : c / 2 ^ 6 / 2 ^ 6 = c / 2 ^ 12) by (rewrite Z.div_div by lia; reflexivity).
  assert (E18 : c / 2 ^ 12 / 2 ^ 6 = c / 2 ^ 18) by (rewrite Z.div_div by lia; reflexivity).
  rewrite E12, E18 in *.
  destruct (Z.ltb_spec c (2 ^ 7)); [|destruct (Z.ltb_spec c (2 ^ 11)); [|destruct (Z.ltb_spec c (2 ^ 16))]];
    cbn [app utf8_decode]; unfold continues; tests.
  - reflexivity.
  - rewrite <- (decoded_scalar c (2 ^ 7)) by (done || lia). f_equal. lia.
  - rewrite <- (decoded_scalar c (2 ^ 11)) by (done || lia). f_equal. lia.
  - rewrite <- (decoded_scalar c (2 ^ 16)) by (done || lia). f_equal. lia.
Qed.

Lemma utf8_decode_all cs rest :
  Forall scalar cs → utf8_decode (concat (map utf8_encode cs) ++ rest) = app cs <$> utf8_decode rest.
Proof.
  induction 1 as [|c cs Hc Hcs IH]; cbn; [by destruct (utf8_decode rest)|].
  rewrite <- app_assoc, utf8_decode_encode, IH by done. by destruct (utf8_decode rest).
Qed.

Section Converting.
Variables (unfinished : outcome (list Z)) (wide : Z → outcome (list Z)).
Notation to_bytes := (to_bytes unfinished wide).

Lemma to_bytes_utf16 c rest :
  scalar c → to_bytes (utf16_encode c ++ rest) = (λ bs, utf8_encode c ++ bs) <$> to_bytes rest.
Proof.
  intros Hc. unfold utf16_encode. destruct (Z.ltb_spec c (2 ^ 16)).
  - cbn. unfold high_surrogate, low_surrogate.
    destruct Hc as [Hc|Hc]; tests; cbn; by destruct (to_bytes rest).
  - assert (Hc' : 2 ^ 16 ≤ c < 1114112) by (destruct Hc; lia).
    pose proof (Z.div_mod (c - 2 ^ 16) (2 ^ 10) ltac:(lia)).
    pose proof (Z.mod_pos_bound (c - 2 ^ 16) (2 ^ 10) ltac:(lia)).
    cbn [app Printing.to_bytes]. unfold high_surrogate, low_surrogate. tests.
    replace (2 ^ 16 + (55296 + (c - 2 ^ 16) / 2 ^ 10 - 55296) * 2 ^ 10 +
             (56320 + (c - 2 ^ 16) mod 2 ^ 10 - 56320)) with c by lia.
    by destruct (to_bytes rest).
Qed.

Lemma to_bytes_utf16_all cs :
  Forall scalar cs → to_bytes (concat (map utf16_encode cs)) = Ok (concat (map utf8_encode cs)).
Proof.
  induction 1 as [|c cs Hc Hcs IH]; cbn [map concat]; [done|]. by rewrite to_bytes_utf16, IH.
Qed.

Lemma to_bytes_bmp cs :
  Forall (λ c, scalar c ∧ c < 2 ^ 16) cs → to_bytes cs = Ok (concat (map utf8_encode cs)).
Proof.
  intros Hcs. rewrite <- to_bytes_utf16_all by (eapply Forall_impl; [exact Hcs|]; by intros c []).
  f_equal. induction Hcs as [|c cs [_ Hc] Hcs IH]; [done|]. cbn. rewrite <- IH.
  unfold utf16_encode. by tests.
Qed.

(** C30. Printing a UTF-16 string, or a UTF-32 string of 16-bit code points, writes
    its UTF-8 encoding: reading the stream back as UTF-8 gives the same code
    points.  A UTF-8 string is written as it is, and so is a Latin-1 string:
    its bytes above 127 do not become UTF-8. *)
Theorem print_roundtrip debug cs (Hcs : Forall scalar cs) :
  (∃ bs, print_usv unfinished wide debug (usv_new Utf16 (concat (map utf16_encode cs))) = Ok bs ∧
         utf8_decode bs = Some cs) ∧
  (Forall (λ c, c < 2 ^ 16) cs →
   ∃ bs, print_usv unfinished wide debug (usv_new Utf32 cs) = Ok bs ∧ utf8_decode bs = Some cs) ∧
  (∀ e bs, e = Latin1 ∨ e = Utf8 → print_usv unfinished wide debug (usv_new e bs) = Ok bs) ∧
  (∀ b, 128 ≤ b < 256 → utf8_decode [b] = None).
Proof.
  assert (Hd : utf8_decode (concat (map utf8_encode cs)) = Some cs).
  { rewrite <- (app_nil_r (concat _)), utf8_decode_all by done. cbn. by rewrite app_nil_r. }
  assert (Hv : ∀ e s, checked_value debug e (usv_new e s) = Ok s).
  { intros e s. unfold checked_value, is_encoding. rewrite member_new.
    cbn. by rewrite bool_decide_true, orb_true_r. }
  split; [|split; [|split]].
  - exists (concat (map utf8_encode cs)). split; [|done]. cbn [print_usv encoding_ usv_new].
    unfold utf16_value. rewrite Hv. by apply to_bytes_utf16_all.
  - intros Hb. exists (concat (map utf8_encode cs)). split; [|done].
    cbn [print_usv encoding_ usv_new]. unfold utf32_value. rewrite Hv. apply to_bytes_bmp.
    apply Forall_and. by split.
  - intros e bs [-> | ->]; cbn [print_usv encoding_ usv_new]; apply Hv.
  - intros b Hb. cbn. by tests.
Qed.

(** A lone surrogate makes [operator<<] throw; so does one in a UTF-32 string,
    while a pair of them there is printed as one code point; every other
    element of a UTF-32 string above 16 bits is left to the implementation.
    Printing an empty value fails its [assert], and prints nothing in release
    builds. *)
Theorem print_errors debug u v cs (Hcs : Forall scalar cs)
    (Hu : low_surrogate u = true ∨ high_surrogate u = true ∧ low_surrogate v = false) e
    (He : e = Utf16 ∨ e = Utf32) c (Hc : 2 ^ 16 ≤ c) :
  print_usv unfinished wide debug (usv_new e (concat (map utf16_encode cs) ++ u :: v :: [])) = Fault Thrown ∧
  print_usv unfinished wide debug (usv_new Utf32 [55357; 56832]) = Ok [240; 159; 152; 128] ∧
  print_usv unfinished wide debug (usv_new Utf32 [c]) =
    ((λ bs, bs ++ []) <$> wide c) ∧
  print_usv unfinished wide debug usv_default = (if debug then Fault CheckFailed else Ok []).
Proof.
  assert (Hv : ∀ e s, checked_value debug e (usv_new e s) = Ok s).
  { intros e' s. unfold checked_value, is_encoding. rewrite member_new.
    cbn. by rewrite bool_decide_true, orb_true_r. }
  assert (Hbad : to_bytes (concat (map utf16_encode cs) ++ [u; v]) = Fault Thrown).
  { induction Hcs as [|c' cs Hc' Hcs IH]; cbn [map concat].
    - cbn. destruct Hu as [Hu|[Hu Hl]].
      + assert (high_surrogate u = false) as ->; [|by rewrite Hu].
        unfold low_surrogate, high_surrogate in *. lia.
      + by rewrite Hu, Hl.
    - by rewrite <- app_assoc, to_bytes_utf16, IH. }
  split; [|split; [|split]].
  - destruct He as [-> | ->]; cbn [print_usv encoding_ usv_new]; unfold utf16_value, utf32_value;
      rewrite Hv; exact Hbad.
  - cbn [print_usv encoding_ usv_new]. unfold utf32_value. by rewrite Hv.
  - cbn [print_usv encoding_ usv_new]. unfold utf32_value. rewrite Hv. cbn.
    unfold high_surrogate, low_surrogate. tests. by destruct (wide c).
  - by destruct debug.
Qed.
End Converting.

(** ** Witnesses *)

(** A text with code points of one, two, three and four bytes. *)
Lemma print_roundtrip_witness :
  print_usv (Ok []) (λ _, Ok []) true (usv_new Utf16 [65; 228; 20013; 55357; 56832]) =
    Ok [65; 195; 164; 228; 184; 173; 240; 159; 152; 128] ∧
  utf8_decode [65; 195; 164; 228; 184; 173; 240; 159; 152; 128] = Some [65; 228; 20013; 128512].
Proof.
  destruct (print_roundtrip (Ok []) (λ _, Ok []) true [65; 228; 20013; 128512]
    ltac:(repeat constructor; unfold scalar; lia)) as [(bs & E & Hd) _].
  vm_compute in E. injection E as <-. split; [reflexivity|exact Hd].
Defined.

Lemma print_errors_witness :
  print_usv (Ok []) (λ _, Ok []) false (usv_new Utf32 [65; 56832; 65]) = Fault Thrown.
Proof.
  exact (proj1 (print_errors (Ok []) (λ _, Ok []) false 56832 65 [65]
    ltac:(repeat constructor; unfold scalar; lia) ltac:(by left) Utf32 ltac:(by right) (2 ^ 16) ltac:(lia))).
Defined.
