(* ===== verification/Logging.v ===== *)
(** * Logging: log messages, severities and checks

    Models [include/footstone/logging.h], [log_level.h], [log_settings.h],
    [src/footstone/log_settings.cc], [log_settings_state.cc] and the five
    [src/platform/*/logging.cc]: the text of a message, which messages are
    made, what its destructor does, and the macros that clients write.  The
    build takes one of the five files; each is a Module, with its own copy of
    the functions that the others have too, and a [platform] chooses between
    them.  The calls that leave the process are recorded, the user's delegate
    is a parameter. *)

From Stdlib Require Import Ascii.
From stdpp Require Import pretty.
From S2P Require Import Prelude.

Local Open Scope string_scope.
Local Open Scope Z_scope.

(** ** log_level.h *)

Definition TDF_LOG_DEBUG : Z := 0.
Definition TDF_LOG_INFO : Z := 0.
Definition TDF_LOG_WARNING : Z := 1.
Definition TDF_LOG_ERROR : Z := 2.
Definition TDF_LOG_FATAL : Z := 3.
Definition TDF_LOG_NUM_SEVERITIES : Z := 4.
Definition TDF_LOG_DFATAL (ndebug : bool) : Z := if ndebug then TDF_LOG_ERROR else TDF_LOG_FATAL.

(** Calls that leave the process. *)
Inductive log_effect :=
  | Syslog (msg : string)
  | AndroidLog (priority : Z) (msg : string)
  | Cerr (msg : string)
  | UserDelegate (msg : string) (severity : Z).

(** What a delegate does: its effects, and whether it aborts. *)
Definition delegate : Type := string → Z → list log_effect * bool.

(** ** log_settings.cc *)

(** The globals: [global_log_settings], which is only [min_log_level], and
    [LogMessage::delegate_]. *)
Record LogState := MkLogState { global_log_settings : Z; delegate_ : option delegate }.

(** The initial value of [global_log_settings]. *)
Definition LogSettings_default : Z := TDF_LOG_INFO.

Definition SetLogSettings (min_log_level : Z) (st : LogState) : LogState :=
  MkLogState (Z.min TDF_LOG_FATAL min_log_level) (delegate_ st).
Definition GetLogSettings (st : LogState) : Z := global_log_settings st.
Definition GetMinLogLevel (st : LogState) : Z := Z.min (global_log_settings st) TDF_LOG_FATAL.

Definition SetDelegate (d : option delegate) (st : LogState) : LogState :=
  MkLogState (global_log_settings st) d.
Definition GetDelegate (st : LogState) : option delegate := delegate_ st.

(** ** The platforms' logging.cc *)

(** What follows the last occurrence of [c] ([strrchr(path, c) + 1]). *)
Fixpoint after_last (c : Ascii.ascii) (path : string) : option string :=
  match path with
  | "" => None
  | String a rest =>
      match after_last c rest with
      | Some s => Some s
      | None => if Ascii.eqb a c then Some rest else None
      end
  end.

(** [std::endl] *)
Definition endl : string := String (Ascii.ascii_of_nat 10) "".

(** [src/platform/adr/logging.cc] compares severities with [TDF_LOG_INFO]. *)
Module AdrLog.
Definition kLogSeverityNames : list string := ["INFO"; "WARNING"; "ERROR"; "FATAL"].

Definition GetNameForLogSeverity (severity : Z) : outcome string :=
  if (TDF_LOG_INFO <=? severity) && (severity <? TDF_LOG_NUM_SEVERITIES)
  then vec_at kLogSeverityNames severity else Ok "UNKNOWN".

(** [while (strncmp(path, "../", 3) == 0) path += 3;] *)
Fixpoint StripDots (path : string) : string :=
  match path with
  | String "."%char (String "."%char (String "/"%char rest)) => StripDots rest
  | _ => path
  end.

Definition StripPath (path : string) : string := default path (after_last "/"%char path).

(** [android_LogPriority]: verbose 2, info 4, warn 5, error 6, fatal 7,
    unknown 0. *)
Definition android_priority (severity : Z) : Z :=
  if severity =? TDF_LOG_INFO then 4
  else if severity =? TDF_LOG_WARNING then 5
  else if severity =? TDF_LOG_ERROR then 6
  else if severity =? TDF_LOG_FATAL then 7
  else if severity <? 0 then 2 else 0.

(** The initial [LogMessage::delegate_]. *)
Definition delegate_0 : delegate := λ msg severity,
  ([AndroidLog (android_priority severity) msg], TDF_LOG_FATAL <=? severity).

(** The constructor: the text the stream starts with. *)
Definition LogMessage_new (severity : Z) (file : string) (line : Z) (condition : option string) :
    outcome string :=
  let! label := if TDF_LOG_INFO <=? severity then GetNameForLogSeverity severity
                else Ok ("VERBOSE" +:+ pretty (- severity)) in
  Ok ("[" +:+ label +:+ ":" +:+
      (if TDF_LOG_INFO <? severity then StripDots file else StripPath file) +:+
      "(" +:+ pretty line +:+ ")] " +:+
      match condition with Some c => "Check failed: " +:+ c +:+ ". " | None => "" end).

(** The destructor: its effects, and whether the process aborts. *)
Definition LogMessage_destroy (st : LogState) (stream : string) (severity : Z) :
    list log_effect * bool :=
  let stream := stream +:+ endl in
  match delegate_ st with Some d => d stream severity | None => ([], false) end.

Definition GetVlogVerbosity (st : LogState) : Z := Z.max (-1) (TDF_LOG_INFO - GetMinLogLevel st).
Definition ShouldCreateLogMessage (st : LogState) (severity : Z) : bool :=
  GetMinLogLevel st <=? severity.
End AdrLog.

(** [src/platform/ios/logging.cc] compares them with the [LOG_INFO] of
    [<syslog.h>], which is 6. *)
Module IosLog.
Definition LOG_INFO : Z := 6.
Definition kLogSeverityNames : list string := ["INFO"; "WARNING"; "ERROR"; "FATAL"].

Definition GetNameForLogSeverity (severity : Z) : outcome string :=
  if (LOG_INFO <=? severity) && (severity <? TDF_LOG_NUM_SEVERITIES)
  then vec_at kLogSeverityNames severity else Ok "UNKNOWN".

(** [while (strncmp(path, "../", 3) == 0) path += 3;] *)
Fixpoint StripDots (path : string) : string :=
  match path with
  | String "."%char (String "."%char (String "/"%char rest)) => StripDots rest
  | _ => path
  end.

Definition StripPath (path : string) : string := default path (after_last "/"%char path).

(** The initial [LogMessage::delegate_]. *)
Definition delegate_0 : delegate := λ msg severity,
  ([Syslog ("tdf: " +:+ msg)], TDF_LOG_FATAL <=? severity).

(** The constructor: the text the stream starts with. *)
Definition LogMessage_new (severity : Z) (file : string) (line : Z) (condition : option string) :
    outcome string :=
  let! label := if LOG_INFO <=? severity then GetNameForLogSeverity severity
                else Ok ("VERBOSE" +:+ pretty (- severity)) in
  Ok ("[" +:+ label +:+ ":" +:+
      (if LOG_INFO <? severity then StripDots file else StripPath file) +:+
      "(" +:+ pretty line +:+ ")] " +:+
      match condition with Some c => "Check failed: " +:+ c +:+ ". " | None => "" end).

(** The destructor: its effects, and whether the process aborts. *)
Definition LogMessage_destroy (st : LogState) (stream : string) (severity : Z) :
    list log_effect * bool :=
  let stream := stream +:+ endl in
  match delegate_ st with Some d => d stream severity | None => ([], false) end.

Definition GetVlogVerbosity (st : LogState) : Z := Z.max (-1) (LOG_INFO - GetMinLogLevel st).
Definition ShouldCreateLogMessage (st : LogState) (severity : Z) : bool :=
  GetMinLogLevel st <=? severity.
End IosLog.

(** [src/platform/linux/logging.cc], with the same [LOG_INFO] and no delegate. *)
Module LinuxLog.
Definition LOG_INFO : Z := 6.
Definition kLogSeverityNames : list string := ["INFO"; "WARNING"; "ERROR"; "FATAL"].

Definition GetNameForLogSeverity (severity : Z) : outcome string :=
  if (LOG_INFO <=? severity) && (severity <? TDF_LOG_NUM_SEVERITIES)
  then vec_at kLogSeverityNames severity else Ok "UNKNOWN".

(** [while (strncmp(path, "../", 3) == 0) path += 3;] *)
Fixpoint StripDots (path : string) : string :=
  match path with
  | String "."%char (String "."%char (String "/"%char rest)) => StripDots rest
  | _ => path
  end.

Definition StripPath (path : string) : string := default path (after_last "/"%char path).

(** The constructor: the text the stream starts with. *)
Definition LogMessage_new (severity : Z) (file : string) (line : Z) (condition : option string) :
    outcome string :=
  let! label := if LOG_INFO <=? severity then GetNameForLogSeverity severity
                else Ok ("VERBOSE" +:+ pretty (- severity)) in
  Ok ("[" +:+ label +:+ ":" +:+
      (if LOG_INFO <? severity then StripDots file else StripPath file) +:+
      "(" +:+ pretty line +:+ ")] " +:+
      match condition with Some c => "Check failed: " +:+ c +:+ ". " | None => "" end).

(** The destructor: its effects, and whether the process aborts. *)
Definition LogMessage_destroy (st : LogState) (stream : string) (severity : Z) :
    list log_effect * bool :=
  let stream := stream +:+ endl in
  ([Syslog stream], TDF_LOG_FATAL <=? severity).

Definition GetVlogVerbosity (st : LogState) : Z := Z.max (-1) (LOG_INFO - GetMinLogLevel st).
Definition ShouldCreateLogMessage (st : LogState) (severity : Z) : bool :=
  GetMinLogLevel st <=? severity.
End LinuxLog.

(** [src/platform/mac/logging.cc] *)
Module MacLog.
Definition LOG_INFO : Z := 6.
Definition kLogSeverityNames : list string := ["INFO"; "WARNING"; "ERROR"; "FATAL"].

Definition GetNameForLogSeverity (severity : Z) : outcome string :=
  if (LOG_INFO <=? severity) && (severity <? TDF_LOG_NUM_SEVERITIES)
  then vec_at kLogSeverityNames severity else Ok "UNKNOWN".

(** [while (strncmp(path, "../", 3) == 0) path += 3;] *)
Fixpoint StripDots (path : string) : string :=
  match path with
  | String "."%char (String "."%char (String "/"%char rest)) => StripDots rest
  | _ => path
  end.

Definition StripPath (path : string) : string := default path (after_last "/"%char path).

(** The constructor: the text the stream starts with. *)
Definition LogMessage_new (severity : Z) (file : string) (line : Z) (condition : option string) :
    outcome string :=
  let! label := if LOG_INFO <=? severity then GetNameForLogSeverity severity
                else Ok ("VERBOSE" +:+ pretty (- severity)) in
  Ok ("[" +:+ label +:+ ":" +:+
      (if LOG_INFO <? severity then StripDots file else StripPath file) +:+
      "(" +:+ pretty line +:+ ")] " +:+
      match condition with Some c => "Check failed: " +:+ c +:+ ". " | None => "" end).

(** The destructor: its effects, and whether the process aborts. *)
Definition LogMessage_destroy (st : LogState) (stream : string) (severity : Z) :
    list log_effect * bool :=
  let stream := stream +:+ endl in
  ([Syslog stream], TDF_LOG_FATAL <=? severity).

Definition GetVlogVerbosity (st : LogState) : Z := Z.max (-1) (LOG_INFO - GetMinLogLevel st).
Definition ShouldCreateLogMessage (st : LogState) (severity : Z) : bool :=
  GetMinLogLevel st <=? severity.
End MacLog.

(** [src/platform/win/logging.cc], which defines [LOG_INFO] itself. *)
Module WinLog.
Definition LOG_INFO : Z := 6.
Definition kLogSeverityNames : list string := ["INFO"; "WARNING"; "ERROR"; "FATAL"].

Definition GetNameForLogSeverity (severity : Z) : outcome string :=
  if (LOG_INFO <=? severity) && (severity <? TDF_LOG_NUM_SEVERITIES)
  then vec_at kLogSeverityNames severity else Ok "UNKNOWN".

(** [while (strncmp(path, "../", 3) == 0) path += 3;] *)
Fixpoint StripDots (path : string) : string :=
  match path with
  | String "."%char (String "."%char (String "/"%char rest)) => StripDots rest
  | _ => path
  end.

Definition StripPath (path : string) : string := default path (after_last "/"%char path).

(** The constructor: the text the stream starts with. *)
Definition LogMessage_new (severity : Z) (file : string) (line : Z) (condition : option string) :
    outcome string :=
  let! label := if LOG_INFO <=? severity then GetNameForLogSeverity severity
                else Ok ("VERBOSE" +:+ pretty (- severity)) in
  Ok ("[" +:+ label +:+ ":" +:+
      (if LOG_INFO <? severity then StripDots file else StripPath file) +:+
      "(" +:+ pretty line +:+ ")] " +:+
      match condition with Some c => "Check failed: " +:+ c +:+ ". " | None => "" end).

(** The destructor: its effects, and whether the process aborts. *)
Definition LogMessage_destroy (st : LogState) (stream : string) (severity : Z) :
    list log_effect * bool :=
  let stream := stream +:+ endl in
  ([Cerr stream], TDF_LOG_FATAL <=? severity).

Definition GetVlogVerbosity (st : LogState) : Z := Z.max (-1) (LOG_INFO - GetMinLogLevel st).
Definition ShouldCreateLogMessage (st : LogState) (severity : Z) : bool :=
  GetMinLogLevel st <=? severity.
End WinLog.

(** *** The file of the build *)

Inductive platform := Adr | Ios | Linux | Mac | Win.

Definition GetNameForLogSeverity (p : platform) : Z → outcome string :=
  match p with
  | Adr => AdrLog.GetNameForLogSeverity
  | Ios => IosLog.GetNameForLogSeverity
  | Linux => LinuxLog.GetNameForLogSeverity
  | Mac => MacLog.GetNameForLogSeverity
  | Win => WinLog.GetNameForLogSeverity
  end.
Definition StripDots (p : platform) : string → string :=
  match p with
  | Adr => AdrLog.StripDots
  | Ios => IosLog.StripDots
  | Linux => LinuxLog.StripDots
  | Mac => MacLog.StripDots
  | Win => WinLog.StripDots
  end.
Definition StripPath (p : platform) : string → string :=
  match p with
  | Adr => AdrLog.StripPath
  | Ios => IosLog.StripPath
  | Linux => LinuxLog.StripPath
  | Mac => MacLog.StripPath
  | Win => WinLog.StripPath
  end.
Definition LogMessage_new (p : platform) : Z → string → Z → option string → outcome string :=
  match p with
  | Adr => AdrLog.LogMessage_new
  | Ios => IosLog.LogMessage_new
  | Linux => LinuxLog.LogMessage_new
  | Mac => MacLog.LogMessage_new
  | Win => WinLog.LogMessage_new
  end.
Definition LogMessage_destroy (p : platform) : LogState → string → Z → list log_effect * bool :=
  match p with
  | Adr => AdrLog.LogMessage_destroy
  | Ios => IosLog.LogMessage_destroy
  | Linux => LinuxLog.LogMessage_destroy
  | Mac => MacLog.LogMessage_destroy
  | Win => WinLog.LogMessage_destroy
  end.
Definition GetVlogVerbosity (p : platform) : LogState → Z :=
  match p with
  | Adr => AdrLog.GetVlogVerbosity
  | Ios => IosLog.GetVlogVerbosity
  | Linux => LinuxLog.GetVlogVerbosity
  | Mac => MacLog.GetVlogVerbosity
  | Win => WinLog.GetVlogVerbosity
  end.
Definition ShouldCreateLogMessage (p : platform) : LogState → Z → bool :=
  match p with
  | Adr => AdrLog.ShouldCreateLogMessage
  | Ios => IosLog.ShouldCreateLogMessage
  | Linux => LinuxLog.ShouldCreateLogMessage
  | Mac => MacLog.ShouldCreateLogMessage
  | Win => WinLog.ShouldCreateLogMessage
  end.

(** The initial [LogMessage::delegate_]; only two of the files define it. *)
Definition default_delegate (p : platform) : option delegate :=
  match p with Adr => Some AdrLog.delegate_0 | Ios => Some IosLog.delegate_0 | _ => None end.
Definition LogState_init (p : platform) : LogState :=
  MkLogState LogSettings_default (default_delegate p).

(** ** The macros of logging.h

    A statement comes to its effects and whether it aborts.  Conditions and
    what is written to the stream are computations that may fault: a macro that
    leaves them out does not evaluate them. *)

Definition statement : Type := outcome (list log_effect * bool).

Section Macros.
Variable p : platform.
Variable st : LogState.
(** [__FILE__] and [__LINE__] *)
Variable file : string.
Variable line : Z.

(** A message is made, written to and destroyed in one expression. *)
Definition message (severity : Z) (condition : option string) (text : outcome string) : statement :=
  let! stream := LogMessage_new p severity file line condition in
  let! text := text in
  Ok (LogMessage_destroy p st (stream +:+ text) severity).

(** The [&] of [LogMessageVoidify] only discards its operand. *)
Definition lazy_stream (stream : statement) (condition : outcome bool) : statement :=
  let! b := condition in if negb b then Ok ([], false) else stream.

(** [true || (ignored) ? (void)0 : ...]; the message of the other branch would
    have a null file. *)
Definition eat_stream_parameters (ignored : outcome bool) : statement :=
  let! b := if true then Ok true else ignored in
  if b then Ok ([], false) else Fault NullDeref.

Definition log_is_on (severity : Z) : bool := ShouldCreateLogMessage p st severity.

(** [TDF_BASE_LOG(severity) << text] *)
Definition log_statement (severity : Z) (text : outcome string) : statement :=
  lazy_stream (message severity None text) (Ok (log_is_on severity)).

(** [TDF_BASE_CHECK(condition) << text] *)
Definition check_statement (condition : outcome bool) (condition_text : string) (text : outcome string) :
    statement :=
  lazy_stream (message TDF_LOG_FATAL (Some condition_text) text)
    (let! b := condition in Ok (negb b)).

Definition vlog_is_on (verbose_level : Z) : bool := verbose_level <=? GetVlogVerbosity p st.

(** [TDF_BASE_VLOG(verbose_level) << text] *)
Definition vlog_statement (verbose_level : Z) (text : outcome string) : statement :=
  lazy_stream (message (- verbose_level) None text) (Ok (vlog_is_on verbose_level)).

(** [NDEBUG], which chooses between the two definitions of what follows. *)
Variable ndebug : bool.

(** [TDF_BASE_DLOG(severity) << text] *)
Definition dlog_statement (severity : Z) (text : outcome string) : statement :=
  if negb ndebug then log_statement severity text else eat_stream_parameters (Ok true).

(** [TDF_BASE_DCHECK(condition) << text] *)
Definition dcheck_statement (condition : outcome bool) (condition_text : string)
    (text : outcome string) : statement :=
  if negb ndebug then check_statement condition condition_text text
  else eat_stream_parameters condition.

(** [TDF_BASE_NOTREACHED()] *)
Definition notreached_statement : statement :=
  let! r := dcheck_statement (Ok false) "false" (Ok "") in Ok (r.1, true).

(** [TDF_BASE_NOTIMPLEMENTED()] *)
Definition notimplemented_statement (pretty_function : string) : statement :=
  log_statement TDF_LOG_ERROR (Ok ("Not implemented in: " +:+ pretty_function)).
End Macros.

(** ** Properties *)

Fixpoint occurs (c : Ascii.ascii) (s : string) : bool :=
  match s with "" => false | String a s => Ascii.eqb a c || occurs c s end.

Fixpoint dots (n : nat) : string :=
  match n with O => "" | S n => "../" +:+ dots n end.

Lemma after_last_spec c path :
  match after_last c path with
  | Some s => occurs c s = false ∧ ∃ pre, path = pre +:+ String c s
  | None => occurs c path = false
  end.
Proof.
  induction path as [|a path IH]; cbn; [done|]. destruct (after_last c path) as [s|].
  - destruct IH as [Ho [pre ->]]. split; [done|]. by exists (String a pre).
  - destruct (Ascii.eqb_spec a c) as [->|]; cbn; [|done]. split; [done|]. by exists "".
Qed.

(** Either the path starts with ["../"], which is dropped, or it is kept. *)
Lemma StripDots_cases path :
  (∃ rest, path = "../" +:+ rest ∧ LinuxLog.StripDots path = LinuxLog.StripDots rest) ∨
  (LinuxLog.StripDots path = path ∧ ∀ rest, path ≠ "../" +:+ rest).
Proof.
  destruct path as [|a path]; [by right|].
  destruct (decide (a = "."%char)) as [->|Ha].
  2: { right. split; [|intros rest [=]; congruence].
       destruct a as [[] [] [] [] [] [] [] []]; reflexivity || by destruct Ha. }
  destruct path as [|b path]; [by right|].
  destruct (decide (b = "."%char)) as [->|Hb].
  2: { right. split; [|intros rest [=]; congruence].
       destruct b as [[] [] [] [] [] [] [] []]; reflexivity || by destruct Hb. }
  destruct path as [|c path]; [by right|].
  destruct (decide (c = "/"%char)) as [->|Hc].
  - left. by exists path.
  - right. split; [|intros rest [=]; congruence].
    destruct c as [[] [] [] [] [] [] [] []]; reflexivity || by destruct Hc.
Qed.

Lemma StripDots_spec n path :
  (String.length path < n)%nat →
  (∃ k, path = dots k +:+ LinuxLog.StripDots path) ∧ ∀ rest, LinuxLog.StripDots path ≠ "../" +:+ rest.
Proof.
  revert path. induction n as [|n IH]; intros path Hn; [lia|].
  destruct (StripDots_cases path) as [(rest & -> & E)|[E Hno]].
  - change (S (S (S (String.length rest))) < S n)%nat in Hn. destruct (IH rest ltac:(lia)) as [[k Hk] Hno]. rewrite E. split; [|done].
    exists (S k). change ("../" +:+ rest = "../" +:+ (dots k +:+ LinuxLog.StripDots rest)). by rewrite <- Hk.
  - rewrite E. split; [by exists 0%nat|done].
Qed.

(** The copies of the functions agree: what happens to a path and which
    messages are made is the same in the five files, and the text of a message
    in all but Android's. *)
Lemma copies_agree p :
  StripDots p = LinuxLog.StripDots ∧ StripPath p = LinuxLog.StripPath ∧
  ShouldCreateLogMessage p = LinuxLog.ShouldCreateLogMessage ∧
  (p ≠ Adr → GetNameForLogSeverity p = LinuxLog.GetNameForLogSeverity ∧
    LogMessage_new p = LinuxLog.LogMessage_new ∧ GetVlogVerbosity p = LinuxLog.GetVlogVerbosity).
Proof. by destruct p; repeat split. Qed.

(** The path of a message: [StripPath] keeps what follows the last slash, the
    whole path when there is none; [StripDots] drops every leading ["../"], and
    only those. *)
Theorem strip_spec p path :
  (occurs "/"%char (StripPath p path) = false ∧
   (path = StripPath p path ∨ ∃ dir, path = dir +:+ "/" +:+ StripPath p path)) ∧
  (∃ n, path = dots n +:+ StripDots p path) ∧
  ∀ rest, StripDots p path ≠ "../" +:+ rest.
Proof.
  destruct (copies_agree p) as (-> & -> & _).
  split; [|by apply (StripDots_spec (S (String.length path))); lia].
  unfold LinuxLog.StripPath. pose proof (after_last_spec "/" path) as Hs.
  destruct (after_last "/" path) as [s|]; cbn; [|auto].
  destruct Hs as [Ho [pre E]]. split; [done|]. right. by exists pre.
Qed.

Definition condition_text (condition : option string) : string :=
  match condition with Some c => "Check failed: " +:+ c +:+ ". " | None => "" end.

Lemma LogMessage_total p severity file line condition :
  TDF_LOG_INFO <= severity < TDF_LOG_NUM_SEVERITIES →
  ∃ msg, LogMessage_new p severity file line condition = Ok msg.
Proof.
  unfold TDF_LOG_INFO, TDF_LOG_NUM_SEVERITIES. intros Hs.
  assert (severity = 0 ∨ severity = 1 ∨ severity = 2 ∨ severity = 3) as Hc by lia.
  destruct Hc as [-> | [-> | [-> | ->]]], p; by eexists.
Qed.

(** The label of a message.  On Android a message shows the name of its
    severity, and the file's path unless it is an [INFO] message; on every
    other platform no severity reaches [LOG_INFO], so each message is labelled
    as verbose, with the negated severity ([VERBOSE0] to [VERBOSE-3]), and no
    name is ever shown.  Making the text never faults. *)
Theorem LogMessage_label p severity file line condition
    (Hs : TDF_LOG_INFO <= severity < TDF_LOG_NUM_SEVERITIES) :
  let label := match p with
    | Adr => default "" (AdrLog.kLogSeverityNames !! Z.to_nat severity)
    | _ => "VERBOSE" +:+ pretty (- severity)
    end in
  let path := match p with
    | Adr => if severity =? TDF_LOG_INFO then StripPath p file else StripDots p file
    | _ => StripPath p file
    end in
  LogMessage_new p severity file line condition =
    Ok ("[" +:+ label +:+ ":" +:+ path +:+ "(" +:+ pretty line +:+ ")] " +:+
        condition_text condition).
Proof.
  cbn zeta. unfold TDF_LOG_INFO, TDF_LOG_NUM_SEVERITIES in *.
  assert (severity = 0 ∨ severity = 1 ∨ severity = 2 ∨ severity = 3) as Hc by lia.
  destruct Hc as [-> | [-> | [-> | ->]]], p; reflexivity.
Qed.

(** Which messages are made: [SetLogSettings] caps the level at [FATAL], so
    fatal messages are always made and no setting silences a lower severity
    than it says; and, as [GetVlogVerbosity] is computed from [LOG_INFO],
    verbose messages up to level 6 are on by default everywhere but on
    Android. *)
Theorem log_level_spec p level severity st :
  let st' := SetLogSettings level st in
  GetMinLogLevel st' = GetLogSettings st' ∧ GetDelegate st' = GetDelegate st ∧
  log_is_on p st' TDF_LOG_FATAL = true ∧
  (severity <= TDF_LOG_FATAL →
   (log_is_on p st' severity = true ↔ level <= severity ∨ severity = TDF_LOG_FATAL)) ∧
  ∀ verbose_level, vlog_is_on p (LogState_init p) verbose_level = true ↔
    verbose_level <= match p with Adr => 0 | _ => 6 end.
Proof.
  cbn zeta. unfold log_is_on. destruct (copies_agree p) as (_ & _ & -> & _).
  unfold LinuxLog.ShouldCreateLogMessage, SetLogSettings, GetLogSettings, GetMinLogLevel, TDF_LOG_FATAL.
  cbn [global_log_settings delegate_].
  split; [lia|]. split; [done|]. split; [apply Z.leb_le; lia|]. split.
  - intros Hs. rewrite Z.leb_le. unfold TDF_LOG_FATAL in *. lia.
  - intros v. unfold vlog_is_on. rewrite Z.leb_le. by destruct p.
Qed.

(** A verbose message is labelled with its level, on every platform. *)
Theorem vlog_label p level file line condition (Hlevel : 0 < level) :
  LogMessage_new p (- level) file line condition =
    Ok ("[VERBOSE" +:+ pretty level +:+ ":" +:+ StripPath p file +:+ "(" +:+ pretty line +:+ ")] " +:+
        condition_text condition).
Proof.
  destruct p; cbn [LogMessage_new]; unfold AdrLog.LogMessage_new, IosLog.LogMessage_new,
    LinuxLog.LogMessage_new, MacLog.LogMessage_new, WinLog.LogMessage_new, IosLog.LOG_INFO,
    LinuxLog.LOG_INFO, MacLog.LOG_INFO, WinLog.LOG_INFO, TDF_LOG_INFO;
    rewrite (proj2 (Z.leb_gt _ _)), (proj2 (Z.ltb_ge _ _)) by lia; by rewrite Z.opp_involutive.
Qed.

(** A failed check ends the process on Linux, macOS and Windows.  On Android
    and iOS that is up to the delegate: the default one aborts, but one set by
    the user need not, and clearing it silences the check altogether — the
    code after a failed [TDF_BASE_CHECK] then runs. *)
Theorem check_aborts p st file line cond text :
  (∃ effects b,
     check_statement p st file line (Ok false) cond (Ok text) = Ok (effects, b) ∧
     match p with
     | Linux | Mac | Win => b = true
     | Adr | Ios => match GetDelegate st with
                    | None => b = false ∧ effects = []
                    | Some d => ∃ msg, (effects, b) = d msg TDF_LOG_FATAL
                    end
     end) ∧
  (∃ effects, check_statement p (LogState_init p) file line (Ok false) cond (Ok text) =
     Ok (effects, true)) ∧
  ∀ t, check_statement p st file line (Ok true) cond t = Ok ([], false).
Proof.
  destruct (LogMessage_total p TDF_LOG_FATAL file line (Some cond)) as [text' Hl]; [done|].
  unfold check_statement, lazy_stream, message. cbn [obind negb]. rewrite Hl. cbn [obind].
  split; [|split; [|done]].
  - destruct p; cbn [LogMessage_destroy]; try by eexists _, _.
    all: unfold AdrLog.LogMessage_destroy, IosLog.LogMessage_destroy, GetDelegate;
      destruct (delegate_ st) as [d|]; [|by eexists _, _];
      destruct (d _ TDF_LOG_FATAL) as [e b] eqn:E;
      exists e, b; split; [done|]; eexists; symmetry; exact E.
  - destruct p; by eexists.
Qed.

(** What release builds leave out, and what they do not: with [NDEBUG] a
    [DCHECK] and a [DLOG] evaluate neither their condition nor what is written
    to them, even where that would fault, while without it they are [CHECK] and
    [LOG]; [NOTREACHED] ends the process in both. *)
Theorem debug_macros p st file line :
  (∀ condition condition_text text,
     dcheck_statement p st file line true condition condition_text text = Ok ([], false) ∧
     dcheck_statement p st file line false condition condition_text text =
       check_statement p st file line condition condition_text text) ∧
  (∀ severity text,
     dlog_statement p st file line true severity text = Ok ([], false) ∧
     dlog_statement p st file line false severity text = log_statement p st file line severity text) ∧
  ∀ ndebug, ∃ effects, notreached_statement p st file line ndebug = Ok (effects, true) ∧
    (ndebug = true → effects = []).
Proof.
  split; [done|]. split; [done|]. intros [].
  - by exists [].
  - destruct (check_aborts p st file line "false" "") as [(effects & b & E & _) _].
    exists effects. split; [|done]. unfold notreached_statement, dcheck_statement. cbn [negb].
    by rewrite E.
Qed.

(** ** Witnesses *)

Lemma LogMessage_label_witness :
  LogMessage_new Linux TDF_LOG_ERROR "../a/b.cc" 7 None = Ok "[VERBOSE-2:b.cc(7)] " ∧
  LogMessage_new Adr TDF_LOG_ERROR "../a/b.cc" 7 None = Ok "[ERROR:a/b.cc(7)] ".
Proof.
  split.
  - etransitivity; [exact (LogMessage_label Linux TDF_LOG_ERROR "../a/b.cc" 7 None ltac:(done))|].
    reflexivity.
  - etransitivity; [exact (LogMessage_label Adr TDF_LOG_ERROR "../a/b.cc" 7 None ltac:(done))|].
    reflexivity.
Defined.

Lemma vlog_label_witness :
  LogMessage_new Win (- 3) "a\b.cc" 7 None = Ok "[VERBOSE3:a\b.cc(7)] ".
Proof. etransitivity; [exact (vlog_label Win 3 "a\b.cc" 7 None ltac:(lia))|]. reflexivity. Defined.

Lemma log_level_spec_witness :
  log_is_on Linux (SetLogSettings 2 (LogState_init Linux)) 1 = true ↔ 2 <= 1 ∨ 1 = TDF_LOG_FATAL.
Proof.
  exact (proj1 (proj2 (proj2 (proj2 (log_level_spec Linux 2 1 (LogState_init Linux))))) ltac:(done)).
Defined.

(** The check of a condition that faults, in both builds. *)
Example dcheck_faults :
  dcheck_statement Linux (LogState_init Linux) "a.cc" 1 true (Fault NullDeref) "p->ok()" (Ok "") =
    Ok ([], false) ∧
  dcheck_statement Linux (LogState_init Linux) "a.cc" 1 false (Fault NullDeref) "p->ok()" (Ok "") =
    Fault NullDeref.
Proof. done. Qed.
