(* ===== verification/Timer.v ===== *)
(** * Timer: one-shot, repeating and idle timers

    Models [src/footstone/base_timer.cc], [one_shot_timer.cc],
    [repeating_timer.cc] and [idle_timer.cc].  A timer is an object of a heap
    of its own, next to the world of task runners: the tasks it posts refer to
    it weakly, by pointer.  The virtual [RunUserTask] and [OnStop] dispatch on
    the kind of the timer.  What user tasks and user idle tasks do is an
    argument, and may use the timers again. *)

From S2P Require Import Prelude Time PriorityQueue Store TaskRunner Worker WorkerKeys WorkerLoop ThreadWorker.

Inductive timer_kind := OneShotTimer | RepeatingTimer | IdleTimer.

(** [BaseTimer] and its three subclasses.  [is_running_] is indeterminate until
    it is first assigned; the time points start at the epoch.  [user_task_] is
    the field the subclass uses ([OneShotTimer] declares its own, hiding the
    base's).  [idle_task_], an [IdleTask] shared only by its timer, is its
    address and its body. *)
Record Timer := MkTimer {
  tm_kind : timer_kind;
  tm_task_runner_ : option runner_ptr;
  tm_user_task_ : option Task;
  tm_idle_task_ : option (nat * option IdleUnit);
  tm_delay_ : Z;
  tm_is_running_ : option bool;
  tm_desired_run_time_ : Z;
  tm_scheduled_run_time_ : Z
}.

Definition set_tm_task_runner_ (v : option runner_ptr) (t : Timer) : Timer :=
  MkTimer (tm_kind t) v (tm_user_task_ t) (tm_idle_task_ t) (tm_delay_ t) (tm_is_running_ t)
    (tm_desired_run_time_ t) (tm_scheduled_run_time_ t).
Definition set_tm_user_task_ (v : option Task) (t : Timer) : Timer :=
  MkTimer (tm_kind t) (tm_task_runner_ t) v (tm_idle_task_ t) (tm_delay_ t) (tm_is_running_ t)
    (tm_desired_run_time_ t) (tm_scheduled_run_time_ t).
Definition set_tm_idle_task_ (v : option (nat * option IdleUnit)) (t : Timer) : Timer :=
  MkTimer (tm_kind t) (tm_task_runner_ t) (tm_user_task_ t) v (tm_delay_ t) (tm_is_running_ t)
    (tm_desired_run_time_ t) (tm_scheduled_run_time_ t).
Definition set_tm_delay_ (v : Z) (t : Timer) : Timer :=
  MkTimer (tm_kind t) (tm_task_runner_ t) (tm_user_task_ t) (tm_idle_task_ t) v
    (tm_is_running_ t) (tm_desired_run_time_ t) (tm_scheduled_run_time_ t).
Definition set_tm_is_running_ (v : bool) (t : Timer) : Timer :=
  MkTimer (tm_kind t) (tm_task_runner_ t) (tm_user_task_ t) (tm_idle_task_ t) (tm_delay_ t)
    (Some v) (tm_desired_run_time_ t) (tm_scheduled_run_time_ t).
Definition set_tm_desired_run_time_ (v : Z) (t : Timer) : Timer :=
  MkTimer (tm_kind t) (tm_task_runner_ t) (tm_user_task_ t) (tm_idle_task_ t) (tm_delay_ t)
    (tm_is_running_ t) v (tm_scheduled_run_time_ t).
Definition set_tm_scheduled_run_time_ (v : Z) (t : Timer) : Timer :=
  MkTimer (tm_kind t) (tm_task_runner_ t) (tm_user_task_ t) (tm_idle_task_ t) (tm_delay_ t)
    (tm_is_running_ t) (tm_desired_run_time_ t) v.

(** The constructors. *)
Definition BaseTimer_init (kind : timer_kind) (task_runner : option runner_ptr) : Timer :=
  MkTimer kind task_runner None None TimeDelta_Zero None 0 0.

(** The timers, and the counter [g_next_idle_task_id]. *)
Record Timers := MkTimers {
  tms_heap : gmap nat Timer;
  tms_next_slot : nat;
  tms_g_next_idle_task_id : Z
}.

Definition set_tms_heap (v : gmap nat Timer) (t : Timers) : Timers :=
  MkTimers v (tms_next_slot t) (tms_g_next_idle_task_id t).

Definition TM (Q A : Type) : Type := ST (World Q * Timers) A.

Section Operations.
Context {Q : Type} `{PriorityQueue DelayedEntry Q} `{WorkerBackend}.
Variable clock : nat → Z.

(** [true] in debug builds. *)
Variable debug : bool.

(** User code. *)
Variable run_user : Task → TM Q unit.
Variable run_idle : IdleUnit → IdleCbParam → TM Q unit.

Definition tlift {A} (c : M Q A) : TM Q A := λ s,
  match c s.1 with Ok (a, w) => Ok (a, (w, s.2)) | Fault f => Fault f end.
Definition get_timer (this : nat) : TM Q Timer := λ s,
  match tms_heap s.2 !! this with Some t => Ok (t, s) | None => Fault NullDeref end.
Definition modify_timer (this : nat) (g : Timer → Timer) : TM Q unit :=
  do! t := get_timer this in
  st_modify (λ s, (s.1, set_tms_heap (<[this := g t]> (tms_heap s.2)) s.2)).
Definition timer_dcheck (b : bool) : TM Q unit :=
  if debug then st_lift (guard_f b CheckFailed) else st_ret tt.

Definition lock_runner (weak : option runner_ptr) : TM Q (option runner_ptr) := λ s,
  Ok (match weak with
      | Some p => match wd_runners s.1 !! p with Some _ => Some p | None => None end
      | None => None
      end, s).

(** *** BaseTimer *)

Definition BindTaskRunner (this : nat) (task_runner : option runner_ptr) : TM Q unit :=
  modify_timer this (set_tm_task_runner_ task_runner).

Definition IsRunning (this : nat) : TM Q bool :=
  do! t := get_timer this in st_lift (of_option Uninitialised (tm_is_running_ t)).

(** [OnStop], by kind. *)
Definition OnStop (this : nat) : TM Q unit :=
  do! t := get_timer this in
  match tm_kind t with
  | OneShotTimer => modify_timer this (set_tm_user_task_ None)
  | RepeatingTimer => st_ret tt
  | IdleTimer => modify_timer this (set_tm_idle_task_ None)
  end.

Definition Stop (this : nat) : TM Q unit :=
  do! _ := modify_timer this (set_tm_is_running_ false) in OnStop this.

Definition set_run_times (this : nat) (v : Z) : TM Q unit :=
  do! _ := modify_timer this (set_tm_desired_run_time_ v) in
  modify_timer this (set_tm_scheduled_run_time_ v).

Definition ScheduleNewTask (this : nat) (delay : Z) : TM Q unit :=
  do! t := get_timer this in
  do! task_runner := lock_runner (tm_task_runner_ t) in
  match task_runner with
  | None => st_ret tt
  | Some task_runner =>
      do! _ := modify_timer this (set_tm_is_running_ true) in
      do! task := tlift (Task_new (Some (CTimer this))) in
      if TimeDelta_gt delay TimeDelta_Zero then
        do! _ := tlift (PostDelayedTask clock task_runner (Some task) delay) in
        do! now := tlift (Now clock) in
        do! at_ := st_lift (TimePoint_plus_delta now delay) in
        set_run_times this at_
      else
        do! _ := tlift (PostTask task_runner (Some task)) in
        do! now := tlift (Now clock) in
        set_run_times this now
  end.

Definition Reset (this : nat) : TM Q unit :=
  do! t := get_timer this in
  do! now := tlift (Now clock) in
  if TimePoint_lt (tm_scheduled_run_time_ t) now then ScheduleNewTask this (tm_delay_ t)
  else
    do! now := tlift (Now clock) in
    do! desired := if TimeDelta_gt (tm_delay_ t) TimeDelta_Zero
                   then st_lift (TimePoint_plus_delta now (tm_delay_ t)) else st_ret now in
    do! _ := modify_timer this (set_tm_desired_run_time_ desired) in
    if TimePoint_ge desired (tm_scheduled_run_time_ t)
    then modify_timer this (set_tm_is_running_ true)
    else ScheduleNewTask this (tm_delay_ t).

Definition StartInternal (this : nat) (delay : Z) : TM Q unit :=
  do! _ := modify_timer this (set_tm_delay_ delay) in Reset this.

(** *** RunUserTask, by kind *)

Definition OneShotTimer_RunUserTask (this : nat) : TM Q unit :=
  do! t := get_timer this in
  let task := tm_user_task_ t in
  do! _ := modify_timer this (set_tm_user_task_ None) in
  do! _ := Stop this in
  do! _ := timer_dcheck (bool_decide (is_Some task)) in
  do! task := st_lift (of_option NullDeref task) in
  run_user task.

Definition RepeatingTimer_RunUserTask (this : nat) : TM Q unit :=
  do! t := get_timer this in
  do! _ := ScheduleNewTask this (tm_delay_ t) in
  do! t := get_timer this in
  do! task := st_lift (of_option NullDeref (tm_user_task_ t)) in
  run_user task.

Definition run_idle_unit (unit_ : option IdleUnit) (param : IdleCbParam) : TM Q unit :=
  match unit_ with Some u => run_idle u param | None => st_ret tt end.

Definition IdleTimer_RunUserTask (this : nat) : TM Q unit :=
  do! t := get_timer this in
  match tm_idle_task_ t with
  | None => st_ret tt
  | Some (_, unit_) =>
      do! _ := run_idle_unit unit_ (MkIdleCbParam true TimeDelta_Zero) in
      Stop this
  end.

Definition RunUserTask (this : nat) : TM Q unit :=
  do! t := get_timer this in
  match tm_kind t with
  | OneShotTimer => OneShotTimer_RunUserTask this
  | RepeatingTimer => RepeatingTimer_RunUserTask this
  | IdleTimer => IdleTimer_RunUserTask this
  end.

Definition OnScheduledTaskInvoked (this : nat) : TM Q unit :=
  do! running := IsRunning this in
  if negb running then st_ret tt
  else
    do! t := get_timer this in
    if TimePoint_gt (tm_desired_run_time_ t) (tm_scheduled_run_time_ t) then
      do! now := tlift (Now clock) in
      if TimePoint_gt (tm_desired_run_time_ t) now then
        do! d := st_lift (TimePoint_minus (tm_desired_run_time_ t) now) in
        ScheduleNewTask this d
      else RunUserTask this
    else RunUserTask this.

(** The body of the tasks a timer posts ([CTimer]). *)
Definition timer_task (weak_self : nat) : TM Q unit := λ s,
  match tms_heap s.2 !! weak_self with
  | Some _ => OnScheduledTaskInvoked weak_self s
  | None => Ok (tt, s)
  end.

(** *** The subclasses *)

Definition Timer_Start (this : nat) (user_task : option Task) (delay : Z) : TM Q unit :=
  do! _ := modify_timer this (set_tm_user_task_ user_task) in
  StartInternal this delay.

(** [OneShotTimer::Start] and [RepeatingTimer::Start] have the same body. *)
Definition OneShotTimer_Start := Timer_Start.
Definition RepeatingTimer_Start := Timer_Start.

Definition FireNow (this : nat) : TM Q unit :=
  do! _ := if debug then do! b := IsRunning this in timer_dcheck b else st_ret tt in
  RunUserTask this.

(** [IdleTask::IdleTask]: a fresh id from the 32-bit counter. *)
Definition IdleTask_new (unit_ : option IdleUnit) : TM Q IdleTask := λ s,
  Ok (MkIdleTask (tms_g_next_idle_task_id s.2) unit_,
      (s.1, MkTimers (tms_heap s.2) (tms_next_slot s.2)
              (wrap_u 32 (tms_g_next_idle_task_id s.2 + 1)))).

(** [std::make_shared<IdleTask>(unit)]: its address. *)
Definition make_idle_task (unit_ : option IdleUnit) : TM Q nat :=
  do! _ := IdleTask_new unit_ in
  λ s, Ok (tms_next_slot s.2,
           (s.1, MkTimers (tms_heap s.2) (S (tms_next_slot s.2)) (tms_g_next_idle_task_id s.2))).

(** The part the two [IdleTimer::Start] share: lock the runner, copy the body
    into an idle task of the timer's own. *)
Definition idle_start (this : nat) (idle_task : IdleTask) : TM Q (runner_ptr * nat) :=
  do! t := get_timer this in
  do! task_runner := lock_runner (tm_task_runner_ t) in
  do! _ := timer_dcheck (bool_decide (is_Some task_runner)) in
  do! slot := make_idle_task (idle_unit_ idle_task) in
  do! _ := modify_timer this (set_tm_idle_task_ (Some (slot, idle_unit_ idle_task))) in
  do! task_runner := st_lift (of_option NullDeref task_runner) in
  st_ret (task_runner, slot).

Definition IdleTimer_Start_timeout (this : nat) (idle_task : IdleTask) (timeout : Z) : TM Q unit :=
  do! _ := timer_dcheck (TimeDelta_gt timeout TimeDelta_Zero) in
  do! '(task_runner, slot) := idle_start this idle_task in
  do! wrapper := IdleTask_new (Some (IdleWeak slot)) in
  do! _ := tlift (PostIdleTask task_runner (Some wrapper)) in
  StartInternal this timeout.

Definition IdleTimer_Start (this : nat) (idle_task : IdleTask) : TM Q unit :=
  do! '(task_runner, _) := idle_start this idle_task in
  tlift (PostIdleTask task_runner (Some idle_task)).

(** The body of the idle task posted by [IdleTimer_Start_timeout]: the timer's
    own idle task, if it still holds the one of that [Start]. *)
Definition idle_weak_task (this slot : nat) (param : IdleCbParam) : TM Q unit := λ s,
  match tms_heap s.2 !! this ≫= tm_idle_task_ with
  | Some (slot', unit_) =>
      if bool_decide (slot' = slot) then run_idle_unit unit_ param s else Ok (tt, s)
  | None => Ok (tt, s)
  end.
End Operations.

(** ** Running the steps *)

Section TimerSteps.
Context {Q A : Type}.
Implicit Types s : World Q * Timers.

Lemma bind_get_timer this t (k : Timer → TM Q A) s :
  tms_heap s.2 !! this = Some t → st_bind (get_timer this) k s = k t s.
Proof. unfold st_bind, get_timer. by intros ->. Qed.

Lemma bind_modify_timer this t g (k : unit → TM Q A) s :
  tms_heap s.2 !! this = Some t →
  st_bind (modify_timer this g) k s =
    k tt (s.1, set_tms_heap (<[this := g t]> (tms_heap s.2)) s.2).
Proof. unfold st_bind at 1, modify_timer, get_timer. unfold st_bind. by intros ->. Qed.

Lemma bind_tlift {B} (c : M Q B) b w (k : B → TM Q A) s :
  c s.1 = Ok (b, w) → st_bind (tlift c) k s = k b (w, s.2).
Proof. unfold st_bind, tlift. by intros ->. Qed.

Lemma bind_lock_runner p r (k : option runner_ptr → TM Q A) s :
  wd_runners s.1 !! p = Some r → st_bind (lock_runner (Some p)) k s = k (Some p) s.
Proof. unfold st_bind, lock_runner. by intros ->. Qed.

Lemma tbind_lift {B} (o : outcome B) b (k : B → TM Q A) s :
  o = Ok b → st_bind (st_lift o) k s = k b s.
Proof. by intros ->. Qed.

Lemma tbind_assoc {B C} (m : TM Q B) (k : B → TM Q C) (l : C → TM Q A) s :
  st_bind (st_bind m k) l s = st_bind m (λ b, st_bind (k b) l) s.
Proof. unfold st_bind. by destruct (m s) as [[]|]. Qed.

Lemma tbind_ret {B} (b : B) (k : B → TM Q A) s : st_bind (st_ret b) k s = k b s.
Proof. done. Qed.
End TimerSteps.

Lemma modify_timer_run {Q} this t g (s : World Q * Timers) :
  tms_heap s.2 !! this = Some t →
  modify_timer this g s = Ok (tt, (s.1, set_tms_heap (<[this := g t]> (tms_heap s.2)) s.2)).
Proof. unfold modify_timer, get_timer, st_bind. by intros ->. Qed.

(** As [mrun], for timer code. *)
Ltac trun :=
  repeat first
    [ rewrite tbind_assoc | rewrite tbind_ret
    | erewrite bind_get_timer by (first [eassumption | apply lookup_insert_eq])
    | erewrite bind_modify_timer by (first [eassumption | apply lookup_insert_eq])
    | erewrite bind_lock_runner by eassumption
    | erewrite tbind_lift by eassumption
    | progress cbv beta match ].

Section Properties.
Context {Q : Type} `{PriorityQueue DelayedEntry Q} `{WorkerBackend}.
Variable clock : nat → Z.
Variable debug : bool.
Variable run_user : Task → TM Q unit.
Variable run_idle : IdleUnit → IdleCbParam → TM Q unit.
Implicit Types (s : World Q * Timers) (t : Timer) (r : TaskRunner Q).

(** The world once a task of timer [this] was put on runner [p]. *)
Record task_posted (p : runner_ptr) r' (w w' : World Q) : Prop := {
  tp_runners : wd_runners w' = <[p := r']> (wd_runners w);
  tp_workers : wd_workers w' = wd_workers w;
  tp_id : wd_g_next_task_id w' = wrap_u 32 (wd_g_next_task_id w + 1);
  tp_ticks : (wd_ticks w < wd_ticks w')%nat;
  tp_tls : wd_tls w' = wd_tls w;
  tp_events : ∃ wp wk, wd_events w' = wd_events w ++ backend_Notify wp wk
}.

(** The task [ScheduleNewTask] posts. *)
Definition timer_task_of (this : nat) (w : World Q) : option Task :=
  Some (MkTask (wd_g_next_task_id w) (Some (CTimer this))).

(** What [ScheduleNewTask] leaves in the timer. *)
Definition armed (v : Z) t : Timer :=
  set_tm_scheduled_run_time_ v (set_tm_desired_run_time_ v (set_tm_is_running_ true t)).

Lemma ScheduleNewTask_run this t p r delay s :
  tms_heap s.2 !! this = Some t → tm_task_runner_ t = Some p → postable p r s.1 →
  i64_min ≤ clock (wd_ticks s.1) + delay ≤ i64_max →
  i64_min ≤ clock (S (wd_ticks s.1)) + delay ≤ i64_max →
  ∃ w', ScheduleNewTask clock this delay s =
      Ok (tt, (w', set_tms_heap (<[this := armed (if 0 <? delay
                                  then clock (S (wd_ticks s.1)) + delay
                                  else clock (wd_ticks s.1)) t]> (tms_heap s.2)) s.2)) ∧
    task_posted p
      (if 0 <? delay
       then push_delayed (MkEntry (clock (wd_ticks s.1) + delay) (timer_task_of this s.1)) r
       else push_task (timer_task_of this s.1) r) s.1 w'.
Proof.
  destruct s as [w th]. cbn [fst snd]. intros Ht Hp Hpost Hb1 Hb2.
  pose proof Hpost as (Hr & wp & wk & Hwp & Hwk).
  unfold ScheduleNewTask. trun. rewrite Hp. trun. cbn [fst snd].
  erewrite bind_tlift by reflexivity. cbn [fst snd].
  set (w1 := set_wd_g_next_task_id (wrap_u 32 (wd_g_next_task_id w + 1)) w).
  unfold TimeDelta_gt, TimeDelta_Zero. destruct (0 <? delay).
  - set (w2 := set_wd_ticks (S (wd_ticks w)) w1).
    set (r2 := push_delayed (MkEntry (clock (wd_ticks w) + delay) (timer_task_of this w)) r).
    set (w3 := set_wd_runners (<[p := r2]> (wd_runners w)) w2).
    destruct (NotifyWorker_run p r2 w3) as (wp' & wk' & En).
    { split; [apply lookup_insert_eq|]. eauto. }
    erewrite bind_tlift.
    2: { unfold PostDelayedTask. mrun. cbn [fst].
         rewrite (bind_lift _ (clock (wd_ticks w) + delay)) by (by apply i64_ok). mrun.
         exact En. }
    erewrite bind_tlift by reflexivity. cbn [fst snd].
    rewrite (tbind_lift _ (clock (S (wd_ticks w)) + delay)) by (by apply i64_ok).
    unfold set_run_times. trun. cbn [fst snd].
    erewrite modify_timer_run by apply lookup_insert_eq. cbn [fst snd].
    eexists. split; [cbn; rewrite !insert_insert_eq; reflexivity|]. split; cbn; eauto.
  - set (r2 := push_task (timer_task_of this w) r).
    set (w3 := set_wd_runners (<[p := r2]> (wd_runners w)) w1).
    destruct (NotifyWorker_run p r2 w3) as (wp' & wk' & En).
    { split; [apply lookup_insert_eq|]. eauto. }
    erewrite bind_tlift.
    2: { unfold PostTask. mrun. exact En. }
    erewrite bind_tlift by reflexivity. cbn [fst snd]. unfold set_run_times. trun. cbn [fst snd].
    erewrite modify_timer_run by apply lookup_insert_eq. cbn [fst snd].
    eexists. split; [cbn; rewrite !insert_insert_eq; reflexivity|]. split; cbn; eauto.
Qed.

(** [ScheduleNewTask] posts one task: with a positive delay it goes to the
    delayed queue with deadline [now + delay], otherwise to the immediate
    queue; the timer is running, its two run times agree, and since the second
    clock reading is no earlier than the first, the deadline is not after the
    recorded run time.  A timer whose runner is gone does nothing. *)
Theorem ScheduleNewTask_spec this t p r delay s
    (Ht : tms_heap s.2 !! this = Some t) (Hp : tm_task_runner_ t = Some p)
    (Hpost : postable p r s.1) (Hmono : ∀ n, clock n ≤ clock (S n))
    (Hrange : ∀ n, i64_min ≤ clock n + delay ≤ i64_max) :
  (∃ s' t' at_ deadline', ScheduleNewTask clock this delay s = Ok (tt, s') ∧
    tms_heap s'.2 = <[this := t']> (tms_heap s.2) ∧
    tm_is_running_ t' = Some true ∧ tm_desired_run_time_ t' = at_ ∧
    tm_scheduled_run_time_ t' = at_ ∧ deadline' ≤ at_ ∧
    (if 0 <? delay
     then deadline' = clock (wd_ticks s.1) + delay ∧
          wd_runners s'.1 !! p =
            Some (push_delayed (MkEntry deadline' (timer_task_of this s.1)) r)
     else wd_runners s'.1 !! p = Some (push_task (timer_task_of this s.1) r))) ∧
  ∀ w, wd_runners w !! p = None →
    ScheduleNewTask clock this delay (w, s.2) = Ok (tt, (w, s.2)).
Proof.
  split.
  - destruct (ScheduleNewTask_run this t p r delay s Ht Hp Hpost (Hrange _) (Hrange _))
      as (w' & E & [Hr _ _ _ _ _]).
    eexists _, _, _, (if 0 <? delay then clock (wd_ticks s.1) + delay else clock (wd_ticks s.1)).
    split; [exact E|]. cbn [fst snd]. split; [reflexivity|]. split; [done|]. split; [done|].
    split; [done|]. cbn. rewrite Hr. destruct (0 <? delay).
    + split; [specialize (Hmono (wd_ticks s.1)); lia|]. split; [done|]. apply lookup_insert_eq.
    + split; [lia|]. apply lookup_insert_eq.
  - intros w Hw. unfold ScheduleNewTask. trun. rewrite Hp. unfold lock_runner, st_bind at 1.
    cbn [fst]. by rewrite Hw.
Qed.

(** The step a due invocation takes. *)
Lemma OnScheduledTaskInvoked_due this t s :
  tms_heap s.2 !! this = Some t → tm_is_running_ t = Some true →
  tm_desired_run_time_ t ≤ tm_scheduled_run_time_ t →
  OnScheduledTaskInvoked clock debug run_user run_idle this s =
    RunUserTask clock debug run_user run_idle this s.
Proof.
  intros Ht Hrun Hdue. unfold OnScheduledTaskInvoked, IsRunning. trun. rewrite Hrun.
  erewrite tbind_lift by reflexivity. cbn [negb]. trun. unfold TimePoint_gt.
  by rewrite (proj2 (Z.ltb_ge _ _) Hdue).
Qed.

(** A one-shot timer is stopped and emptied before its task runs. *)
Definition stopped t : Timer := set_tm_user_task_ None (set_tm_is_running_ false t).

Lemma OneShotTimer_RunUserTask_run this t task s :
  tms_heap s.2 !! this = Some t → tm_kind t = OneShotTimer → tm_user_task_ t = Some task →
  RunUserTask clock debug run_user run_idle this s =
    run_user task (s.1, set_tms_heap (<[this := stopped t]> (tms_heap s.2)) s.2).
Proof.
  intros Ht Hk Htask. unfold RunUserTask. trun. rewrite Hk. unfold OneShotTimer_RunUserTask. trun.
  rewrite Htask. unfold Stop. trun. unfold OnStop. trun.
  cbn [tm_kind set_tm_is_running_ set_tm_user_task_].
  rewrite Hk. trun. unfold timer_dcheck. rewrite bool_decide_true by eauto.
  assert (Ed : ∀ k : unit → TM Q unit, ∀ u,
    st_bind (if debug then st_lift (guard_f true CheckFailed) else st_ret tt) k u = k tt u)
    by by destruct debug.
  rewrite Ed. erewrite tbind_lift by reflexivity. cbn. by rewrite !insert_insert_eq.
Qed.

(** An invocation of a timer that is not running does nothing. *)
Lemma OnScheduledTaskInvoked_stopped this t s :
  tms_heap s.2 !! this = Some t → tm_is_running_ t = Some false →
  OnScheduledTaskInvoked clock debug run_user run_idle this s = Ok (tt, s).
Proof. intros Ht Hrun. unfold OnScheduledTaskInvoked, IsRunning. trun. rewrite Hrun. by trun. Qed.

(** A deferred timer looks at the clock: once its time has come it fires,
    before that it posts another task. *)
Lemma OnScheduledTaskInvoked_deferred this t s :
  tms_heap s.2 !! this = Some t → tm_is_running_ t = Some true →
  tm_scheduled_run_time_ t < tm_desired_run_time_ t →
  i64_min ≤ tm_desired_run_time_ t - clock (wd_ticks s.1) ≤ i64_max →
  OnScheduledTaskInvoked clock debug run_user run_idle this s =
    let s' := (set_wd_ticks (S (wd_ticks s.1)) s.1, s.2) in
    if clock (wd_ticks s.1) <? tm_desired_run_time_ t
    then ScheduleNewTask clock this (tm_desired_run_time_ t - clock (wd_ticks s.1)) s'
    else RunUserTask clock debug run_user run_idle this s'.
Proof.
  intros Ht Hrun Hlate Hr. unfold OnScheduledTaskInvoked, IsRunning. trun. rewrite Hrun.
  erewrite tbind_lift by reflexivity. cbn [negb]. trun. unfold TimePoint_gt.
  rewrite (proj2 (Z.ltb_lt _ _) Hlate). erewrite bind_tlift by reflexivity. cbn [fst snd].
  destruct (_ <? _); [|done].
  by rewrite (tbind_lift _ (tm_desired_run_time_ t - clock (wd_ticks s.1)))
    by (unfold TimePoint_minus; by rewrite i64_ok).
Qed.

(** A one-shot timer fires at most once: when its task is invoked at its
    time, the timer has been stopped and emptied before the user's task runs,
    and if that task leaves the timer alone, any further invocation does
    nothing. *)
Theorem OneShotTimer_fires_once this t task s
    (Ht : tms_heap s.2 !! this = Some t) (Hk : tm_kind t = OneShotTimer)
    (Hrun : tm_is_running_ t = Some true) (Htask : tm_user_task_ t = Some task)
    (Hdue : tm_desired_run_time_ t ≤ tm_scheduled_run_time_ t) :
  let s1 := (s.1, set_tms_heap (<[this := stopped t]> (tms_heap s.2)) s.2) in
  OnScheduledTaskInvoked clock debug run_user run_idle this s = run_user task s1 ∧
  ∀ s2, run_user task s1 = Ok (tt, s2) → tms_heap s2.2 !! this = Some (stopped t) →
    OnScheduledTaskInvoked clock debug run_user run_idle this s2 = Ok (tt, s2).
Proof.
  cbn zeta. split.
  - rewrite (OnScheduledTaskInvoked_due this t) by done. by apply OneShotTimer_RunUserTask_run.
  - intros s2 _ Hs2. by apply (OnScheduledTaskInvoked_stopped this (stopped t)).
Qed.

(** The run time [Reset] asks for. *)
Definition wanted (now : Z) t : Z := if 0 <? tm_delay_ t then now + tm_delay_ t else now.

(** Resetting while the pending task is not yet due. *)
Lemma Reset_pending this t s :
  tms_heap s.2 !! this = Some t → clock (wd_ticks s.1) ≤ tm_scheduled_run_time_ t →
  i64_min ≤ clock (S (wd_ticks s.1)) + tm_delay_ t ≤ i64_max →
  let desired := wanted (clock (S (wd_ticks s.1))) t in
  let t' := set_tm_desired_run_time_ desired t in
  let s' := (set_wd_ticks (S (S (wd_ticks s.1))) s.1,
             set_tms_heap (<[this := t']> (tms_heap s.2)) s.2) in
  Reset clock this s =
    if tm_scheduled_run_time_ t <=? desired
    then Ok (tt, (s'.1, set_tms_heap (<[this := set_tm_is_running_ true t']> (tms_heap s.2)) s.2))
    else ScheduleNewTask clock this (tm_delay_ t) s'.
Proof.
  intros Ht Hn Hr. cbn zeta. unfold Reset. trun.
  erewrite bind_tlift by reflexivity. cbn [fst snd]. unfold TimePoint_lt.
  rewrite (proj2 (Z.ltb_ge _ _) Hn).
  erewrite bind_tlift by reflexivity. cbn [fst snd wd_ticks set_wd_ticks].
  unfold TimeDelta_gt, TimeDelta_Zero, TimePoint_ge, wanted.
  destruct (0 <? tm_delay_ t).
  - rewrite (tbind_lift _ (clock (S (wd_ticks s.1)) + tm_delay_ t)) by (by apply i64_ok).
    trun. cbn [snd fst]. case_match; [|done].
    erewrite modify_timer_run by apply lookup_insert_eq. cbn. by rewrite insert_insert_eq.
  - trun. cbn [snd fst]. case_match; [|done].
    erewrite modify_timer_run by apply lookup_insert_eq. cbn. by rewrite insert_insert_eq.
Qed.

(** Resetting a pending timer to a later time posts nothing: only the
    desired run time moves.  The pending task, invoked before that time, does
    not run the user's task: it posts the timer again, with a deadline no
    earlier than the desired time. *)
Theorem Reset_defers this t p r s
    (Ht : tms_heap s.2 !! this = Some t) (Hp : tm_task_runner_ t = Some p)
    (Hclock : ∀ n, 0 ≤ clock n ≤ clock (S n)) (Hrange : ∀ n, clock n ≤ 2 ^ 61)
    (Hdelay : 0 ≤ tm_delay_ t ≤ 2 ^ 61)
    (Hpending : clock (wd_ticks s.1) ≤ tm_scheduled_run_time_ t)
    (Hlater : tm_scheduled_run_time_ t < wanted (clock (S (wd_ticks s.1))) t) :
  let desired := wanted (clock (S (wd_ticks s.1))) t in
  ∃ s1, Reset clock this s = Ok (tt, s1) ∧ wd_runners s1.1 = wd_runners s.1 ∧
    ∀ w, postable p r w → clock (wd_ticks w) < desired →
    ∃ s2 deadline,
      OnScheduledTaskInvoked clock debug run_user run_idle this (w, s1.2) = Ok (tt, s2) ∧
      wd_runners s2.1 =
        <[p := push_delayed (MkEntry deadline (timer_task_of this w)) r]> (wd_runners w) ∧
      desired ≤ deadline.
Proof.
  cbn zeta. assert (Hi : i64_max = 2 ^ 63 - 1 ∧ i64_min = - 2 ^ 63) by done.
  rewrite (Reset_pending this t s Ht Hpending).
  2: { pose proof (Hclock (S (wd_ticks s.1))). pose proof (Hrange (S (wd_ticks s.1))). lia. }
  set (desired := wanted (clock (S (wd_ticks s.1))) t) in *.
  rewrite (proj2 (Z.leb_le _ _)) by lia. eexists. split; [reflexivity|]. split; [done|].
  intros w Hpost Hw. cbn [snd fst].
  set (t1 := set_tm_is_running_ true (set_tm_desired_run_time_ desired t)).
  set (T1 := set_tms_heap (<[this:=t1]> (tms_heap s.2)) s.2).
  assert (H1 : tms_heap T1 !! this = Some t1) by apply lookup_insert_eq.
  set (w1 := set_wd_ticks (S (wd_ticks w)) w).
  assert (Hd : desired ≤ 2 ^ 62).
  { unfold desired, wanted. pose proof (Hrange (S (wd_ticks s.1))). case_match; lia. }
  pose proof (Hclock (wd_ticks w)) as Hc0. pose proof (Hrange (wd_ticks w)).
  rewrite (OnScheduledTaskInvoked_deferred this t1 (w, T1) H1 eq_refl Hlater).
  2: { cbn [fst t1 tm_desired_run_time_ set_tm_is_running_ set_tm_desired_run_time_]. lia. }
  cbn [fst snd t1 tm_desired_run_time_ set_tm_is_running_ set_tm_desired_run_time_].
  rewrite (proj2 (Z.ltb_lt _ _) Hw).
  destruct (ScheduleNewTask_run this t1 p r (desired - clock (wd_ticks w)) (w1, T1)
    H1 Hp Hpost) as (w' & E & [Hr _ _ _ _ _]); cbn [fst snd] in *.
  - pose proof (Hclock (S (wd_ticks w))). pose proof (Hrange (S (wd_ticks w))).
    cbn [w1 wd_ticks set_wd_ticks]. lia.
  - pose proof (Hclock (S (S (wd_ticks w)))). pose proof (Hrange (S (S (wd_ticks w)))).
    cbn [w1 wd_ticks set_wd_ticks]. lia.
  - rewrite (proj2 (Z.ltb_lt 0 _)) in Hr by lia.
    eexists _, _. split; [exact E|]. split; [exact Hr|]. cbn [w1 wd_ticks set_wd_ticks]. lia.
Qed.

(** Resetting once the pending task is overdue posts another. *)
Lemma Reset_late this t p r s :
  tms_heap s.2 !! this = Some t → tm_task_runner_ t = Some p → postable p r s.1 →
  (∀ n, 0 ≤ clock n ≤ clock (S n)) → (∀ n, clock n ≤ 2 ^ 61) → 0 < tm_delay_ t ≤ 2 ^ 61 →
  tm_scheduled_run_time_ t < clock (wd_ticks s.1) →
  ∃ s1 at_ deadline, Reset clock this s = Ok (tt, s1) ∧
    clock (wd_ticks s.1) + tm_delay_ t ≤ at_ ∧
    tms_heap s1.2 = <[this := armed at_ t]> (tms_heap s.2) ∧ set_tms_heap (tms_heap s.2) s1.2 = s.2 ∧
    wd_runners s1.1 =
      <[p := push_delayed (MkEntry deadline (timer_task_of this s.1)) r]> (wd_runners s.1).
Proof.
  assert (Hi : i64_max = 2 ^ 63 - 1 ∧ i64_min = - 2 ^ 63) by done.
  intros Ht Hp Hpost Hclock Hrange Hdelay Hlate. unfold Reset. trun.
  erewrite bind_tlift by reflexivity. cbn [fst snd]. unfold TimePoint_lt.
  rewrite (proj2 (Z.ltb_lt _ _) Hlate). set (w1 := set_wd_ticks (S (wd_ticks s.1)) s.1).
  set (n := wd_ticks s.1) in *.
  pose proof (Hclock n). pose proof (Hclock (S n)). pose proof (Hrange (S n)).
  pose proof (Hclock (S (S n))). pose proof (Hrange (S (S n))).
  destruct (ScheduleNewTask_run this t p r (tm_delay_ t) (w1, s.2) Ht Hp Hpost)
    as (w' & E & [Hr _ _ _ _ _]); [cbn; fold n; lia..|].
  cbn [fst snd] in E, Hr. rewrite (proj2 (Z.ltb_lt 0 _)) in E, Hr by lia.
  eexists _, (clock (S (S n)) + tm_delay_ t), _. split; [exact E|]. split; [lia|]. split; [done|].
  split; [by destruct s as [? []]|exact Hr].
Qed.

(** C36. Resetting a one-shot timer too late makes it fire too early.  When the
    time the timer last posted a task for has passed but that task still waits
    in its queue, [Reset] takes it to have run: it posts a second task and puts
    the desired time off, and the first task, whenever it is invoked, runs the
    user's task without looking at the clock. *)
Theorem late_Reset_fires_early this t p r task s
    (Ht : tms_heap s.2 !! this = Some t) (Hk : tm_kind t = OneShotTimer)
    (Hp : tm_task_runner_ t = Some p) (Htask : tm_user_task_ t = Some task)
    (Hpost : postable p r s.1)
    (Hclock : ∀ n, 0 ≤ clock n ≤ clock (S n)) (Hrange : ∀ n, clock n ≤ 2 ^ 61)
    (Hdelay : 0 < tm_delay_ t ≤ 2 ^ 61)
    (Hlate : tm_scheduled_run_time_ t < clock (wd_ticks s.1)) :
  ∃ s1 at_ deadline, Reset clock this s = Ok (tt, s1) ∧
    clock (wd_ticks s.1) + tm_delay_ t ≤ at_ ∧
    tm_desired_run_time_ <$> tms_heap s1.2 !! this = Some at_ ∧
    wd_runners s1.1 =
      <[p := push_delayed (MkEntry deadline (timer_task_of this s.1)) r]> (wd_runners s.1) ∧
    ∀ w, OnScheduledTaskInvoked clock debug run_user run_idle this (w, s1.2) =
      run_user task (w, set_tms_heap (<[this := stopped (armed at_ t)]> (tms_heap s.2)) s.2).
Proof.
  destruct (Reset_late this t p r s Ht Hp Hpost Hclock Hrange Hdelay Hlate)
    as (s1 & at_ & deadline & E & Hat & Hh & Hback & Hr).
  assert (H1 : tms_heap s1.2 !! this = Some (armed at_ t)) by (rewrite Hh; apply lookup_insert_eq).
  exists s1, at_, deadline. split; [exact E|]. split; [exact Hat|]. split; [by rewrite H1|].
  split; [exact Hr|]. intros w.
  rewrite (OnScheduledTaskInvoked_due this (armed at_ t)) by done.
  rewrite (OneShotTimer_RunUserTask_run this (armed at_ t) task) by done.
  assert (Hset : ∀ h, set_tms_heap h s1.2 = set_tms_heap h s.2).
  { intros h. rewrite <- Hback. by destruct s1 as [? []]. }
  cbn [fst snd]. by rewrite Hset, Hh, insert_insert_eq.
Qed.

(** A one-shot timer that holds no task cannot run it. *)
Lemma OneShotTimer_RunUserTask_empty this t s :
  tms_heap s.2 !! this = Some t → tm_kind t = OneShotTimer → tm_user_task_ t = None →
  RunUserTask clock debug run_user run_idle this s =
    Fault (if debug then CheckFailed else NullDeref).
Proof.
  intros Ht Hk Htask. unfold RunUserTask. trun. rewrite Hk. unfold OneShotTimer_RunUserTask. trun.
  rewrite Htask. unfold Stop. trun. unfold OnStop. trun.
  cbn [tm_kind set_tm_is_running_ set_tm_user_task_].
  rewrite Hk. trun. unfold timer_dcheck. by destruct debug.
Qed.

(** [Reset] on a one-shot timer that already fired, or was stopped, arms it
    without a task: the invocation that follows runs into a failed check in
    debug builds and a null pointer in release builds. *)
Theorem Reset_without_task_crashes this t p r s
    (Ht : tms_heap s.2 !! this = Some t) (Hk : tm_kind t = OneShotTimer)
    (Hp : tm_task_runner_ t = Some p) (Htask : tm_user_task_ t = None) (Hpost : postable p r s.1)
    (Hclock : ∀ n, 0 ≤ clock n ≤ clock (S n)) (Hrange : ∀ n, clock n ≤ 2 ^ 61)
    (Hdelay : 0 < tm_delay_ t ≤ 2 ^ 61)
    (Hlate : tm_scheduled_run_time_ t < clock (wd_ticks s.1)) :
  ∃ s1, Reset clock this s = Ok (tt, s1) ∧
    ∀ w, OnScheduledTaskInvoked clock debug run_user run_idle this (w, s1.2) =
      Fault (if debug then CheckFailed else NullDeref).
Proof.
  destruct (Reset_late this t p r s Ht Hp Hpost Hclock Hrange Hdelay Hlate)
    as (s1 & at_ & deadline & E & _ & Hh & _).
  assert (H1 : tms_heap s1.2 !! this = Some (armed at_ t)) by (rewrite Hh; apply lookup_insert_eq).
  exists s1. split; [exact E|]. intros w.
  rewrite (OnScheduledTaskInvoked_due this (armed at_ t)) by done.
  by apply (OneShotTimer_RunUserTask_empty this (armed at_ t)).
Qed.

(** A repeating timer posts its next task before its task runs. *)
Lemma RepeatingTimer_RunUserTask_run this t t1 task s s1 :
  tms_heap s.2 !! this = Some t → tm_kind t = RepeatingTimer →
  ScheduleNewTask clock this (tm_delay_ t) s = Ok (tt, s1) →
  tms_heap s1.2 !! this = Some t1 → tm_user_task_ t1 = Some task →
  RunUserTask clock debug run_user run_idle this s = run_user task s1.
Proof.
  intros Ht Hk E Ht1 Htask. unfold RunUserTask. trun. rewrite Hk. unfold RepeatingTimer_RunUserTask.
  trun. erewrite st_bind_step by exact E. trun. rewrite Htask. by erewrite tbind_lift by reflexivity.
Qed.

(** C37. Each invocation of an armed repeating timer posts exactly one
    successor and then runs the user's task.  Restarting the timer with a
    shorter delay while a task is pending posts a second one and leaves the
    first in the queue; no step of either cancels the other, so two chains of
    tasks keep the timer firing. *)
Theorem RepeatingTimer_restart_doubles this t p r task s
    (Ht : tms_heap s.2 !! this = Some t) (Hp : tm_task_runner_ t = Some p)
    (Hk : tm_kind t = RepeatingTimer) (Htask : tm_user_task_ t = Some task)
    (Hpost : postable p r s.1)
    (Hclock : ∀ n, 0 ≤ clock n ≤ clock (S n)) (Hrange : ∀ n, clock n ≤ 2 ^ 61)
    (Hdelay : 0 < tm_delay_ t ≤ 2 ^ 61) :
  (tm_is_running_ t = Some true → tm_desired_run_time_ t = tm_scheduled_run_time_ t →
   ∃ s' at_ deadline,
     OnScheduledTaskInvoked clock debug run_user run_idle this s = run_user task s' ∧
     wd_runners s'.1 =
       <[p := push_delayed (MkEntry deadline (timer_task_of this s.1)) r]> (wd_runners s.1) ∧
     tms_heap s'.2 = <[this := armed at_ t]> (tms_heap s.2)) ∧
  (∀ delay, 0 < delay ≤ tm_delay_ t →
   clock (wd_ticks s.1) ≤ tm_scheduled_run_time_ t →
   clock (S (wd_ticks s.1)) + delay < tm_scheduled_run_time_ t →
   ∃ s' at_ deadline,
     RepeatingTimer_Start clock this (Some task) delay s = Ok (tt, s') ∧
     wd_runners s'.1 =
       <[p := push_delayed (MkEntry deadline (timer_task_of this s.1)) r]> (wd_runners s.1) ∧
     tms_heap s'.2 = <[this := armed at_ (set_tm_delay_ delay t)]> (tms_heap s.2)).
Proof.
  assert (Hi : i64_max = 2 ^ 63 - 1 ∧ i64_min = - 2 ^ 63) by done.
  assert (Hrg : ∀ n d, 0 < d ≤ tm_delay_ t → i64_min ≤ clock n + d ≤ i64_max).
  { intros n d ?. pose proof (Hclock n). pose proof (Hrange n). lia. }
  split.
  - intros Hrun Heq. rewrite (OnScheduledTaskInvoked_due this t s) by (done || lia).
    destruct (ScheduleNewTask_run this t p r (tm_delay_ t) s Ht Hp Hpost) as (w' & E & [Hr _ _ _ _ _]);
      [apply Hrg; lia..|].
    erewrite (RepeatingTimer_RunUserTask_run this t _ task); [|done|done|exact E|apply lookup_insert_eq|done].
    rewrite (proj2 (Z.ltb_lt 0 _)) in Hr |- * by lia.
    eexists _, _, _. split; [reflexivity|]. split; [exact Hr|]. reflexivity.
  - intros delay Hd H1 H2. unfold RepeatingTimer_Start, Timer_Start, StartInternal. trun.
    cbn [snd fst]. set (t1 := set_tm_delay_ delay (set_tm_user_task_ (Some task) t)).
    assert (Et : t1 = set_tm_delay_ delay t) by (unfold t1; by destruct t; cbn in *; subst).
    erewrite (Reset_pending this t1).
    2: { cbn. rewrite insert_insert_eq. apply lookup_insert_eq. }
    2: { exact H1. }
    2: { apply Hrg. cbn. lia. }
    unfold wanted. cbn [t1 tm_delay_ set_tm_delay_ tm_scheduled_run_time_ fst snd
      set_tm_user_task_]. rewrite (proj2 (Z.ltb_lt 0 _)) by lia.
    rewrite (proj2 (Z.leb_gt _ _)) by lia.
    edestruct ScheduleNewTask_run as (w' & E & [Hr _ _ _ _ _]); [..|rewrite E].
    { apply lookup_insert_eq. } { exact Hp. } { exact Hpost. }
    { apply Hrg. lia. } { apply Hrg. lia. }
    eexists _, _, _. split; [reflexivity|]. rewrite (proj2 (Z.ltb_lt 0 _)) in Hr by lia.
    split; [exact Hr|]. cbn. rewrite !insert_insert_eq, Et. reflexivity.
Qed.

(** What both [Start]s of an idle timer come to, before they post. *)
Lemma idle_start_run this t p r idle (w : World Q) T :
  tms_heap T !! this = Some t → tm_task_runner_ t = Some p → wd_runners w !! p = Some r →
  idle_start debug this idle (w, T) =
    Ok ((p, tms_next_slot T),
        (w, MkTimers (<[this := set_tm_idle_task_ (Some (tms_next_slot T, idle_unit_ idle)) t]> (tms_heap T))
              (S (tms_next_slot T)) (wrap_u 32 (tms_g_next_idle_task_id T + 1)))).
Proof.
  intros Ht Hp Hr. unfold idle_start. erewrite bind_get_timer by exact Ht. rewrite Hp.
  erewrite bind_lock_runner by exact Hr. rewrite bool_decide_true by eauto.
  assert (Ed : ∀ (k : unit → TM Q (runner_ptr * nat)) u,
    st_bind (timer_dcheck debug true) k u = k tt u) by (intros; by destruct debug).
  rewrite Ed. erewrite st_bind_step by reflexivity. cbn [fst snd].
  erewrite bind_modify_timer by exact Ht. by erewrite tbind_lift by reflexivity.
Qed.

(** An idle timer runs its body first and is stopped afterwards, whatever the
    body did to it. *)
Lemma IdleTimer_RunUserTask_run this t t1 slot u s w1 T1 :
  tms_heap s.2 !! this = Some t → tm_kind t = IdleTimer → tm_idle_task_ t = Some (slot, Some u) →
  run_idle u (MkIdleCbParam true TimeDelta_Zero) s = Ok (tt, (w1, T1)) →
  tms_heap T1 !! this = Some t1 → tm_kind t1 = IdleTimer →
  RunUserTask clock debug run_user run_idle this s =
    Ok (tt, (w1, set_tms_heap (<[this := set_tm_idle_task_ None (set_tm_is_running_ false t1)]>
                   (tms_heap T1)) T1)).
Proof.
  intros Ht Hk Hidle E Ht1 Hk1. unfold RunUserTask. trun. rewrite Hk. unfold IdleTimer_RunUserTask.
  trun. rewrite Hidle. cbn [run_idle_unit]. erewrite st_bind_step by exact E. unfold Stop. trun.
  unfold OnStop. trun. cbn [tm_kind set_tm_is_running_]. rewrite Hk1.
  erewrite modify_timer_run by apply lookup_insert_eq. cbn. by rewrite insert_insert_eq.
Qed.

(** An idle timer's body runs once when the timeout comes first, because
    the timer then drops it; but when the idle task runs first the timer keeps
    running and its timeout runs the body again. *)
Theorem IdleTimer_can_run_twice this t slot u param s
    (Ht : tms_heap s.2 !! this = Some t) (Hk : tm_kind t = IdleTimer)
    (Hrun : tm_is_running_ t = Some true) (Hidle : tm_idle_task_ t = Some (slot, Some u))
    (Hdue : tm_desired_run_time_ t ≤ tm_scheduled_run_time_ t)
    (Hbody : ∀ param s, ∃ w, run_idle u param s = Ok (tt, (w, s.2))) :
  let timed_out := MkIdleCbParam true TimeDelta_Zero in
  let fire := OnScheduledTaskInvoked clock debug run_user run_idle this in
  let idle := idle_weak_task run_idle this slot param in
  let stopped := set_tms_heap
    (<[this := set_tm_idle_task_ None (set_tm_is_running_ false t)]> (tms_heap s.2)) s.2 in
  (∃ w1, run_idle u timed_out s = Ok (tt, (w1, s.2)) ∧
     fire s = Ok (tt, (w1, stopped)) ∧ idle (w1, stopped) = Ok (tt, (w1, stopped))) ∧
  (∃ w1 w2, run_idle u param s = Ok (tt, (w1, s.2)) ∧ idle s = Ok (tt, (w1, s.2)) ∧
     run_idle u timed_out (w1, s.2) = Ok (tt, (w2, s.2)) ∧
     fire (w1, s.2) = Ok (tt, (w2, stopped))).
Proof.
  cbn zeta.
  assert (Hfire : ∀ w w1,
    run_idle u (MkIdleCbParam true TimeDelta_Zero) (w, s.2) = Ok (tt, (w1, s.2)) →
    OnScheduledTaskInvoked clock debug run_user run_idle this (w, s.2) =
      Ok (tt, (w1, set_tms_heap (<[this := set_tm_idle_task_ None (set_tm_is_running_ false t)]>
                     (tms_heap s.2)) s.2))).
  { intros w w1 E. rewrite (OnScheduledTaskInvoked_due this t) by done.
    by apply (IdleTimer_RunUserTask_run this t t slot u). }
  destruct s as [w T]. cbn [fst snd] in *.
  assert (Hidle1 : ∀ w, idle_weak_task run_idle this slot param (w, T) = run_idle u param (w, T)).
  { intros w0. unfold idle_weak_task. cbn [snd]. rewrite Ht. cbn. rewrite Hidle.
    by rewrite bool_decide_true. }
  split.
  - destruct (Hbody (MkIdleCbParam true TimeDelta_Zero) (w, T)) as [w1 E]. cbn [snd] in E.
    exists w1. split; [done|]. split; [by apply Hfire|].
    unfold idle_weak_task. cbn [snd tms_heap set_tms_heap]. rewrite lookup_insert_eq. done.
  - destruct (Hbody param (w, T)) as [w1 E]. destruct (Hbody (MkIdleCbParam true TimeDelta_Zero)
      (w1, T)) as [w2 E2]. cbn [snd] in *.
    exists w1, w2. rewrite Hidle1. auto.
Qed.

(** A body that restarts its own timer.  A one-shot timer is stopped before its
    task runs, so the restart arms it again and it fires once more; an idle
    timer is stopped after its body, so the restart is undone: the idle task
    and the timer's task that it posted stay queued, but the timer is not
    running and holds no body, and neither task does anything.  (The restart
    also replaces [idle_task_], and so destroys the [std::function] that is
    running: a body that goes on after it must not use what it captured.) *)
Theorem restart_in_body this t s (Ht : tms_heap s.2 !! this = Some t) :
  (∀ task, tm_kind t = OneShotTimer → tm_user_task_ t = Some task →
     RunUserTask clock debug run_user run_idle this s =
       run_user task (s.1, set_tms_heap (<[this := stopped t]> (tms_heap s.2)) s.2)) ∧
  (∀ slot u w1 T1 t1, tm_kind t = IdleTimer → tm_idle_task_ t = Some (slot, Some u) →
     run_idle u (MkIdleCbParam true TimeDelta_Zero) s = Ok (tt, (w1, T1)) →
     tms_heap T1 !! this = Some t1 → tm_kind t1 = IdleTimer →
     ∃ T2, RunUserTask clock debug run_user run_idle this s = Ok (tt, (w1, T2)) ∧
       (∀ w, timer_task clock debug run_user run_idle this (w, T2) = Ok (tt, (w, T2))) ∧
       ∀ new_slot param w,
         idle_weak_task run_idle this new_slot param (w, T2) = Ok (tt, (w, T2))).
Proof.
  split; [intros task Hk Htask; by apply OneShotTimer_RunUserTask_run|].
  intros slot u w1 T1 t1 Hk Hidle E Ht1 Hk1.
  set (t2 := set_tm_idle_task_ None (set_tm_is_running_ false t1)).
  set (T2 := set_tms_heap (<[this := t2]> (tms_heap T1)) T1).
  assert (Ht2 : tms_heap T2 !! this = Some t2) by apply lookup_insert_eq.
  exists T2. split; [by eapply IdleTimer_RunUserTask_run|]. split.
  - intros w. unfold timer_task. cbn [snd]. rewrite Ht2.
    by apply (OnScheduledTaskInvoked_stopped this t2).
  - intros new_slot param w. unfold idle_weak_task. cbn [snd]. by rewrite Ht2.
Qed.

(** [FireNow] on a one-shot timer that holds no task, because it already
    fired, was stopped or was never started, never returns: a check fails in
    debug builds and a null task is run in release builds. *)
Theorem FireNow_without_task this t s
    (Ht : tms_heap s.2 !! this = Some t) (Hk : tm_kind t = OneShotTimer)
    (Htask : tm_user_task_ t = None) :
  FireNow clock debug run_user run_idle this s =
    Fault (if debug
           then match tm_is_running_ t with None => Uninitialised | _ => CheckFailed end
           else NullDeref).
Proof.
  pose proof (OneShotTimer_RunUserTask_empty this t s Ht Hk Htask) as Hrun.
  unfold FireNow, IsRunning, timer_dcheck. destruct debug; [|done]. trun.
  destruct (tm_is_running_ t) as [[]|]; [|done..]. erewrite tbind_lift by reflexivity.
  erewrite tbind_lift by reflexivity. exact Hrun.
Qed.
End Properties.

(** ** Witnesses *)

Section Samples.
#[local] Existing Instance thread_backend.

Definition timer_clock (n : nat) : Z := Z.min (10 * Z.of_nat n) 1000.

Lemma timer_clock_mono n : 0 ≤ timer_clock n ≤ timer_clock (S n).
Proof. unfold timer_clock. lia. Qed.

Lemma timer_clock_range n : timer_clock n ≤ 2 ^ 61.
Proof. unfold timer_clock. lia. Qed.

Lemma timer_clock_plus d n : 0 ≤ d ≤ 1000 → i64_min ≤ timer_clock n + d ≤ i64_max.
Proof. unfold timer_clock, i64_min, i64_max. lia. Qed.

(** User code that logs its run. *)
Definition log_user (task : Task) : TM (list DelayedEntry) unit :=
  tlift (log [EvRunUser (task_id_ task)]).
Definition log_idle (u : IdleUnit) (param : IdleCbParam) : TM (list DelayedEntry) unit :=
  tlift (log [EvRunIdle (match u with IdleUser n => n | IdleWeak _ => 0 end) param]).

Definition timer_runner : TaskRunner (list DelayedEntry) :=
  set_tr_worker_ (Some 0%nat) (sample_tr 1 1 0).

Definition timer_world : World (list DelayedEntry) :=
  MkWorld {[ 1%nat := timer_runner ]} {[ 0%nat := Worker_init true "w" ]} ∅ 3 7 0 0 [].

(** An armed timer of each kind, due at 50, on runner 1. *)
Definition armed_timer (k : timer_kind) : Timer :=
  MkTimer k (Some 1%nat) (Some (MkTask 5 (Some (CUser 9)))) (Some (0%nat, Some (IdleUser 4))) 40
    (Some true) 50 50.

Definition timer_state (t : Timer) : World (list DelayedEntry) * Timers :=
  (timer_world, MkTimers {[ 0%nat := t ]} 1 0).

Lemma timer_postable : postable 1 timer_runner timer_world.
Proof. split; [done|]. by exists 0%nat, (Worker_init true "w"). Qed.

Lemma ScheduleNewTask_spec_witness :
  ∃ s' t', ScheduleNewTask timer_clock 0 40 (timer_state (armed_timer RepeatingTimer)) =
      Ok (tt, s') ∧
    tms_heap s'.2 = {[ 0%nat := t' ]} ∧ tm_is_running_ t' = Some true.
Proof.
  destruct (ScheduleNewTask_spec timer_clock 0 (armed_timer RepeatingTimer) 1 timer_runner 40
    (timer_state (armed_timer RepeatingTimer)) eq_refl eq_refl timer_postable
    (λ n, proj2 (timer_clock_mono n))) as [(s' & t' & at_ & dl & E & Hh & Hr & _) _].
  - intros n. apply timer_clock_plus. lia.
  - exists s', t'. split; [exact E|]. split; [|exact Hr]. rewrite Hh. cbn. apply insert_singleton_eq.
Defined.

Lemma OneShotTimer_fires_once_witness :
  ∃ s1, OnScheduledTaskInvoked timer_clock true log_user log_idle 0
      (timer_state (armed_timer OneShotTimer)) = Ok (tt, s1) ∧
    wd_events s1.1 = [EvRunUser 5] ∧
    OnScheduledTaskInvoked timer_clock true log_user log_idle 0 s1 = Ok (tt, s1).
Proof.
  destruct (OneShotTimer_fires_once timer_clock true log_user log_idle 0
    (armed_timer OneShotTimer) (MkTask 5 (Some (CUser 9)))
    (timer_state (armed_timer OneShotTimer)) eq_refl eq_refl eq_refl eq_refl (Z.le_refl _))
    as [E1 E2].
  eexists. split; [rewrite E1; reflexivity|]. split; [reflexivity|].
  apply E2; [reflexivity|]. cbn. apply lookup_insert_eq.
Defined.

Lemma Reset_defers_witness :
  ∃ s1, Reset timer_clock 0 (timer_state (armed_timer OneShotTimer)) = Ok (tt, s1) ∧
    wd_runners s1.1 = wd_runners timer_world.
Proof.
  destruct (Reset_defers timer_clock true log_user log_idle 0 (armed_timer OneShotTimer) 1
    timer_runner (timer_state (armed_timer OneShotTimer)) eq_refl eq_refl timer_clock_mono
    timer_clock_range) as (s1 & E & Hr & _); [decide_now..|].
  exists s1. split; [exact E|exact Hr].
Defined.

(** The clock stands at 60 when the timer due at 50 is reset: it would run at
    110, but its waiting task runs it at once. *)
Definition late_state (t : Timer) : World (list DelayedEntry) * Timers :=
  (set_wd_ticks 6 timer_world, MkTimers {[ 0%nat := t ]} 1 0).

Lemma late_Reset_fires_early_witness :
  ∃ s1 at_, Reset timer_clock 0 (late_state (armed_timer OneShotTimer)) = Ok (tt, s1) ∧
    tm_desired_run_time_ <$> tms_heap s1.2 !! 0%nat = Some at_ ∧ 100 ≤ at_ ∧
    (λ r, wd_events r.2.1) <$> OnScheduledTaskInvoked timer_clock true log_user log_idle 0 s1 =
      Ok [EvCvNotifyOne 0; EvRunUser 5].
Proof.
  destruct (late_Reset_fires_early timer_clock true log_user log_idle 0 (armed_timer OneShotTimer)
    1 timer_runner (MkTask 5 (Some (CUser 9))) (late_state (armed_timer OneShotTimer)) eq_refl eq_refl
    eq_refl eq_refl timer_postable timer_clock_mono timer_clock_range) as (s1 & at_ & dl & E & Hat & Hd & _ & Hrun);
    [decide_now..|].
  exists s1, at_. split; [exact E|]. split; [exact Hd|]. split; [exact Hat|].
  assert (Ee : (λ r, wd_events r.2.1) <$> Reset timer_clock 0 (late_state (armed_timer OneShotTimer)) =
    Ok [EvCvNotifyOne 0]) by (vm_compute; reflexivity).
  rewrite E in Ee. injection Ee as Ee. destruct s1 as [w T]. specialize (Hrun w). cbn [snd] in Hrun.
  rewrite Hrun. cbn in Ee |- *.
  by rewrite Ee.
Defined.

Lemma Reset_without_task_crashes_witness :
  ∃ s1, Reset timer_clock 0 (late_state (stopped (armed_timer OneShotTimer))) = Ok (tt, s1) ∧
    OnScheduledTaskInvoked timer_clock false log_user log_idle 0 s1 = Fault NullDeref.
Proof.
  destruct (Reset_without_task_crashes timer_clock false log_user log_idle 0
    (stopped (armed_timer OneShotTimer)) 1 timer_runner (late_state (stopped (armed_timer OneShotTimer)))
    eq_refl eq_refl eq_refl eq_refl timer_postable timer_clock_mono timer_clock_range)
    as (s1 & E & Hrun); [decide_now..|].
  exists s1. split; [exact E|]. destruct s1 as [w T]. exact (Hrun w).
Defined.

Lemma RepeatingTimer_restart_doubles_witness :
  ∃ s' deadline,
    RepeatingTimer_Start timer_clock 0 (Some (MkTask 5 (Some (CUser 9)))) 5
      (timer_state (armed_timer RepeatingTimer)) = Ok (tt, s') ∧
    wd_runners s'.1 !! 1%nat =
      Some (push_delayed (MkEntry deadline (timer_task_of 0 timer_world)) timer_runner).
Proof.
  destruct (RepeatingTimer_restart_doubles timer_clock true log_user log_idle 0
    (armed_timer RepeatingTimer) 1 timer_runner (MkTask 5 (Some (CUser 9)))
    (timer_state (armed_timer RepeatingTimer)) eq_refl eq_refl eq_refl eq_refl timer_postable
    timer_clock_mono timer_clock_range) as [_ H2]; [decide_now|].
  destruct (H2 5) as (s' & at_ & dl & E & Hr & _); [decide_now..|].
  exists s', dl. split; [exact E|]. rewrite Hr. apply lookup_insert_eq.
Defined.

Lemma IdleTimer_can_run_twice_witness :
  ∃ s2, OnScheduledTaskInvoked timer_clock true log_user log_idle 0
      (timer_state (armed_timer IdleTimer)) = Ok (tt, s2) ∧
    tms_heap s2.2 !! 0%nat =
      Some (set_tm_idle_task_ None (set_tm_is_running_ false (armed_timer IdleTimer))).
Proof.
  destruct (IdleTimer_can_run_twice timer_clock true log_user log_idle 0
    (armed_timer IdleTimer) 0 (IdleUser 4) (MkIdleCbParam false 10)
    (timer_state (armed_timer IdleTimer)) eq_refl eq_refl eq_refl eq_refl (Z.le_refl _))
    as [(w1 & _ & E & _) _].
  - intros param s. by eexists.
  - eexists. split; [exact E|]. apply lookup_insert_eq.
Defined.

(** Bodies that start their own timer again. *)
Definition again_user (task : Task) : TM (list DelayedEntry) unit :=
  OneShotTimer_Start timer_clock 0 (Some (MkTask 6 (Some (CUser 9)))) 30.
Definition again_idle (u : IdleUnit) (param : IdleCbParam) : TM (list DelayedEntry) unit :=
  IdleTimer_Start_timeout timer_clock true 0 (MkIdleTask 9 (Some u)) 30.

Lemma restart_in_body_witness :
  (λ r, tm_is_running_ <$> tms_heap r.2.2 !! 0%nat) <$>
    RunUserTask timer_clock true again_user again_idle 0 (timer_state (armed_timer OneShotTimer)) =
    Ok (Some (Some true)) ∧
  ∃ w T, RunUserTask timer_clock true again_user again_idle 0
      (timer_state (armed_timer IdleTimer)) = Ok (tt, (w, T)) ∧
    timer_task timer_clock true again_user again_idle 0 (w, T) = Ok (tt, (w, T)).
Proof.
  split.
  - destruct (restart_in_body timer_clock true again_user again_idle 0 (armed_timer OneShotTimer)
      (timer_state (armed_timer OneShotTimer)) eq_refl) as [H1 _].
    rewrite (H1 _ eq_refl eq_refl). vm_compute. reflexivity.
  - destruct (restart_in_body timer_clock true again_user again_idle 0 (armed_timer IdleTimer)
      (timer_state (armed_timer IdleTimer)) eq_refl) as [_ H2].
    assert (∃ w1 T1 t1, again_idle (IdleUser 4) (MkIdleCbParam true TimeDelta_Zero)
        (timer_state (armed_timer IdleTimer)) = Ok (tt, (w1, T1)) ∧
      tms_heap T1 !! 0%nat = Some t1 ∧ tm_kind t1 = IdleTimer) as (w1 & T1 & t1 & E & Ht1 & Hk1).
    { vm_compute. eauto 6. }
    destruct (H2 0%nat (IdleUser 4) w1 T1 t1 eq_refl eq_refl E Ht1 Hk1) as (T2 & E2 & Htask & _).
    eauto.
Defined.

Lemma FireNow_without_task_witness :
  FireNow timer_clock false log_user log_idle 0
    (timer_state (BaseTimer_init OneShotTimer (Some 1%nat))) = Fault NullDeref.
Proof.
  exact (FireNow_without_task timer_clock false log_user log_idle 0
    (BaseTimer_init OneShotTimer (Some 1%nat))
    (timer_state (BaseTimer_init OneShotTimer (Some 1%nat))) eq_refl eq_refl eq_refl).
Defined.
End Samples.
