(* ===== verification/EndToEnd.v ===== *)
(** * EndToEnd: a client, the manager, its workers and the tasks they run

    Composes the whole core: a client builds a [WorkerManager], creates task
    runners and posts tasks to them, at once or after a delay; the tasks post
    further tasks; the workers take turns, in any order.  The client's
    program is a list of calls ([op]), each a call of the library's own
    operations.  What the theorems state is seen from outside: the log of what
    user code ran and the queues of the runners. *)

From S2P Require Import Prelude Time PriorityQueue Store TaskRunner Worker WorkerLoop ThreadWorker Turns WorkerManager.

(** [po_runner]: the position of the runner in the order of creation; a task
    is known by the number of its callable. *)
Record Post := MkPost { po_runner : nat; po_task : Z; po_delay : option Z }.

Inductive op :=
  | Create (priority : Z)     (* CreateTaskRunner, default group *)
  | Call (x : Post)           (* PostTask or PostDelayedTask *)
  | Turn (i : nat).           (* RunTask on the thread of worker [i] *)

(** The client: its manager, its runners and, for the statements only, the
    tasks posted so far in the order of the calls. *)
Record Client := MkClient {
  cl_manager : WorkerManager;
  cl_runners : list runner_ptr;
  cl_history : list Z
}.

(** The user tasks an event log or a queue speaks of. *)
Definition ran_id (e : Event) : option Z := match e with EvRunUser n => Some n | _ => None end.
Definition ran_ids : list Event → list Z := omap ran_id.
Definition task_id (t : option Task) : option Z :=
  match t with Some (MkTask _ (Some (CUser n))) => Some n | _ => None end.
Definition task_ids : list (option Task) → list Z := omap task_id.

Lemma task_ids_app l l' : task_ids (l ++ l') = task_ids l ++ task_ids l'.
Proof. apply omap_app. Qed.

Lemma ran_ids_app l l' : ran_ids (l ++ l') = ran_ids l ++ ran_ids l'.
Proof. apply omap_app. Qed.

Section Client.
Context {Q : Type} `{PriorityQueueLaws DelayedEntry Q deadline}.
#[local] Existing Instance thread_backend.
Variable clock : nat → Z.
(** What running a task posts. *)
Variable children : Z → list Post.

Definition do_post (qs : list runner_ptr) (x : Post) : M Q unit :=
  do! q := st_lift (vec_at qs (Z.of_nat (po_runner x))) in
  match po_delay x with
  | None => PostTask_callable q (CUser (po_task x))
  | Some delay => PostDelayedTask_callable clock q (CUser (po_task x)) delay
  end.

(** User code: a task says that it runs, then posts. *)
Definition client_callbacks (qs : list runner_ptr) : Callbacks Q :=
  MkCallbacks (λ n, do! _ := log [EvRunUser n] in st_iter (do_post qs) (children n))
    (λ _ _, st_ret tt) (λ _, st_ret tt).

Definition posts_of (n : Z) : list Z := map po_task (children n).

(** [Create] makes the runner that [CreateTaskRunner] makes by default: of the
    default group, schedulable, without a name. *)
Definition client_step (o : op) (c : Client) : M Q Client :=
  match o with
  | Create priority =>
      do! '(q, m) := CreateTaskRunner kDefaultGroupId priority true EmptyString (cl_manager c) in
      st_ret (MkClient m (cl_runners c ++ [q]) (cl_history c))
  | Call x =>
      do! _ := do_post (cl_runners c) x in
      st_ret (MkClient (cl_manager c) (cl_runners c) (cl_history c ++ [po_task x]))
  | Turn i =>
      do! p := worker_at (cl_manager c) (Z.of_nat i) in
      do! before := st_get in
      do! _ := RunTask clock (client_callbacks (cl_runners c)) p in
      do! after := st_get in
      let ran := ran_ids (drop (length (wd_events before)) (wd_events after)) in
      st_ret (MkClient (cl_manager c) (cl_runners c) (cl_history c ++ concat (map posts_of ran)))
  end.

Fixpoint client (ops : list op) (c : Client) : M Q Client :=
  match ops with
  | [] => st_ret c
  | o :: ops => do! c := client_step o c in client ops c
  end.

Definition client_start (size : Z) : M Q Client :=
  do! m := WorkerManager_new size in st_ret (MkClient m [] []).

(** ** What is asked of the client *)

Hypothesis clock_range : ∀ n, 0 ≤ clock n ≤ i64_max.
Hypothesis clock_mono : ∀ m n, (m ≤ n)%nat → clock m ≤ clock n.
(** Priorities are within [P], the clock stays below [C], and no sort weight
    overflows. *)
Variables P C : Z.
Hypothesis clock_bound : ∀ n, clock n ≤ C.
Hypothesis weights : 0 ≤ P ∧ C ≤ i64_max ∧ P * C ≤ i64_max.
(** The runner a task is posted to and whether it is posted with a delay are
    fixed with the task. *)
Variable home : Z → nat.
Variable late : Z → bool.

Definition post_ok (runners : nat) (x : Post) : Prop :=
  (po_runner x < runners)%nat ∧ home (po_task x) = po_runner x ∧
  match po_delay x with
  | None => late (po_task x) = false
  | Some delay => late (po_task x) = true ∧ 0 ≤ delay ∧ C + delay ≤ i64_max
  end.

(** Tasks post to the first [K] runners, which exist before the first turn. *)
Variable K : nat.
Hypothesis children_ok : ∀ n, Forall (post_ok K) (children n).

Fixpoint ops_ok (size : Z) (runners : nat) (ops : list op) : Prop :=
  match ops with
  | [] => True
  | Create priority :: ops =>
      - P ≤ wrap_s 32 priority ≤ P ∧ ops_ok size (S runners) ops
  | Call x :: ops => post_ok runners x ∧ ops_ok size runners ops
  | Turn i :: ops => Z.of_nat i < size ∧ (K ≤ runners)%nat ∧ ops_ok size runners ops
  end.

(** The tasks of runner number [k] that are posted without delay. *)
Definition urgent (k : nat) (n : Z) : bool := (home n =? k)%nat && negb (late n).

(** ** Posting *)

Implicit Types (s : World Q) (w : Worker) (r : TaskRunner Q) (qs : list runner_ptr) (c : Client).

Definition keep qs (q : runner_ptr) (t : option Task) : bool :=
  match task_id t with
  | Some n => bool_decide (qs !! home n = Some q) && negb (late n)
  | None => false
  end.

(** A user task whose runner is among the first [N]. *)
Definition plain (N : nat) (t : option Task) : Prop :=
  ∃ n, task_id t = Some n ∧ (home n < N)%nat.

(** Every runner has an owner that is alive. *)
Definition ready qs s : Prop :=
  Forall (λ q, ∃ p, tr_worker_ <$> wd_runners s !! q = Some (Some p) ∧ p ∈ dom (wd_workers s)) qs.

Lemma ready_stable qs s s' :
  (∀ q, tr_worker_ <$> wd_runners s' !! q = tr_worker_ <$> wd_runners s !! q) →
  dom (wd_workers s') = dom (wd_workers s) → ready qs s → ready qs s'.
Proof.
  intros Ho Hd Hr. eapply Forall_impl; [exact Hr|]. intros q (p & E & Hp).
  exists p. by rewrite Ho, Hd.
Qed.

Lemma ready_postable qs s q :
  ready qs s → q ∈ qs → ∃ r p, wd_runners s !! q = Some r ∧ tr_worker_ r = Some p ∧
    is_Some (wd_workers s !! p).
Proof.
  intros Hr Hq. unfold ready in Hr. rewrite Forall_forall in Hr.
  destruct (Hr q Hq) as (p & E & Hp). apply elem_of_dom in Hp.
  destruct (wd_runners s !! q) as [r|]; [|done]. injection E as E. eauto.
Qed.

(** A push of task [t] at the back of a queue of runner [q]. *)
Lemma push_performs kp q r r' t s s' ev :
  wd_runners s !! q = Some r → wd_runners s' = <[q:=r']> (wd_runners s) →
  wd_workers s' = wd_workers s → wd_tls s' = wd_tls s → (wd_ticks s ≤ wd_ticks s')%nat →
  wd_events s' = wd_events s ++ ev → ran_ids ev = [] →
  tr_worker_ r' = tr_worker_ r → tr_idle_task_queue_ r' = tr_idle_task_queue_ r →
  runner_tasks r' ≡ₚ t :: runner_tasks r →
  (∀ T, runner_ok P T r → runner_ok P T r') → (real_tasks r → real_tasks r') →
  (homed kp q r → homed kp q r' ∧ followed kp q r' = followed kp q r ++ List.filter (kp q) [t]) →
  (∀ q', q' ≠ q → kp q' t = false) →
  (tr_task_queue_ r' = tr_task_queue_ r ++ [t] ∧
     tr_delayed_task_queue_ r' = tr_delayed_task_queue_ r ∨
   tr_task_queue_ r' = tr_task_queue_ r ∧
     ∃ e, delayed_task e = t ∧
       pq_elems (tr_delayed_task_queue_ r') ≡ₚ e :: pq_elems (tr_delayed_task_queue_ r)) →
  performs clock P kp [t] (λ ev, ran_ids ev = []) s s'.
Proof.
  intros Hq Er Ew Etl Hn Ee Hev Hwk Hid Htk Hok Hreal Hord Hother Hput.
  assert (Hback : <[q:=r]> (<[q:=r']> (wd_runners s)) = wd_runners s).
  { by rewrite insert_insert_eq, insert_id. }
  split; try done; rewrite ?Er.
  - intros q'. rewrite lookup_insert. case_decide as E; [|done]. subst q'.
    rewrite Hq. cbn. by rewrite Hwk.
  - intros T Hall. apply map_Forall_insert_2; [|done]. apply Hok, (Hall _ _ Hq).
  - intros Hall. apply map_Forall_insert_2; [|done]. apply Hreal, (Hall _ _ Hq).
  - unfold heap_tasks. rewrite Er.
    rewrite (bag_insert runner_tasks (<[q:=r']> (wd_runners s)) q r' r [t]);
      [|apply lookup_insert_eq|done]. rewrite Hback. solve_Permutation.
  - unfold heap_idles. rewrite Er.
    rewrite (bag_insert tr_idle_task_queue_ (<[q:=r']> (wd_runners s)) q r' r []);
      [|apply lookup_insert_eq|by rewrite Hid]. by rewrite Hback.
  - intros Hall. destruct (Hord (Hall _ _ Hq)) as [Hh Hf]. unfold all_homed, waiting. rewrite Er.
    split; [by apply map_Forall_insert_2|]. intros q'. rewrite lookup_insert.
    case_decide as E; [subst q'; by rewrite Hq|]. cbn. rewrite (Hother q') by congruence.
    by rewrite app_nil_r.
  - intros x Hx. apply Forall_cons in Hx as [Hx _]. split.
    + intros D HD. split; [|done]. unfold timer_after. rewrite Er.
      assert (Hs : map_Forall (λ _ r0,
        Forall (λ e, of_timer x (delayed_task e) = true → D ≤ deadline e)
          (pq_elems (tr_delayed_task_queue_ r0)) ∧
        Forall (λ t, of_timer x t = true → passed clock D s') (tr_task_queue_ r0)) (wd_runners s)).
      { intros q0 r0 Hr0. destruct (HD q0 r0 Hr0) as [Ha Hb]. split; [exact Ha|].
        eapply Forall_impl; [exact Hb|]. intros t0 Hp0 Ht0. by eapply passed_later, Hp0. }
      apply map_Forall_insert_2; [|exact Hs]. destruct (Hs q r Hq) as [Ha Hb].
      destruct Hput as [[-> ->]|(-> & e & He & ->)]; (split; [|]); try done.
      * apply Forall_app. split; [done|]. repeat constructor. by rewrite Hx.
      * constructor; [|done]. rewrite He. by rewrite Hx.
    + intros U HU. unfold timer_by. rewrite Er. apply map_Forall_insert_2; [|exact HU].
      specialize (HU q r Hq). cbn in HU. destruct Hput as [[_ ->]|(_ & e & He & ->)]; [done|].
      constructor; [|done]. rewrite He. by rewrite Hx.
  - by exists ev.
Qed.

Lemma keep_other qs q q' t n :
  task_id t = Some n → qs !! home n = Some q → q' ≠ q → keep qs q' t = false.
Proof.
  intros Ht Hq Hne. unfold keep. rewrite Ht, Hq. rewrite bool_decide_false; [done|]. congruence.
Qed.

Lemma push_task_performs qs q r n id s s' ev :
  wd_runners s !! q = Some r → qs !! home n = Some q →
  wd_runners s' = <[q:=push_task (Some (MkTask id (Some (CUser n)))) r]> (wd_runners s) →
  wd_workers s' = wd_workers s → wd_tls s' = wd_tls s → (wd_ticks s ≤ wd_ticks s')%nat →
  wd_events s' = wd_events s ++ ev → ran_ids ev = [] →
  performs clock P (keep qs) [Some (MkTask id (Some (CUser n)))] (λ ev, ran_ids ev = []) s s'.
Proof.
  intros Hq Hhome Er Ew Etl Hn Ee Hev. eapply push_performs; try done.
  - unfold runner_tasks. cbn. rewrite <- app_assoc. cbn. by rewrite Permutation_middle.
  - intros T [? ? ? ?]. by split.
  - intros (? & ? & ?). split; [done|]. split; [|done]. cbn. apply Forall_app.
    split; [done|]. by repeat constructor.
  - intros [Ho Hl]. split; [split; [|done]|].
    + intros q' Hq'. unfold runner_tasks. cbn. specialize (Ho q' Hq').
      apply Forall_app in Ho as [? ?]. apply Forall_app. split; [|done]. apply Forall_app.
      split; [done|]. repeat constructor. by eapply keep_other.
    + unfold followed. cbn. by rewrite List.filter_app.
  - intros q' Hq'. by eapply keep_other.
  - by left.
Qed.

Lemma push_delayed_performs qs q r n id d s s' ev :
  wd_runners s !! q = Some r → qs !! home n = Some q → late n = true → 0 ≤ d ≤ i64_max →
  wd_runners s' = <[q:=push_delayed (MkEntry d (Some (MkTask id (Some (CUser n))))) r]> (wd_runners s) →
  wd_workers s' = wd_workers s → wd_tls s' = wd_tls s → (wd_ticks s ≤ wd_ticks s')%nat →
  wd_events s' = wd_events s ++ ev → ran_ids ev = [] →
  performs clock P (keep qs) [Some (MkTask id (Some (CUser n)))] (λ ev, ran_ids ev = []) s s'.
Proof.
  intros Hq Hhome Hlate Hd Er Ew Etl Hn Ee Hev.
  set (e := MkEntry d (Some (MkTask id (Some (CUser n))))) in *.
  assert (Hk : keep qs q (delayed_task e) = false).
  { unfold keep. cbn. by rewrite Hlate, andb_false_r. }
  pose proof (pq_push_elems (tr_delayed_task_queue_ r) e) as Hp.
  eapply push_performs; try done.
  - unfold runner_tasks. cbn. rewrite Hp. cbn. by rewrite <- Permutation_middle.
  - intros T [Hwf Hdl ? ?]. split; try done; [by apply pq_push_wf|]. cbn. rewrite Hp. by constructor.
  - intros (Hwf & ? & Hn0). split; [by apply pq_push_wf|]. split; [done|].
    unfold no_null_delayed. cbn. rewrite Hp. by constructor.
  - intros [Ho Hl]. split; [split|].
    + intros q' Hq'. unfold runner_tasks. cbn. specialize (Ho q' Hq').
      apply Forall_app in Ho as [? ?]. apply Forall_app. split; [done|]. rewrite Hp.
      constructor; [by eapply keep_other|done].
    + cbn. rewrite Hp. by constructor.
    + unfold followed. change (delayed_task e) with (Some (MkTask id (Some (CUser n)))) in Hk.
      cbn [List.filter]. rewrite Hk. by rewrite app_nil_r.
  - intros q' Hq'. by eapply keep_other.
  - right. split; [done|]. by exists e.
Qed.

(** Any post of the client goes through. *)
Lemma do_post_performs qs x s :
  post_ok (length qs) x → ready qs s →
  ∃ t s', do_post qs x s = Ok (tt, s') ∧ task_id t = Some (po_task x) ∧
    plain (length qs) t ∧ performs clock P (keep qs) [t] (λ ev, ran_ids ev = []) s s'.
Proof.
  intros (Hk & Hhome & Hdelay) Hready. destruct (lookup_lt_is_Some_2 qs _ Hk) as [q Hq].
  destruct (ready_postable qs s q Hready) as (r & p & Hr & Hp & wk & Hw).
  { by eapply list_elem_of_lookup_2. }
  unfold do_post. assert (Ev : vec_at qs (Z.of_nat (po_runner x)) = Ok q).
  { apply vec_at_Ok. split; [lia|]. by rewrite Nat2Z.id. }
  mrun. rewrite <- Hhome in Hq.
  set (t := MkTask (wd_g_next_task_id s) (Some (CUser (po_task x)))).
  set (s1 := set_wd_g_next_task_id (wrap_u 32 (wd_g_next_task_id s + 1)) s).
  assert (Hpl : task_id (Some t) = Some (po_task x) ∧ plain (length qs) (Some t)).
  { split; [done|]. exists (po_task x). split; [done|]. by rewrite Hhome. }
  destruct (po_delay x) as [d|].
  - destruct Hdelay as (Hlate & Hd0 & HdC).
    set (s2 := set_wd_ticks (S (wd_ticks s1)) s1).
    set (e := MkEntry (clock (wd_ticks s) + d) (Some t)).
    set (s3 := set_wd_runners (<[q:=push_delayed e r]> (wd_runners s2)) s2).
    destruct (NotifyWorker_run q (push_delayed e r) s3) as (wp' & wk' & En).
    { split; [apply lookup_insert_eq|]. eauto. }
    pose proof (clock_range (wd_ticks s)). pose proof (clock_bound (wd_ticks s)).
    assert (Hdl : 0 ≤ clock (wd_ticks s) + d ≤ i64_max) by lia.
    exists (Some t). eexists. split; [|split; [apply Hpl|split; [apply Hpl|]]].
    + unfold PostDelayedTask_callable, Task_new, st_bind at 1. unfold PostDelayedTask. mrun.
      rewrite (bind_lift _ (clock (wd_ticks s) + d))
        by (apply i64_ok; unfold i64_min, i64_max in *; lia). mrun. exact En.
    + eapply push_delayed_performs; try done. cbn. lia.
  - set (s3 := set_wd_runners (<[q:=push_task (Some t) r]> (wd_runners s1)) s1).
    destruct (NotifyWorker_run q (push_task (Some t) r) s3) as (wp' & wk' & En).
    { split; [apply lookup_insert_eq|]. eauto. }
    exists (Some t). eexists. split; [|split; [apply Hpl|split; [apply Hpl|]]].
    + unfold PostTask_callable, Task_new, st_bind at 1. unfold PostTask. mrun. exact En.
    + by eapply push_task_performs.
Qed.

(** ** Running a task *)

Lemma performs_trans kp b1 b2 (sd1 sd2 sd : list Event → Prop) s1 s2 s3 :
  (∀ e1 e2, sd1 e1 → sd2 e2 → sd (e1 ++ e2)) →
  performs clock P kp b1 sd1 s1 s2 → performs clock P kp b2 sd2 s2 s3 → performs clock P kp (b1 ++ b2) sd s1 s3.
Proof.
  intros Hsd [w1 l1 n1 o1 r1 e1 t1 i1 h1 c1 v1] [w2 l2 n2 o2 r2 e2 t2 i2 h2 c2 v2].
  split; try congruence; auto; [lia| | | |].
  - by rewrite t2, t1, <- app_assoc.
  - intros [H2 E1]%h1. destruct (h2 H2) as [H3 E2]. split; [done|]. intros q.
    by rewrite E2, E1, List.filter_app, app_assoc.
  - intros x [? ?]%Forall_app. apply (on_time_trans clock x [] [] s1 s2 s3); auto.
  - destruct v1 as (ev1 & Ev1 & Hs1). destruct v2 as (ev2 & Ev2 & Hs2).
    exists (ev1 ++ ev2). split; [by rewrite Ev2, Ev1, app_assoc|auto].
Qed.

Lemma performs_silent kp (sd : list Event → Prop) s s' ev :
  s' = set_wd_events (wd_events s ++ ev) s → sd ev → performs clock P kp [] sd s s'.
Proof.
  intros -> Hev. split; try done; cbn.
  - by rewrite app_nil_r.
  - intros Ho. split; [done|]. intros q. by rewrite app_nil_r.
  - by exists ev.
Qed.

Lemma performs_ready qs kp b sd s s' : performs clock P kp b sd s s' → ready qs s → ready qs s'.
Proof. intros Hp. apply ready_stable; [apply Hp|]. by rewrite (pf_workers _ _ _ _ _ _ _ Hp). Qed.

Lemma do_posts_performs qs xs s :
  Forall (post_ok (length qs)) xs → ready qs s →
  ∃ ts s', st_iter (do_post qs) xs s = Ok (tt, s') ∧ task_ids ts = map po_task xs ∧
    Forall (plain (length qs)) ts ∧ performs clock P (keep qs) ts (λ ev, ran_ids ev = []) s s'.
Proof.
  intros Hxs. revert s. induction Hxs as [|x xs Hx Hxs IH]; intros s Hready; cbn [st_iter].
  - exists [], s. split; [done|]. split; [done|]. split; [constructor|].
    apply performs_silent with []; [|done]. rewrite app_nil_r. by destruct s.
  - destruct (do_post_performs qs x s Hx Hready) as (t & s1 & E1 & Ht & Hpl & Hp1).
    destruct (IH s1) as (ts & s2 & E2 & Hts & Hpls & Hp2); [by eapply performs_ready|].
    exists (t :: ts), s2. split; [by erewrite st_bind_step by exact E1|].
    split; [unfold task_ids; cbn; rewrite Ht; by f_equal|]. split; [by constructor|].
    apply (performs_trans _ [t] ts _ _ _ s s1 s2) with (2 := Hp1) (3 := Hp2).
    intros e1 e2 H1 H2. by rewrite ran_ids_app, H1, H2.
Qed.

(** What running [t] posts and logs. *)
Definition client_said qs (t : Task) (born : list (option Task)) (ev : list Event) : Prop :=
  ran_ids ev = task_ids [Some t] ∧ task_ids born = concat (map posts_of (task_ids [Some t])) ∧
  Forall (plain (length qs)) born.

Lemma client_runs qs t s :
  (K ≤ length qs)%nat → user_task_or_null (Some t) → ready qs s →
  ∃ born s', Task_Run (client_callbacks qs) t s = Ok (tt, s') ∧
    performs clock P (keep qs) born (client_said qs t born) s s'.
Proof.
  intros HK Hu Hready. destruct t as [id u].
  assert (Hquiet : task_id (Some (MkTask id u)) = None →
    performs clock P (keep qs) [] (client_said qs (MkTask id u) []) s s).
  { intros Hn. apply performs_silent with []; [rewrite app_nil_r; by destruct s|].
    unfold client_said, task_ids. cbn [omap list_omap]. by rewrite Hn. }
  destruct u as [[n| | |i m|j]|]; try by (specialize (Hu _ _ eq_refl eq_refl)).
  - destruct (do_posts_performs qs (children n) (set_wd_events (wd_events s ++ [EvRunUser n]) s))
      as (ts & s' & E & Hts & Hpl & Hp).
    { eapply Forall_impl; [apply children_ok|]. intros x (? & ? & ?). split; [lia|done]. }
    { by apply (ready_stable qs s). }
    exists ts, s'. split; [exact E|].
    apply (performs_trans _ [] ts (λ ev, ev = [EvRunUser n]) _ _ s _ s') with (3 := Hp).
    + intros e1 e2 -> He2. unfold client_said. cbn. rewrite app_nil_r. by rewrite He2.
    + by apply performs_silent with [EvRunUser n].
  - exists [], s. split; [|by apply Hquiet]. cbn. unfold IdleTask_Run. by destruct (idle_unit_ i).
  - exists [], s. split; [done|by apply Hquiet].
  - exists [], s. split; [done|by apply Hquiet].
Qed.

Lemma plain_user N t : plain N t → user_task_or_null t.
Proof. intros (n & Hn & _) t' c -> Hc. destruct t' as [id [[]|]]; cbn in *; by simplify_eq. Qed.

(** ** The queues: everything posted either ran or waits, in order *)

Lemma task_ids_perm l l' : l ≡ₚ l' → task_ids l ≡ₚ task_ids l'.
Proof. intros Hp. unfold task_ids. by rewrite Hp. Qed.

(** Following a runner's tasks is filtering the tasks by home. *)
Lemma task_ids_keep qs k q l :
  NoDup qs → qs !! k = Some q →
  task_ids (List.filter (keep qs q) l) = List.filter (urgent k) (task_ids l).
Proof.
  intros Hnd Hq. induction l as [|t l IH]; [done|]. unfold task_ids in *. cbn.
  unfold keep at 1. destruct (task_id t) as [n|] eqn:Ht; [|by rewrite IH].
  assert (Eb : bool_decide (qs !! home n = Some q) = (home n =? k)%nat).
  { destruct (Nat.eqb_spec (home n) k) as [->|Hne]; [by rewrite bool_decide_true|].
    apply bool_decide_false. intros Hq'. apply Hne. by eapply NoDup_lookup. }
  rewrite Eb. cbn. unfold urgent at 1. destruct (_ && _); cbn; [rewrite Ht|]; by rewrite IH.
Qed.

Record queues_ok qs (history : list Z) s : Prop := {
  qo_homed : all_homed (keep qs) s;
  qo_plain : Forall (plain (length qs)) (heap_tasks s);
  qo_history : Forall (λ n, (home n < length qs)%nat) history;
  qo_conserved : history ≡ₚ ran_ids (wd_events s) ++ task_ids (heap_tasks s);
  qo_order : ∀ k q, qs !! k = Some q →
    List.filter (urgent k) history =
    List.filter (urgent k) (ran_ids (wd_events s)) ++ task_ids (waiting (keep qs) s q)
}.

Lemma plain_homes N l :
  Forall (plain N) l → Forall (λ n, (home n < N)%nat) (task_ids l).
Proof.
  induction 1 as [|t l (n & Ht & Hn) _ IH]; [constructor|]. unfold task_ids. cbn.
  rewrite Ht. by constructor.
Qed.

Lemma queues_moves qs history out inn s w s' w' ev :
  NoDup qs → queues_ok qs history s → moves (keep qs) out inn s w s' w' →
  w_immediate_task_queue_ w = [] → w_immediate_task_queue_ w' = [] →
  Forall (plain (length qs)) inn → wd_events s' = wd_events s ++ ev → ran_ids ev = task_ids out →
  queues_ok qs (history ++ task_ids inn) s'.
Proof.
  intros Hnd [Hh Hp Hhist Hc Ho] [Hm Hplaced] Hw Hw' Hinn Hev Hran.
  unfold all_tasks in Hm. rewrite Hw, Hw' in Hm. cbn in Hm.
  destruct Hplaced as [[Hh' _] Hq]; [split; [done|by rewrite Hw]|].
  pose proof (task_ids_perm _ _ Hm) as Hids. rewrite !task_ids_app in Hids.
  split; [done| | | |].
  - assert (Ha : Forall (plain (length qs)) (out ++ heap_tasks s')) by (rewrite Hm; by apply Forall_app).
    by apply Forall_app in Ha as [_ ?].
  - apply Forall_app. split; [done|]. by apply plain_homes.
  - rewrite Hev, ran_ids_app, Hran, Hc, <- !app_assoc. by rewrite Hids.
  - intros k q Hk. specialize (Hq q). apply (f_equal task_ids) in Hq.
    rewrite !task_ids_app, !(task_ids_keep qs k q) in Hq by done.
    rewrite Hev, ran_ids_app, Hran, !List.filter_app, (Ho k q Hk), <- !app_assoc. by rewrite Hq.
Qed.

(** ** The pool *)

(** Every runner is a group of its own on the first worker; the others have
    none. *)
Definition groups_of (m : WorkerManager) qs (p : worker_ptr) : list (list runner_ptr) :=
  if bool_decide (head (wm_workers_ m) = Some p) then map (λ q, [q]) qs else [].

Record worker_ok (m : WorkerManager) qs (p : worker_ptr) s w : Prop := {
  wk_turn : turn_ok P false (0 + clock (wd_ticks s)) p s w;
  wk_imm : w_immediate_task_queue_ w = [];
  wk_due : balance_due w;
  wk_groups : w_running_groups_ w ++ w_pending_groups_ w ≡ₚ groups_of m qs p
}.

Record pool_ok (size : Z) c s : Prop := {
  pl_ready : ready (cl_runners c) s;
  pl_nodup : NoDup (cl_runners c);
  pl_index : wm_index_ (cl_manager c) = 0;
  pl_size : wm_size_ (cl_manager c) = size;
  pl_length : length (wm_workers_ (cl_manager c)) = Z.to_nat size;
  pl_dom : ∀ q, is_Some (wd_runners s !! q) → q ∈ cl_runners c;
  pl_workers : ∀ p, p ∈ wm_workers_ (cl_manager c) →
    ∃ w, worker_ok (cl_manager c) (cl_runners c) p s w
}.

Record client_ok (size : Z) c s : Prop := {
  ck_pool : pool_ok size c s;
  ck_queues : queues_ok (cl_runners c) (cl_history c) s
}.

Lemma dom_stable qs s s' :
  (∀ q, tr_worker_ <$> wd_runners s' !! q = tr_worker_ <$> wd_runners s !! q) →
  (∀ q, is_Some (wd_runners s !! q) → q ∈ qs) → ∀ q, is_Some (wd_runners s' !! q) → q ∈ qs.
Proof. intros Ho Hd q. rewrite <- (fmap_is_Some tr_worker_), Ho, fmap_is_Some. apply Hd. Qed.

Lemma step_weights : 0 ≤ P ∧ 0 ≤ 0 ∧ 0 + C ≤ i64_max ∧ P * (0 + C) ≤ i64_max.
Proof. destruct weights as (? & ? & ?). rewrite Z.add_0_l. lia. Qed.

(** A post changes no worker. *)
Lemma undisturbed_pool size c s s' h :
  undisturbed P s s' → pool_ok size c s →
  pool_ok size (MkClient (cl_manager c) (cl_runners c) h) s'.
Proof.
  intros Hp [Hr Hn Hi Hs Hl Hd Hw]. pose proof Hp as [Hws _ Hticks Ho _ _].
  split; try done; [|by eapply dom_stable|].
  { eapply ready_stable; [exact Ho| |exact Hr]. by rewrite Hws. }
  intros p Hin. destruct (Hw p Hin) as (w & [Ht ? ? ?]). exists w. split; try done.
  apply (turn_ok_later clock clock_mono P 0 false (wd_ticks s)); [done|].
  by eapply undisturbed_turn_ok.
Qed.

Lemma performs_pool size c s s' b sd h :
  performs clock P (keep (cl_runners c)) b sd s s' → pool_ok size c s →
  pool_ok size (MkClient (cl_manager c) (cl_runners c) h) s'.
Proof. intros Hp. by eapply undisturbed_pool, performs_undisturbed. Qed.

Lemma pool_first size c s :
  2 ≤ size → pool_ok size c s →
  ∃ wp rest w, wm_workers_ (cl_manager c) = wp :: rest ∧ worker_ok (cl_manager c) (cl_runners c) wp s w.
Proof.
  intros Hs Hp. pose proof (pl_length _ _ _ Hp) as Hl.
  destruct (wm_workers_ (cl_manager c)) as [|wp rest] eqn:Ew; [cbn in Hl; lia|].
  destruct (pl_workers _ _ _ Hp wp) as [w Hw]; [rewrite Ew; left|]. by exists wp, rest, w.
Qed.

Lemma Call_ok size x c s :
  2 ≤ size → client_ok size c s → post_ok (length (cl_runners c)) x →
  ∃ c' s', client_step (Call x) c s = Ok (c', s') ∧ client_ok size c' s' ∧
    cl_runners c' = cl_runners c.
Proof.
  intros Hsize [Hpool Hq] Hx.
  destruct (do_post_performs (cl_runners c) x s Hx (pl_ready _ _ _ Hpool))
    as (t & s' & E & Ht & Hpl & Hp).
  destruct (pool_first size c s Hsize Hpool) as (wp & rest & w & _ & Hw).
  eexists _, s'. split; [unfold client_step; by erewrite st_bind_step by exact E|].
  split; [|done]. destruct (pf_events _ _ _ _ _ _ _ Hp) as (ev & Eev & Hev).
  split; [by eapply performs_pool|]. cbn [cl_runners cl_history].
  replace [po_task x] with (task_ids [t]) by (unfold task_ids; cbn; by rewrite Ht).
  pose proof (wk_imm _ _ _ _ _ Hw) as Hi.
  eapply (queues_moves _ _ [] [t] s w s' w ev); try done; [apply Hpool| |by constructor].
  by eapply performs_moves.
Qed.

(** *** Turns *)

(** The workers that did not take the turn. *)
Lemma turn_ok_other p p' s w s' w' w1 :
  turn_frame p s w s' w' → turn_ok P false (0 + clock (wd_ticks s')) p s' w' → p' ≠ p →
  turn_ok P false (0 + clock (wd_ticks s)) p' s w1 →
  turn_ok P false (0 + clock (wd_ticks s')) p' s' w1.
Proof.
  intros Hf [[_ _ Hr _] Hreal _ _ _ _] Hne [[Hw Hwf _ Hm] _ Himm Hterm Hl Hnd].
  destruct (tf_others _ _ _ _ _ Hf p' Hne) as [Ew Et].
  pose proof (owner_dom _ _ (tf_owner _ _ _ _ _ Hf)) as Hd.
  split; [split|..]; rewrite ?Et; try done; [by rewrite Ew|by eapply groups_wf_perm|by eapply live_dom].
Qed.

(** The worker that took the turn. *)
Lemma turn_worker_ok m qs p s w s' w' :
  worker_ok m qs p s w → turn_ok P false (0 + clock (wd_ticks s')) p s' w' →
  turn_frame p s w s' w' → worker_ok m qs p s' w'.
Proof.
  intros [Hok Himm Hdue Hg] Hok' Hf. split; [done|by apply (tf_imm _ _ _ _ _ Hf)|by apply (tf_due _ _ _ _ _ Hf)|].
  by rewrite (tf_groups _ _ _ _ _ Hf).
Qed.

Lemma turn_pool size p c s w s' w' h :
  pool_ok size c s → worker_ok (cl_manager c) (cl_runners c) p s w →
  worker_ok (cl_manager c) (cl_runners c) p s' w' → turn_frame p s w s' w' →
  pool_ok size (MkClient (cl_manager c) (cl_runners c) h) s'.
Proof.
  intros [Hr Hnd Hix Hsz Hl Hd Hws] Hw Hw' Hf. split; try done.
  - eapply ready_stable; [apply Hf| |exact Hr]. eapply turn_workers_dom; [apply Hw|apply Hw'|exact Hf].
  - eapply dom_stable; [apply Hf|done].
  - intros p' Hin. destruct (decide (p' = p)) as [->|Hne]; [by exists w'|].
    destruct (Hws p' Hin) as (w1 & [Ht ? ? ?]). exists w1. split; try done.
    eapply turn_ok_other; [exact Hf|apply Hw'|done|done].
Qed.

(** Every runner is on top of a group of the first worker. *)
Lemma finished_quiet now m qs p s w :
  worker_ok m qs p s w → head (wm_workers_ m) = Some p → w_pending_groups_ w = [] →
  finished now s w → ∀ q r, q ∈ qs → wd_runners s !! q = Some r → quiet now r.
Proof.
  intros [_ _ _ Hg] Hhead Hp [_ Hfin] q r Hin Hr. apply (Hfin [q] q r); [|done..].
  rewrite Hp, app_nil_r in Hg. rewrite Hg. unfold groups_of. rewrite bool_decide_true by done.
  apply list_elem_of_fmap. by exists q.
Qed.

(** What one turn of worker [p] comes to: a task ran, or — on the first worker
    — there was none that was due. *)
Definition turn_progress (p : worker_ptr) c s s' : Prop :=
  (∃ n, n :: task_ids (heap_tasks s') ≡ₚ task_ids (heap_tasks s) ++ posts_of n) ∨
  (task_ids (heap_tasks s') ≡ₚ task_ids (heap_tasks s) ∧
   (head (wm_workers_ (cl_manager c)) = Some p →
    ∀ q r, q ∈ cl_runners c → wd_runners s' !! q = Some r → quiet (clock (wd_ticks s)) r)).

Lemma RunTask_client size p c s w :
  client_ok size c s → (K ≤ length (cl_runners c))%nat →
  worker_ok (cl_manager c) (cl_runners c) p s w →
  ∃ s' w' out inn ev,
    RunTask clock (client_callbacks (cl_runners c)) p s = Ok (true, s') ∧
    worker_ok (cl_manager c) (cl_runners c) p s' w' ∧ turn_frame p s w s' w' ∧
    moves (keep (cl_runners c)) out inn s w s' w' ∧ wd_events s' = wd_events s ++ ev ∧
    ran_ids ev = task_ids out ∧ task_ids inn = concat (map posts_of (task_ids out)) ∧
    Forall (plain (length (cl_runners c))) inn ∧ turn_progress p c s s'.
Proof.
  intros [Hpool Hq] HK Hwk. pose proof Hwk as [Hok Himm Hdue Hg].
  destruct (RunTask_turn clock clock_range clock_mono P 0 C clock_bound step_weights
    (keep (cl_runners c)) (client_callbacks (cl_runners c)) (client_said (cl_runners c))
    (ready (cl_runners c))) with (4 := Hok)
    as (more & s' & w' & E & Hok' & Hf & _ & Hres).
  { intros s1 s2. apply ready_stable. }
  { intros t born ev _ (_ & _ & Hpl). eapply Forall_impl; [exact Hpl|]. intros t'. apply plain_user. }
  { intros t s1 Ht Hr. by apply client_runs. }
  { unfold user_tasks, all_tasks. rewrite Himm. eapply Forall_impl; [apply Hq|].
    intros t'. apply plain_user. }
  { apply Hpool. }
  pose proof (turn_worker_ok _ _ _ _ _ _ _ Hwk Hok' Hf) as Hok2.
  pose proof (tf_imm _ _ _ _ _ Hf Himm) as Himm'. exists s', w'.
  destruct Hres as [(-> & t & born & ev & _ & Ht & He & Hran & Hborn & Hpl)|
                    (-> & Hm & Hfin & Hmerged & He)].
  - destruct Ht as [[Hm _]|(_ & Ht & _)]; [|by rewrite (tn_term _ _ _ _ _ _ Hok) in Ht].
    exists [Some t], born, ev. do 8 (split; [done|]). left.
    destruct Hm as [Hp _]. unfold all_tasks in Hp. rewrite Himm, Himm' in Hp. cbn in Hp.
    apply task_ids_perm in Hp as Hids. change (Some t :: heap_tasks s') with ([Some t] ++ heap_tasks s') in Hids.
    rewrite !task_ids_app, Hborn in Hids.
    assert (Hn : plain (length (cl_runners c)) (Some t)).
    { assert (Ha : Forall (plain (length (cl_runners c))) (Some t :: heap_tasks s')).
      { rewrite Hp. apply Forall_app. split; [apply Hq|done]. }
      by apply Forall_cons in Ha as [? _]. }
    destruct Hn as (n & Hn & _). exists n.
    assert (Et : task_ids [Some t] = [n]) by (unfold task_ids; cbn [omap list_omap]; by rewrite Hn).
    rewrite Et in Hids. cbn in Hids. by rewrite app_nil_r in Hids.
  - exists [], [], []. split; [done|]. split; [done|]. split; [done|]. split; [done|].
    split; [by rewrite app_nil_r|]. do 3 (split; [done|]). right. split.
    + destruct Hm as [Hp _]. unfold all_tasks in Hp. rewrite Himm, Himm', app_nil_r in Hp.
      by apply task_ids_perm.
    + intros Hhead. apply (finished_quiet _ _ _ _ _ _ Hok2 Hhead); [by apply Hmerged|done].
Qed.

Lemma Turn_ok size i c s :
  client_ok size c s → Z.of_nat i < size → (K ≤ length (cl_runners c))%nat →
  ∃ p c' s', wm_workers_ (cl_manager c) !! i = Some p ∧
    client_step (Turn i) c s = Ok (c', s') ∧ client_ok size c' s' ∧
    cl_runners c' = cl_runners c ∧ cl_manager c' = cl_manager c ∧
    (wd_ticks s ≤ wd_ticks s')%nat ∧ turn_progress p c s s'.
Proof.
  intros Hck Hi HK. pose proof Hck as [Hpool Hq]. pose proof (pl_length _ _ _ Hpool) as Hlen.
  destruct (lookup_lt_is_Some_2 (wm_workers_ (cl_manager c)) i) as [p Hp]; [lia|].
  destruct (pl_workers _ _ _ Hpool p) as [w Hw]; [by eapply list_elem_of_lookup_2|].
  destruct (RunTask_client size p c s w Hck HK Hw)
    as (s' & w' & out & inn & ev & E & Hw' & Hf & Hm & He & Hran & Hinn & Hpl & Hprog).
  assert (Hv : vec_at (wm_workers_ (cl_manager c)) (Z.of_nat i) = Ok p).
  { apply vec_at_Ok. split; [lia|by rewrite Nat2Z.id]. }
  exists p. eexists _, s'. split; [done|]. split.
  { unfold client_step, worker_at. mrun. erewrite st_bind_step by exact E. mrun. done. }
  rewrite He, drop_app_length, Hran, <- Hinn.
  split; [|split; [done|split; [done|split; [apply Hf|done]]]]. split.
  - by eapply turn_pool.
  - eapply queues_moves; [apply Hpool|exact Hq|exact Hm|apply Hw|apply Hw'|done|done|done].
Qed.

(** *** New runners *)

Lemma keep_app qs q0 q t : plain (length qs) t → keep (qs ++ [q0]) q t = keep qs q t.
Proof. intros (n & Hn & Hlt). unfold keep. by rewrite Hn, lookup_app_l. Qed.

Lemma filter_keep_app qs q0 q l :
  Forall (plain (length qs)) l →
  List.filter (keep (qs ++ [q0]) q) l = List.filter (keep qs q) l.
Proof. induction 1 as [|t l Ht _ IH]; cbn; [done|]. by rewrite keep_app, IH. Qed.

Lemma bag_insert_fresh {A} (f : TaskRunner Q → list A) h q r :
  h !! q = None → bag f (<[q:=r]> h) ≡ₚ f r ++ bag f h.
Proof.
  intros Hq. rewrite (bag_lookup f _ q r) by apply lookup_insert_eq.
  by rewrite fmap_insert, delete_insert_id by by rewrite lookup_fmap, Hq.
Qed.

Lemma runner_plain N s q r :
  Forall (plain N) (heap_tasks s) → wd_runners s !! q = Some r → Forall (plain N) (runner_tasks r).
Proof.
  intros Hp Hq. unfold heap_tasks in Hp. rewrite (bag_lookup runner_tasks _ q r Hq) in Hp.
  by apply Forall_app in Hp as [? _].
Qed.

Lemma urgent_none k (l : list Z) :
  Forall (λ n, (home n < k)%nat) l → List.filter (urgent k) l = [].
Proof.
  induction 1 as [|n l Hn _ IH]; cbn; [done|]. unfold urgent at 1.
  rewrite (proj2 (Nat.eqb_neq (home n) k)); [done|lia].
Qed.

(** A runner without tasks joins the heap. *)
Lemma queues_new qs history s s' q r ev :
  queues_ok qs history s → ready qs s → wd_runners s !! q = None → runner_tasks r = [] →
  wd_runners s' = <[q:=r]> (wd_runners s) → wd_events s' = wd_events s ++ ev → ran_ids ev = [] →
  queues_ok (qs ++ [q]) history s'.
Proof.
  intros [Hh Hp Hhist Hc Ho] Hready Hq Hr Er Ee Hev.
  assert (Ht : heap_tasks s' ≡ₚ heap_tasks s).
  { unfold heap_tasks. rewrite Er, bag_insert_fresh by done. by rewrite Hr. }
  assert (Hrun : ran_ids (wd_events s') = ran_ids (wd_events s)).
  { by rewrite Ee, ran_ids_app, Hev, app_nil_r. }
  apply app_eq_nil in Hr as [Hr1 Hr2].
  assert (Hw : ∀ q', q' ≠ q → waiting (keep (qs ++ [q])) s' q' = waiting (keep qs) s q').
  { intros q' Hne. unfold waiting. rewrite Er, lookup_insert_ne by done.
    destruct (wd_runners s !! q') as [r'|] eqn:E; [|done]. apply filter_keep_app.
    pose proof (runner_plain _ s q' r' Hp E) as Ha. by apply Forall_app in Ha as [? _]. }
  split; rewrite ?length_app, ?Hrun, ?Ht; cbn.
  - intros q' r'. rewrite Er, lookup_insert. case_decide as E.
    { intros [= <-]. unfold homed, runner_tasks. rewrite Hr1, Hr2.
      apply map_eq_nil in Hr2 as ->. by split. }
    intros Hq'. pose proof (runner_plain _ s q' r' Hp Hq') as Ha.
    destruct (Hh _ _ Hq') as [Hh1 Hh2]. split.
    + intros q2 Hne. specialize (Hh1 q2 Hne). rewrite Forall_forall in *.
      intros t Hin. rewrite keep_app by auto. auto.
    + apply Forall_app in Ha as [_ Ha]. rewrite Forall_fmap in Ha. rewrite Forall_forall in *.
      intros e Hin. rewrite keep_app by (by apply Ha). auto.
  - eapply Forall_impl; [exact Hp|]. intros t (n & ? & ?). exists n. split; [done|lia].
  - eapply Forall_impl; [exact Hhist|]. cbn. lia.
  - done.
  - intros k q' Hk. apply lookup_app_Some in Hk as [Hk|[Hk Hk']].
    + rewrite (Ho k q' Hk), Hw; [done|]. intros ->.
      destruct (ready_postable qs s q Hready) as (r' & ? & E & _); [by eapply list_elem_of_lookup_2|].
      congruence.
    + assert (k = length qs ∧ q' = q) as [-> ->].
      { apply list_lookup_singleton_Some in Hk' as [? <-]. split; [lia|done]. }
      rewrite Hc in Hhist. apply Forall_app in Hhist as [Hran _].
      rewrite (urgent_none _ (ran_ids _) Hran). rewrite (urgent_none (length qs) history).
      * unfold waiting. rewrite Er, lookup_insert_eq. unfold followed. by rewrite Hr1.
      * rewrite Hc. apply Forall_app. split; [done|]. by apply plain_homes.
Qed.

(** The worker a new runner was bound to. *)
Lemma bound_worker_ok m qs wp s w q r id s' :
  head (wm_workers_ m) = Some wp → worker_ok m qs wp s w → wd_runners s !! q = None →
  runner_ok P 0 r → real_tasks r → wd_ticks s' = wd_ticks s → wd_tls s' = wd_tls s →
  wd_runners s' = <[q:=r]> (wd_runners s) →
  wd_workers s' = <[wp:=blank_storage id (bound q kDefaultGroupId w)]> (wd_workers s) →
  worker_ok m (qs ++ [q]) wp s' (blank_storage id (bound q kDefaultGroupId w)).
Proof.
  intros Hhead [[[Hw [Hne Hl Hnd] Hr Hm] Hreal _ Hterm Hlc Hndc] Himm Hdue Hg] Hq Hrok Hrr En Et Er Ew.
  assert (Hlive : ∀ g, live (wd_runners s) g → live (wd_runners s') g).
  { intros g Hlg. eapply Forall_impl; [exact Hlg|]. intros q' Hq'. rewrite Er, lookup_insert_is_Some'. tauto. }
  assert (Htls : tls_of s' wp = tls_of s wp) by (unfold tls_of; by rewrite Et).
  pose proof (clock_range (wd_ticks s)) as Hc. split; [split| | |].
  - split; rewrite ?En; cbn; [rewrite Ew; apply lookup_insert_eq| | |done].
    + split; cbn; rewrite app_assoc.
      * apply Forall_app. by repeat constructor.
      * apply Forall_app. split; [eapply Forall_impl; [exact Hl|]; auto|].
        repeat constructor. rewrite Er, lookup_insert_eq. eauto.
      * rewrite concat_app. apply NoDup_app. split; [done|]. split; [|apply NoDup_singleton].
        intros q' Hin ->%list_elem_of_singleton. apply list_elem_of_In, in_concat in Hin as (g & Hg1 & Hg2).
        rewrite <- !list_elem_of_In in *. rewrite Forall_forall in Hl. specialize (Hl g Hg1).
        unfold live in Hl. rewrite Forall_forall in Hl. destruct (Hl q Hg2). congruence.
    + rewrite Er. apply map_Forall_insert_2; [|done]. destruct Hrok. split; auto. lia.
  - rewrite Er. by apply map_Forall_insert_2.
  - cbn. by rewrite Himm.
  - done.
  - rewrite Htls. by apply Hlive.
  - by rewrite Htls.
  - done.
  - by right.
  - cbn. rewrite app_assoc, Hg. unfold groups_of. rewrite bool_decide_true by done. by rewrite map_app.
Qed.

Lemma other_worker_ok m qs wp p s w q r w' s' :
  head (wm_workers_ m) = Some wp → p ≠ wp → worker_ok m qs p s w → wd_runners s !! q = None →
  runner_ok P 0 r → real_tasks r → wd_ticks s' = wd_ticks s → wd_tls s' = wd_tls s →
  wd_runners s' = <[q:=r]> (wd_runners s) → wd_workers s' = <[wp:=w']> (wd_workers s) →
  worker_ok m (qs ++ [q]) p s' w.
Proof.
  intros Hhead Hne [[[Hw [Hne' Hl Hnd] Hr Hm] Hreal Hi Hterm Hlc Hndc] Himm Hdue Hg] Hq Hrok Hrr En Et Er Ew.
  assert (Hlive : ∀ g, live (wd_runners s) g → live (wd_runners s') g).
  { intros g Hlg. eapply Forall_impl; [exact Hlg|]. intros q' Hq'. rewrite Er, lookup_insert_is_Some'. tauto. }
  assert (Htls : tls_of s' p = tls_of s p) by (unfold tls_of; by rewrite Et).
  pose proof (clock_range (wd_ticks s)) as Hc. split; [split| | |]; try done.
  - split; rewrite ?En; [by rewrite Ew, lookup_insert_ne| | |done].
    + split; [done|eapply Forall_impl; [exact Hl|]; auto|done].
    + rewrite Er. apply map_Forall_insert_2; [|done]. destruct Hrok. split; auto. lia.
  - rewrite Er. by apply map_Forall_insert_2.
  - rewrite Htls. by apply Hlive.
  - by rewrite Htls.
  - rewrite Hg. unfold groups_of. by rewrite bool_decide_false by congruence.
Qed.

Lemma Create_ok size priority c s :
  2 ≤ size → client_ok size c s → - P ≤ wrap_s 32 priority ≤ P →
  ∃ c' s', client_step (Create priority) c s = Ok (c', s') ∧ client_ok size c' s' ∧
    length (cl_runners c') = S (length (cl_runners c)).
Proof.
  intros Hsize [Hpool Hqs] Hprio.
  destruct (pool_first size c s Hsize Hpool) as (wp & rest & w & Ews & Hw).
  pose proof Hpool as [Hready Hnd Hix Hsz Hlen Hdom Hws].
  assert (Hnext : next_index (wm_size_ (cl_manager c)) (wm_index_ (cl_manager c)) = Ok 0).
  { unfold next_index. rewrite Hsz. destruct (Z.eqb_spec (size - 1) 0); [lia|done]. }
  assert (Hv : vec_at (wm_workers_ (cl_manager c)) (wm_index_ (cl_manager c)) = Ok wp).
  { by rewrite Ews, Hix. }
  pose proof (CreateTaskRunner_run priority EmptyString (cl_manager c) s wp w 0 Hv
    (lo_worker _ _ _ _ _ (tn_loop _ _ _ _ _ _ (wk_turn _ _ _ _ _ Hw))) Hnext) as E.
  cbv zeta in E. set (q := alloc (wd_runners s)) in *. set (r := fresh_runner _ _ _ _ _ _) in *.
  assert (Hq : wd_runners s !! q = None) by apply alloc_fresh.
  assert (Hqs' : q ∉ cl_runners c).
  { intros Hin. destruct (ready_postable _ _ q Hready Hin) as (? & ? & ? & _). congruence. }
  assert (Hr0 : runner_tasks r = []) by (unfold runner_tasks; cbn; by rewrite pq_empty_elems).
  assert (Hrok : runner_ok P 0 r).
  { split; cbn; [by apply pq_empty_wf|by rewrite pq_empty_elems| |done]. unfold TimeDelta_Zero. lia. }
  assert (Hrr : real_tasks r).
  { split; [by apply pq_empty_wf|]. split; [done|]. unfold no_null_delayed. cbn.
    by rewrite pq_empty_elems. }
  assert (Hm : set_wm_index_ 0 (cl_manager c) = cl_manager c).
  { rewrite <- Hix. by destruct (cl_manager c). }
  rewrite Hm in E. match type of E with _ = Ok (_, ?t) => set (s' := t) in * end.
  eexists _, s'. split; [unfold client_step; by erewrite st_bind_step by exact E|].
  split; [|cbn; rewrite length_app; cbn; lia].
  assert (Hhead : head (wm_workers_ (cl_manager c)) = Some wp) by by rewrite Ews.
  split; [split; try done; cbn [cl_runners cl_manager]|].
  - apply Forall_app. split.
    + eapply Forall_impl; [exact Hready|]. intros q' (p & Ep & Hp). exists p. cbn.
      rewrite dom_insert. split; [|set_solver].
      rewrite lookup_insert_ne; [done|]. intros Heq. fold q in Heq. by rewrite <- Heq, Hq in Ep.
    + repeat constructor. exists wp. cbn. rewrite lookup_insert_eq. split; [done|].
      rewrite dom_insert. set_solver.
  - apply NoDup_app. split; [done|]. split; [|apply NoDup_singleton].
    by intros q' Hin ->%list_elem_of_singleton.
  - intros q'. cbn. rewrite lookup_insert_is_Some', elem_of_app. intros [Eq|Hq'];
      [right; apply list_elem_of_singleton; by rewrite <- Eq|left; auto].
  - intros p Hp. destruct (decide (p = wp)) as [->|Hne].
    + eexists. by eapply (bound_worker_ok _ _ wp s w q r).
    + destruct (Hws p Hp) as [w1 Hw1]. exists w1. by eapply (other_worker_ok _ _ wp p s w1 q r).
  - by eapply (queues_new _ _ s s' q r [EvCvNotifyOne wp]).
Qed.

(** *** The start *)

(** A process in which nothing of the library exists yet; its counters and its
    clock may stand anywhere. *)
Record blank s : Prop := {
  bl_runners : wd_runners s = ∅;
  bl_workers : wd_workers s = ∅;
  bl_tls : wd_tls s = ∅;
  bl_events : wd_events s = []
}.

Lemma client_start_ok size s :
  2 ≤ size → blank s →
  ∃ c s', client_start size s = Ok (c, s') ∧ client_ok size c s' ∧ cl_runners c = [].
Proof.
  intros Hsize [Hr Hw Ht He].
  destruct (create_workers_run (Z.to_nat size) (MkWorkerManager [] 0 size) s)
    as (ps & s' & E & Hlen & Er & Hps & _ & Ee & Et).
  exists (MkClient (MkWorkerManager ps 0 size) [] []), s'. split; [|split; [|done]].
  { unfold client_start, WorkerManager_new, CreateWorkers. by erewrite st_bind_step by exact E. }
  rewrite Hr in Er. split; [split|]; cbn; try done.
  - constructor.
  - constructor.
  - intros q [? Hq]. by rewrite Er in Hq.
  - intros p Hp. exists (Worker_init true EmptyString).
    split; [|done|by left|unfold groups_of; by case_bool_decide].
    assert (Htls : tls_of s' p = tls_init) by (unfold tls_of; by rewrite Et, Ht).
    split; [split| | |done| |]; rewrite ?Htls, ?Er; try done.
    + by apply Hps.
    + split; constructor.
    + constructor.
    + constructor.
  - assert (Eh : heap_tasks s' = []) by (unfold heap_tasks; by rewrite Er).
    split; rewrite ?Eh; unfold all_homed; rewrite ?Er; try done; try by constructor.
    rewrite Ee, He. cbn. unfold ran_ids. clear. induction ps; [done|]. cbn. done.
Qed.

(** ** Programs *)

Lemma client_run size ops ops' c s :
  2 ≤ size → client_ok size c s → ops_ok size (length (cl_runners c)) (ops ++ ops') →
  ∃ c' s', client ops c s = Ok (c', s') ∧ client_ok size c' s' ∧
    ops_ok size (length (cl_runners c')) ops'.
Proof.
  intros Hsize. revert c s. induction ops as [|o ops IH]; intros c s Hck Hops; [by exists c, s|].
  assert (Hstep : ∃ c1 s1, client_step o c s = Ok (c1, s1) ∧ client_ok size c1 s1 ∧
                           ops_ok size (length (cl_runners c1)) (ops ++ ops')).
  { destruct o as [priority|x|i].
    - destruct Hops as [Hp Hops]. destruct (Create_ok size priority c s Hsize Hck Hp)
        as (c1 & s1 & E & Hck1 & Hl). exists c1, s1. by rewrite Hl.
    - destruct Hops as [Hx Hops]. destruct (Call_ok size x c s Hsize Hck Hx)
        as (c1 & s1 & E & Hck1 & Hl). exists c1, s1. by rewrite Hl.
    - destruct Hops as (Hi & HK & Hops). destruct (Turn_ok size i c s Hck Hi HK)
        as (p & c1 & s1 & _ & E & Hck1 & Hl & _). exists c1, s1. by rewrite Hl. }
  destruct Hstep as (c1 & s1 & E & Hck1 & Hops1).
  destruct (IH c1 s1 Hck1 Hops1) as (c' & s' & E' & Hck'). exists c', s'.
  split; [|done]. cbn. by erewrite st_bind_step by exact E.
Qed.

Definition client_program (size : Z) (ops : list op) : M Q Client :=
  do! c := client_start size in client ops c.

Lemma program_run size ops ops' s0 :
  2 ≤ size → blank s0 → ops_ok size 0 (ops ++ ops') →
  ∃ c s, client_program size ops s0 = Ok (c, s) ∧ client_ok size c s ∧
    ops_ok size (length (cl_runners c)) ops'.
Proof.
  intros Hsize Hb Hops. destruct (client_start_ok size s0 Hsize Hb) as (c0 & s1 & E0 & Hck0 & Hr0).
  destruct (client_run size ops ops' c0 s1 Hsize Hck0) as (c & s & E & Hck); [by rewrite Hr0|].
  exists c, s. split; [|done]. unfold client_program. by erewrite st_bind_step by exact E0.
Qed.

Lemma queue_order qs history s k q r :
  NoDup qs → queues_ok qs history s → qs !! k = Some q → wd_runners s !! q = Some r →
  List.filter (urgent k) history =
    List.filter (urgent k) (ran_ids (wd_events s)) ++
    List.filter (urgent k) (task_ids (tr_task_queue_ r)).
Proof.
  intros Hnd Hq Hk Hr. rewrite (qo_order _ _ _ Hq k q Hk). f_equal. unfold waiting. rewrite Hr.
  by apply task_ids_keep.
Qed.

(** C1. A client's view of the whole library.  Whatever the client does with a
    manager of two or more workers — create schedulable runners of the default
    group, post tasks at once or after a delay, let the workers take turns, in any order, with tasks that
    post further tasks — nothing faults; every task posted either ran or still
    waits in a queue, each exactly once; and the tasks posted to a runner
    without delay run in the order they were posted. *)
Theorem client_exactly_once size ops s0
    (Hsize : 2 ≤ size) (Hblank : blank s0) (Hops : ops_ok size 0 ops) :
  ∃ c s, client_program size ops s0 = Ok (c, s) ∧
    cl_history c ≡ₚ ran_ids (wd_events s) ++ task_ids (heap_tasks s) ∧
    ∀ k q r, cl_runners c !! k = Some q → wd_runners s !! q = Some r →
      List.filter (urgent k) (cl_history c) =
        List.filter (urgent k) (ran_ids (wd_events s)) ++
        List.filter (urgent k) (task_ids (tr_task_queue_ r)).
Proof.
  rewrite <- (app_nil_r ops) in Hops.
  destruct (program_run size ops [] s0 Hsize Hblank Hops) as (c & s & E & [Hpool Hq] & _).
  exists c, s. split; [done|]. split; [apply Hq|]. intros k q r. apply queue_order; [apply Hpool|done].
Qed.

(** A bound on the tasks that a task leads to, itself included. *)
Variable cost : Z → nat.
Definition total_cost (l : list Z) : nat := sum_list_with cost l.
Hypothesis cost_ok : ∀ n, (S (total_cost (posts_of n)) ≤ cost n)%nat.

Lemma total_cost_perm l l' : l ≡ₚ l' → total_cost l = total_cost l'.
Proof. unfold total_cost. induction 1; cbn; lia. Qed.

Lemma total_cost_app l l' : total_cost (l ++ l') = (total_cost l + total_cost l')%nat.
Proof. unfold total_cost. induction l as [|n l IH]; cbn; [done|]. rewrite IH. lia. Qed.

(** Turns of the first worker run tasks until none is due. *)
Lemma turns_drain size c s :
  2 ≤ size → client_ok size c s → (K ≤ length (cl_runners c))%nat →
  ∃ j c' s' n, (j ≤ total_cost (task_ids (heap_tasks s)))%nat ∧
    client (replicate (S j) (Turn 0)) c s = Ok (c', s') ∧ client_ok size c' s' ∧
    (wd_ticks s ≤ n)%nat ∧
    ∀ q r, q ∈ cl_runners c' → wd_runners s' !! q = Some r → quiet (clock n) r.
Proof.
  intros Hsize. remember (total_cost (task_ids (heap_tasks s))) as b eqn:Hb.
  revert c s Hb. induction (lt_wf b) as [b _ IH]. intros c s Hb Hck HK.
  destruct (Turn_ok size 0 c s Hck) as (p & c1 & s1 & Hp & E & Hck1 & Hr1 & Hm1 & Hn1 & Hprog);
    [lia|done|].
  destruct Hprog as [[n Hn]|[_ Hq]].
  - apply total_cost_perm in Hn. rewrite total_cost_app in Hn.
    change (total_cost (n :: ?l)) with (cost n + total_cost l)%nat in Hn.
    pose proof (cost_ok n).
    destruct (IH (total_cost (task_ids (heap_tasks s1)))) with (c := c1) (s := s1)
      as (j & c' & s' & m & Hj & E' & Hck' & Hm & Hq'); [lia|done|done|by rewrite Hr1|].
    exists (S j), c', s', m. split; [lia|]. split; [|split; [done|split; [lia|done]]].
    change (replicate (S (S j)) (Turn 0)) with (Turn 0 :: replicate (S j) (Turn 0)).
    cbn [client]. by erewrite st_bind_step by exact E.
  - exists 0%nat, c1, s1, (wd_ticks s). split; [lia|]. split.
    { cbn. by erewrite st_bind_step by exact E. }
    split; [done|]. split; [done|]. rewrite Hr1. apply Hq.
    rewrite <- Hp. by destruct (wm_workers_ (cl_manager c)).
Qed.

(** C2. The pool makes progress: after any program of the client, the first
    worker needs at most one turn per task that is queued or will be posted by
    queued tasks, and one more, to come to a point where no runner has a task
    that is due, and every task posted without delay has run, in the order of
    the posts. *)
Theorem client_drains size ops s0
    (Hsize : 2 ≤ size) (Hblank : blank s0) (Hops : ops_ok size 0 (ops ++ [Turn 0])) :
  ∃ c1 s1, client_program size ops s0 = Ok (c1, s1) ∧
  ∃ j c s n, (j ≤ total_cost (task_ids (heap_tasks s1)))%nat ∧
    client (replicate (S j) (Turn 0)) c1 s1 = Ok (c, s) ∧ (wd_ticks s1 ≤ n)%nat ∧
    (∀ q r, q ∈ cl_runners c → wd_runners s !! q = Some r → quiet (clock n) r) ∧
    ∀ k, (k < length (cl_runners c))%nat →
      List.filter (urgent k) (cl_history c) = List.filter (urgent k) (ran_ids (wd_events s)).
Proof.
  destruct (program_run size ops [Turn 0] s0 Hsize Hblank Hops)
    as (c1 & s1 & E1 & Hck1 & _ & HK & _).
  destruct (turns_drain size c1 s1 Hsize Hck1 HK) as (j & c & s & n & Hj & E & [Hpool Hq] & Hn & Hquiet).
  exists c1, s1. split; [done|]. exists j, c, s, n. do 4 (split; [done|]).
  intros k Hk. destruct (lookup_lt_is_Some_2 (cl_runners c) k Hk) as [q Hkq].
  pose proof (list_elem_of_lookup_2 _ _ _ Hkq) as Hin.
  destruct (ready_postable _ _ q (pl_ready _ _ _ Hpool) Hin) as (r & p & Hr & _).
  rewrite (queue_order _ _ s k q r (pl_nodup _ _ _ Hpool) Hq Hkq Hr).
  destruct (Hquiet q r Hin Hr) as [-> _]. by rewrite app_nil_r.
Qed.
End Client.

(** ** A concrete client

    Two runners; task 1 posts task 4 to the second runner and, after a delay,
    task 5 to its own. *)

Section Sample.
Definition demo_clock (n : nat) : Z := Z.min (10 * Z.of_nat n) 1000000.
Definition demo_children (n : Z) : list Post :=
  if n =? 1 then [MkPost 1 4 None; MkPost 0 5 (Some 30)] else [].
Definition demo_home (n : Z) : nat := if (n =? 2) || (n =? 4) then 1%nat else 0%nat.
Definition demo_late (n : Z) : bool := n =? 5.
Definition demo_cost (n : Z) : nat := if n =? 1 then 3%nat else 1%nat.
Definition demo_ops : list op :=
  [Create 1; Create 2; Call (MkPost 0 1 None); Call (MkPost 1 2 None); Turn 1; Turn 0;
   Call (MkPost 0 3 None); Turn 0].
Definition demo_world : World (list DelayedEntry) := MkWorld ∅ ∅ ∅ 1 100 7 0 [].

Lemma demo_clock_range n : 0 ≤ demo_clock n ≤ i64_max.
Proof. unfold demo_clock, i64_max. lia. Qed.

Lemma demo_children_ok n :
  Forall (post_ok 1000000 demo_home demo_late 2) (demo_children n).
Proof.
  unfold demo_children. destruct (Z.eqb_spec n 1); [|constructor].
  repeat constructor; cbn; unfold i64_max; lia.
Qed.

Lemma demo_cost_ok n : (S (total_cost demo_cost (posts_of demo_children n)) ≤ demo_cost n)%nat.
Proof. unfold posts_of, demo_children, demo_cost. destruct (Z.eqb_spec n 1); cbn; lia. Qed.

Lemma demo_ops_ok : ops_ok 2 1000000 demo_home demo_late 2 3 0 (demo_ops ++ [Turn 0]).
Proof. cbn. unfold post_ok. cbn. repeat split; first [lia|by vm_compute]. Qed.

Lemma client_exactly_once_witness :
  ∃ c s, client_program demo_clock demo_children 3 (demo_ops ++ [Turn 0]) demo_world = Ok (c, s) ∧
    cl_history c = [1; 2; 4; 5; 3] ∧ ran_ids (wd_events s) = [1; 2; 4] ∧
    task_ids (heap_tasks s) ≡ₚ [3; 5] ∧
    ∀ k q r, cl_runners c !! k = Some q → wd_runners s !! q = Some r →
      List.filter (urgent demo_home demo_late k) [1; 2; 4; 5; 3] =
        List.filter (urgent demo_home demo_late k) [1; 2; 4] ++
        List.filter (urgent demo_home demo_late k) (task_ids (tr_task_queue_ r)).
Proof.
  destruct (client_exactly_once demo_clock demo_children demo_clock_range
    ltac:(unfold demo_clock; lia) 2 1000000 ltac:(unfold demo_clock; lia)
    ltac:(unfold i64_max; lia) demo_home demo_late 2 demo_children_ok 3 (demo_ops ++ [Turn 0])
    demo_world ltac:(lia) ltac:(by split) demo_ops_ok) as (c & s & E & Hp & Ho).
  assert (Eh : (λ x, (cl_history x.1, ran_ids (wd_events x.2))) <$>
    client_program demo_clock demo_children 3 (demo_ops ++ [Turn 0]) demo_world =
    Ok ([1; 2; 4; 5; 3], [1; 2; 4])) by (vm_compute; reflexivity).
  rewrite E in Eh. injection Eh as Eh Er. rewrite Eh, Er in *.
  exists c, s. do 3 (split; [done|]). split; [|exact Ho].
  apply (Permutation_app_inv_l [1; 2; 4]). rewrite <- Hp. decide_now.
Defined.

Lemma client_drains_witness :
  ∃ c1 s1, client_program demo_clock demo_children 3 demo_ops demo_world = Ok (c1, s1) ∧
    ran_ids (wd_events s1) = [1; 2] ∧
  ∃ j c s n, (j ≤ 3)%nat ∧
    client demo_clock demo_children (replicate (S j) (Turn 0)) c1 s1 = Ok (c, s) ∧
    (∀ q r, q ∈ cl_runners c → wd_runners s !! q = Some r → quiet (demo_clock n) r) ∧
    ∀ k, (k < length (cl_runners c))%nat →
      List.filter (urgent demo_home demo_late k) (cl_history c) =
        List.filter (urgent demo_home demo_late k) (ran_ids (wd_events s)).
Proof.
  destruct (client_drains demo_clock demo_children demo_clock_range
    ltac:(unfold demo_clock; lia) 2 1000000 ltac:(unfold demo_clock; lia)
    ltac:(unfold i64_max; lia) demo_home demo_late 2 demo_children_ok demo_cost demo_cost_ok
    3 demo_ops demo_world ltac:(lia) ltac:(by split) demo_ops_ok)
    as (c1 & s1 & E & j & c & s & n & Hj & E' & _ & Hq & Ho).
  assert (Eh : (λ x, (ran_ids (wd_events x.2), total_cost demo_cost (task_ids (heap_tasks x.2)))) <$>
    client_program demo_clock demo_children 3 demo_ops demo_world =
    Ok ([1; 2], 3%nat)) by (vm_compute; reflexivity).
  rewrite E in Eh. injection Eh as Er Ec. rewrite Ec in Hj.
  exists c1, s1. split; [done|]. split; [done|]. exists j, c, s, n. auto.
Defined.
End Sample.
