(* ===== verification/TimerLoop.v ===== *)
(** * TimerLoop: timers and the workers that run their tasks

    Composes Timer.v with the whole core: a timer posts tasks to a runner, a
    worker takes them and invokes the timer, whose user task is run by the
    client's code of EndToEnd.v.  [RunTask] here is that of WorkerLoop.v over
    the world and the heap of timers.  The theorems follow a one-shot timer of
    a client through any order of posts, turns, resets and a stop. *)

From S2P Require Import Prelude Time PriorityQueue Store TaskRunner Worker WorkerLoop ThreadWorker Turns WorkerManager Timer EndToEnd.

(** ** Running tasks that may use timers *)

Section Operations.
Context {Q : Type} `{PriorityQueue DelayedEntry Q} `{WorkerBackend}.
Variable clock : nat → Z.
Variable debug : bool.
Variable run_user : Task → TM Q unit.
Variable run_idle : IdleUnit → IdleCbParam → TM Q unit.

(** The tasks of the library itself call no user code. *)
Definition no_callbacks : Callbacks Q := MkCallbacks (λ _, st_ret tt) (λ _ _, st_ret tt) (λ _, st_ret tt).

Definition timed_Task_Run (task : Task) : TM Q unit :=
  match task_unit_ task with
  | Some (CTimer this) => timer_task clock debug run_user run_idle this
  | Some (CIdle idle time) => run_idle_unit run_idle (idle_unit_ idle) (MkIdleCbParam false time)
  | Some (CUser _) => run_user task
  | _ => tlift (Task_Run no_callbacks task)
  end.

Definition timed_RunTask (p : worker_ptr) : TM Q bool :=
  do! task := tlift (GetNextTask clock p) in
  match task with
  | Some task =>
      do! begin := tlift (Now clock) in
      do! _ := tlift (modify_tls p (set_tls_is_task_running true)) in
      do! _ := timed_Task_Run task in
      do! _ := tlift (modify_tls p (set_tls_is_task_running false)) in
      do! t := tlift (get_tls p) in
      do! _ := tlift (st_iter (charge clock begin) (tls_curr_group t)) in
      st_ret true
  | None =>
      do! w := tlift (get_worker p) in
      if w_is_terminated_ w then st_ret false else st_ret true
  end.

Lemma tlift_bind {A B} (m : M Q A) (k : A → M Q B) s :
  tlift (st_bind m k) s = st_bind (tlift m) (λ a, tlift (k a)) s.
Proof. unfold tlift, st_bind. by destruct (m s.1) as [[]|]. Qed.

Lemma st_bind_ext {S A B} (m m' : ST S A) (k k' : A → ST S B) s :
  m s = m' s → (∀ a s', k a s' = k' a s') → st_bind m k s = st_bind m' k' s.
Proof. unfold st_bind. intros -> Hk. by destruct (m' s) as [[]|]. Qed.

(** Where no task touches a timer it is [RunTask]. *)
Lemma timed_RunTask_lift cb p s :
  (∀ task s, timed_Task_Run task s = tlift (Task_Run cb task) s) →
  timed_RunTask p s = tlift (RunTask clock cb p) s.
Proof.
  intros Hrun. unfold timed_RunTask, RunTask. rewrite tlift_bind.
  apply st_bind_ext; [done|]. intros [task|] s1.
  - do 2 (rewrite tlift_bind; apply st_bind_ext; [done|]; intros ? ?).
    rewrite tlift_bind. apply st_bind_ext; [apply Hrun|]. intros ? ?.
    do 3 (rewrite tlift_bind; apply st_bind_ext; [done|]; intros ? [? ?]). done.
  - rewrite tlift_bind. apply st_bind_ext; [done|]. intros w [? ?]. by destruct (w_is_terminated_ w).
Qed.
End Operations.

(** ** A client with a one-shot timer *)

Inductive timed_op :=
  | TCall (post : Post)       (* PostTask or PostDelayedTask *)
  | TTurn (i : nat)           (* RunTask on the thread of worker [i] *)
  | TReset                    (* BaseTimer::Reset *)
  | TResetInTime              (* the same, if the timer runs and is not yet due *)
  | TStop.                    (* BaseTimer::Stop *)

Section Timed.
Context {Q : Type} `{PriorityQueueLaws DelayedEntry Q deadline}.
#[local] Existing Instance thread_backend.
Variable clock : nat → Z.
Variable debug : bool.
Variable children : Z → list Post.
Implicit Types (w : World Q) (T : Timers) (r : TaskRunner Q) (c : Client).

(** The timer, the task the user gives it, and its delay. *)
Variable x : nat.
Variables uid n0 : Z.
Variable delay : Z.
Definition user_task : Task := MkTask uid (Some (CUser n0)).

Definition user_code c (task : Task) : TM Q unit :=
  tlift (Task_Run (client_callbacks clock children (cl_runners c)) task).

(** The body of an idle task is a function of the client too; the one that an
    idle timer posts runs the body the timer holds. *)
Definition idle_body c (u : IdleUnit) (param : IdleCbParam) : TM Q unit :=
  match u with
  | IdleUser n => user_code c (MkTask 0 (Some (CUser n)))
  | IdleWeak _ => st_ret tt
  end.
Definition idle_code c (u : IdleUnit) (param : IdleCbParam) : TM Q unit :=
  match u with
  | IdleUser _ => idle_body c u param
  | IdleWeak slot => idle_weak_task (idle_body c) x slot param
  end.

Definition turn c (p : worker_ptr) : TM Q bool :=
  timed_RunTask clock debug (user_code c) (idle_code c) p.

(** The timer runs and the time it last posted a task for has not passed. *)
Definition in_time (s : World Q * Timers) : bool :=
  match tms_heap s.2 !! x with
  | Some t => bool_decide (tm_is_running_ t = Some true) &&
              (clock (wd_ticks s.1) <=? tm_scheduled_run_time_ t)
  | None => false
  end.

(** A reset; [D] is the time before which the client does not expect the task,
    which the reset may put off. *)
Definition reset_step (D : Z) : TM Q Z :=
  do! _ := Reset clock x in
  do! t := get_timer x in
  st_ret (if tm_scheduled_run_time_ t <? tm_desired_run_time_ t
          then tm_desired_run_time_ t else D).

(** One step. *)
Definition timed_step c (o : timed_op) (D : Z) : TM Q Z :=
  match o with
  | TCall post => do! _ := tlift (do_post clock (cl_runners c) post) in st_ret D
  | TTurn i =>
      do! p := tlift (worker_at (cl_manager c) (Z.of_nat i)) in
      do! _ := turn c p in st_ret D
  | TReset => reset_step D
  | TResetInTime =>
      do! s := st_get in
      if in_time s then reset_step D else st_ret D
  | TStop => do! _ := Stop x in st_ret D
  end.

Fixpoint timed c (ops : list timed_op) (D : Z) : TM Q Z :=
  match ops with
  | [] => st_ret D
  | o :: ops => do! D := timed_step c o D in timed c ops D
  end.

(** A program whose resets all come in time, and the same program with the
    test made before each of them. *)
Fixpoint resets_in_time c (ops : list timed_op) (D : Z) s : bool :=
  match ops with
  | [] => true
  | o :: ops =>
      (if o is TReset then in_time s else true) &&
      match timed_step c o D s with
      | Ok (D, s) => resets_in_time c ops D s
      | Fault _ => true
      end
  end.
Definition tested (o : timed_op) : timed_op := if o is TReset then TResetInTime else o.

Lemma timed_tested c ops D s :
  resets_in_time c ops D s = true → timed c (tested <$> ops) D s = timed c ops D s.
Proof.
  revert D s. induction ops as [|o ops IH]; intros D s; cbn; [done|].
  intros [Ho Hrest]%andb_true_iff.
  assert (E : timed_step c (tested o) D s = timed_step c o D s).
  { destruct o; try done. unfold tested, timed_step.
    by rewrite (st_bind_step st_get _ s s s eq_refl), Ho. }
  unfold st_bind. rewrite E. destruct (timed_step c o D s) as [[D' s']|f]; [by apply IH|done].
Qed.

(** [std::make_shared<OneShotTimer>(runner)], or a [RepeatingTimer], then
    [Start], which is the same for both. *)
Definition timed_start (kind : timer_kind) c (k : nat) : TM Q Z :=
  do! q := st_lift (vec_at (cl_runners c) (Z.of_nat k)) in
  do! _ := st_modify (λ s,
    (s.1, set_tms_heap (<[x := BaseTimer_init kind (Some q)]> (tms_heap s.2)) s.2)) in
  do! s := st_get in
  do! _ := Timer_Start clock x (Some user_task) delay in
  st_ret (clock (wd_ticks s.1) + delay).

(** How often the user's task ran. *)
Definition fires w : nat := length (List.filter (Z.eqb n0) (ran_ids (wd_events w))).
(** The tasks of the timer that wait. *)
Definition tasks_of w : nat := length (List.filter (of_timer x) (heap_tasks w)).

(** ** What is asked of the client *)

Hypothesis clock_range : ∀ n, 0 ≤ clock n ≤ i64_max.
Hypothesis clock_mono : ∀ m n, (m ≤ n)%nat → clock m ≤ clock n.
Variables P C : Z.
Hypothesis clock_bound : ∀ n, clock n ≤ C.
Hypothesis weights : 0 ≤ P ∧ C ≤ i64_max ∧ P * C ≤ i64_max.
Variable home : Z → nat.
Variable late : Z → bool.
Variable K : nat.
Hypothesis children_ok : ∀ n, Forall (post_ok C home late K) (children n).
Hypothesis delay_range : 0 < delay ∧ C + delay ≤ i64_max.
(** The timer's task is the timer's alone. *)
Hypothesis own_task : ∀ n, n0 ∉ posts_of children n.

(** The pool is that of EndToEnd.v; every queue holds user tasks and tasks of
    the timer. *)
Record world_ok (size : Z) c w : Prop := {
  wo_pool : pool_ok clock P size c w;
  wo_room : (K ≤ length (cl_runners c))%nat;
  wo_tasks : Forall (λ t, plain home (length (cl_runners c)) t ∨ of_timer x t = true) (heap_tasks w);
  wo_fresh : n0 ∉ task_ids (heap_tasks w)
}.

(** The tasks a timer holds, and what it holds when the client gave it its
    user task. *)
Definition holding : Type := option Task * option (nat * option IdleUnit).
Definition user_held : holding := (Some user_task, None).

(** The timer is armed, one task of it waits, and the user's task ran [k] times. *)
Record pending (kind : timer_kind) (held : holding) (k : nat) c (D : Z) w T (t : Timer) : Prop := {
  pd_timer : tms_heap T !! x = Some t;
  pd_kind : tm_kind t = kind;
  pd_runner : ∃ q, tm_task_runner_ t = Some q ∧ q ∈ cl_runners c;
  pd_task : (tm_user_task_ t, tm_idle_task_ t) = held;
  pd_running : tm_is_running_ t = Some true;
  pd_delay : tm_delay_ t = delay;
  pd_order : tm_scheduled_run_time_ t ≤ tm_desired_run_time_ t;
  pd_bound : tm_desired_run_time_ t ≤ clock (wd_ticks w) + delay;
  pd_low : D ≤ tm_desired_run_time_ t;
  pd_positive : 0 ≤ tm_desired_run_time_ t;
  pd_one : tasks_of w = 1%nat;
  pd_fires : fires w = k;
  pd_by : timer_by x (tm_scheduled_run_time_ t) w;
  pd_after : tm_desired_run_time_ t ≤ tm_scheduled_run_time_ t → timer_after clock x D w
}.

Lemma passed_mono D w : passed clock D w → D ≤ clock (wd_ticks w).
Proof. intros (n & Hn & Hd). pose proof (clock_mono n (wd_ticks w)). lia. Qed.

Lemma of_timer_spec t : of_timer x t = true ↔ ∃ id, t = Some (MkTask id (Some (CTimer x))).
Proof.
  destruct t as [[id [[| | | |y]|]]|]; cbn; try (split; [done|by intros [? ?]]).
  rewrite bool_decide_eq_true. naive_solver.
Qed.

Lemma plain_not_timer N t : plain home N t → of_timer x t = false.
Proof. intros (n & Hn & _). by destruct t as [[id [[]|]]|]. Qed.

Lemma tasks_of_perm w w' l :
  heap_tasks w' ≡ₚ heap_tasks w ++ l →
  tasks_of w' = (tasks_of w + length (List.filter (of_timer x) l))%nat.
Proof.
  intros Hp. unfold tasks_of. rewrite <- length_app, <- List.filter_app.
  by apply Permutation_length, list_filter_perm.
Qed.

Lemma fires_app w w' ev :
  wd_events w' = wd_events w ++ ev →
  fires w' = (fires w + length (List.filter (Z.eqb n0) (ran_ids ev)))%nat.
Proof. intros E. unfold fires. by rewrite E, ran_ids_app, List.filter_app, length_app. Qed.

Lemma filter_other (l : list Z) : n0 ∉ l → List.filter (Z.eqb n0) l = [].
Proof.
  intros Hn. apply list_filter_nil, Forall_forall. intros n Hin. apply Z.eqb_neq. by intros ->.
Qed.

Lemma filter_plain N l : Forall (plain home N) l → List.filter (of_timer x) l = [].
Proof. intros Hl. apply list_filter_nil. eapply Forall_impl; [exact Hl|]. apply plain_not_timer. Qed.

(** Without a task of the timer its times say nothing. *)
Lemma none_waiting w D U : tasks_of w = 0%nat → timer_after clock x D w ∧ timer_by x U w.
Proof.
  intros Hn.
  assert (Hd : ∀ q r, wd_runners w !! q = Some r →
    Forall (λ e, of_timer x (delayed_task e) = false) (pq_elems (tr_delayed_task_queue_ r)) ∧
    Forall (λ t, of_timer x t = false) (tr_task_queue_ r)).
  { intros q r Hq. pose proof (bag_lookup runner_tasks _ q r Hq) as Hp.
    apply nil_length_inv, list_filter_nil in Hn. unfold heap_tasks in Hn. rewrite Hp in Hn.
    apply Forall_app in Hn as [Hn _]. apply Forall_app in Hn as [? Hn]. by rewrite Forall_fmap in Hn. }
  split.
  - intros q r Hq. destruct (Hd q r Hq) as [H1 H2].
    split; [eapply Forall_impl; [exact H1|]|eapply Forall_impl; [exact H2|]]; cbn; congruence.
  - intros q r Hq. destruct (Hd q r Hq) as [H1 _]. eapply Forall_impl; [exact H1|]. cbn. congruence.
Qed.

(** *** Steps that do not concern the timer *)

(** Time passes, other tasks come and go. *)
Record background w w' : Prop := {
  bg_ticks : (wd_ticks w ≤ wd_ticks w')%nat;
  bg_time : on_time clock x [] w w';
  bg_tasks : tasks_of w' = tasks_of w;
  bg_fires : fires w' = fires w
}.

Lemma pending_later kind held k k' c D w w' T t :
  (wd_ticks w ≤ wd_ticks w')%nat → on_time clock x [] w w' → tasks_of w' = tasks_of w →
  fires w' = k' → pending kind held k c D w T t → pending kind held k' c D w' T t.
Proof.
  intros Hn [Ha Hb] Ht Hf []. pose proof (clock_mono _ _ Hn). split; try done; try lia; auto.
  intros Hd. apply Ha. auto.
Qed.

Lemma pending_background kind held k c D w w' T t :
  background w w' → pending kind held k c D w T t → pending kind held k c D w' T t.
Proof.
  intros [Hn Ho Ht Hf] Hpd. eapply pending_later; [exact Hn|done|done| |exact Hpd].
  by rewrite Hf, (pd_fires _ _ _ _ _ _ _ _ Hpd).
Qed.

(** *** A turn, up to the choice of its task *)

Lemma turn_weights0 : 0 ≤ P ∧ 0 ≤ 0 ∧ 0 + C ≤ i64_max ∧ P * (0 + C) ≤ i64_max.
Proof. destruct weights as (? & ? & ?). rewrite Z.add_0_l. lia. Qed.

Lemma pool_history size c w h :
  pool_ok clock P size (MkClient (cl_manager c) (cl_runners c) h) w ↔ pool_ok clock P size c w.
Proof. split; intros [? ? ? ? ? ? ?]; by split. Qed.

(** The chosen task left the queues; if none is due every runner is quiet. *)
Lemma choose size c p w wk :
  pool_ok clock P size c w → worker_ok clock P (cl_manager c) (cl_runners c) p w wk →
  ∃ res w1 wk1, GetNextTask clock p w = Ok (res, w1) ∧ pool_ok clock P size c w1 ∧
    worker_ok clock P (cl_manager c) (cl_runners c) p w1 wk1 ∧
    heap_tasks w ≡ₚ taken res ++ heap_tasks w1 ∧ on_time clock x (taken res) w w1 ∧
    (wd_ticks w ≤ wd_ticks w1)%nat ∧ wd_events w1 = wd_events w ∧
    (res = None → head (wm_workers_ (cl_manager c)) = Some p →
     ∀ q r, q ∈ cl_runners c → wd_runners w1 !! q = Some r → quiet (clock (wd_ticks w)) r).
Proof.
  intros Hpool Hwk. pose proof Hwk as [Hok Himm Hdue Hg].
  destruct (turn_weights clock clock_range P 0 C clock_bound turn_weights0 w) as [HT HPT].
  destruct (GetNextTask_turn clock clock_range clock_mono P 0 C turn_weights0 (λ _ _, false)
    false _ p w wk HT HPT Hok) as (res & w1 & wk1 & E & Hok1 & Hc & Hf).
  apply (turn_ok_later clock clock_mono P 0 _ _ (wd_ticks w1)) in Hok1; [|apply Hf].
  pose proof (turn_worker_ok _ _ _ _ _ _ _ _ _ Hwk Hok1 Hf) as Hwk1.
  pose proof (wk_imm _ _ _ _ _ _ _ Hwk1) as Himm1.
  exists res, w1, wk1. split; [exact E|].
  split; [apply (pool_history _ _ _ (cl_history c)); by eapply turn_pool|]. split; [exact Hwk1|].
  assert (Hh : ∀ l, l ++ all_tasks w1 wk1 ≡ₚ all_tasks w wk ++ [] → heap_tasks w ≡ₚ l ++ heap_tasks w1).
  { intros l. unfold all_tasks. rewrite Himm, Himm1, app_nil_r. by symmetry. }
  assert (Ho : on_time clock x (taken res) w w1).
  { by apply (GetNextTask_on_time clock clock_range clock_mono P 0 C turn_weights0 (λ _ _, false)
      false _ x p w wk res w1 HT HPT Hok). }
  pose proof (tf_ticks _ _ _ _ _ Hf) as Hn. destruct res as [t|].
  - destruct Hc as [[[[Hp _] _]|(_ & Ht & _)] He]; [split; [by apply (Hh [Some t])|]; by auto|].
    by rewrite (tn_term _ _ _ _ _ _ Hok) in Ht.
  - destruct Hc as ([Hp _] & Hfin & Hmerged & He). split; [by apply (Hh [])|].
    do 3 (split; [done|]). intros _ Hhead.
    apply (finished_quiet _ _ _ _ _ _ _ _ Hwk1 Hhead); [by apply Hmerged|done].
Qed.

(** *** The rest of the turn *)

Lemma entered_background p w : background w (entered p w).
Proof. split; try done; [cbn; lia|]. apply on_time_queues; [by eauto|cbn; lia]. Qed.

Lemma run_chosen size c p w w1 wk1 T t T' born sd w3 :
  GetNextTask clock p w = Ok (Some t, w1) → pool_ok clock P size c w1 →
  worker_ok clock P (cl_manager c) (cl_runners c) p w1 wk1 →
  timed_Task_Run clock debug (user_code c) (idle_code c) t (entered p w1, T) = Ok (tt, (w3, T')) →
  performs clock P (keep home late (cl_runners c)) born sd (entered p w1) w3 →
  ∃ w', turn c p (w, T) = Ok (true, (w', T')) ∧ pool_ok clock P size c w' ∧
    heap_tasks w' ≡ₚ heap_tasks w1 ++ born ∧ on_time clock x [] w3 w' ∧
    (wd_ticks w3 ≤ wd_ticks w')%nat ∧ ∃ ev, wd_events w' = wd_events w1 ++ ev ∧ sd ev.
Proof.
  intros E Hpool Hwk Erun Hp. pose proof Hwk as [Hok Himm Hdue Hg].
  destruct (rest_of_turn clock clock_range clock_mono P 0 C clock_bound turn_weights0 _
    false p w1 wk1 born sd w3 Hok Hp) as (w' & El & Hok' & Hf & Hm & _ & He & Hh).
  exists w'. split.
  { unfold turn, timed_RunTask. erewrite bind_tlift by exact E. cbn [snd].
    erewrite bind_tlift by reflexivity. erewrite bind_tlift by reflexivity. cbn [fst snd].
    erewrite st_bind_step by exact Erun. cbn [snd].
    revert El. unfold leave. intros El. 
    mstep El. erewrite bind_tlift by exact E0. cbn [snd].
    mstep El. erewrite bind_tlift by exact E1. cbn [snd].
    mstep El. erewrite bind_tlift by exact E2. injection El as <-. done. }
  pose proof (turn_worker_ok _ _ _ _ _ _ _ _ _ Hwk Hok' Hf) as Hwk'.
  split; [apply (pool_history _ _ _ (cl_history c)); by eapply turn_pool|].
  split; [|split; [exact (ho_time _ _ _ _ _ _ _ Hh x)|split; [apply (ho_ticks _ _ _ _ _ _ _ Hh)|done]]].
  destruct Hm as [Hm _]. unfold all_tasks in Hm. by rewrite Himm in Hm.
Qed.

Lemma world_ok_next size c w w' out born :
  world_ok size c w → pool_ok clock P size c w' → out ++ heap_tasks w' ≡ₚ heap_tasks w ++ born →
  Forall (λ t, plain home (length (cl_runners c)) t ∨ of_timer x t = true) born →
  n0 ∉ task_ids born → world_ok size c w'.
Proof.
  intros [_ HK Ht Hf] Hpool Hp Hborn Hn. split; [done|done| |].
  - assert (Ha : Forall (λ t, plain home (length (cl_runners c)) t ∨ of_timer x t = true)
      (out ++ heap_tasks w')) by (rewrite Hp; by apply Forall_app).
    by apply Forall_app in Ha as [_ ?].
  - intros Hin. apply task_ids_perm in Hp. rewrite !task_ids_app in Hp.
    assert (Hin2 : n0 ∈ task_ids (heap_tasks w) ++ task_ids born).
    { rewrite <- Hp. apply elem_of_app. by right. }
    by apply elem_of_app in Hin2 as [?|?].
Qed.

Lemma user_runs c n id w T :
  (K ≤ length (cl_runners c))%nat → ready (cl_runners c) w →
  ∃ born w', user_code c (MkTask id (Some (CUser n))) (w, T) = Ok (tt, (w', T)) ∧
    performs clock P (keep home late (cl_runners c)) born
      (client_said children home (cl_runners c) (MkTask id (Some (CUser n))) born) w w'.
Proof.
  intros HK Hready.
  destruct (client_runs clock children clock_range P C clock_bound home late K children_ok
    (cl_runners c) (MkTask id (Some (CUser n))) w HK) as (born & w' & E & Hp); [|done|].
  { by intros t' cl [= <-] [= <-]. }
  exists born, w'. split; [|done]. unfold user_code, tlift. cbn [fst snd]. by rewrite E.
Qed.

Lemma said_ids c n id born ev :
  client_said children home (cl_runners c) (MkTask id (Some (CUser n))) born ev →
  ran_ids ev = [n] ∧ task_ids born = posts_of children n ∧
  Forall (plain home (length (cl_runners c))) born.
Proof. intros (Hr & Hb & Hp). cbn in Hr, Hb. rewrite app_nil_r in Hb. done. Qed.

(** What a turn that does not invoke the timer comes to. *)
Definition turn_progress c p w w' : Prop :=
  (∃ n, n :: task_ids (heap_tasks w') ≡ₚ task_ids (heap_tasks w) ++ posts_of children n) ∨
  (head (wm_workers_ (cl_manager c)) = Some p →
   ∀ q r, q ∈ cl_runners c → wd_runners w' !! q = Some r → quiet (clock (wd_ticks w)) r).

(** The task of the timer was chosen. *)
Definition timer_chosen size c p w w1 wk1 id : Prop :=
  GetNextTask clock p w = Ok (Some (MkTask id (Some (CTimer x))), w1) ∧ world_ok size c w1 ∧
  worker_ok clock P (cl_manager c) (cl_runners c) p w1 wk1 ∧
  on_time clock x [Some (MkTask id (Some (CTimer x)))] w w1 ∧ (wd_ticks w ≤ wd_ticks w1)%nat ∧
  fires w1 = fires w ∧ tasks_of w = S (tasks_of w1).

Lemma turn_cases size c p w wk T :
  world_ok size c w → worker_ok clock P (cl_manager c) (cl_runners c) p w wk →
  (∃ w', turn c p (w, T) = Ok (true, (w', T)) ∧ world_ok size c w' ∧ background w w' ∧
     turn_progress c p w w') ∨
  (∃ id w1 wk1, timer_chosen size c p w w1 wk1 id).
Proof.
  intros Hwo Hwk. destruct (choose size c p w wk (wo_pool _ _ _ Hwo) Hwk)
    as (res & w1 & wk1 & E & Hpool1 & Hwk1 & Hheap & Ho & Hn & He & Hquiet).
  assert (Hwo1 : world_ok size c w1).
  { apply (world_ok_next size c w w1 (taken res) [] Hwo Hpool1); [|done|by intros ?%not_elem_of_nil].
    by rewrite app_nil_r, Hheap. }
  assert (Hf1 : fires w1 = fires w) by (unfold fires; by rewrite He).
  destruct res as [t|].
  2: { left. exists w1. pose proof (wk_turn _ _ _ _ _ _ _ Hwk1) as Hok1.
    pose proof (lo_worker _ _ _ _ _ (tn_loop _ _ _ _ _ _ Hok1)) as Hw1. split.
    { unfold turn, timed_RunTask. erewrite bind_tlift by exact E. cbn [snd].
      erewrite (bind_tlift (get_worker p)) by (unfold get_worker; cbn; by rewrite Hw1).
      by rewrite (tn_term _ _ _ _ _ _ Hok1). }
    split; [done|]. split; [|right; by apply Hquiet].
    split; [done|done| |done]. unfold tasks_of. by rewrite Hheap. }
  assert (Ht : plain home (length (cl_runners c)) (Some t) ∨ of_timer x (Some t) = true).
  { pose proof (wo_tasks _ _ _ Hwo) as Ha. rewrite Hheap in Ha. by apply Forall_cons in Ha as [? _]. }
  destruct Ht as [Hpl|Ht].
  2: { right. apply of_timer_spec in Ht as [id [= ->]]. exists id, w1, wk1.
    do 6 (split; [done|]). unfold tasks_of. rewrite Hheap. cbn. by rewrite bool_decide_true. }
  left. pose proof Hpl as (n & Hn0 & _).
  destruct t as [id [[m| | | |]|]]; try done. injection Hn0 as ->.
  destruct (user_runs c n id (entered p w1) T (wo_room _ _ _ Hwo1)) as (born & w3 & Er & Hp).
  { apply (pl_ready _ _ _ _ _ Hpool1). }
  destruct (run_chosen size c p w w1 wk1 T _ T born _ w3 E Hpool1 Hwk1 Er Hp)
    as (w' & Et & Hpool' & Hh' & Ho' & Hn' & ev & He' & Hs).
  apply said_ids in Hs as (Hran & Hborn & Hpb).
  assert (Hne : n ≠ n0).
  { intros ->. apply (wo_fresh _ _ _ Hwo). rewrite (task_ids_perm _ _ Hheap). left. }
  exists w'. split; [done|]. split; [|split].
  - apply (world_ok_next size c w1 w' [] born Hwo1 Hpool'); [done| |by rewrite Hborn].
    eapply Forall_impl; [exact Hpb|]. auto.
  - pose proof (pf_ticks _ _ _ _ _ _ _ Hp) as Hn3. cbn in Hn3.
    assert (Hob : on_time clock x [] w w1).
    { destruct Ho as [Ha Hb]. split; [|done]. intros D HD. split; [by apply Ha|done]. }
    split; [lia| | |].
    + apply (on_time_trans clock x [] [] w w1 w' ltac:(lia) Hob).
      apply (on_time_trans clock x [] [] w1 (entered p w1) w'); [cbn; lia|apply entered_background|].
      apply (on_time_trans clock x [] [] _ w3 w'); [done| |done].
      apply (pf_time _ _ _ _ _ _ _ Hp). eapply Forall_impl; [exact Hpb|]. apply plain_not_timer.
    + rewrite (tasks_of_perm w1 w' born Hh'), (filter_plain _ _ Hpb). unfold tasks_of.
      rewrite Hheap. cbn. lia.
    + rewrite (fires_app w1 w' ev He'), Hran, Hf1, filter_other; [cbn; lia|].
      by intros ->%list_elem_of_singleton.
  - left. exists n. rewrite (task_ids_perm _ _ Hh'), (task_ids_perm _ _ Hheap), task_ids_app, Hborn.
    done.
Qed.

(** *** Posting a task of the timer *)

(** Reading the clock before is not seen. *)
Lemma performs_after_tick kp w n born sd w' :
  (wd_ticks w ≤ n)%nat → performs clock P kp born sd (set_wd_ticks n w) w' →
  performs clock P kp born sd w w'.
Proof.
  intros Hn. apply (performs_trans clock P kp [] born (λ ev, ev = []) sd).
  { by intros e1 e2 ->. }
  split; try done; cbn.
  - by rewrite app_nil_r.
  - intros Ho. split; [done|]. intros q. by rewrite app_nil_r.
  - intros y _. apply on_time_queues; [by eauto|done].
  - exists []. by rewrite app_nil_r.
Qed.

Lemma posted_performs qs q r d w w' :
  wd_runners w !! q = Some r → 0 ≤ d ≤ i64_max →
  task_posted q (push_delayed (MkEntry d (timer_task_of x w)) r) w w' →
  performs clock P (keep home late qs) [timer_task_of x w] (λ ev, ran_ids ev = []) w w'.
Proof.
  intros Hq Hd [Er Ew _ Hn Etl (wp & wk & Ee)]. set (e := MkEntry d (timer_task_of x w)) in *.
  pose proof (pq_push_elems (tr_delayed_task_queue_ r) e) as Hp.
  eapply push_performs; try done; [lia| | | | |].
  - unfold runner_tasks. cbn. rewrite Hp. cbn. by rewrite <- Permutation_middle.
  - intros T' [Hwf Hdl ? ?]. split; try done; [by apply pq_push_wf|]. cbn. rewrite Hp. by constructor.
  - intros (Hwf & ? & Hn0). split; [by apply pq_push_wf|]. split; [done|].
    unfold no_null_delayed. cbn. rewrite Hp. by constructor.
  - intros [Ho Hl]. split; [split|].
    + intros q' Hq'. unfold runner_tasks. cbn. specialize (Ho q' Hq').
      apply Forall_app in Ho as [? ?]. apply Forall_app. split; [done|]. rewrite Hp. by constructor.
    + cbn. rewrite Hp. by constructor.
    + unfold followed. cbn. by rewrite app_nil_r.
  - right. split; [done|]. by exists e.
Qed.

Lemma posted_time q r e w w' D U :
  wd_runners w !! q = Some r → task_posted q (push_delayed e r) w w' →
  D ≤ deadline e ≤ U → timer_after clock x D w → timer_by x U w →
  timer_after clock x D w' ∧ timer_by x U w'.
Proof.
  intros Hq [Er _ _ Hn _ _] He Ha Hb. unfold timer_after, timer_by. rewrite Er.
  pose proof (pq_push_elems (tr_delayed_task_queue_ r) e) as Hp.
  assert (Ha' : map_Forall (λ _ r0,
    Forall (λ e, of_timer x (delayed_task e) = true → D ≤ deadline e)
      (pq_elems (tr_delayed_task_queue_ r0)) ∧
    Forall (λ t, of_timer x t = true → passed clock D w') (tr_task_queue_ r0)) (wd_runners w)).
  { intros q0 r0 Hr0. destruct (Ha q0 r0 Hr0) as [H1 H2]. split; [done|].
    eapply Forall_impl; [exact H2|]. intros t Hpt Ht. eapply passed_later; [|by apply Hpt]. lia. }
  split; (apply map_Forall_insert_2; [|done]).
  - destruct (Ha' q r Hq) as [H1 H2]. split; [|done]. cbn. rewrite Hp. constructor; [lia|done].
  - cbn. rewrite Hp. constructor; [lia|]. apply (Hb q r Hq).
Qed.

Lemma of_timer_task w : of_timer x (timer_task_of x w) = true.
Proof. apply of_timer_spec. by eexists. Qed.

(** Arming a timer none of whose tasks waits. *)
Lemma schedule_pending kind held k c D d w T t q :
  tms_heap T !! x = Some t → tm_kind t = kind → tm_task_runner_ t = Some q →
  q ∈ cl_runners c → (tm_user_task_ t, tm_idle_task_ t) = held → tm_delay_ t = delay →
  ready (cl_runners c) w → tasks_of w = 0%nat → fires w = k → 0 < d ≤ delay →
  D ≤ clock (wd_ticks w) + d →
  ∃ w' T' t', ScheduleNewTask clock x d (w, T) = Ok (tt, (w', T')) ∧
    performs clock P (keep home late (cl_runners c)) [timer_task_of x w] (λ ev, ran_ids ev = []) w w' ∧
    pending kind held k c D w' T' t'.
Proof.
  intros Ht Hk Hr Hin Htask Hdl Hready Hnone Hfires Hd HD.
  destruct (ready_postable _ _ q Hready Hin) as (r & p & Hq & Hp & wk & Hw).
  pose proof (clock_range (wd_ticks w)). pose proof (clock_range (S (wd_ticks w))).
  pose proof (clock_bound (wd_ticks w)). pose proof (clock_bound (S (wd_ticks w))).
  pose proof (clock_mono (wd_ticks w) (S (wd_ticks w))).
  destruct (ScheduleNewTask_run clock x t q r d (w, T) Ht Hr) as (w' & E & Hpost).
  { split; [done|]. cbn. eauto. }
  { cbn [fst]. unfold i64_min, i64_max in *. lia. }
  { cbn [fst]. unfold i64_min, i64_max in *. lia. }
  cbn [fst snd] in E, Hpost. rewrite (proj2 (Z.ltb_lt 0 d)) in E, Hpost by lia.
  set (at_ := clock (S (wd_ticks w)) + d) in *. set (dl := clock (wd_ticks w) + d) in *.
  pose proof (posted_performs (cl_runners c) q r dl w w' Hq ltac:(lia) Hpost) as Hperf.
  exists w', (set_tms_heap (<[x:=armed at_ t]> (tms_heap T)) T), (armed at_ t).
  split; [exact E|]. split; [exact Hperf|].
  destruct (none_waiting w D at_ Hnone) as [Ha Hb].
  destruct (posted_time q r _ w w' D at_ Hq Hpost ltac:(cbn; lia) Ha Hb) as [Ha' Hb'].
  destruct (pf_events _ _ _ _ _ _ _ Hperf) as (ev & Eev & Hev).
  split; try done; try by (cbn; eauto).
  - apply lookup_insert_eq.
  - cbn. pose proof (clock_mono (S (wd_ticks w)) (wd_ticks w') (tp_ticks _ _ _ _ Hpost)). lia.
  - cbn. lia.
  - cbn. lia.
  - rewrite (tasks_of_perm w w' _ (pf_tasks _ _ _ _ _ _ _ Hperf)), Hnone. cbn [List.filter].
    by rewrite of_timer_task.
  - by rewrite (fires_app w w' ev Eev), Hfires, Hev.
Qed.

(** *** Turns that invoke the timer *)

Notation silent := (λ ev, ran_ids ev = []).

(** The turn invokes the timer, which calls the function of the client that it
    was started with. *)
Lemma chosen_runs size c p w w1 wk1 id uid0 T T0 T' n :
  timer_chosen size c p w w1 wk1 id → (wd_ticks (entered p w1) ≤ n)%nat →
  (∀ w3, user_code c (MkTask uid0 (Some (CUser n0))) (set_wd_ticks n (entered p w1), T0) =
           Ok (tt, (w3, T0)) →
     timed_Task_Run clock debug (user_code c) (idle_code c) (MkTask id (Some (CTimer x)))
       (entered p w1, T) = Ok (tt, (w3, T'))) →
  ∃ w', turn c p (w, T) = Ok (true, (w', T')) ∧ world_ok size c w' ∧
    fires w' = S (fires w) ∧ (n ≤ wd_ticks w')%nat ∧ S (tasks_of w') = tasks_of w.
Proof.
  intros (E & Hwo1 & Hwk1 & _ & _ & Hf1 & Hts) Hn Erun.
  set (w2 := set_wd_ticks n (entered p w1)) in *.
  destruct (user_runs c n0 uid0 w2 T0 (wo_room _ _ _ Hwo1)) as (born & w3 & Eu & Hp).
  { apply (pl_ready _ _ _ _ _ (wo_pool _ _ _ Hwo1)). }
  pose proof (performs_after_tick _ (entered p w1) n born _ w3 Hn Hp) as Hp'.
  destruct (run_chosen size c p w w1 wk1 T _ T' born _ w3 E (wo_pool _ _ _ Hwo1) Hwk1
    (Erun w3 Eu) Hp') as (w' & Et & Hpool' & Hh' & _ & Hn' & ev & He' & Hs).
  apply said_ids in Hs as (Hran & Hborn & Hpb).
  exists w'. split; [done|]. split; [|split; [|split]].
  - apply (world_ok_next size c w1 w' [] born Hwo1 Hpool'); [done| |by rewrite Hborn].
    eapply Forall_impl; [exact Hpb|]. auto.
  - rewrite (fires_app w1 w' ev He'), Hran, Hf1. cbn. rewrite Z.eqb_refl. cbn. lia.
  - pose proof (pf_ticks _ _ _ _ _ _ _ Hp) as Hn3. cbn in Hn3. lia.
  - rewrite (tasks_of_perm w1 w' _ Hh'), (filter_plain _ _ Hpb), Hts. cbn. lia.
Qed.

Lemma timer_task_Run c id T t w :
  tms_heap T !! x = Some t →
  timed_Task_Run clock debug (user_code c) (idle_code c) (MkTask id (Some (CTimer x))) (w, T) =
    OnScheduledTaskInvoked clock debug (user_code c) (idle_code c) x (w, T).
Proof. intros Ht. unfold timed_Task_Run, timer_task. cbn. by rewrite Ht. Qed.

(** The timer was put off and posts again. *)
Lemma turn_reposts kind held k size c D p w w1 wk1 id T t :
  timer_chosen size c p w w1 wk1 id → pending kind held k c D w T t →
  tm_scheduled_run_time_ t < tm_desired_run_time_ t →
  clock (S (wd_ticks w1)) < tm_desired_run_time_ t →
  ∃ w' T', turn c p (w, T) = Ok (true, (w', T')) ∧ world_ok size c w' ∧
    ∃ t', pending kind held k c D w' T' t'.
Proof.
  intros (E & Hwo1 & Hwk1 & _ & Hn1 & Hf1 & Htasks) Hpd Hlate Hearly.
  set (m := S (wd_ticks w1)) in *. set (w2 := set_wd_ticks (S m) (entered p w1)).
  pose proof (clock_range m). pose proof (clock_bound m). pose proof (clock_mono m (S m)).
  pose proof (clock_mono (wd_ticks w) m). pose proof (pd_bound _ _ _ _ _ _ _ _ Hpd).
  pose proof (clock_bound (wd_ticks w)). pose proof (pd_low _ _ _ _ _ _ _ _ Hpd).
  assert (Hnone : tasks_of w1 = 0%nat) by (pose proof (pd_one _ _ _ _ _ _ _ _ Hpd); lia).
  destruct (pd_runner _ _ _ _ _ _ _ _ Hpd) as (q & Hq & Hin).
  destruct (schedule_pending kind held k c D (tm_desired_run_time_ t - clock m) w2 T t q)
    as (w3 & T' & t' & Es & Hp & Hpd'); try done; try apply Hpd.
  { apply (pl_ready _ _ _ _ _ (wo_pool _ _ _ Hwo1)). }
  { rewrite <- (pd_fires _ _ _ _ _ _ _ _ Hpd), <- Hf1. done. }
  { lia. }
  { cbn [w2 wd_ticks set_wd_ticks]. lia. }
  pose proof (performs_after_tick _ (entered p w1) (S m) _ _ w3 ltac:(cbn; lia) Hp) as Hp'.
  assert (Erun : timed_Task_Run clock debug (user_code c) (idle_code c)
    (MkTask id (Some (CTimer x))) (entered p w1, T) = Ok (tt, (w3, T'))).
  { rewrite (timer_task_Run c id T t) by apply Hpd.
    rewrite (OnScheduledTaskInvoked_deferred _ _ _ _ x t); try apply Hpd; [|done|].
    - cbn [fst snd]. change (wd_ticks (entered p w1)) with m. by rewrite (proj2 (Z.ltb_lt _ _) Hearly).
    - cbn [fst]. change (wd_ticks (entered p w1)) with m. unfold i64_min, i64_max in *. lia. }
  destruct (run_chosen size c p w w1 wk1 T _ T' _ _ w3 E (wo_pool _ _ _ Hwo1) Hwk1 Erun Hp')
    as (w' & Et & Hpool' & Hh' & Ho' & Hn' & ev & He' & Hs).
  exists w', T'. split; [done|]. split.
  { apply (world_ok_next size c w1 w' [] _ Hwo1 Hpool' Hh'); [|by intros ?%not_elem_of_nil].
    constructor; [right; apply of_timer_task|constructor]. }
  exists t'. apply (pending_background kind held k c D w3 w'); [|done]. split; [done|done| |].
  - rewrite (tasks_of_perm w1 w' _ Hh'), (pd_one _ _ _ _ _ _ _ _ Hpd').
    rewrite Hnone. cbn [List.filter]. by rewrite of_timer_task.
  - rewrite (fires_app w1 w' ev He'), Hs, Hf1, (pd_fires _ _ _ _ _ _ _ _ Hpd).
    by rewrite (pd_fires _ _ _ _ _ _ _ _ Hpd').
Qed.

(** The task of an armed timer either finds that its time has come, and runs
    the user's task, or posts again. *)
Lemma turn_invokes kind held k size c D p w w1 wk1 id T t :
  timer_chosen size c p w w1 wk1 id → pending kind held k c D w T t →
  (∃ n, (wd_ticks (entered p w1) ≤ n)%nat ∧ passed clock D (set_wd_ticks n w1) ∧
     timed_Task_Run clock debug (user_code c) (idle_code c) (MkTask id (Some (CTimer x))) (entered p w1, T) =
       RunUserTask clock debug (user_code c) (idle_code c) x (set_wd_ticks n (entered p w1), T)) ∨
  (clock (wd_ticks w) < tm_desired_run_time_ t ∧
   ∃ w' T', turn c p (w, T) = Ok (true, (w', T')) ∧ world_ok size c w' ∧
     ∃ t', pending kind held k c D w' T' t').
Proof.
  intros Hc Hpd. pose proof Hc as (E & Hwo1 & Hwk1 & Ho & Hn & Hf & _). set (m := S (wd_ticks w1)).
  pose proof (timer_task_Run c id T t (entered p w1) (pd_timer _ _ _ _ _ _ _ _ Hpd)) as Erun.
  pose proof (pd_low _ _ _ _ _ _ _ _ Hpd) as Hlow.
  destruct (Z.le_gt_cases (tm_desired_run_time_ t) (tm_scheduled_run_time_ t)) as [Hd|Hd].
  - left. exists m. split; [done|]. split.
    + destruct Ho as [Ha _]. destruct (Ha D (pd_after _ _ _ _ _ _ _ _ Hpd Hd)) as [_ Hp].
      apply Forall_cons in Hp as [Hp _]. eapply passed_later; [|apply Hp, of_timer_spec; by eexists].
      cbn. lia.
    + rewrite Erun. by rewrite (OnScheduledTaskInvoked_due _ _ _ _ x t) by (apply Hpd || done).
  - pose proof (clock_mono (wd_ticks w) m). pose proof (pd_bound _ _ _ _ _ _ _ _ Hpd).
    pose proof (clock_bound (wd_ticks w)). pose proof (clock_range m). pose proof (clock_bound m).
    destruct (Z.lt_ge_cases (clock m) (tm_desired_run_time_ t)) as [He|He].
    + right. split; [lia|]. by apply (turn_reposts kind held k size c D p w w1 wk1 id T t).
    + left. exists (S m). split; [cbn; lia|]. split; [exists m; cbn; lia|].
      rewrite Erun. rewrite (OnScheduledTaskInvoked_deferred _ _ _ _ x t); try apply Hpd; [|done|].
      * cbn [fst snd]. change (wd_ticks (entered p w1)) with m. by rewrite (proj2 (Z.ltb_ge _ _) He).
      * cbn [fst]. change (wd_ticks (entered p w1)) with m.
        pose proof (pd_positive _ _ _ _ _ _ _ _ Hpd). unfold i64_min, i64_max in *. lia.
Qed.

(** The tasks of a timer that is not running do nothing. *)
Lemma turn_halted size c p w wk T t :
  world_ok size c w → worker_ok clock P (cl_manager c) (cl_runners c) p w wk →
  tms_heap T !! x = Some t → tm_is_running_ t = Some false →
  ∃ w', turn c p (w, T) = Ok (true, (w', T)) ∧ world_ok size c w' ∧ fires w' = fires w ∧
    (wd_ticks w ≤ wd_ticks w')%nat ∧ (tasks_of w' ≤ tasks_of w)%nat.
Proof.
  intros Hwo Hwk Ht Hr. destruct (turn_cases size c p w wk T Hwo Hwk)
    as [(w' & E & Hwo' & [Hn _ Hts Hf] & _)|(id & w1 & wk1 & Hc)].
  { exists w'. do 4 (split; [done|]). lia. }
  destruct Hc as (E & Hwo1 & Hwk1 & _ & Hn & Hf & Hts).
  assert (Erun : timed_Task_Run clock debug (user_code c) (idle_code c)
    (MkTask id (Some (CTimer x))) (entered p w1, T) = Ok (tt, (entered p w1, T))).
  { rewrite (timer_task_Run c id T t) by done.
    by rewrite (OnScheduledTaskInvoked_stopped _ _ _ _ x t). }
  destruct (run_chosen size c p w w1 wk1 T _ T [] silent (entered p w1) E (wo_pool _ _ _ Hwo1)
    Hwk1 Erun) as (w' & Et & Hpool' & Hh' & Ho' & Hn' & ev & He' & Hs).
  { apply performs_silent with []; [|done]. rewrite app_nil_r. by destruct (entered p w1). }
  exists w'. split; [done|]. split; [|split; [|split]].
  - by apply (world_ok_next size c w1 w' [] [] Hwo1 Hpool' Hh'); [|intros ?%not_elem_of_nil].
  - rewrite (fires_app w1 w' ev He'), Hs, Hf. cbn. lia.
  - cbn in Hn'. lia.
  - rewrite (tasks_of_perm w1 w' _ Hh'). cbn. lia.
Qed.

(** Some runner holds the waiting task of a pending timer. *)
Lemma pending_not_quiet kind held k size c D w T t now :
  world_ok size c w → pending kind held k c D w T t → tm_scheduled_run_time_ t ≤ now →
  ¬ ∀ q r, q ∈ cl_runners c → wd_runners w !! q = Some r → quiet now r.
Proof.
  intros Hwo Hpd Hnow' Hq.
  assert (Hnone : tasks_of w = 0%nat); [|by rewrite (pd_one _ _ _ _ _ _ _ _ Hpd) in Hnone].
  unfold tasks_of, heap_tasks, bag. apply length_zero_iff_nil, list_filter_nil.
  apply Forall_concat, Forall_forall. intros l Hl. apply list_elem_of_fmap in Hl as ([q l1] & -> & Hl).
  apply elem_of_map_to_list in Hl. rewrite lookup_fmap in Hl.
  destruct (wd_runners w !! q) as [r|] eqn:Hr; [|done]. injection Hl as <-.
  destruct (Hq q r) as [Ht Hd]; [apply (pl_dom _ _ _ _ _ (wo_pool _ _ _ Hwo)); eauto|done|].
  cbn. unfold runner_tasks. rewrite Ht. cbn. apply Forall_fmap.
  pose proof (pd_by _ _ _ _ _ _ _ _ Hpd q r Hr) as Hby. cbn in Hby.
  rewrite Forall_forall in *. intros e He. specialize (Hd e He). specialize (Hby e He). cbn in *.
  destruct (of_timer x (delayed_task e)); [|done]. specialize (Hby eq_refl). lia.
Qed.

(** *** The other steps *)

(** A step of a program the theorems are about: its resets come in time,
    because they are tested or because the program is such ([timed_tested]). *)
Definition op_ok (size : Z) c (o : timed_op) : Prop :=
  match o with
  | TCall post => post_ok C home late (length (cl_runners c)) post ∧ po_task post ≠ n0
  | TTurn i => Z.of_nat i < size
  | TReset => False
  | _ => True
  end.

Lemma Call_background size c post w :
  world_ok size c w → op_ok size c (TCall post) →
  ∃ w', do_post clock (cl_runners c) post w = Ok (tt, w') ∧ world_ok size c w' ∧ background w w'.
Proof.
  intros Hwo [Hpost Hne].
  destruct (do_post_performs clock clock_range P C clock_bound home late (cl_runners c) post w Hpost)
    as (t & w' & E & Hid & Hpl & Hp); [apply (pl_ready _ _ _ _ _ (wo_pool _ _ _ Hwo))|].
  exists w'. split; [exact E|]. pose proof (pf_tasks _ _ _ _ _ _ _ Hp) as Hh.
  assert (Hids : task_ids [t] = [po_task post]) by (unfold task_ids; cbn; by rewrite Hid).
  destruct (pf_events _ _ _ _ _ _ _ Hp) as (ev & Eev & Hev). split.
  - apply (world_ok_next size c w w' [] [t] Hwo); [|done| |].
    + apply (pool_history _ _ _ (cl_history c)). by eapply performs_pool, wo_pool.
    + by constructor; [left|constructor].
    + rewrite Hids. by intros ->%list_elem_of_singleton.
  - split; [apply Hp| | |].
    + apply (pf_time _ _ _ _ _ _ _ Hp). by constructor; [eapply plain_not_timer|constructor].
    + rewrite (tasks_of_perm w w' [t] Hh), (filter_plain (length (cl_runners c)) [t]); [cbn; lia|].
      by constructor; [|constructor].
    + by rewrite (fires_app w w' ev Eev), Hev, Nat.add_0_r.
Qed.

(** Reading the clock changes nothing else. *)
Lemma world_ok_ticks size c w n :
  (wd_ticks w ≤ n)%nat → world_ok size c w → world_ok size c (set_wd_ticks n w).
Proof.
  intros Hn [Hp ? ? ?]. split; try done.
  apply (pool_history _ _ _ (cl_history c)). eapply (performs_pool _ clock_mono _ home late); [|exact Hp].
  apply (performs_after_tick _ w n [] (λ _, True)); [done|].
  apply performs_silent with []; [by rewrite app_nil_r|done].
Qed.

(** A reset in time moves the promise. *)
Lemma Reset_pending_in_time kind held k c D w T t :
  pending kind held k c D w T t → clock (wd_ticks w) ≤ tm_scheduled_run_time_ t →
  ∃ w' T' t', Reset clock x (w, T) = Ok (tt, (w', T')) ∧ tms_heap T' !! x = Some t' ∧
    background w w' ∧ w' = set_wd_ticks (S (S (wd_ticks w))) w ∧
    let D' := if tm_scheduled_run_time_ t' <? tm_desired_run_time_ t'
              then tm_desired_run_time_ t' else D in
    D ≤ D' ∧ pending kind held k c D' w' T' t'.
Proof.
  intros Hpd Hin. set (n := wd_ticks w) in *.
  pose proof (clock_range (S n)). pose proof (clock_bound (S n)). pose proof (clock_mono n (S n)).
  pose proof (pd_bound _ _ _ _ _ _ _ _ Hpd) as Hb. fold n in Hb. pose proof (pd_order _ _ _ _ _ _ _ _ Hpd).
  pose proof (pd_low _ _ _ _ _ _ _ _ Hpd). pose proof (pd_delay _ _ _ _ _ _ _ _ Hpd) as Hdl.
  assert (Hw : wanted (clock (S n)) t = clock (S n) + delay).
  { unfold wanted. rewrite Hdl. by rewrite (proj2 (Z.ltb_lt 0 delay)) by lia. }
  set (w' := set_wd_ticks (S (S n)) w).
  set (t' := set_tm_is_running_ true (set_tm_desired_run_time_ (clock (S n) + delay) t)).
  exists w', (set_tms_heap (<[x:=t']> (tms_heap T)) T), t'.
  assert (Hbg : background w w').
  { split; try done; [cbn; lia|]. apply on_time_queues; [by eauto|cbn; lia]. }
  split; [|split; [apply lookup_insert_eq|split; [exact Hbg|split; [done|]]]].
  { rewrite (Reset_pending clock x t (w, T) (pd_timer _ _ _ _ _ _ _ _ Hpd) Hin);
      [|rewrite Hdl; unfold i64_min, i64_max in *; cbn [fst]; fold n; lia].
    cbn [fst snd]. fold n. rewrite Hw. by rewrite (proj2 (Z.leb_le _ _)) by lia. }
  destruct (pending_background kind held k c D w w' T t Hbg Hpd) as [P1 P2 P3 P4 P5 P6 P7 P8 P9 P10 P11 P12 P13 P14].
  cbn zeta. cbn [t' tm_scheduled_run_time_ tm_desired_run_time_ set_tm_is_running_ set_tm_desired_run_time_].
  pose proof (clock_mono (S n) (S (S n))).
  destruct (Z.ltb_spec (tm_scheduled_run_time_ t) (clock (S n) + delay)) as [Hd|Hd].
  - split; [lia|]. split; try done; try (cbn; lia). apply lookup_insert_eq.
  - split; [lia|]. split; try done; try (cbn; lia); [apply lookup_insert_eq|].
    intros _. apply P14. lia.
Qed.

(** [Stop], on a timer of any kind. *)
Lemma Stop_run T t :
  tms_heap T !! x = Some t →
  ∃ T' t', (∀ w, Stop x (w, T) = Ok (tt, (w, T'))) ∧ tms_heap T' !! x = Some t' ∧
    tm_kind t' = tm_kind t ∧ tm_is_running_ t' = Some false ∧
    tm_scheduled_run_time_ t' = tm_scheduled_run_time_ t ∧ tm_delay_ t' = tm_delay_ t ∧
    tm_task_runner_ t' = tm_task_runner_ t.
Proof.
  intros Ht. unfold Stop, OnStop. destruct (tm_kind t) eqn:Hk.
  all: eexists _, _; split;
    [intros w; trun; cbn [tm_kind set_tm_is_running_]; rewrite Hk;
     try erewrite modify_timer_run by apply lookup_insert_eq; cbn [fst snd]; reflexivity|].
  all: split; [apply lookup_insert_eq|done].
Qed.

Lemma worker_of size c w i :
  world_ok size c w → Z.of_nat i < size →
  ∃ p wk, wm_workers_ (cl_manager c) !! i = Some p ∧
    worker_ok clock P (cl_manager c) (cl_runners c) p w wk ∧
    ∀ s : World Q * Timers, tlift (worker_at (cl_manager c) (Z.of_nat i)) s = Ok (p, s).
Proof.
  intros Hwo Hi. pose proof (wo_pool _ _ _ Hwo) as Hpool.
  destruct (lookup_lt_is_Some_2 (wm_workers_ (cl_manager c)) i) as [p Hp];
    [rewrite (pl_length _ _ _ _ _ Hpool); lia|].
  destruct (pl_workers _ _ _ _ _ Hpool p) as [wk Hwk]; [by eapply list_elem_of_lookup_2|].
  exists p, wk. split; [done|]. split; [done|]. intros [w1 T1]. unfold tlift, worker_at, st_lift.
  assert (Hv : vec_at (wm_workers_ (cl_manager c)) (Z.of_nat i) = Ok p).
  { apply vec_at_Ok. split; [lia|by rewrite Nat2Z.id]. }
  by rewrite Hv.
Qed.

Lemma timed_app c ops1 ops2 D s D1 s1 :
  timed c ops1 D s = Ok (D1, s1) → timed c (ops1 ++ ops2) D s = timed c ops2 D1 s1.
Proof.
  revert D s. induction ops1 as [|o ops1 IH]; intros D s; cbn; [by intros [= -> ->]|].
  unfold st_bind at 1. unfold st_bind at 1. destruct (timed_step c o D s) as [[D2 s2]|]; [|done].
  apply IH.
Qed.

(** *** Turns until the timer is invoked

    A pending timer whose time has come is invoked within as many turns of the
    first worker as there are tasks in its way, and one more. *)
Section Until.
(** A bound on the tasks that a task leads to, itself included. *)
Variable cost : Z → nat.
Hypothesis cost_ok : ∀ n, (S (total_cost cost (posts_of children n)) ≤ cost n)%nat.

Lemma turns_until kind held k size c D (invoked : World Q → Timers → Prop) :
  0 < size →
  (∀ p w wk T t, world_ok size c w → worker_ok clock P (cl_manager c) (cl_runners c) p w wk →
     pending kind held k c D w T t →
     ∃ w' T', turn c p (w, T) = Ok (true, (w', T')) ∧ world_ok size c w' ∧
       (invoked w' T' ∨
        (∃ t', pending kind held k c D w' T' t') ∧ (tm_desired_run_time_ t ≤ clock (wd_ticks w) →
          T' = T ∧ background w w' ∧ turn_progress c p w w'))) →
  ∀ D0 w T t, world_ok size c w → pending kind held k c D w T t →
  tm_desired_run_time_ t ≤ clock (wd_ticks w) →
  ∃ j w' T', (j ≤ total_cost cost (task_ids (heap_tasks w)))%nat ∧
    timed c (replicate (S j) (TTurn 0)) D0 (w, T) = Ok (D0, (w', T')) ∧
    world_ok size c w' ∧ invoked w' T'.
Proof.
  intros Hsize Hturn D0 w T t. remember (total_cost cost (task_ids (heap_tasks w))) as b eqn:Hb.
  revert w Hb. induction (lt_wf b) as [b _ IH]. intros w Hb Hwo Hpd Hdue.
  destruct (worker_of size c w 0 Hwo) as (p & wk & Hp & Hwk & Ev); [lia|].
  destruct (Hturn p w wk T t Hwo Hwk Hpd) as (w' & T' & E & Hwo' & Hres).
  assert (Hstep : timed_step c (TTurn 0) D0 (w, T) = Ok (D0, (w', T'))).
  { unfold timed_step. erewrite st_bind_step by apply Ev. by erewrite st_bind_step by exact E. }
  destruct Hres as [Hinv|[_ Hbg]].
  { exists 0%nat, w', T'. split; [lia|]. split; [|done]. cbn. by erewrite st_bind_step by exact Hstep. }
  destruct (Hbg Hdue) as (-> & Hb' & Hprog). pose proof (clock_mono _ _ (bg_ticks _ _ Hb')).
  pose proof (pending_background _ _ _ c D w w' T t Hb' Hpd) as Hpd'.
  destruct Hprog as [[n Hn]|Hq].
  - apply (total_cost_perm cost) in Hn. rewrite total_cost_app in Hn.
    change (total_cost cost (n :: ?l)) with (cost n + total_cost cost l)%nat in Hn.
    pose proof (cost_ok n).
    destruct (IH (total_cost cost (task_ids (heap_tasks w')))) with (w := w')
      as (j & w2 & T2 & Hj & E2 & Hrest); [lia|done|done|done|lia|].
    exists (S j), w2, T2. split; [lia|]. split; [|done].
    change (replicate (S (S j)) (TTurn 0)) with (TTurn 0 :: replicate (S j) (TTurn 0)).
    cbn [timed]. by erewrite st_bind_step by exact Hstep.
  - destruct (pending_not_quiet _ _ _ size c D w' T t (clock (wd_ticks w)) Hwo' Hpd').
    + pose proof (pd_order _ _ _ _ _ _ _ _ Hpd). lia.
    + apply Hq. by destruct (wm_workers_ (cl_manager c)).
Qed.
End Until.

(** ** Timers that fire once

    One-shot and idle timers: the function they were started with is called
    once, and they are stopped. *)

(** It fired or was stopped. *)
Record over (kind : timer_kind) (D : Z) w T (t : Timer) : Prop := {
  ov_timer : tms_heap T !! x = Some t;
  ov_kind : tm_kind t = kind;
  ov_running : tm_is_running_ t = Some false;
  ov_fires : (fires w ≤ 1)%nat;
  ov_passed : fires w = 1%nat → passed clock D w;
  ov_tasks : (fires w + tasks_of w ≤ 1)%nat;
  ov_bound : tm_scheduled_run_time_ t ≤ clock (wd_ticks w) + delay
}.

(** The timer, invoked at its time, calls function [n0] of the client and is
    stopped before or after that. *)
Definition once (kind : timer_kind) (held : holding) : Prop := ∀ c t T,
  tms_heap T !! x = Some t → tm_kind t = kind → (tm_user_task_ t, tm_idle_task_ t) = held →
  ∃ uid0 T0 T' t', tms_heap T' !! x = Some t' ∧ tm_kind t' = kind ∧ tm_is_running_ t' = Some false ∧
    tm_scheduled_run_time_ t' = tm_scheduled_run_time_ t ∧
    ∀ w w', user_code c (MkTask uid0 (Some (CUser n0))) (w, T0) = Ok (tt, (w', T0)) →
      RunUserTask clock debug (user_code c) (idle_code c) x (w, T) = Ok (tt, (w', T')).

Section Single.
Variable kind : timer_kind.
Variable held : holding.
Hypothesis Honce : once kind held.

(** A timer that waits has not fired. *)
Notation waiting := (pending kind held 0).

Lemma over_later D w w' T t :
  (wd_ticks w ≤ wd_ticks w')%nat → fires w' = fires w → (tasks_of w' ≤ tasks_of w)%nat →
  over kind D w T t → over kind D w' T t.
Proof.
  intros Hn Hf Ht []. pose proof (clock_mono _ _ Hn). split; rewrite ?Hf; try done; try lia.
  intros Hone. eapply passed_later; [exact Hn|auto].
Qed.

Lemma over_background D w w' T t : background w w' → over kind D w T t → over kind D w' T t.
Proof. intros [Hn _ Ht Hf]. by apply over_later; rewrite ?Ht. Qed.

(** The timer fires. *)
Lemma turn_fires size c D p w w1 wk1 id T t n :
  timer_chosen size c p w w1 wk1 id → waiting c D w T t → (wd_ticks (entered p w1) ≤ n)%nat →
  passed clock D (set_wd_ticks n w1) →
  timed_Task_Run clock debug (user_code c) (idle_code c) (MkTask id (Some (CTimer x))) (entered p w1, T) =
    RunUserTask clock debug (user_code c) (idle_code c) x (set_wd_ticks n (entered p w1), T) →
  ∃ w' T', turn c p (w, T) = Ok (true, (w', T')) ∧ world_ok size c w' ∧
    (∃ t', over kind D w' T' t') ∧ fires w' = 1%nat.
Proof.
  intros Hc Hpd Hn Hpass Erun.
  destruct (Honce c t T) as (uid0 & T0 & T' & t' & Ht' & Hk' & Hr' & Hs' & Honce'); try apply Hpd.
  destruct (chosen_runs _ _ _ _ _ _ _ uid0 T T0 T' n Hc Hn) as (w' & Et & Hwo' & Hf' & Hn' & Hts).
  { intros w3 Eu. rewrite Erun. by apply Honce'. }
  rewrite (pd_fires _ _ _ _ _ _ _ _ Hpd) in Hf'. eexists w', _. split; [exact Et|]. split; [done|].
  split; [|done]. rewrite (pd_one _ _ _ _ _ _ _ _ Hpd) in Hts.
  pose proof (clock_mono (wd_ticks w) (wd_ticks w')). pose proof (pd_order _ _ _ _ _ _ _ _ Hpd).
  pose proof (pd_bound _ _ _ _ _ _ _ _ Hpd). destruct Hc as (_ & _ & _ & _ & Hn1 & _). cbn in Hn.
  exists t'. split; try done; [lia| |lia|lia].
  intros _. eapply passed_later; [|exact Hpass]. done.
Qed.

(** Any turn while the timer is pending: it passes the timer by, puts it off
    or fires it; and if its time has come, it fires or another task ran. *)
Lemma turn_pending size c D p w wk T t :
  world_ok size c w → worker_ok clock P (cl_manager c) (cl_runners c) p w wk → waiting c D w T t →
  ∃ w' T', turn c p (w, T) = Ok (true, (w', T')) ∧ world_ok size c w' ∧
    ((∃ t', over kind D w' T' t') ∧ fires w' = 1%nat ∨
     (∃ t', waiting c D w' T' t') ∧ (tm_desired_run_time_ t ≤ clock (wd_ticks w) →
        T' = T ∧ background w w' ∧ turn_progress c p w w')).
Proof.
  intros Hwo Hwk Hpd. destruct (turn_cases size c p w wk T Hwo Hwk)
    as [(w' & E & Hwo' & Hbg & Hprog)|(id & w1 & wk1 & Hc)].
  { exists w', T. split; [done|]. split; [done|]. right. split; [|done].
    exists t. by apply (pending_background _ _ _ c D w). }
  destruct (turn_invokes _ _ _ size c D p w w1 wk1 id T t Hc Hpd)
    as [(n & Hn & Hpass & Erun)|(Hearly & w' & T' & Et & Hwo' & Hpd')].
  - destruct (turn_fires size c D p w w1 wk1 id T t n Hc Hpd Hn Hpass Erun)
      as (w' & T' & Et & Hwo' & Hov & Hf').
    exists w', T'. split; [done|]. split; [done|]. by left.
  - exists w', T'. split; [done|]. split; [done|]. right. split; [done|]. lia.
Qed.

Lemma turn_over size c D p w wk T t :
  world_ok size c w → worker_ok clock P (cl_manager c) (cl_runners c) p w wk → over kind D w T t →
  ∃ w', turn c p (w, T) = Ok (true, (w', T)) ∧ world_ok size c w' ∧ over kind D w' T t ∧
    fires w' = fires w.
Proof.
  intros Hwo Hwk Hov. destruct (turn_halted size c p w wk T t Hwo Hwk (ov_timer _ _ _ _ _ Hov)
    (ov_running _ _ _ _ _ Hov)) as (w' & E & Hwo' & Hf & Hn & Hts).
  exists w'. split; [done|]. split; [done|]. split; [|done]. by eapply over_later.
Qed.

Lemma Stop_over c D w T t :
  waiting c D w T t ∨ over kind D w T t →
  ∃ T' t', Stop x (w, T) = Ok (tt, (w, T')) ∧ over kind D w T' t'.
Proof.
  intros Hst. assert (Ht : tms_heap T !! x = Some t ∧ tm_kind t = kind) by (destruct Hst as [[]|[]]; done).
  destruct Ht as [Ht Hk]. destruct (Stop_run T t Ht) as (T' & t' & E & Ht' & Hk' & Hr' & Hs' & _).
  exists T', t'. split; [apply E|]. rewrite Hk in Hk'. destruct Hst as [Hpd|Hov].
  - pose proof (pd_fires _ _ _ _ _ _ _ _ Hpd) as Hf. pose proof (pd_one _ _ _ _ _ _ _ _ Hpd).
    pose proof (pd_order _ _ _ _ _ _ _ _ Hpd). pose proof (pd_bound _ _ _ _ _ _ _ _ Hpd).
    split; [done|done|done|lia|by rewrite Hf|lia|lia].
  - split; [done|done|done|apply Hov..|]. rewrite Hs'. apply Hov.
Qed.

(** Every step goes through. *)
Definition alive c D w T : Prop := (∃ t, waiting c D w T t) ∨ (∃ t, over kind D w T t).

(** Never stopped: it waits or it fired. *)
Definition unstopped c D w T : Prop :=
  (∃ t, waiting c D w T t) ∨ ((∃ t, over kind D w T t) ∧ fires w = 1%nat).

Lemma unstopped_alive c D w T : unstopped c D w T → alive c D w T.
Proof. intros [Hp|[Ho _]]; [by left|by right]. Qed.

Lemma pending_not_over c D D' w w' T t t' : waiting c D w T t → over kind D' w' T t' → False.
Proof.
  intros Hp Ho. pose proof (ov_timer _ _ _ _ _ Ho) as H1. rewrite (pd_timer _ _ _ _ _ _ _ _ Hp) in H1.
  injection H1 as <-. pose proof (ov_running _ _ _ _ _ Ho) as H2.
  by rewrite (pd_running _ _ _ _ _ _ _ _ Hp) in H2.
Qed.

Lemma timed_step_ok size c o D w T :
  world_ok size c w → op_ok size c o → alive c D w T →
  ∃ D' w' T', timed_step c o D (w, T) = Ok (D', (w', T')) ∧ world_ok size c w' ∧
    alive c D' w' T' ∧ D ≤ D' ∧
    ((∃ t, over kind D w T t) → D' = D ∧ (∃ t', over kind D' w' T' t') ∧ fires w' = fires w) ∧
    (o = TStop → (∃ t', over kind D' w' T' t') ∧ fires w' = fires w) ∧
    (o ≠ TStop → (∃ t, waiting c D w T t) → unstopped c D' w' T').
Proof.
  intros Hwo Ho Hal. destruct o as [post|i| | |].
  - destruct (Call_background size c post w Hwo Ho) as (w' & E & Hwo' & Hbg).
    exists D, w', T. unfold timed_step. erewrite bind_tlift by exact E. split; [done|].
    split; [done|]. split; [|split; [lia|split; [|split; [done|]]]].
    + destruct Hal as [[t Ht]|[t Ht]]; [left|right]; exists t;
        [by eapply pending_background|by eapply over_background].
    + intros [t Ht]. split; [done|]. split; [exists t; by eapply over_background|apply Hbg].
    + intros _ [t Ht]. left. exists t. by eapply pending_background.
  - destruct (worker_of size c w i Hwo Ho) as (p & wk & _ & Hwk & Ev). unfold timed_step.
    assert (Hdec : ∀ t, over kind D w T t → ∃ w', turn c p (w, T) = Ok (true, (w', T)) ∧
      world_ok size c w' ∧ over kind D w' T t ∧ fires w' = fires w).
    { intros t Ht. by eapply turn_over. }
    destruct Hal as [[t Ht]|[t Ht]].
    + destruct (turn_pending size c D p w wk T t Hwo Hwk Ht) as (w' & T' & E & Hwo' & Hres).
      exists D, w', T'. erewrite st_bind_step by apply Ev. erewrite st_bind_step by exact E.
      assert (Hu : unstopped c D w' T').
      { destruct Hres as [[? ?]|[? _]]; [by right|by left]. }
      split; [done|]. split; [done|]. split; [by apply unstopped_alive|split; [lia|split; [|done]]].
      intros [t2 Ht2]. by destruct (pending_not_over _ _ _ _ _ _ _ _ Ht Ht2).
    + destruct (Hdec t Ht) as (w' & E & Hwo' & Ht' & Hf). exists D, w', T.
      erewrite st_bind_step by apply Ev. erewrite st_bind_step by exact E.
      split; [done|]. split; [done|]. split; [right; eauto|]. split; [lia|].
      split; [eauto|split; [done|]]. intros _ [t2 Ht2].
      by destruct (pending_not_over _ _ _ _ _ _ _ _ Ht2 Ht).
  - done.
  - unfold timed_step. rewrite (st_bind_step st_get _ (w, T) (w, T) (w, T) eq_refl).
    destruct (in_time (w, T)) eqn:Ein.
    2: { exists D, w, T. split; [done|]. split; [done|]. split; [done|]. split; [lia|].
      split; [eauto|split; [done|]]. by left. }
    unfold in_time in Ein. cbn [fst snd] in Ein. destruct (tms_heap T !! x) as [t|] eqn:Et; [|done].
    apply andb_true_iff in Ein as [Hr Hin]. apply bool_decide_eq_true in Hr. apply Z.leb_le in Hin.
    assert (Hno : ∀ t2, over kind D w T t2 → False).
    { intros t2 Ht2. pose proof (ov_timer _ _ _ _ _ Ht2) as H1. rewrite Et in H1. injection H1 as <-.
      by rewrite (ov_running _ _ _ _ _ Ht2) in Hr. }
    destruct Hal as [[t1 Hpd]|[t1 ?]]; [|by edestruct Hno].
    pose proof (pd_timer _ _ _ _ _ _ _ _ Hpd) as H1. rewrite Et in H1. injection H1 as <-.
    destruct (Reset_pending_in_time _ _ _ c D w T t Hpd Hin) as (w' & T' & t' & E & Ht' & _ & Ew & HD & Hpd').
    unfold reset_step. erewrite st_bind_step by exact E. erewrite bind_get_timer by exact Ht'.
    eexists _, w', T'. split; [done|]. split.
    { rewrite Ew. by apply world_ok_ticks; [lia|]. }
    split; [left; eauto|]. split; [done|]. split; [|split; [done|left; eauto]].
    intros [t2 ?]. by edestruct Hno.
  - destruct (Stop_over c D w T) with (t := match tms_heap T !! x with Some t => t | None => BaseTimer_init kind None end)
      as (T' & t' & E & Hov).
    { destruct Hal as [[t Ht]|[t Ht]]; [left|right];
        [by rewrite (pd_timer _ _ _ _ _ _ _ _ Ht)|by rewrite (ov_timer _ _ _ _ _ Ht)]. }
    exists D, w, T'. unfold timed_step. erewrite st_bind_step by exact E. split; [done|].
    split; [done|]. split; [right; eauto|]. split; [lia|]. split; [eauto|]. by split; eauto.
Qed.

Lemma timed_ok size c ops D w T :
  world_ok size c w → Forall (op_ok size c) ops → alive c D w T →
  ∃ D' w' T', timed c ops D (w, T) = Ok (D', (w', T')) ∧ world_ok size c w' ∧
    alive c D' w' T' ∧ D ≤ D' ∧
    ((∃ t, over kind D w T t) → (∃ t', over kind D' w' T' t') ∧ fires w' = fires w) ∧
    (TStop ∉ ops → unstopped c D w T → unstopped c D' w' T').
Proof.
  intros Hwo Hops. revert D w T Hwo. induction Hops as [|o ops Ho Hops IH]; intros D w T Hwo Hal.
  { exists D, w, T. do 4 (split; [done|]). auto. }
  destruct (timed_step_ok size c o D w T Hwo Ho Hal)
    as (D1 & w1 & T1 & E1 & Hwo1 & Hal1 & HD1 & Hov1 & _ & Hun1).
  destruct (IH D1 w1 T1 Hwo1 Hal1) as (D' & w' & T' & E & Hwo' & Hal' & HD & Hov & Hun).
  exists D', w', T'. split; [cbn; by erewrite st_bind_step by exact E1|].
  split; [done|]. split; [done|]. split; [lia|]. split.
  - intros (_ & Ho1 & Hf1)%Hov1. destruct (Hov Ho1) as [? Hf]. split; [done|]. congruence.
  - intros [Hne Hnin]%not_elem_of_cons [Hp|[Ho1 Hf]]; [by apply Hun; auto|].
    destruct (Hov1 Ho1) as (_ & Ho2 & Hf2). apply Hun; [done|]. right. split; [done|congruence].
Qed.

(** A bound on the tasks that a task leads to, itself included. *)
Variable cost : Z → nat.
Hypothesis cost_ok : ∀ n, (S (total_cost cost (posts_of children n)) ≤ cost n)%nat.

Lemma turns_fire size c D w T t :
  0 < size → world_ok size c w → waiting c D w T t → tm_desired_run_time_ t ≤ clock (wd_ticks w) →
  ∃ j w' T', (j ≤ total_cost cost (task_ids (heap_tasks w)))%nat ∧
    timed c (replicate (S j) (TTurn 0)) D (w, T) = Ok (D, (w', T')) ∧ fires w' = 1%nat.
Proof.
  intros Hsize Hwo Hpd Hdue.
  destruct (turns_until cost cost_ok kind held 0 size c D (λ w' _, fires w' = 1%nat)) with (D0 := D) (w := w)
    (T := T) (t := t) as (j & w' & T' & Hj & E & _ & Hf); [done| |done..|by exists j, w', T'].
  intros p w1 wk T1 t1 Hwo1 Hwk Hpd1.
  destruct (turn_pending size c D p w1 wk T1 t1 Hwo1 Hwk Hpd1) as (w' & T' & E & Hwo' & Hres).
  exists w', T'. split; [done|]. split; [done|]. destruct Hres as [[_ ?]|?]; auto.
Qed.

(** What the two theorems about such a timer ask for, from the state in which it
    was started. *)
Lemma single_fires_in_time size c D ops w T :
  world_ok size c w → Forall (op_ok size c) ops → (∃ t, waiting c D w T t) →
  ∃ D' w' T', timed c ops D (w, T) = Ok (D', (w', T')) ∧ D ≤ D' ∧ (fires w' ≤ 1)%nat ∧
    (fires w' = 1%nat → passed clock D' w').
Proof.
  intros Hwo Hops Hw. destruct (timed_ok size c ops D w T Hwo Hops (or_introl Hw))
    as (D' & w' & T' & E & _ & Hal & HD & _).
  exists D', w', T'. split; [done|]. split; [done|]. destruct Hal as [[t Hp]|[t Ho]].
  - rewrite (pd_fires _ _ _ _ _ _ _ _ Hp). split; [lia|done].
  - split; apply Ho.
Qed.

Lemma single_fires size c D ops w T :
  0 < size → world_ok size c w → Forall (op_ok size c) ops → (∃ t, waiting c D w T t) → TStop ∉ ops →
  ∃ D' w' T' t, timed c ops D (w, T) = Ok (D', (w', T')) ∧ tms_heap T' !! x = Some t ∧
    (tm_desired_run_time_ t ≤ clock (wd_ticks w') →
     ∃ j w2 T2, (j ≤ total_cost cost (task_ids (heap_tasks w')))%nat ∧
       timed c (replicate (S j) (TTurn 0)) D' (w', T') = Ok (D', (w2, T2)) ∧ fires w2 = 1%nat).
Proof.
  intros Hsize Hwo Hops Hw Hstop. destruct (timed_ok size c ops D w T Hwo Hops (or_introl Hw))
    as (D' & w' & T' & E & Hwo' & _ & _ & _ & Hun).
  exists D', w', T'. destruct (Hun Hstop (or_introl Hw)) as [[t Hpd]|[[t Hov] Hf]].
  - exists t. split; [done|]. split; [apply Hpd|]. by apply (turns_fire size).
  - exists t. split; [done|]. split; [apply Hov|]. intros _.
    destruct (worker_of size c w' 0 Hwo') as (p & wk & _ & Hwk & Ev); [lia|].
    destruct (turn_over size c D' p w' wk T' t Hwo' Hwk Hov) as (w2 & Et & _ & _ & Hf').
    exists 0%nat, w2, T'. split; [lia|]. split; [|congruence]. cbn. unfold timed_step.
    erewrite st_bind_step; [|erewrite st_bind_step by apply Ev; by erewrite st_bind_step by exact Et].
    done.
Qed.
End Single.

(** ** Programs *)

Lemma once_oneshot : once OneShotTimer user_held.
Proof.
  intros c t T Ht Hk Hh. pose proof (f_equal fst Hh) as Hu.
  set (T' := set_tms_heap (<[x := stopped t]> (tms_heap T)) T).
  exists uid, T', T', (stopped t). split; [apply lookup_insert_eq|]. split; [done|].
  do 2 (split; [done|]). intros w w' E.
  by rewrite (OneShotTimer_RunUserTask_run _ _ _ _ x t user_task).
Qed.

(** Starting a timer none of whose tasks waits. *)
Lemma StartInternal_pending kind held size c w T t q :
  world_ok size c w → tasks_of w = 0%nat → fires w = 0%nat →
  tms_heap T !! x = Some t → tm_kind t = kind → tm_task_runner_ t = Some q → q ∈ cl_runners c →
  (tm_user_task_ t, tm_idle_task_ t) = held → tm_scheduled_run_time_ t < clock (wd_ticks w) →
  ∃ w' T' t', StartInternal clock x delay (w, T) = Ok (tt, (w', T')) ∧ world_ok size c w' ∧
    pending kind held 0 c (clock (wd_ticks w) + delay) w' T' t'.
Proof.
  intros Hwo Hnone Hf Ht Hk Hr Hin Hh Hpast. set (w1 := set_wd_ticks (S (wd_ticks w)) w).
  set (t1 := set_tm_delay_ delay t). set (T1 := set_tms_heap (<[x:=t1]> (tms_heap T)) T).
  destruct (schedule_pending kind held 0 c (clock (wd_ticks w) + delay) delay w1 T1 t1 q)
    as (w' & T' & t' & E & Hp & Hpd); try done.
  { apply lookup_insert_eq. } { apply (pl_ready _ _ _ _ _ (wo_pool _ _ _ Hwo)). } { lia. }
  { cbn. pose proof (clock_mono (wd_ticks w) (S (wd_ticks w))). lia. }
  exists w', T', t'. split; [|split; [|done]].
  - unfold StartInternal. erewrite bind_modify_timer by exact Ht. cbn [fst snd].
    unfold Reset. erewrite bind_get_timer by apply lookup_insert_eq.
    erewrite bind_tlift by reflexivity. cbn [fst snd]. unfold TimePoint_lt.
    cbn [tm_scheduled_run_time_ set_tm_delay_ tm_delay_]. by rewrite (proj2 (Z.ltb_lt _ _) Hpast).
  - apply (world_ok_next size c w w' [] [timer_task_of x w1] Hwo).
    + apply (pool_history _ _ _ (cl_history c)). eapply (performs_pool _ clock_mono _ home late);
        [|apply Hwo]. eapply performs_after_tick; [|exact Hp]. lia.
    + cbn. exact (pf_tasks _ _ _ _ _ _ _ Hp).
    + constructor; [right; apply of_timer_task|constructor].
    + by intros ?%not_elem_of_nil.
Qed.

Lemma start_pending kind size c k w T :
  world_ok size c w → tasks_of w = 0%nat → fires w = 0%nat → (k < length (cl_runners c))%nat →
  0 < clock (wd_ticks w) →
  ∃ w' T' t', timed_start kind c k (w, T) = Ok (clock (wd_ticks w) + delay, (w', T')) ∧
    world_ok size c w' ∧ pending kind user_held 0 c (clock (wd_ticks w) + delay) w' T' t'.
Proof.
  intros Hwo Hnone Hf Hk Hpos. destruct (lookup_lt_is_Some_2 (cl_runners c) k Hk) as [q Hq].
  set (t := set_tm_user_task_ (Some user_task) (BaseTimer_init kind (Some q))).
  set (T0 := set_tms_heap (<[x := BaseTimer_init kind (Some q)]> (tms_heap T)) T).
  set (T1 := set_tms_heap (<[x:=t]> (tms_heap T0)) T0).
  destruct (StartInternal_pending kind user_held size c w T1 t q)
    as (w' & T' & t' & E & Hwo' & Hpd); try done.
  { apply lookup_insert_eq. } { by eapply list_elem_of_lookup_2. }
  exists w', T', t'. split; [|done]. unfold timed_start.
  rewrite (tbind_lift _ q) by (apply vec_at_Ok; split; [lia|by rewrite Nat2Z.id]).
  rewrite (st_bind_step (st_modify _) _ (w, T) tt (w, T0) eq_refl).
  rewrite (st_bind_step st_get _ (w, T0) (w, T0) (w, T0) eq_refl).
  assert (E2 : Timer_Start clock x (Some user_task) delay (w, T0) = Ok (tt, (w', T'))).
  { unfold Timer_Start. erewrite bind_modify_timer by apply lookup_insert_eq. exact E. }
  by rewrite (st_bind_step _ _ _ _ _ E2).
Qed.

(** The world a client's program of EndToEnd.v leaves. *)
Lemma client_world size ops0 s0 c w :
  2 ≤ size → blank s0 → ops_ok P C home late K size 0 (ops0 ++ [Turn 0]) →
  client_program clock children size ops0 s0 = Ok (c, w) → n0 ∉ cl_history c →
  world_ok size c w ∧ tasks_of w = 0%nat ∧ fires w = 0%nat.
Proof.
  intros Hsize Hblank Hops E Hn.
  destruct (program_run clock children clock_range clock_mono P C clock_bound weights home late K
    children_ok size ops0 [Turn 0] s0 Hsize Hblank Hops) as (c1 & w1 & E1 & [Hpool Hq] & _ & HK & _).
  rewrite E in E1. injection E1 as <- <-. destruct Hq as [_ Hp _ Hc _].
  rewrite Hc, not_elem_of_app in Hn. destruct Hn as [Hn1 Hn2]. split; [|split].
  - split; [done|done| |done]. eapply Forall_impl; [exact Hp|]. auto.
  - unfold tasks_of. by rewrite (filter_plain _ _ Hp).
  - unfold fires. by rewrite filter_other.
Qed.

(** The whole program: a client of EndToEnd.v, then a timer. *)
Definition timer_program c (k : nat) (ops : list timed_op) : TM Q Z :=
  do! D := timed_start OneShotTimer c k in timed c ops D.

Section Program.
Variables (size : Z) (ops0 : list op) (s0 w0 : World Q) (c : Client) (k : nat).
Hypothesis Hsize : 2 ≤ size.
Hypothesis Hblank : blank s0.
Hypothesis Hops0 : ops_ok P C home late K size 0 (ops0 ++ [Turn 0]).
Hypothesis Hclient : client_program clock children size ops0 s0 = Ok (c, w0).
Hypothesis Hfresh : n0 ∉ cl_history c.
Hypothesis Hk : (k < length (cl_runners c))%nat.
Hypothesis Hnow : 0 < clock (wd_ticks w0).

Lemma timer_program_run ops T0 :
  Forall (op_ok size c) ops →
  ∃ D w T, timer_program c k ops (w0, T0) = Ok (D, (w, T)) ∧ world_ok size c w ∧
    alive OneShotTimer user_held c D w T ∧ clock (wd_ticks w0) + delay ≤ D.
Proof.
  intros Hops. destruct (client_world size ops0 s0 c w0 Hsize Hblank Hops0 Hclient Hfresh)
    as (Hwo & Hnone & Hf).
  destruct (start_pending OneShotTimer size c k w0 T0 Hwo Hnone Hf Hk Hnow) as (w1 & T1 & t1 & E1 & Hwo1 & Hpd).
  destruct (timed_ok OneShotTimer user_held once_oneshot size c ops (clock (wd_ticks w0) + delay) w1 T1
    Hwo1 Hops) as (D & w & T & E & Hwo2 & Hal & HD & _); [by left; eauto|].
  exists D, w, T. split; [unfold timer_program; by erewrite st_bind_step by exact E1|]. done.
Qed.


(** Stopping a timer is final: whatever the client does afterwards, the
    timer's task runs no more. *)
Theorem timer_stop_is_final ops ops' T0
    (Hops : Forall (op_ok size c) ops) (Hops' : Forall (op_ok size c) ops') :
  ∃ D1 w1 T1 D w T, timer_program c k ops (w0, T0) = Ok (D1, (w1, T1)) ∧
    timer_program c k (ops ++ TStop :: ops') (w0, T0) = Ok (D, (w, T)) ∧ fires w = fires w1.
Proof.
  destruct (timer_program_run ops T0 Hops) as (D1 & w1 & T1 & E & Hwo1 & Hal & _).
  destruct (timed_step_ok OneShotTimer user_held once_oneshot size c TStop D1 w1 T1 Hwo1 I Hal)
    as (D2 & w2 & T2 & E2 & Hwo2 & Hal2 & _ & _ & Hst & _).
  destruct (timed_ok OneShotTimer user_held once_oneshot size c ops' D2 w2 T2 Hwo2 Hops' Hal2)
    as (D & w & T & E3 & _ & _ & _ & Hov & _).
  destruct (Hst eq_refl) as [Hov2 Hf2]. destruct (Hov Hov2) as [_ Hf].
  exists D1, w1, T1, D, w, T. split; [done|]. split; [|congruence].
  unfold timer_program in *. mstep E. erewrite st_bind_step by exact E0.
  rewrite (timed_app c ops (TStop :: ops') _ _ _ _ E). cbn [timed].
  erewrite st_bind_step by exact E2. exact E3.
Qed.

(** A bound on the tasks that a task leads to, itself included. *)
Variable cost : Z → nat.
Hypothesis cost_ok : ∀ n, (S (total_cost cost (posts_of children n)) ≤ cost n)%nat.

(** C4. A timer that is not stopped fires.  After any such program, once the
    clock has reached the time the timer is now set to, the first worker needs
    at most one turn per task that is queued or will be posted by queued tasks,
    and one more, for the timer's task to have run, exactly once. *)
Theorem timer_fires ops T0 (Hops : Forall (op_ok size c) ops) (Hstop : TStop ∉ ops) :
  ∃ D w T t, timer_program c k ops (w0, T0) = Ok (D, (w, T)) ∧ tms_heap T !! x = Some t ∧
    (tm_desired_run_time_ t ≤ clock (wd_ticks w) →
     ∃ j w' T', (j ≤ total_cost cost (task_ids (heap_tasks w)))%nat ∧
       timed c (replicate (S j) (TTurn 0)) D (w, T) = Ok (D, (w', T')) ∧ fires w' = 1%nat).
Proof.
  destruct (client_world size ops0 s0 c w0 Hsize Hblank Hops0 Hclient Hfresh) as (Hwo & Hnone & Hf).
  destruct (start_pending OneShotTimer size c k w0 T0 Hwo Hnone Hf Hk Hnow)
    as (w1 & T1 & t1 & E1 & Hwo1 & Hpd).
  destruct (single_fires OneShotTimer user_held once_oneshot cost cost_ok size c _ ops w1 T1
    ltac:(lia) Hwo1 Hops (ex_intro _ t1 Hpd) Hstop) as (D & w & T & t & E & Hrest).
  exists D, w, T, t. split; [|done]. unfold timer_program. by erewrite st_bind_step by exact E1.
Qed.
End Program.
End Timed.

(** ** A concrete timer

    The client of EndToEnd.v's sample starts a timer of 35 on its first runner;
    the clock advances by 10 with each reading. *)

Section Sample.
#[local] Existing Instance thread_backend.
Definition demo_start : Client * World (list DelayedEntry) :=
  match client_program demo_clock demo_children 3 demo_ops demo_world with
  | Ok cs => cs
  | Fault _ => (MkClient (MkWorkerManager [] 0 0) [] [], demo_world)
  end.
Definition demo_client : Client := demo_start.1.
Definition demo_after : World (list DelayedEntry) := demo_start.2.
Definition no_timers : Timers := MkTimers ∅ 0 0.
Definition demo_timed_ops : list timed_op := [TCall (MkPost 0 6 None); TResetInTime; TTurn 0; TTurn 1].

Lemma demo_start_run :
  client_program demo_clock demo_children 3 demo_ops demo_world = Ok (demo_client, demo_after).
Proof. vm_compute. reflexivity. Qed.

Lemma demo_own_task n : 9 ∉ posts_of demo_children n.
Proof.
  unfold posts_of, demo_children. destruct (n =? 1); cbn; [|apply not_elem_of_nil].
  rewrite !not_elem_of_cons. split_and!; [lia..|apply not_elem_of_nil].
Qed.

Lemma demo_fresh : 9 ∉ cl_history demo_client.
Proof. decide_now. Qed.

Lemma demo_timed_ok ops :
  Forall (op_ok 9 1000000 demo_home demo_late 3 demo_client) ops ↔
  Forall (λ o, match o with
    | TCall post => post_ok 1000000 demo_home demo_late 2 post ∧ po_task post ≠ 9
    | TTurn i => Z.of_nat i < 3
    | TReset => False
    | _ => True
    end) ops.
Proof. done. Qed.

End Sample.

(** A concrete list of operations is admissible. *)
Ltac demo_ok :=
  apply demo_timed_ok; unfold demo_timed_ops; cbn [app replicate];
  rewrite ?List.Forall_cons_iff; cbn; unfold post_ok; cbn;
  repeat split; first [lia | apply List.Forall_nil | reflexivity].

Section Witnesses.
#[local] Existing Instance thread_backend.


Lemma timer_stop_is_final_witness :
  ∃ D w T, timer_program demo_clock true demo_children 0 50 9 35 demo_client 0
      (demo_timed_ops ++ TStop :: replicate 6 (TTurn 0)) (demo_after, no_timers) = Ok (D, (w, T)) ∧
    fires 9 w = 0%nat.
Proof.
  destruct (timer_stop_is_final demo_clock true demo_children 0 50 9 35 demo_clock_range
    ltac:(unfold demo_clock; lia) 2 1000000 ltac:(unfold demo_clock; lia)
    ltac:(unfold i64_max; lia) demo_home demo_late 2 demo_children_ok ltac:(unfold i64_max; lia)
    demo_own_task 3 demo_ops demo_world demo_after demo_client 0 ltac:(lia) ltac:(by split)
    demo_ops_ok demo_start_run demo_fresh ltac:(vm_compute; lia) ltac:(vm_compute; reflexivity)
    demo_timed_ops (replicate 6 (TTurn 0)) no_timers ltac:(demo_ok) ltac:(demo_ok))
    as (D1 & w1 & T1 & D & w & T & E1 & E & Hf).
  assert (Eh : (λ r, ran_ids (wd_events r.2.1)) <$>
    timer_program demo_clock true demo_children 0 50 9 35 demo_client 0
      demo_timed_ops (demo_after, no_timers) = Ok [1; 2; 4]) by (vm_compute; reflexivity).
  rewrite E1 in Eh. injection Eh as Er. cbn [fst snd] in Er.
  exists D, w, T. split; [exact E|]. rewrite Hf. unfold fires. by rewrite Er.
Defined.

Lemma timer_fires_witness :
  ∃ D w T t, timer_program demo_clock true demo_children 0 50 9 35 demo_client 0
      demo_timed_ops (demo_after, no_timers) = Ok (D, (w, T)) ∧
    tms_heap T !! 0%nat = Some t ∧ tm_desired_run_time_ t = 185 ∧ fires 9 w = 0%nat ∧
    ∃ j w' T', (j ≤ 3)%nat ∧
      timed demo_clock true demo_children 0 demo_client (replicate (S j) (TTurn 0)) D (w, T) =
        Ok (D, (w', T')) ∧ fires 9 w' = 1%nat.
Proof.
  destruct (timer_fires demo_clock true demo_children 0 50 9 35 demo_clock_range
    ltac:(unfold demo_clock; lia) 2 1000000 ltac:(unfold demo_clock; lia)
    ltac:(unfold i64_max; lia) demo_home demo_late 2 demo_children_ok ltac:(unfold i64_max; lia)
    demo_own_task 3 demo_ops demo_world demo_after demo_client 0 ltac:(lia) ltac:(by split)
    demo_ops_ok demo_start_run demo_fresh ltac:(vm_compute; lia) ltac:(vm_compute; reflexivity)
    demo_cost demo_cost_ok demo_timed_ops no_timers ltac:(demo_ok)
    ltac:(unfold demo_timed_ops; rewrite !not_elem_of_cons; split_and!; [done..|apply not_elem_of_nil]))
    as (D & w & T & t & E & Ht & Hfire).
  assert (Eh : (λ r, (ran_ids (wd_events r.2.1), demo_clock (wd_ticks r.2.1),
      tm_desired_run_time_ <$> tms_heap r.2.2 !! 0%nat,
      total_cost demo_cost (task_ids (heap_tasks r.2.1)))) <$>
    timer_program demo_clock true demo_children 0 50 9 35 demo_client 0
      demo_timed_ops (demo_after, no_timers) = Ok ([1; 2; 4], 210, Some 185, 3%nat))
    by (vm_compute; reflexivity).
  rewrite E in Eh. injection Eh as Er Ec Ed Ecost. cbn [fst snd] in *. rewrite Ht in Ed.
  injection Ed as Ed. rewrite Ec, Ed, Ecost in Hfire.
  exists D, w, T, t. split; [exact E|]. split; [exact Ht|]. split; [exact Ed|].
  split; [unfold fires; by rewrite Er|]. apply Hfire. lia.
Defined.

(** A reset that comes too late, on a worker: when the timer is due but its
    task still waits in the queue, the reset moves the desired time to 400, and
    the next turn runs the user's task (9) before the clock reaches 350. *)
Definition late_reset (turns : nat) : outcome (bool * Z * (World (list DelayedEntry) * Timers)) :=
  (do! _ := timer_program demo_clock true demo_children 0 50 9 100 demo_client 0
              [TTurn 0; TTurn 0; TTurn 0; TTurn 1; TTurn 1] in
   do! s := st_get in
   do! _ := Reset demo_clock 0 in
   do! t := get_timer 0 in
   do! _ := timed demo_clock true demo_children 0 demo_client (replicate turns (TTurn 0)) 0 in
   st_ret (in_time demo_clock 0 s, tm_desired_run_time_ t)) (demo_after, no_timers).

Example late_reset_on_a_worker :
  (λ r, (r.1, ran_ids (wd_events r.2.1), demo_clock (wd_ticks r.2.1))) <$> late_reset 1 =
    Ok (false, 400, [1; 2; 4; 3; 5; 9], 350).
Proof. vm_compute. reflexivity. Qed.
End Witnesses.
