(* ===== verification/RepeatingLoop.v ===== *)
(** * RepeatingLoop: a client with a repeating timer

    On top of TimerLoop.v: the client of EndToEnd.v starts a [RepeatingTimer]
    ([src/footstone/repeating_timer.cc]) on one of its runners, and posts,
    turns, resets and a stop follow in any order.  The theorems bound how often
    the timer's task runs from above, by its period, and from below, by the
    turns it needs. *)

From S2P Require Import Prelude Time PriorityQueue Store TaskRunner Worker WorkerLoop ThreadWorker Turns WorkerManager Timer EndToEnd TimerLoop.

Section Repeating.
Context {Q : Type} `{PriorityQueueLaws DelayedEntry Q deadline}.
#[local] Existing Instance thread_backend.
Variable clock : nat → Z.
Variable debug : bool.
Variable children : Z → list Post.
Implicit Types (w : World Q) (T : Timers) (c : Client).

(** The timer, the task the user gives it, and its period. *)
Variable x : nat.
Variables uid n0 : Z.
Variable delay : Z.

(** [std::make_shared<RepeatingTimer>(runner)], [Start], and what follows. *)
Definition repeat_program c (k : nat) (ops : list timed_op) : TM Q unit :=
  do! D := timed_start clock x uid n0 delay RepeatingTimer c k in
  do! _ := timed clock debug children x c ops D in
  st_ret tt.

(** What is asked of the client: as in TimerLoop.v. *)
Hypothesis clock_range : ∀ n, 0 ≤ clock n ≤ i64_max.
Hypothesis clock_mono : ∀ m n, (m ≤ n)%nat → clock m ≤ clock n.
Variables P C : Z.
Hypothesis clock_bound : ∀ n, clock n ≤ C.
Hypothesis weights : 0 ≤ P ∧ C ≤ i64_max ∧ P * C ≤ i64_max.
Variable home : Z → nat.
Variable late : Z → bool.
Variable K : nat.
Hypothesis children_ok : ∀ n, Forall (post_ok C home late K) (children n).
Hypothesis delay_range : 0 < delay ∧ C + delay ≤ i64_max.
Hypothesis own_task : ∀ n, n0 ∉ posts_of children n.

Notation world_ok := (world_ok clock x n0 P home K).
Notation worker_ok c := (worker_ok clock P (cl_manager c) (cl_runners c)).
Notation armed_ k := (pending clock x n0 delay RepeatingTimer (user_held uid n0) k).
Notation turn := (turn clock debug children x).
Notation fires := (fires n0).
Notation op_ok := (op_ok n0 C home late).
Notation timed_step := (timed_step clock debug children x).
Notation timed := (timed clock debug children x).
Notation said := (λ ev, ran_ids ev = [n0]).

(** *** The rhythm *)

Section Rhythm.
(** When the timer was started. *)
Variable start : Z.

(** After its [k]-th run the timer is armed for a time at least [k + 1] periods
    after the start. *)
Definition beating (k : nat) c w T : Prop :=
  ∃ D t, start + Z.of_nat (S k) * delay ≤ D ∧ armed_ k c D w T t.

(** The timer was stopped after its [k]-th run. *)
Definition silent (k : nat) w T : Prop :=
  start + Z.of_nat k * delay ≤ clock (wd_ticks w) ∧ fires w = k ∧
  ∃ t, tms_heap T !! x = Some t ∧ tm_kind t = RepeatingTimer ∧ tm_is_running_ t = Some false.

Lemma beating_not_silent k k' c w T : beating k c w T → silent k' w T → False.
Proof.
  intros (D & t & _ & Hpd) (_ & _ & t2 & Ht & _ & Hr).
  rewrite (pd_timer _ _ _ _ _ _ _ _ _ _ _ _ Hpd) in Ht. injection Ht as <-.
  by rewrite (pd_running _ _ _ _ _ _ _ _ _ _ _ _ Hpd) in Hr.
Qed.

Definition regular (k : nat) c w T : Prop := beating k c w T ∨ silent k w T.

Lemma armed_time k c D w T t :
  start + Z.of_nat (S k) * delay ≤ D → armed_ k c D w T t →
  start + Z.of_nat k * delay ≤ clock (wd_ticks w).
Proof. intros HD []. lia. Qed.

Lemma regular_time k c w T :
  regular k c w T → fires w = k ∧ start + Z.of_nat k * delay ≤ clock (wd_ticks w).
Proof.
  intros [(D & t & HD & Hpd)|(? & ? & _)]; [|done]. split; [apply Hpd|by eapply armed_time].
Qed.

Lemma silent_later k w w' T :
  (wd_ticks w ≤ wd_ticks w')%nat → fires w' = fires w → silent k w T → silent k w' T.
Proof. intros Hn Hf (? & ? & ?). pose proof (clock_mono _ _ Hn). split; [lia|]. by rewrite Hf. Qed.

(** *** A turn *)

(** The user's task, run by the timer, leaves the timer as it is. *)
Lemma user_keeps_armed k c D w T t :
  (K ≤ length (cl_runners c))%nat → ready (cl_runners c) w → armed_ k c D w T t →
  ∃ born w', user_code clock children c (user_task uid n0) (w, T) = Ok (tt, (w', T)) ∧
    performs clock P (keep home late (cl_runners c)) born said w w' ∧
    task_ids born = posts_of children n0 ∧ Forall (plain home (length (cl_runners c))) born ∧
    armed_ (S k) c D w' T t.
Proof.
  intros HK Hr Hpd.
  destruct (user_runs clock children clock_range P C clock_bound home late K children_ok c n0 uid w T
    HK Hr) as (born & w' & E & Hp).
  destruct (pf_events _ _ _ _ _ _ _ Hp) as (ev & Eev & Hev).
  apply said_ids in Hev as Hids. destruct Hids as (Hran & Hborn & Hpl).
  exists born, w'. split; [exact E|]. split; [|split; [done|split; [done|]]].
  - replace born with ([] ++ born) by done.
    apply (performs_trans clock P _ [] born (λ ev, ev = [])
      (client_said children home (cl_runners c) (MkTask uid (Some (CUser n0))) born) _ w w w').
    + intros e1 e2 -> Hs. by apply said_ids in Hs as [? _].
    + apply performs_silent with []; [|done]. rewrite app_nil_r. by destruct w.
    + done.
  - apply (pending_later clock x n0 delay clock_mono RepeatingTimer (user_held uid n0) k (S k) c D w w' T t).
    + apply Hp.
    + apply (pf_time _ _ _ _ _ _ _ Hp). eapply Forall_impl; [exact Hpl|]. apply plain_not_timer.
    + rewrite (tasks_of_perm x w w' born (pf_tasks _ _ _ _ _ _ _ Hp)), (filter_plain x home _ _ Hpl).
      cbn. lia.
    + rewrite (fires_app n0 w w' ev Eev), Hran, (pd_fires _ _ _ _ _ _ _ _ _ _ _ _ Hpd). cbn.
      rewrite Z.eqb_refl. cbn. lia.
    + done.
Qed.

(** When the time of the timer has come, its task posts its successor, for a
    period later, and runs the user's task. *)
Lemma turn_repeats size c D p w w1 wk1 id T t k n :
  timer_chosen clock x n0 P home K size c p w w1 wk1 id → armed_ k c D w T t →
  (wd_ticks (entered p w1) ≤ n)%nat → passed clock D (set_wd_ticks n w1) →
  timed_Task_Run clock debug (user_code clock children c) (idle_code clock children x c) (MkTask id (Some (CTimer x)))
      (entered p w1, T) =
    RunUserTask clock debug (user_code clock children c) (idle_code clock children x c) x (set_wd_ticks n (entered p w1), T) →
  ∃ w' T' t', turn c p (w, T) = Ok (true, (w', T')) ∧ world_ok size c w' ∧
    (n ≤ wd_ticks w')%nat ∧ armed_ (S k) c (D + delay) w' T' t'.
Proof.
  intros (E & Hwo1 & Hwk1 & _ & _ & Hf1 & Hts) Hpd Hn Hpass Erun.
  set (w2 := set_wd_ticks n (entered p w1)) in *.
  pose proof (passed_mono clock clock_mono _ _ Hpass) as HD. cbn in HD.
  pose proof (wo_pool _ _ _ _ _ _ _ _ _ Hwo1) as Hpool1.
  pose proof (pd_one _ _ _ _ _ _ _ _ _ _ _ _ Hpd) as Hone.
  destruct (pd_runner _ _ _ _ _ _ _ _ _ _ _ _ Hpd) as (q & Hq & Hin).
  destruct (schedule_pending clock x n0 delay clock_range clock_mono P C clock_bound weights
    home late delay_range RepeatingTimer (user_held uid n0) k c (D + delay) delay w2 T t q)
    as (w3 & T3 & t3 & Es & Hp3 & Hpd3); try done; try apply Hpd; try lia.
  { apply (pl_ready _ _ _ _ _ Hpool1). }
  { change (tasks_of x w2) with (tasks_of x w1). lia. }
  { rewrite <- (pd_fires _ _ _ _ _ _ _ _ _ _ _ _ Hpd), <- Hf1. done. }
  { cbn. lia. }
  destruct (user_keeps_armed k c (D + delay) w3 T3 t3) as (born & w4 & Eu & Hp4 & Hborn & Hpl & Hpd4).
  { apply (wo_room _ _ _ _ _ _ _ _ _ Hwo1). }
  { eapply (performs_ready clock P); [exact Hp3|]. apply (pl_ready _ _ _ _ _ Hpool1). }
  { done. }
  assert (Erun4 : timed_Task_Run clock debug (user_code clock children c) (idle_code clock children x c)
    (MkTask id (Some (CTimer x))) (entered p w1, T) = Ok (tt, (w4, T3))).
  { rewrite Erun, <- Eu.
    apply (RepeatingTimer_RunUserTask_run clock debug _ _ x t t3); [apply Hpd|apply Hpd| |apply Hpd3|].
    - by rewrite (pd_delay _ _ _ _ _ _ _ _ _ _ _ _ Hpd).
    - exact (f_equal fst (pd_task _ _ _ _ _ _ _ _ _ _ _ _ Hpd3)). }
  assert (Hp : performs clock P (keep home late (cl_runners c)) (timer_task_of x w2 :: born) said
    (entered p w1) w4).
  { apply (performs_after_tick clock P _ (entered p w1) n); [done|].
    apply (performs_trans clock P _ [timer_task_of x w2] born (λ ev, ran_ids ev = []) said said w2 w3 w4);
      [|done..]. intros e1 e2 H1 H2. by rewrite ran_ids_app, H1, H2. }
  destruct (run_chosen clock debug children x clock_range clock_mono P C clock_bound weights home late
    size c p w w1 wk1 T _ T3 _ said w4 E Hpool1 Hwk1 Erun4 Hp)
    as (w' & Et & Hpool' & Hh' & Ho' & Hn' & ev & He' & Hs).
  exists w', T3, t3. split; [done|]. split; [|split].
  - apply (world_ok_next clock x n0 P home K size c w1 w' [] _ Hwo1 Hpool' Hh').
    + constructor; [right; by apply bool_decide_true|]. eapply Forall_impl; [exact Hpl|]. auto.
    + change (task_ids (timer_task_of x w2 :: born)) with (task_ids born). by rewrite Hborn.
  - pose proof (pf_ticks _ _ _ _ _ _ _ Hp3) as Hn3. pose proof (pf_ticks _ _ _ _ _ _ _ Hp4).
    cbn in Hn3. lia.
  - apply (pending_later clock x n0 delay clock_mono RepeatingTimer (user_held uid n0) (S k) (S k) c _ w4 w' T3 t3);
      [done|done| | |done].
    + rewrite (tasks_of_perm x w1 w' _ Hh'). symmetry.
      rewrite (tasks_of_perm x (entered p w1) w4 _ (pf_tasks _ _ _ _ _ _ _ Hp)). done.
    + rewrite (fires_app n0 w1 w' ev He'), Hs, Hf1, (pd_fires _ _ _ _ _ _ _ _ _ _ _ _ Hpd). cbn.
      rewrite Z.eqb_refl. cbn. lia.
Qed.

Lemma turn_beats size c D p w wk T t k :
  world_ok size c w → worker_ok c p w wk → start + Z.of_nat (S k) * delay ≤ D →
  armed_ k c D w T t →
  ∃ w' T', turn c p (w, T) = Ok (true, (w', T')) ∧ world_ok size c w' ∧
    (beating (S k) c w' T' ∨
     (∃ t', armed_ k c D w' T' t') ∧ (tm_desired_run_time_ t ≤ clock (wd_ticks w) →
        T' = T ∧ background clock x n0 w w' ∧ turn_progress clock children c p w w')).
Proof.
  intros Hwo Hwk HD Hpd.
  destruct (turn_cases clock debug children x n0 delay clock_range clock_mono P C clock_bound weights
    home late K children_ok delay_range own_task size c p w wk T Hwo Hwk)
    as [(w' & E & Hwo' & Hbg & Hprog)|(id & w1 & wk1 & Hc)].
  { exists w', T. split; [done|]. split; [done|]. right. split; [|done].
    exists t. by apply (pending_background clock x n0 delay clock_mono _ _ _ c D w). }
  destruct (turn_invokes clock debug children x n0 delay clock_range clock_mono P C clock_bound
    weights home late K delay_range _ _ _ size c D p w w1 wk1 id T t Hc Hpd)
    as [(n & Hn & Hpass & Erun)|(Hearly & w' & T' & Et & Hwo' & Hpd')].
  - destruct (turn_repeats size c D p w w1 wk1 id T t k n Hc Hpd Hn Hpass Erun)
      as (w' & T' & t' & Et & Hwo' & Hn' & Hpd').
    exists w', T'. split; [done|]. split; [done|]. left. exists (D + delay), t'. split; [lia|done].
  - exists w', T'. split; [done|]. split; [done|]. right. split; [done|]. lia.
Qed.

(** *** The other steps *)

Lemma Stop_silent k c w T : regular k c w T → ∃ T', Stop x (w, T) = Ok (tt, (w, T')) ∧ silent k w T'.
Proof.
  intros Hreg. destruct (regular_time k c w T Hreg) as [Hf Hn].
  assert (Ht : ∃ t, tms_heap T !! x = Some t ∧ tm_kind t = RepeatingTimer).
  { destruct Hreg as [(D & t & _ & [])|(_ & _ & t & ? & ? & _)]; eauto. }
  destruct Ht as (t & Ht & Hk). destruct (Stop_run (Q := Q) x T t Ht) as (T' & t' & E & Ht' & Hk' & Hr' & _).
  exists T'. split; [done|]. split; [done|]. split; [done|]. exists t'. split; [done|]. by rewrite Hk'.
Qed.

Lemma Reset_beating k size c w T :
  world_ok size c w → beating k c w T → in_time clock x (w, T) = true →
  ∃ w' T' t', Reset clock x (w, T) = Ok (tt, (w', T')) ∧ tms_heap T' !! x = Some t' ∧
    world_ok size c w' ∧ beating k c w' T'.
Proof.
  intros Hwo (D & t & HD & Hpd) Hin. unfold in_time in Hin. cbn [fst snd] in Hin.
  rewrite (pd_timer _ _ _ _ _ _ _ _ _ _ _ _ Hpd) in Hin.
  apply andb_true_iff in Hin as [_ Hin]. apply Z.leb_le in Hin.
  destruct (Reset_pending_in_time clock x n0 delay clock_range clock_mono C clock_bound
    delay_range _ _ _ c D w T t Hpd Hin) as (w' & T' & t' & E & Ht' & _ & Ew & HD' & Hpd').
  exists w', T', t'. split; [done|]. split; [done|]. split.
  - rewrite Ew. by apply (world_ok_ticks clock x n0 clock_mono P home late K); [lia|].
  - eexists _, t'. split; [|exact Hpd']. lia.
Qed.

(** Any step keeps the rhythm: from one of its states to another, at most one
    run later; only a stop ends it. *)
Lemma step_regular size c o D0 w T k :
  world_ok size c w → op_ok size c o → regular k c w T →
  ∃ D1 w' T' k', timed_step c o D0 (w, T) = Ok (D1, (w', T')) ∧ world_ok size c w' ∧
    regular k' c w' T' ∧ (o ≠ TStop → beating k c w T → beating k' c w' T') ∧
    (o = TStop ∨ silent k w T → silent k w' T').
Proof.
  intros Hwo Ho Hreg. destruct o as [post|i| | |]; unfold TimerLoop.timed_step, TimerLoop.reset_step; [| |done|..].
  - destruct (Call_background clock children x n0 clock_range clock_mono P C clock_bound home late K
      own_task size c post w Hwo Ho) as (w' & E & Hwo' & Hbg).
    assert (Hb : beating k c w T → beating k c w' T).
    { intros (D & t & HD & Hpd). exists D, t. split; [done|].
      by apply (pending_background clock x n0 delay clock_mono _ _ _ c D w). }
    assert (Hs : silent k w T → silent k w' T) by (apply silent_later; apply Hbg).
    exists D0, w', T, k. erewrite bind_tlift by exact E. split; [done|]. split; [done|].
    split; [destruct Hreg; [left|right]; auto|]. split; [by auto|]. intros [?|?]; [done|by auto].
  - destruct (worker_of clock x n0 P home K size c w i Hwo Ho) as (p & wk & _ & Hwk & Ev).
    erewrite st_bind_step by apply Ev. destruct Hreg as [(D & t & HD & Hpd)|Hs].
    + destruct (turn_beats size c D p w wk T t k Hwo Hwk HD Hpd) as (w' & T' & E & Hwo' & Hres).
      assert (Hb : ∃ k', beating k' c w' T').
      { destruct Hres as [Hb|[[t' Ht'] _]]; [by eauto|]. exists k, D, t'. done. }
      destruct Hb as [k' Hb]. exists D0, w', T', k'. erewrite st_bind_step by exact E.
      split; [done|]. split; [done|]. split; [by left|]. split; [done|].
      intros [?|Hs]; [done|]. by destruct (beating_not_silent k k c w T); [exists D, t|].
    + pose proof Hs as (_ & _ & t & Ht & _ & Hr).
      destruct (turn_halted clock debug children x n0 delay clock_range clock_mono P C clock_bound
        weights home late K children_ok delay_range own_task size c p w wk T t Hwo Hwk Ht Hr)
        as (w' & E & Hwo' & Hf & Hn & _).
      assert (Hs' : silent k w' T) by by apply (silent_later k w).
      exists D0, w', T, k. erewrite st_bind_step by exact E. split; [done|]. split; [done|].
      split; [by right|]. split; [|done]. intros _ Hb. by destruct (beating_not_silent k k c w T).
  - rewrite (st_bind_step st_get _ (w, T) (w, T) (w, T) eq_refl).
    destruct (in_time clock x (w, T)) eqn:Ein.
    2: { exists D0, w, T, k. split; [done|]. split; [done|]. split; [done|]. split; [done|].
      by intros [?|?]. }
    destruct Hreg as [Hb|(_ & _ & t & Ht & _ & Hr)].
    + destruct (Reset_beating k size c w T Hwo Hb Ein) as (w' & T' & t' & E & Ht' & Hwo' & Hb').
      eexists _, w', T', k. erewrite st_bind_step by exact E.
      erewrite bind_get_timer by exact Ht'. split; [done|]. split; [done|]. split; [by left|].
      split; [done|]. intros [?|Hs]; [done|]. by destruct (beating_not_silent k k c w T).
    + unfold in_time in Ein. cbn [snd] in Ein. by rewrite Ht, Hr in Ein.
  - destruct (Stop_silent k c w T Hreg) as (T' & E & Hs). exists D0, w, T', k.
    erewrite st_bind_step by exact E. split; [done|]. split; [done|]. split; [by right|done].
Qed.

Lemma ops_regular size c ops D0 w T k :
  world_ok size c w → Forall (op_ok size c) ops → regular k c w T →
  ∃ D1 w' T' k', timed c ops D0 (w, T) = Ok (D1, (w', T')) ∧ world_ok size c w' ∧
    regular k' c w' T' ∧ (TStop ∉ ops → beating k c w T → beating k' c w' T') ∧
    (silent k w T → silent k w' T').
Proof.
  intros Hwo Hops. revert D0 w T k Hwo. induction Hops as [|o ops Ho Hops IH]; intros D0 w T k Hwo Hreg.
  { exists D0, w, T, k. do 4 (split; [done|]). done. }
  destruct (step_regular size c o D0 w T k Hwo Ho Hreg)
    as (D1 & w1 & T1 & k1 & E1 & Hwo1 & Hreg1 & Hb1 & Hs1).
  destruct (IH D1 w1 T1 k1 Hwo1 Hreg1) as (D2 & w2 & T2 & k2 & E2 & Hwo2 & Hreg2 & Hb2 & Hs2).
  exists D2, w2, T2, k2. split; [cbn; by erewrite st_bind_step by exact E1|].
  split; [done|]. split; [done|]. split.
  - intros [Hne Hnin]%not_elem_of_cons Hb. by apply Hb2, Hb1.
  - intros Hs. assert (Hs' : silent k w1 T1) by auto.
    assert (k1 = k) as -> by (destruct (regular_time _ _ _ _ Hreg1) as [<- _]; apply Hs'). auto.
Qed.

(** A bound on the tasks that a task leads to, itself included. *)
Variable cost : Z → nat.
Hypothesis cost_ok : ∀ n, (S (total_cost cost (posts_of children n)) ≤ cost n)%nat.

(** Once its time has come, the timer runs within as many turns of the first
    worker as there are tasks in its way, and one more. *)
Lemma turns_beat size c D0 D w T t k :
  2 ≤ size → world_ok size c w → start + Z.of_nat (S k) * delay ≤ D → armed_ k c D w T t →
  tm_desired_run_time_ t ≤ clock (wd_ticks w) →
  ∃ j w' T', (j ≤ total_cost cost (task_ids (heap_tasks w)))%nat ∧
    timed c (replicate (S j) (TTurn 0)) D0 (w, T) = Ok (D0, (w', T')) ∧
    world_ok size c w' ∧ beating (S k) c w' T'.
Proof.
  intros Hsize Hwo HD Hpd Hdue.
  apply (turns_until clock debug children x n0 delay clock_mono P home K cost cost_ok
    RepeatingTimer (user_held uid n0) k size c D (beating (S k) c)) with (t := t); [lia| |done..].
  intros p w1 wk T1 t1 Hwo1 Hwk Hpd1. by apply (turn_beats size c D p w1 wk).
Qed.
End Rhythm.

(** ** Programs *)

Section Program.
Variables (size : Z) (ops0 : list op) (s0 w0 : World Q) (c : Client) (k : nat).
Hypothesis Hsize : 2 ≤ size.
Hypothesis Hblank : blank s0.
Hypothesis Hops0 : ops_ok P C home late K size 0 (ops0 ++ [Turn 0]).
Hypothesis Hclient : client_program clock children size ops0 s0 = Ok (c, w0).
Hypothesis Hfresh : n0 ∉ cl_history c.
Hypothesis Hk : (k < length (cl_runners c))%nat.
Hypothesis Hnow : 0 < clock (wd_ticks w0).

Notation start := (clock (wd_ticks w0)).

Lemma repeat_program_run ops T0 :
  Forall (op_ok size c) ops →
  ∃ D0 D1 w1 T1 w T n, timed_start clock x uid n0 delay RepeatingTimer c k (w0, T0) = Ok (D0, (w1, T1)) ∧
    timed c ops D0 (w1, T1) = Ok (D1, (w, T)) ∧ world_ok size c w ∧
    regular start n c w T ∧ (TStop ∉ ops → beating start n c w T).
Proof.
  intros Hops. destruct (client_world clock children x n0 clock_range clock_mono P C clock_bound weights
    home late K children_ok own_task size ops0 s0 c w0 Hsize Hblank Hops0 Hclient Hfresh)
    as (Hwo & Hnone & Hf).
  destruct (start_pending clock x uid n0 delay clock_range clock_mono P C clock_bound weights home late
    K delay_range RepeatingTimer size c k w0 T0 Hwo Hnone Hf Hk Hnow)
    as (w1 & T1 & t1 & E1 & Hwo1 & Hpd).
  assert (Hb : beating start 0 c w1 T1) by (eexists _, t1; split; [|exact Hpd]; lia).
  destruct (ops_regular start size c ops (start + delay) w1 T1 0 Hwo1 Hops (or_introl Hb))
    as (D & w & T & n & E & Hwo2 & Hreg & Hb2 & _).
  exists (start + delay), D, w1, T1, w, T, n. do 4 (split; [done|]). auto.
Qed.

Lemma repeat_program_eq ops T0 D0 D1 w1 T1 s :
  timed_start clock x uid n0 delay RepeatingTimer c k (w0, T0) = Ok (D0, (w1, T1)) →
  timed c ops D0 (w1, T1) = Ok (D1, s) → repeat_program c k ops (w0, T0) = Ok (tt, s).
Proof.
  intros E1 E2. unfold repeat_program. erewrite st_bind_step by exact E1.
  by erewrite st_bind_step by exact E2.
Qed.

(** C5. A repeating timer never runs faster than its period.  The client, after
    any program of its own, starts the timer on one of its runners and then
    posts tasks, lets workers take turns, resets the timer before it is due and
    stops it, in any order: nothing faults, the [n]-th run of the timer's task
    comes no earlier than [n] periods after the start, and unless the timer was
    stopped exactly one of its tasks waits, for at most one more period. *)
Theorem repeating_timer_period ops T0 (Hops : Forall (op_ok size c) ops) :
  ∃ w T, repeat_program c k ops (w0, T0) = Ok (tt, (w, T)) ∧
    clock (wd_ticks w0) + Z.of_nat (fires w) * delay ≤ clock (wd_ticks w) ∧
    (TStop ∉ ops → tasks_of x w = 1%nat ∧
       ∃ t, tms_heap T !! x = Some t ∧ tm_desired_run_time_ t ≤ clock (wd_ticks w) + delay).
Proof.
  destruct (repeat_program_run ops T0 Hops) as (D0 & D1 & w1 & T1 & w & T & n & E1 & E2 & _ & Hreg & Hb).
  exists w, T. split; [by eapply repeat_program_eq|]. destruct (regular_time _ _ _ _ _ Hreg) as [-> Hn].
  split; [done|]. intros Hstop. destruct (Hb Hstop) as (D & t & _ & Hpd).
  split; [apply Hpd|]. exists t. split; apply Hpd.
Qed.

(** Stopping a repeating timer is final: whatever the client does
    afterwards, its task runs no more. *)
Theorem repeating_timer_stop ops ops' T0
    (Hops : Forall (op_ok size c) ops) (Hops' : Forall (op_ok size c) ops') :
  ∃ w1 T1 w T, repeat_program c k ops (w0, T0) = Ok (tt, (w1, T1)) ∧
    repeat_program c k (ops ++ TStop :: ops') (w0, T0) = Ok (tt, (w, T)) ∧ fires w = fires w1.
Proof.
  destruct (repeat_program_run ops T0 Hops) as (D0 & D1 & w1 & T1 & w & T & n & E1 & E2 & Hwo & Hreg & _).
  destruct (step_regular start size c TStop D1 w T n Hwo I Hreg)
    as (D2 & w2 & T2 & n2 & E3 & Hwo2 & _ & _ & Hs). specialize (Hs (or_introl eq_refl)).
  destruct (ops_regular start size c ops' D2 w2 T2 n Hwo2 Hops' (or_intror Hs))
    as (D3 & w3 & T3 & n3 & E4 & _ & _ & _ & Hs3).
  exists w, T, w3, T3. split; [by eapply repeat_program_eq|]. split.
  - eapply repeat_program_eq; [exact E1|].
    rewrite (timed_app clock debug children x c ops (TStop :: ops') _ _ _ _ E2). cbn [TimerLoop.timed].
    erewrite st_bind_step by exact E3. exact E4.
  - destruct (regular_time _ _ _ _ _ Hreg) as [-> _]. by apply Hs3.
Qed.

(** A bound on the tasks that a task leads to, itself included. *)
Variable cost : Z → nat.
Hypothesis cost_ok : ∀ n, (S (total_cost cost (posts_of children n)) ≤ cost n)%nat.

(** C6. A repeating timer that is not stopped goes on.  After any such program,
    once the clock has reached the time the timer is set to, the first worker
    needs at most one turn per task that is queued or will be posted by queued
    tasks, and one more, for the timer's task to have run once more; the
    longer program is again one of those the theorem is about. *)
Theorem repeating_timer_beats ops T0 (Hops : Forall (op_ok size c) ops) (Hstop : TStop ∉ ops) :
  ∃ w T t, repeat_program c k ops (w0, T0) = Ok (tt, (w, T)) ∧ tms_heap T !! x = Some t ∧
    (tm_desired_run_time_ t ≤ clock (wd_ticks w) →
     ∃ j w' T', (j ≤ total_cost cost (task_ids (heap_tasks w)))%nat ∧
       repeat_program c k (ops ++ replicate (S j) (TTurn 0)) (w0, T0) = Ok (tt, (w', T')) ∧
       fires w' = S (fires w)).
Proof.
  destruct (repeat_program_run ops T0 Hops) as (D0 & D1 & w1 & T1 & w & T & n & E1 & E2 & Hwo & _ & Hb).
  destruct (Hb Hstop) as (D & t & HD & Hpd).
  exists w, T, t. split; [by eapply repeat_program_eq|]. split; [apply Hpd|]. intros Hdue.
  destruct (turns_beat start cost cost_ok size c D1 D w T t n Hsize Hwo HD Hpd Hdue)
    as (j & w' & T' & Hj & E & _ & Hbt).
  exists j, w', T'. split; [done|]. split.
  - eapply repeat_program_eq; [exact E1|].
    by rewrite (timed_app clock debug children x c ops _ _ _ _ _ E2).
  - destruct (regular_time _ _ _ _ _ (or_introl Hbt)) as [-> _].
    by rewrite (pd_fires _ _ _ _ _ _ _ _ _ _ _ _ Hpd).
Qed.
End Program.
End Repeating.

(** ** A concrete timer

    The client of EndToEnd.v's sample starts a repeating timer with a period of
    100 on its first runner, at 110; the clock advances by 10 with each
    reading. *)

Section Sample.
#[local] Existing Instance thread_backend.
#[local] Notation demo_beats ops :=
  (repeat_program demo_clock true demo_children 0 50 9 100 demo_client 0 (demo_timed_ops ++ ops)).

Lemma repeating_timer_period_witness :
  ∃ w T, demo_beats (replicate 13 (TTurn 0)) (demo_after, no_timers) = Ok (tt, (w, T)) ∧
    ran_ids (wd_events w) = [1; 2; 4; 3; 6; 5; 9; 9; 9; 9] ∧ 510 ≤ demo_clock (wd_ticks w) ∧
    tasks_of 0 w = 1%nat.
Proof.
  destruct (repeating_timer_period demo_clock true demo_children 0 50 9 100 demo_clock_range
    ltac:(unfold demo_clock; lia) 2 1000000 ltac:(unfold demo_clock; lia)
    ltac:(unfold i64_max; lia) demo_home demo_late 2 demo_children_ok ltac:(unfold i64_max; lia)
    demo_own_task 3 demo_ops demo_world demo_after demo_client 0 ltac:(lia) ltac:(by split)
    demo_ops_ok demo_start_run demo_fresh ltac:(vm_compute; lia) ltac:(vm_compute; reflexivity)
    (demo_timed_ops ++ replicate 13 (TTurn 0)) no_timers ltac:(demo_ok))
    as (w & T & E & Hp & Hone).
  assert (Eh : (λ r, ran_ids (wd_events r.2.1)) <$>
    demo_beats (replicate 13 (TTurn 0)) (demo_after, no_timers) =
    Ok [1; 2; 4; 3; 6; 5; 9; 9; 9; 9]) by (vm_compute; reflexivity).
  rewrite E in Eh. injection Eh as Er. cbn [fst snd] in Er.
  exists w, T. split; [exact E|]. split; [exact Er|]. split.
  - unfold fires in Hp. rewrite Er in Hp. exact Hp.
  - apply Hone. unfold demo_timed_ops. cbn.
    repeat (apply not_elem_of_cons; split; [done|]). apply not_elem_of_nil.
Defined.

Lemma repeating_timer_stop_witness :
  ∃ w T, demo_beats (replicate 6 (TTurn 0) ++ TStop :: replicate 12 (TTurn 0)) (demo_after, no_timers) =
      Ok (tt, (w, T)) ∧ fires 9 w = 1%nat.
Proof.
  destruct (repeating_timer_stop demo_clock true demo_children 0 50 9 100 demo_clock_range
    ltac:(unfold demo_clock; lia) 2 1000000 ltac:(unfold demo_clock; lia)
    ltac:(unfold i64_max; lia) demo_home demo_late 2 demo_children_ok ltac:(unfold i64_max; lia)
    demo_own_task 3 demo_ops demo_world demo_after demo_client 0 ltac:(lia) ltac:(by split)
    demo_ops_ok demo_start_run demo_fresh ltac:(vm_compute; lia) ltac:(vm_compute; reflexivity)
    (demo_timed_ops ++ replicate 6 (TTurn 0)) (replicate 12 (TTurn 0)) no_timers ltac:(demo_ok)
    ltac:(demo_ok)) as (w1 & T1 & w & T & E1 & E & Hf).
  assert (Eh : (λ r, ran_ids (wd_events r.2.1)) <$>
    demo_beats (replicate 6 (TTurn 0)) (demo_after, no_timers) =
    Ok [1; 2; 4; 3; 6; 5; 9]) by (vm_compute; reflexivity).
  rewrite E1 in Eh. injection Eh as Er. cbn [fst snd] in Er.
  exists w, T. rewrite app_assoc. split; [exact E|]. rewrite Hf. unfold fires. by rewrite Er.
Defined.

Definition demo_due_ops : list timed_op := replicate 6 (TTurn 0) ++ replicate 3 (TTurn 1).

Lemma repeating_timer_beats_witness :
  ∃ w T, demo_beats demo_due_ops (demo_after, no_timers) = Ok (tt, (w, T)) ∧ fires 9 w = 1%nat ∧
    ∃ w' T', demo_beats (demo_due_ops ++ [TTurn 0]) (demo_after, no_timers) = Ok (tt, (w', T')) ∧
      fires 9 w' = 2%nat.
Proof.
  destruct (repeating_timer_beats demo_clock true demo_children 0 50 9 100 demo_clock_range
    ltac:(unfold demo_clock; lia) 2 1000000 ltac:(unfold demo_clock; lia)
    ltac:(unfold i64_max; lia) demo_home demo_late 2 demo_children_ok ltac:(unfold i64_max; lia)
    demo_own_task 3 demo_ops demo_world demo_after demo_client 0 ltac:(lia) ltac:(by split)
    demo_ops_ok demo_start_run demo_fresh ltac:(vm_compute; lia) ltac:(vm_compute; reflexivity)
    demo_cost demo_cost_ok (demo_timed_ops ++ demo_due_ops) no_timers ltac:(unfold demo_due_ops; demo_ok)
    ltac:(unfold demo_timed_ops, demo_due_ops; cbn;
          repeat (apply not_elem_of_cons; split; [done|]); apply not_elem_of_nil))
    as (w & T & t & E & Ht & Hnext).
  assert (Eh : (λ r, (ran_ids (wd_events r.2.1), demo_clock (wd_ticks r.2.1),
      tm_desired_run_time_ <$> tms_heap r.2.2 !! 0%nat,
      total_cost demo_cost (task_ids (heap_tasks r.2.1)))) <$>
    demo_beats demo_due_ops (demo_after, no_timers) =
    Ok ([1; 2; 4; 3; 6; 5; 9], 500, Some 490, 0%nat)) by (vm_compute; reflexivity).
  rewrite E in Eh. injection Eh as Er Ec Ed Ecost. cbn [fst snd] in *.
  rewrite Ht in Ed. injection Ed as Ed. rewrite Ec, Ed, Ecost in Hnext.
  assert (Hf : fires 9 w = 1%nat) by (unfold fires; by rewrite Er).
  destruct (Hnext ltac:(lia)) as (j & w' & T' & Hj & E' & Hf'). assert (j = 0%nat) as -> by lia.
  exists w, T. split; [exact E|]. split; [exact Hf|]. exists w', T'.
  rewrite app_assoc. split; [exact E'|]. by rewrite Hf', Hf.
Defined.
End Sample.
