(* ===== verification/RestartLoop.v ===== *)
(** * RestartLoop: a timer of a client that is started again

    On top of TimerLoop.v: the one-shot timer of a client fired, or was stopped
    and its task went by, and the client starts it again.  [BaseTimer::Reset]
    ([src/footstone/base_timer.cc]) takes a scheduled time that has not passed
    to mean that a task still waits; the clock is read once for the deadline of
    the task and once more for the scheduled time, so the task may run before
    that time has passed.  A timer started again at that moment is armed, but
    no task of it waits: it does not fire, unless it is reset or started once
    more after that time. *)

From S2P Require Import Prelude Time PriorityQueue Store TaskRunner Worker WorkerLoop ThreadWorker Turns WorkerManager Timer EndToEnd TimerLoop.

Section Restart.
Context {Q : Type} `{PriorityQueueLaws DelayedEntry Q deadline}.
#[local] Existing Instance thread_backend.
Variable clock : nat → Z.
Variable debug : bool.
Variable children : Z → list Post.
Implicit Types (w : World Q) (T : Timers) (c : Client).

Variable x : nat.
Variables uid n0 : Z.
Variable delay : Z.

(** What is asked of the client: as in TimerLoop.v. *)
Hypothesis clock_range : ∀ n, 0 ≤ clock n ≤ i64_max.
Hypothesis clock_mono : ∀ m n, (m ≤ n)%nat → clock m ≤ clock n.
Variables P C : Z.
Hypothesis clock_bound : ∀ n, clock n ≤ C.
Hypothesis weights : 0 ≤ P ∧ C ≤ i64_max ∧ P * C ≤ i64_max.
Variable home : Z → nat.
Variable late : Z → bool.
Variable K : nat.
Hypothesis children_ok : ∀ n, Forall (post_ok C home late K) (children n).
Hypothesis delay_range : 0 < delay ∧ C + delay ≤ i64_max.
Hypothesis own_task : ∀ n, n0 ∉ posts_of children n.

Notation world_ok := (world_ok clock x n0 P home K).
Notation op_ok := (op_ok n0 C home late).
Notation timed_step := (timed_step clock debug children x).
Notation timed := (timed clock debug children x).
Notation fires := (fires n0).
Notation tasks_of := (tasks_of x).

(** A timer that looks started: marked as running, it holds the user's task. *)
Definition looks_started T : Prop :=
  ∃ t, tms_heap T !! x = Some t ∧ tm_is_running_ t = Some true ∧
    tm_user_task_ t = Some (user_task uid n0).

Section Lost.
Variables (sched : Z) (rn : option runner_ptr).

(** A timer none of whose tasks waits, scheduled for [sched], which is at most
    one delay away, on runner [rn]: resets in time do not post. *)
Record lost w T (t : Timer) : Prop := {
  lo_timer : tms_heap T !! x = Some t;
  lo_kind : tm_kind t = OneShotTimer;
  lo_delay : tm_delay_ t = delay;
  lo_bound : tm_scheduled_run_time_ t ≤ clock (wd_ticks w) + delay;
  lo_none : tasks_of w = 0%nat;
  lo_sched : tm_scheduled_run_time_ t = sched;
  lo_runner : tm_task_runner_ t = rn
}.

Lemma lost_later w w' T t :
  (wd_ticks w ≤ wd_ticks w')%nat → tasks_of w' = tasks_of w → lost w T t → lost w' T t.
Proof. intros Hn Ht []. pose proof (clock_mono _ _ Hn). split; try done; [lia|congruence]. Qed.

(** A reset in time only moves the desired time. *)
Lemma lost_Reset w T t :
  lost w T t → clock (wd_ticks w) ≤ tm_scheduled_run_time_ t →
  let w' := set_wd_ticks (S (S (wd_ticks w))) w in
  ∃ T' t', Reset clock x (w, T) = Ok (tt, (w', T')) ∧ lost w' T' t' ∧
    tm_is_running_ t' = Some true ∧ tm_user_task_ t' = tm_user_task_ t.
Proof.
  intros [Ht Hk Hdl Hb Hnone Hs Hrn] Hin. cbn zeta.
  pose proof (clock_range (S (wd_ticks w))). pose proof (clock_bound (S (wd_ticks w))).
  pose proof (clock_mono (wd_ticks w) (S (wd_ticks w))).
  pose proof (clock_mono (wd_ticks w) (S (S (wd_ticks w)))).
  eexists _, _. split; [|split; [split|]].
  - rewrite (Reset_pending clock x t (w, T) Ht Hin);
      [|rewrite Hdl; unfold i64_min, i64_max in *; cbn [fst]; lia].
    cbn [fst snd]. unfold wanted. rewrite Hdl, (proj2 (Z.ltb_lt 0 delay)) by lia.
    rewrite (proj2 (Z.leb_le _ _)) by lia. reflexivity.
  - apply lookup_insert_eq.
  - done.
  - done.
  - cbn. lia.
  - done.
  - done.
  - done.
  - done.
Qed.

Lemma lost_Start D w T t task :
  over clock x n0 delay OneShotTimer D w T t → tasks_of w = 0%nat → clock (wd_ticks w) ≤ tm_scheduled_run_time_ t →
  tm_scheduled_run_time_ t = sched → tm_task_runner_ t = rn →
  let w' := set_wd_ticks (S (S (wd_ticks w))) w in
  ∃ T' t', OneShotTimer_Start clock x (Some task) delay (w, T) = Ok (tt, (w', T')) ∧ lost w' T' t' ∧
    tm_is_running_ t' = Some true ∧ tm_user_task_ t' = Some task.
Proof.
  intros [Ht Hk _ _ _ _ Hb] Hnone Hin Hs Hrn. set (t1 := set_tm_delay_ delay (set_tm_user_task_ (Some task) t)).
  set (T1 := set_tms_heap (<[x:=t1]> (tms_heap T)) T).
  destruct (lost_Reset w T1 t1) as (T' & t' & E & Hl & Hr & Hu); [|exact Hin|].
  { split; try done. apply lookup_insert_eq. }
  exists T', t'. split; [|done]. unfold OneShotTimer_Start, Timer_Start, StartInternal. trun. cbn [fst snd].
  rewrite <- E. do 2 f_equal. unfold T1, set_tms_heap. cbn. by rewrite insert_insert_eq.
Qed.

Lemma lost_step size c o D w T t :
  world_ok size c w → op_ok size c o → lost w T t →
  ∃ D' w' T' t', timed_step c o D (w, T) = Ok (D', (w', T')) ∧ world_ok size c w' ∧ lost w' T' t' ∧
    fires w' = fires w.
Proof.
  intros Hwo Ho Hl. pose proof Hl as [Ht Hk Hdl Hb Hnone Hs Hrn]. destruct o as [post|i| | |]; unfold TimerLoop.timed_step, TimerLoop.reset_step; [| |done|..].
  - destruct (Call_background clock children x n0 clock_range clock_mono P C clock_bound home late K
      own_task size c post w Hwo Ho) as (w' & E & Hwo' & [Hn _ Hts Hf]).
    exists D, w', T, t. erewrite bind_tlift by exact E. split; [done|]. split; [done|].
    split; [by apply (lost_later w)|done].
  - destruct (worker_of clock x n0 P home K size c w i Hwo Ho) as (p & wk & _ & Hwk & Ev).
    erewrite st_bind_step by apply Ev.
    destruct (turn_cases clock debug children x n0 delay clock_range clock_mono P C clock_bound weights
      home late K children_ok delay_range own_task size c p w wk T Hwo Hwk)
      as [(w' & E & Hwo' & [Hn _ Hts Hf] & _)|(id & w1 & wk1 & Hc)].
    + exists D, w', T, t. erewrite st_bind_step by exact E. split; [done|]. split; [done|].
      split; [by apply (lost_later w)|done].
    + destruct Hc as (_ & _ & _ & _ & _ & _ & Hts). congruence.
  - rewrite (st_bind_step st_get _ (w, T) (w, T) (w, T) eq_refl).
    destruct (in_time clock x (w, T)) eqn:Ein; [|by exists D, w, T, t].
    unfold in_time in Ein. cbn [fst snd] in Ein. rewrite Ht in Ein.
    apply andb_true_iff in Ein as [_ Hin]. apply Z.leb_le in Hin.
    destruct (lost_Reset w T t Hl Hin) as (T' & t' & E & Hl' & _). erewrite st_bind_step by exact E.
    erewrite bind_get_timer by apply Hl'. eexists _, _, T', t'. split; [done|].
    split; [|done]. apply (world_ok_ticks clock x n0 clock_mono P home late K); [lia|done].
  - destruct (Stop_run (Q := Q) x T t Ht) as (T' & t' & E & Ht' & Hk' & _ & Hs' & Hd' & Hr').
    exists D, w, T', t'.
    split; [by erewrite st_bind_step by apply E|]. split; [done|]. split; [|done].
    split; [done|congruence|congruence|lia|done|congruence|congruence].
Qed.

Lemma lost_ops size c ops D w T t :
  world_ok size c w → Forall (op_ok size c) ops → lost w T t →
  ∃ D' w' T', timed c ops D (w, T) = Ok (D', (w', T')) ∧ world_ok size c w' ∧
    fires w' = fires w ∧ ∃ t', lost w' T' t'.
Proof.
  intros Hwo Hops. revert D w T t Hwo. induction Hops as [|o ops Ho Hops IH]; intros D w T t Hwo Hl.
  { exists D, w, T. eauto. }
  destruct (lost_step size c o D w T t Hwo Ho Hl) as (D1 & w1 & T1 & t1 & E1 & Hwo1 & Hl1 & Hf1).
  destruct (IH D1 w1 T1 t1 Hwo1 Hl1) as (D2 & w2 & T2 & E2 & Hwo2 & Hf2 & Hl2).
  exists D2, w2, T2. split; [cbn; by erewrite st_bind_step by exact E1|].
  split; [done|]. split; [congruence|done].
Qed.

(** A reset once the time has passed posts a task again. *)
Lemma lost_Reset_late size c D w T t q :
  world_ok size c w → lost w T t → rn = Some q → q ∈ cl_runners c → sched < clock (wd_ticks w) →
  ∃ D' w' T', timed c [TReset] D (w, T) = Ok (D', (w', T')) ∧ tasks_of w' = 1%nat.
Proof.
  intros Hwo [Ht _ Hdl _ Hnone Hs Hrn] Hq Hin Hlate. rewrite <- Hs in Hlate. set (w1 := set_wd_ticks (S (wd_ticks w)) w).
  pose proof (clock_mono (wd_ticks w) (S (wd_ticks w))).
  destruct (schedule_pending clock x n0 delay clock_range clock_mono P C clock_bound
    weights home late delay_range (tm_kind t) (tm_user_task_ t, tm_idle_task_ t) (fires w) c (clock (wd_ticks w)) delay
    w1 T t q) as (w' & T' & t' & E & _ & Hpd); try done; try congruence.
  { apply (pl_ready _ _ _ _ _ (wo_pool _ _ _ _ _ _ _ _ _ Hwo)). } { lia. } { cbn. lia. }
  assert (Er : Reset clock x (w, T) = Ok (tt, (w', T'))).
  { unfold Reset. erewrite bind_get_timer by exact Ht. erewrite bind_tlift by reflexivity. cbn [fst snd].
    unfold TimePoint_lt. rewrite (proj2 (Z.ltb_lt _ _) Hlate), Hdl. exact E. }
  eexists _, w', T'. split; [|apply Hpd]. cbn [TimerLoop.timed TimerLoop.timed_step].
  unfold TimerLoop.reset_step. rewrite tbind_assoc. erewrite st_bind_step by exact Er.
  rewrite tbind_assoc. erewrite bind_get_timer by apply Hpd. reflexivity.
Qed.
End Lost.

Section Program.
Variables (size : Z) (ops0 : list op) (s0 w0 : World Q) (c : Client) (k : nat).
Hypothesis Hsize : 2 ≤ size.
Hypothesis Hblank : blank s0.
Hypothesis Hops0 : ops_ok P C home late K size 0 (ops0 ++ [Turn 0]).
Hypothesis Hclient : client_program clock children size ops0 s0 = Ok (c, w0).
Hypothesis Hfresh : n0 ∉ cl_history c.
Hypothesis Hk : (k < length (cl_runners c))%nat.
Hypothesis Hnow : 0 < clock (wd_ticks w0).

(** C35. A one-shot timer started again too soon is not scheduled.  After any
    program of TimerLoop.v that leaves no task of the timer waiting — it fired,
    or it was stopped and its task went by — while the time it was scheduled
    for has not passed, [Start] reports the timer as running and holds the new
    task, but posts nothing.  Posts, turns of the workers, stops, and resets up
    to that time do not bring it back: however many follow, in any order, the
    task does not run and none is waiting.  Only a [Reset] once that time has
    passed posts a task of the timer again. *)
Theorem restart_lost ops ops' T0 D w T t
    (Hops : Forall (op_ok size c) ops) (Hops' : Forall (op_ok size c) ops')
    (E : timer_program clock debug children x uid n0 delay c k ops (w0, T0) = Ok (D, (w, T)))
    (Hnone : tasks_of w = 0%nat) (Ht : tms_heap T !! x = Some t)
    (Hsoon : clock (wd_ticks w) ≤ tm_scheduled_run_time_ t) :
  ∃ w1 T1 D' w' T',
    OneShotTimer_Start clock x (Some (user_task uid n0)) delay (w, T) = Ok (tt, (w1, T1)) ∧
    looks_started T1 ∧
    timed c ops' D (w1, T1) = Ok (D', (w', T')) ∧ fires w' = fires w ∧ tasks_of w' = 0%nat ∧
    (∀ q, tm_task_runner_ t = Some q → q ∈ cl_runners c →
     tm_scheduled_run_time_ t < clock (wd_ticks w') →
     ∃ D2 w2 T2, timed c [TReset] D' (w', T') = Ok (D2, (w2, T2)) ∧ tasks_of w2 = 1%nat).
Proof.
  destruct (timer_program_run clock debug children x uid n0 delay clock_range clock_mono P C clock_bound
    weights home late K children_ok delay_range own_task size ops0 s0 w0 c k Hsize Hblank Hops0 Hclient
    Hfresh Hk Hnow ops T0 Hops) as (D2 & w2 & T2 & E2 & Hwo & Hal & _).
  rewrite E in E2. injection E2 as <- <- <-. destruct Hal as [[t2 Hpd]|[t2 Hov]].
  { pose proof (pd_one _ _ _ _ _ _ _ _ _ _ _ _ Hpd). congruence. }
  pose proof (ov_timer _ _ _ _ _ _ _ _ _ Hov) as Ht2. rewrite Ht in Ht2. injection Ht2 as <-.
  set (sched := tm_scheduled_run_time_ t) in *. set (rn := tm_task_runner_ t).
  destruct (lost_Start sched rn D w T t (user_task uid n0) Hov Hnone Hsoon eq_refl eq_refl)
    as (T1 & t1 & Es & Hl & Hr & Hu).
  set (w1 := set_wd_ticks (S (S (wd_ticks w))) w) in *.
  assert (Hwo1 : world_ok size c w1).
  { apply (world_ok_ticks clock x n0 clock_mono P home late K); [lia|done]. }
  destruct (lost_ops sched rn size c ops' D w1 T1 t1 Hwo1 Hops' Hl)
    as (D' & w' & T' & Eo & Hwo' & Hf & t' & Hl').
  exists w1, T1, D', w', T'. split; [exact Es|]. split; [exists t1; split; [apply Hl|done]|].
  split; [done|]. split; [done|]. split; [apply Hl'|]. intros q Hq Hin Hlate.
  by apply (lost_Reset_late sched rn size c D' w' T' t' q).
Qed.
End Program.
End Restart.

(** ** A concrete timer

    The clock of the sample client ticks in steps of 100, one every 40
    readings.  Its timer of 100, started at 100, fires at 200; started again at
    200 it is lost. *)

Section Sample.
#[local] Existing Instance thread_backend.
Definition coarse_clock (n : nat) : Z := Z.min (100 * (Z.of_nat n / 40) + 100) 1000000.

Lemma coarse_clock_range n : 0 ≤ coarse_clock n ≤ i64_max.
Proof. unfold coarse_clock, i64_max. pose proof (Z.div_pos (Z.of_nat n) 40). lia. Qed.

Lemma coarse_clock_mono m n : (m ≤ n)%nat → coarse_clock m ≤ coarse_clock n.
Proof. unfold coarse_clock. intros H. pose proof (Z.div_le_mono (Z.of_nat m) (Z.of_nat n) 40). lia. Qed.

Definition coarse_start : Client * World (list DelayedEntry) :=
  match client_program coarse_clock demo_children 3 demo_ops demo_world with
  | Ok cs => cs
  | Fault _ => (MkClient (MkWorkerManager [] 0 0) [] [], demo_world)
  end.

Lemma coarse_start_run :
  client_program coarse_clock demo_children 3 demo_ops demo_world = Ok (coarse_start.1, coarse_start.2).
Proof. vm_compute. reflexivity. Qed.

Lemma coarse_fresh : 9 ∉ cl_history coarse_start.1.
Proof. decide_now. Qed.

Definition fired_ops : list timed_op := demo_timed_ops ++ replicate 9 (TTurn 0).

(** The state in which the timer has fired. *)
Definition fired : Z * (World (list DelayedEntry) * Timers) :=
  match timer_program coarse_clock true demo_children 0 50 9 100 coarse_start.1 0 fired_ops
          (coarse_start.2, no_timers) with
  | Ok r => r
  | Fault _ => (0, (demo_world, no_timers))
  end.

Lemma fired_run :
  timer_program coarse_clock true demo_children 0 50 9 100 coarse_start.1 0 fired_ops
    (coarse_start.2, no_timers) = Ok (fired.1, (fired.2.1, fired.2.2)).
Proof. vm_compute. reflexivity. Qed.

Lemma coarse_timed_ok ops :
  Forall (op_ok 9 1000000 demo_home demo_late 3 demo_client) ops →
  Forall (op_ok 9 1000000 demo_home demo_late 3 coarse_start.1) ops.
Proof.
  assert (E : length (cl_runners coarse_start.1) = length (cl_runners demo_client))
    by (vm_compute; reflexivity).
  intros Hops. eapply Forall_impl; [exact Hops|].
  intros [post|i| | |]; cbn [op_ok]; [rewrite E|..]; intros Ho; exact Ho.
Qed.

Lemma restart_lost_witness :
  ∃ w1 T1 D' w' T' D2 w2 T2,
    OneShotTimer_Start coarse_clock 0 (Some (user_task 50 9)) 100
      (fired.2.1, fired.2.2) = Ok (tt, (w1, T1)) ∧
    timed coarse_clock true demo_children 0 coarse_start.1 (replicate 60 (TTurn 0)) fired.1 (w1, T1) =
      Ok (D', (w', T')) ∧
    fires 9 w' = 1%nat ∧ tasks_of 0 w' = 0%nat ∧
    timed coarse_clock true demo_children 0 coarse_start.1 [TReset] D' (w', T') = Ok (D2, (w2, T2)) ∧
    tasks_of 0 w2 = 1%nat.
Proof.
  destruct (restart_lost coarse_clock true demo_children 0 50 9 100 coarse_clock_range coarse_clock_mono
    2 1000000 ltac:(unfold coarse_clock; lia) ltac:(unfold i64_max; lia) demo_home demo_late 2
    demo_children_ok ltac:(unfold i64_max; lia) demo_own_task 3 demo_ops demo_world coarse_start.2
    coarse_start.1 0 ltac:(lia) ltac:(by split) demo_ops_ok coarse_start_run coarse_fresh
    ltac:(vm_compute; lia) ltac:(vm_compute; reflexivity) fired_ops (replicate 60 (TTurn 0)) no_timers
    fired.1 fired.2.1 fired.2.2
    (default (BaseTimer_init OneShotTimer None) (tms_heap fired.2.2 !! 0%nat))
    ltac:(apply coarse_timed_ok; unfold fired_ops; demo_ok) ltac:(apply coarse_timed_ok; demo_ok)
    fired_run ltac:(vm_compute; reflexivity) ltac:(vm_compute; reflexivity)
    ltac:(vm_compute; by intros [=]))
    as (w1 & T1 & D' & w' & T' & E1 & _ & E2 & Hf & Hn & Hlate).
  assert (Ec : (λ r, coarse_clock (wd_ticks r.2.1)) <$>
    (do! _ := OneShotTimer_Start coarse_clock 0 (Some (user_task 50 9)) 100 in
     timed coarse_clock true demo_children 0 coarse_start.1 (replicate 60 (TTurn 0)) fired.1)
      (fired.2.1, fired.2.2) = Ok 600) by (vm_compute; reflexivity).
  rewrite (st_bind_step _ _ _ _ _ E1), E2 in Ec. injection Ec as Ec. cbn [fst snd] in Ec.
  destruct (Hlate (default 0%nat (cl_runners coarse_start.1 !! 0%nat))) as (D2 & w2 & T2 & E3 & Hn2).
  { vm_compute. reflexivity. }
  { decide_now. }
  { rewrite Ec. vm_compute. reflexivity. }
  exists w1, T1, D', w', T', D2, w2, T2. split; [exact E1|]. split; [exact E2|].
  split; [rewrite Hf; vm_compute; reflexivity|]. split; [exact Hn|]. split; [exact E3|exact Hn2].
Defined.

(** The task that such a reset posts is run: the timer fires a second time. *)
Example late_Reset_revives :
  (λ r, fires 9 r.2.1) <$>
    (do! _ := OneShotTimer_Start coarse_clock 0 (Some (user_task 50 9)) 100 in
     timed coarse_clock true demo_children 0 coarse_start.1
       (replicate 60 (TTurn 0) ++ TReset :: replicate 60 (TTurn 0)) fired.1)
      (fired.2.1, fired.2.2) = Ok 2%nat.
Proof. vm_compute. reflexivity. Qed.
End Sample.
