(* ===== verification/IdleLoop.v ===== *)
(** * IdleLoop: a client with an idle timer

    On top of TimerLoop.v: the client of EndToEnd.v starts an [IdleTimer] with
    a timeout ([src/footstone/idle_timer.cc]) on one of its runners.  The idle
    task that [Start] posts is dropped by a worker that is not terminated
    (WorkerLoop.v), so the body runs at the timeout, and like a one-shot timer's
    task exactly once. *)

From S2P Require Import Prelude Time PriorityQueue Store TaskRunner Worker WorkerLoop ThreadWorker Turns WorkerManager Timer EndToEnd TimerLoop.

Section Idle.
Context {Q : Type} `{PriorityQueueLaws DelayedEntry Q deadline}.
#[local] Existing Instance thread_backend.
Variable clock : nat → Z.
Variable debug : bool.
Variable children : Z → list Post.
Implicit Types (w : World Q) (T : Timers) (c : Client).

(** The timer, the function of the client that is its body, and its timeout. *)
Variable x : nat.
Variable n0 : Z.
Variable delay : Z.

(** [std::make_shared<IdleTimer>(runner)], [std::make_unique<IdleTask>(body)],
    then [Start(task, timeout)]. *)
Definition idle_timed_start c (k : nat) : TM Q Z :=
  do! q := st_lift (vec_at (cl_runners c) (Z.of_nat k)) in
  do! _ := st_modify (λ s,
    (s.1, set_tms_heap (<[x := BaseTimer_init IdleTimer (Some q)]> (tms_heap s.2)) s.2)) in
  do! idle_task := IdleTask_new (Some (IdleUser n0)) in
  do! s := st_get in
  do! _ := IdleTimer_Start_timeout clock debug x idle_task delay in
  st_ret (clock (wd_ticks s.1) + delay).

Definition idle_timer_program c (k : nat) (ops : list timed_op) : TM Q Z :=
  do! D := idle_timed_start c k in timed clock debug children x c ops D.

(** What the timer holds once it is started: the body, in the idle task that
    was allocated in [slot]. *)
Definition idle_held (slot : nat) : holding := (None, Some (slot, Some (IdleUser n0))).

(** What is asked of the client: as in TimerLoop.v. *)
Hypothesis clock_range : ∀ n, 0 ≤ clock n ≤ i64_max.
Hypothesis clock_mono : ∀ m n, (m ≤ n)%nat → clock m ≤ clock n.
Variables P C : Z.
Hypothesis clock_bound : ∀ n, clock n ≤ C.
Hypothesis weights : 0 ≤ P ∧ C ≤ i64_max ∧ P * C ≤ i64_max.
Variable home : Z → nat.
Variable late : Z → bool.
Variable K : nat.
Hypothesis children_ok : ∀ n, Forall (post_ok C home late K) (children n).
Hypothesis delay_range : 0 < delay ∧ C + delay ≤ i64_max.
Hypothesis own_task : ∀ n, n0 ∉ posts_of children n.

Notation world_ok := (world_ok clock x n0 P home K).
Notation op_ok := (op_ok n0 C home late).
Notation timed := (timed clock debug children x).
Notation fires := (fires n0).
Notation tasks_of := (tasks_of x).

(** The timeout runs the body, then stops the timer. *)
Lemma once_idle slot : once (Q := Q) clock debug children x n0 IdleTimer (idle_held slot).
Proof.
  intros c t T Ht Hk Hh. pose proof (f_equal snd Hh) as Hi. cbn in Hi.
  destruct (Stop_run (Q := Q) x T t Ht) as (T' & t' & Es & Ht' & Hk' & Hr' & Hs' & _).
  exists 0, T, T', t'. split; [done|]. split; [congruence|]. split; [done|]. split; [done|].
  intros w w' E. unfold RunUserTask. trun. rewrite Hk. unfold IdleTimer_RunUserTask. trun. rewrite Hi.
  cbn [run_idle_unit idle_code idle_body]. erewrite st_bind_step by exact E. apply Es.
Qed.

(** Posting an idle task leaves the tasks as they are. *)
Lemma PostIdleTask_world_ok size c w q task :
  world_ok size c w → q ∈ cl_runners c →
  ∃ w', PostIdleTask q task w = Ok (tt, w') ∧ world_ok size c w' ∧ tasks_of w' = tasks_of w ∧
    fires w' = fires w ∧ wd_ticks w' = wd_ticks w.
Proof.
  intros Hwo Hin. pose proof (wo_pool _ _ _ _ _ _ _ _ _ Hwo) as Hpool.
  destruct (ready_postable _ _ q (pl_ready _ _ _ _ _ Hpool) Hin) as (r & p & Hq & Hp & wk & Hw).
  set (r' := set_tr_idle_task_queue_ (tr_idle_task_queue_ r ++ [task]) r).
  set (w1 := set_wd_runners (<[q:=r']> (wd_runners w)) w).
  destruct (NotifyWorker_run q r' w1) as (wp & wk' & En).
  { split; [apply lookup_insert_eq|]. by exists p, wk. }
  set (w2 := set_wd_events (wd_events w1 ++ backend_Notify wp wk') w1) in *.
  assert (Hheap : heap_tasks w ≡ₚ heap_tasks w2).
  { apply (bag_put_runner runner_tasks w q r r' [] Hq). done. }
  assert (Hud : undisturbed P w w2).
  { split; try done; cbn.
    - intros q'. destruct (decide (q' = q)) as [->|]; [|by rewrite lookup_insert_ne].
      by rewrite lookup_insert_eq, Hq.
    - intros U Hr. apply map_Forall_insert_2; [|done]. pose proof (Hr q r Hq) as Hro. cbn in Hro.
      destruct Hro. by split.
    - intros Hr. apply map_Forall_insert_2; [|done]. exact (Hr q r Hq). }
  exists w2. split; [|split; [|split; [|split]]].
  - unfold PostIdleTask. mrun. exact En.
  - apply (world_ok_next clock x n0 P home K size c w w2 [] [] Hwo);
      [|by rewrite app_nil_r|done|by intros ?%not_elem_of_nil].
    apply (pool_history clock P size c w2 (cl_history c)). by eapply undisturbed_pool.
  - unfold TimerLoop.tasks_of. by rewrite Hheap.
  - rewrite (fires_app n0 w w2 (backend_Notify wp wk')) by done. cbn. lia.
  - done.
Qed.

Lemma idle_start_pending size c k w T :
  world_ok size c w → tasks_of w = 0%nat → fires w = 0%nat → (k < length (cl_runners c))%nat →
  0 < clock (wd_ticks w) →
  ∃ w' T' t', idle_timed_start c k (w, T) = Ok (clock (wd_ticks w) + delay, (w', T')) ∧
    world_ok size c w' ∧
    pending clock x n0 delay IdleTimer (idle_held (tms_next_slot T)) 0 c (clock (wd_ticks w) + delay) w' T' t'.
Proof.
  intros Hwo Hnone Hf Hk Hpos. destruct (lookup_lt_is_Some_2 (cl_runners c) k Hk) as [q Hq].
  pose proof (list_elem_of_lookup_2 _ _ _ Hq) as Hin.
  destruct (ready_postable _ _ q (pl_ready _ _ _ _ _ (wo_pool _ _ _ _ _ _ _ _ _ Hwo)) Hin)
    as (r & p & Hr & _).
  set (t := set_tm_idle_task_ (Some (tms_next_slot T, Some (IdleUser n0))) (BaseTimer_init IdleTimer (Some q))).
  set (id := tms_g_next_idle_task_id T).
  set (h := <[x := t]> (<[x := BaseTimer_init IdleTimer (Some q)]> (tms_heap T))).
  set (T1 := MkTimers h (S (tms_next_slot T)) (wrap_u 32 (wrap_u 32 (wrap_u 32 (id + 1) + 1) + 1))).
  destruct (PostIdleTask_world_ok size c w q
    (Some (MkIdleTask (wrap_u 32 (wrap_u 32 (id + 1) + 1)) (Some (IdleWeak (tms_next_slot T))))) Hwo Hin)
    as (w1 & Ep & Hwo1 & Hn1 & Hf1 & Ht1).
  destruct (StartInternal_pending clock x n0 delay clock_range clock_mono P C clock_bound weights home
    late K delay_range IdleTimer (idle_held (tms_next_slot T)) size c w1 T1 t q)
    as (w' & T' & t' & E & Hwo' & Hpd); try done; try congruence.
  { apply lookup_insert_eq. } { by rewrite Ht1. }
  exists w', T', t'. rewrite Ht1 in Hpd. split; [|done]. unfold idle_timed_start.
  rewrite (tbind_lift _ q) by (apply vec_at_Ok; split; [lia|by rewrite Nat2Z.id]).
  rewrite (st_bind_step (st_modify _) _ (w, T) tt _ eq_refl).
  erewrite st_bind_step by reflexivity. erewrite st_bind_step by reflexivity.
  cbn [fst snd]. erewrite st_bind_step; [reflexivity|].
  assert (Hdc : ∀ (kk : unit → TM Q unit) u,
    st_bind (timer_dcheck debug true) kk u = kk tt u) by (intros; by destruct debug).
  unfold IdleTimer_Start_timeout, TimeDelta_gt, TimeDelta_Zero.
  rewrite (proj2 (Z.ltb_lt 0 delay)), Hdc by lia.
  erewrite st_bind_step by (eapply idle_start_run; [apply lookup_insert_eq|reflexivity|exact Hr]).
  cbv beta iota. erewrite st_bind_step by reflexivity. cbn [fst snd].
  erewrite bind_tlift by exact Ep. cbn [snd]. exact E.
Qed.

(** ** Programs *)

Section Program.
Variables (size : Z) (ops0 : list op) (s0 w0 : World Q) (c : Client) (k : nat).
Hypothesis Hsize : 2 ≤ size.
Hypothesis Hblank : blank s0.
Hypothesis Hops0 : ops_ok P C home late K size 0 (ops0 ++ [Turn 0]).
Hypothesis Hclient : client_program clock children size ops0 s0 = Ok (c, w0).
Hypothesis Hfresh : n0 ∉ cl_history c.
Hypothesis Hk : (k < length (cl_runners c))%nat.
Hypothesis Hnow : 0 < clock (wd_ticks w0).

Lemma idle_started T0 :
  ∃ w1 T1, idle_timed_start c k (w0, T0) = Ok (clock (wd_ticks w0) + delay, (w1, T1)) ∧
    world_ok size c w1 ∧
    ∃ t, pending clock x n0 delay IdleTimer (idle_held (tms_next_slot T0)) 0 c
           (clock (wd_ticks w0) + delay) w1 T1 t.
Proof.
  destruct (client_world clock children x n0 clock_range clock_mono P C clock_bound weights
    home late K children_ok own_task size ops0 s0 c w0 Hsize Hblank Hops0 Hclient Hfresh)
    as (Hwo & Hnone & Hf).
  destruct (idle_start_pending size c k w0 T0 Hwo Hnone Hf Hk Hnow) as (w1 & T1 & t & E & Hwo1 & Hpd).
  eauto 7.
Qed.

(** The body of an idle timer runs at most once and never before its timeout.
    The client, after any program of its own, starts the timer on one of its
    runners; whatever it then does — post tasks, let any worker take turns,
    reset the timer before it is due, stop it, in any order — nothing faults,
    and if the body ran the clock had been read at the timeout promised by the
    start and the resets, or later.  That the runner was given the body as an
    idle task makes no difference: a worker that is not terminated drops it. *)
Theorem idle_timer_fires_in_time ops T0 (Hops : Forall (op_ok size c) ops) :
  ∃ D w T, idle_timer_program c k ops (w0, T0) = Ok (D, (w, T)) ∧
    clock (wd_ticks w0) + delay ≤ D ∧ (fires w ≤ 1)%nat ∧ (fires w = 1%nat → passed clock D w).
Proof.
  destruct (idle_started T0) as (w1 & T1 & E1 & Hwo1 & Hpd).
  destruct (single_fires_in_time clock debug children x n0 delay clock_range clock_mono P C clock_bound
    weights home late K children_ok delay_range own_task IdleTimer _ (once_idle _) size c _ ops w1 T1
    Hwo1 Hops Hpd) as (D & w & T & E & Hrest).
  exists D, w, T. split; [|done]. unfold idle_timer_program. by erewrite st_bind_step by exact E1.
Qed.

(** A bound on the tasks that a task leads to, itself included. *)
Variable cost : Z → nat.
Hypothesis cost_ok : ∀ n, (S (total_cost cost (posts_of children n)) ≤ cost n)%nat.

(** C17. An idle timer that is not stopped times out.  The client, after any
    program of its own, starts an [IdleTimer] with a timeout on one of its
    runners and then posts tasks, lets workers take turns and resets the timer
    before it is due, in any order.  Once the clock has reached the time the
    timer is then set to, the first worker needs at most one turn per task that
    is queued or will be posted by queued tasks, and one more, for the body to
    have run, exactly once. *)
Theorem idle_timer_fires ops T0 (Hops : Forall (op_ok size c) ops) (Hstop : TStop ∉ ops) :
  ∃ D w T t, idle_timer_program c k ops (w0, T0) = Ok (D, (w, T)) ∧ tms_heap T !! x = Some t ∧
    (tm_desired_run_time_ t ≤ clock (wd_ticks w) →
     ∃ j w' T', (j ≤ total_cost cost (task_ids (heap_tasks w)))%nat ∧
       timed c (replicate (S j) (TTurn 0)) D (w, T) = Ok (D, (w', T')) ∧ fires w' = 1%nat).
Proof.
  destruct (idle_started T0) as (w1 & T1 & E1 & Hwo1 & Hpd).
  destruct (single_fires clock debug children x n0 delay clock_range clock_mono P C clock_bound
    weights home late K children_ok delay_range own_task IdleTimer _ (once_idle _) cost cost_ok size c _
    ops w1 T1 ltac:(lia) Hwo1 Hops Hpd Hstop) as (D & w & T & t & E & Hrest).
  exists D, w, T, t. split; [|done]. unfold idle_timer_program. by erewrite st_bind_step by exact E1.
Qed.
End Program.
End Idle.

(** ** A client with an idle timer

    The client of TimerLoop.v's examples, its timer an idle one: the same
    times, and the idle task that [Start] posts is dropped. *)

Section Sample.
#[local] Existing Instance thread_backend.
#[local] Notation demo_idle ops :=
  (idle_timer_program demo_clock true demo_children 0 9 35 demo_client 0 ops).

Lemma idle_timer_fires_in_time_witness :
  ∃ w T, demo_idle (demo_timed_ops ++ replicate 4 (TTurn 0)) (demo_after, no_timers) = Ok (185, (w, T)) ∧
    ran_ids (wd_events w) = [1; 2; 4; 3; 6; 5; 9] ∧ passed demo_clock 185 w.
Proof.
  destruct (idle_timer_fires_in_time demo_clock true demo_children 0 9 35 demo_clock_range
    ltac:(unfold demo_clock; lia) 2 1000000 ltac:(unfold demo_clock; lia)
    ltac:(unfold i64_max; lia) demo_home demo_late 2 demo_children_ok ltac:(unfold i64_max; lia)
    demo_own_task 3 demo_ops demo_world demo_after demo_client 0 ltac:(lia) ltac:(by split)
    demo_ops_ok demo_start_run demo_fresh ltac:(vm_compute; lia) ltac:(vm_compute; reflexivity)
    (demo_timed_ops ++ replicate 4 (TTurn 0)) no_timers ltac:(demo_ok))
    as (D & w & T & E & _ & _ & Hp).
  assert (Eh : (λ r, (r.1, ran_ids (wd_events r.2.1))) <$>
    demo_idle (demo_timed_ops ++ replicate 4 (TTurn 0)) (demo_after, no_timers) =
    Ok (185, [1; 2; 4; 3; 6; 5; 9])) by (vm_compute; reflexivity).
  rewrite E in Eh. injection Eh as -> Er. cbn [fst snd] in Er. exists w, T. split; [exact E|].
  split; [exact Er|]. apply Hp. unfold fires. by rewrite Er.
Defined.

Lemma idle_timer_fires_witness :
  ∃ D w T t, demo_idle demo_timed_ops (demo_after, no_timers) = Ok (D, (w, T)) ∧
    tms_heap T !! 0%nat = Some t ∧ tm_desired_run_time_ t = 185 ∧ fires 9 w = 0%nat ∧
    ∃ j w' T', (j ≤ 3)%nat ∧
      timed demo_clock true demo_children 0 demo_client (replicate (S j) (TTurn 0)) D (w, T) =
        Ok (D, (w', T')) ∧ fires 9 w' = 1%nat.
Proof.
  destruct (idle_timer_fires demo_clock true demo_children 0 9 35 demo_clock_range
    ltac:(unfold demo_clock; lia) 2 1000000 ltac:(unfold demo_clock; lia)
    ltac:(unfold i64_max; lia) demo_home demo_late 2 demo_children_ok ltac:(unfold i64_max; lia)
    demo_own_task 3 demo_ops demo_world demo_after demo_client 0 ltac:(lia) ltac:(by split)
    demo_ops_ok demo_start_run demo_fresh ltac:(vm_compute; lia) ltac:(vm_compute; reflexivity)
    demo_cost demo_cost_ok demo_timed_ops no_timers ltac:(demo_ok)
    ltac:(unfold demo_timed_ops; rewrite !not_elem_of_cons; split_and!; [done..|apply not_elem_of_nil]))
    as (D & w & T & t & E & Ht & Hfire).
  assert (Eh : (λ r, (ran_ids (wd_events r.2.1), demo_clock (wd_ticks r.2.1),
      tm_desired_run_time_ <$> tms_heap r.2.2 !! 0%nat,
      total_cost demo_cost (task_ids (heap_tasks r.2.1)))) <$>
    demo_idle demo_timed_ops (demo_after, no_timers) = Ok ([1; 2; 4], 210, Some 185, 3%nat))
    by (vm_compute; reflexivity).
  rewrite E in Eh. injection Eh as Er Ec Ed Ecost. cbn [fst snd] in *. rewrite Ht in Ed.
  injection Ed as Ed. rewrite Ec, Ed, Ecost in Hfire.
  exists D, w, T, t. split; [exact E|]. split; [exact Ht|]. split; [exact Ed|].
  split; [unfold fires; by rewrite Er|]. apply Hfire. lia.
Defined.
End Sample.
